(* ===== verification/_CoqProject ===== *)
-Q . S2P
Prelude.v
Spinlock.v
Proc.v
StrideQueue.v
Sched.v
Sleep.v
Share.v
Trap.v
Bytes.v
CString.v
Kalloc.v
Vm.v
VmTable.v
VmUser.v
VmCopy.v
VmOut.v
Kernel.v
ProcAlloc.v
Thread.v
ThreadLib.v
ThreadFork.v
ThreadWait.v
ThreadExit.v
Syscall.v
Sleeplock.v
Pipe.v
Grep.v
Umalloc.v
Block.v
Log.v
Bio.v
Store.v
Fs.v
FsAlloc.v
FsFile.v
FsCost.v
FsRw.v
FsTrunc.v
FsInode.v
FsDir.v
FsPath.v
FsDisk.v
FsTxn.v
File.v
