(* ===== verification/Prelude.v ===== *)
(** * A verification of the xv6 kernel with MLFQ and stride scheduling

    The program is the xv6 teaching kernel of [src/xv6-public], changed to
    schedule with a multi-level feedback queue and a stride scheduler, to run
    several threads per process, and to have doubly indirect blocks.

    ** Parts of the program and files of the development

    - [Prelude]: machine integers, record update, the outcome and state monad
      of C code, its weakest preconditions, arrays.
    - [Spinlock] (spinlock.c): [pushcli], [popcli], [acquire], [release] of
      one CPU, and [SpinSystem], in which the CPUs interleave at the
      granularity of the atomic exchange.
    - [Proc] (proc.h and the variables of proc.c): [proc], [kstate], access
      to the table and to the two locks.
    - [StrideQueue] (proc.c): the array heap of stride processes.
    - [Sched] (proc.c, vm.c): initialisation, the selector, the scheduler
      loops as a step function, [switchuvm], the priority boost.
    - [Sleep] (proc.c): [sched], [yield], [sleep], [wakeup], [kill], and
      [SleepWakeup], in which sleeping and waking threads interleave.
    - [ProcAlloc] (proc.c): [allocproc] and the reference counters of page
      directories.
    - [Share] (proc.c): [set_cpu_share] and its variants.
    - [Trap] (trap.c): [trap], the accounting of clock ticks.
    - [Block]: bytes of a block, and [BlockCache] and [BlockLaws], what the
      buffer cache promises to the layers above.
    - [Log] (log.c): the write-ahead log over any lawful cache.

    ** How code is modelled

    A C function is a function of the monad [M S A]: it takes the state [S]
    of its component and either returns a value and a state or stops.  The
    stops are kept apart: [Panic] with its message, [Fault] (a null or wild
    pointer, an index out of range), [PowerLoss], [Switched], and [NoFuel].
    Locks are taken and released where the code does, on a model of the CPU
    with its [cli] nesting.  C integers are [Z] with the conversions of their
    width written at the stores.

    Code that switches stacks is a parameter: the scheduler takes what
    happens between its [swtch] and the return as an argument [run], and
    [sched] takes [resume]; [protocol] and [resumes] are what the two sides
    rely on.  [kalloc], [freevm] and device handlers are parameters too.

    A loop whose end is not structural carries fuel computed from the array
    it walks (65 for the heap of 64 processes); the theorems are about the
    result with that fuel, so running out is excluded by proof.  [scheduler]
    never returns: [scheduler_step] is one step of its loops and the theorems
    are about every number of steps.

    ** What the theorems show

    - Locks: mutual exclusion in every interleaving; the bracket of [acquire]
      and [release]; nesting of interrupts.
    - Scheduling: the heap invariant of the stride queue through push, search
      and delete; the exact share of the selector; absence of panics, faults
      and deadlock in the scheduler; who runs next; quanta and demotion.
    - Blocking: no lost wakeup; what [sleep], [wakeup], [kill] and [yield]
      change and which locks they hold on return.
    - Allocation of processes and accounting of shares.
    - Crash safety: a commit is atomic and recovery can be repeated, for
      every point at which the machine may stop.

    Some theorems evaluate the code on a state where it does not do what it
    means to; these are [stride_queue_delete_breaks_order],
    [stride_queue_delete_null_root], [find_idx_selects_other_process],
    [heapify_down_ignores_last_slot], [stride_dispatch_moves_scan] and
    [set_cpu_share_user_panic].

    ** Not modelled

    Assembly, boot code, interrupt controllers and device I/O; the x86
    memory model (the lock is an atomic exchange); debugging output.  Not yet
    modelled, in the order planned: the concrete buffer cache as an instance
    of [BlockLaws], block and inode allocation, file contents with doubly
    indirect blocks, directories and paths, pipes, strings, the page
    allocator and page tables, [fork], [exit], [wait] and threads, system
    call arguments, [exec], the user allocator, the shell parser, mkfs.

    This file holds the shared vocabulary. *)
From stdpp Require Export base numbers list gmap strings.
From Stdlib Require Export ZArith Lia.

(** The development's own notations live in [xv6_scope]. *)
Declare Scope xv6_scope.
Delimit Scope xv6_scope with xv6.
#[global] Open Scope xv6_scope.
#[global] Open Scope Z_scope.

(** ** Machine integers

    A C integer is a [Z]; the functions below are the conversions to the
    fixed-width types of i386 ([uint], [int], [ushort], [uchar], [char]).
    They are written where the C code stores into a narrower type or where
    an operation can leave the range of its type. *)
Definition u32 (z : Z) : Z := z mod 2 ^ 32.
Definition i32 (z : Z) : Z := (z + 2 ^ 31) mod 2 ^ 32 - 2 ^ 31.
Definition u16 (z : Z) : Z := z mod 2 ^ 16.
Definition i16 (z : Z) : Z := (z + 2 ^ 15) mod 2 ^ 16 - 2 ^ 15.
Definition u8 (z : Z) : Z := z mod 2 ^ 8.
Definition i8 (z : Z) : Z := (z + 2 ^ 7) mod 2 ^ 8 - 2 ^ 7.

Definition INT_MIN : Z := - 2 ^ 31.
Definition INT_MAX : Z := 2 ^ 31 - 1.

Lemma i32_id (z : Z) : INT_MIN ≤ z ≤ INT_MAX → i32 z = z.
Proof. unfold i32, INT_MIN, INT_MAX. intros ?. rewrite Z.mod_small; lia. Qed.

Lemma i32_range (z : Z) : INT_MIN ≤ i32 z ≤ INT_MAX.
Proof.
  unfold i32, INT_MIN, INT_MAX.
  pose proof (Z.mod_pos_bound (z + 2 ^ 31) (2 ^ 32) ltac:(lia)). lia.
Qed.

Lemma u32_id (z : Z) : 0 ≤ z < 2 ^ 32 → u32 z = z.
Proof. unfold u32. intros ?. by rewrite Z.mod_small. Qed.

Lemma u32_range (z : Z) : 0 ≤ u32 z < 2 ^ 32.
Proof. apply Z.mod_pos_bound. lia. Qed.

Lemma u32_u32 (z : Z) : u32 (u32 z) = u32 z.
Proof. unfold u32. by rewrite Z.mod_mod. Qed.

(** ** Record update

    [r <| field := v |>] and [r <| field ::= f |>] for the structs of the
    kernel.  A struct declares its eta expansion once as an [EtaRecord]
    instance; the setter of each field is computed from it. *)
Class EtaRecord (R : Type) := eta_record : R → R.
Class FieldSetter {R E : Type} (get : R → E) := update_field : (E → E) → R → R.
Arguments update_field {R E} get {_} f r.

Ltac derive_setter :=
  lazymatch goal with
  | |- @FieldSetter ?R ?E ?g =>
      let e := constr:(_ : EtaRecord R) in
      let e := eval red in e in
      lazymatch eval pattern g in e with
      | ?F _ =>
          let u := eval cbv beta in (fun h : E → E => F (fun r => h (g r))) in
          exact u
      end
  end.

#[export] Hint Extern 1 (FieldSetter _) => derive_setter : typeclass_instances.

Notation "r <| f := v |>" := (update_field f (fun _ => v) r)
  (at level 1, f at next level, left associativity,
   format "r  <| f  :=  v |>") : xv6_scope.
Notation "r <| f ::= g |>" := (update_field f g r)
  (at level 1, f at next level, left associativity,
   format "r  <| f  ::=  g |>") : xv6_scope.

(** ** Effects

    A kernel routine is a function from the state it runs in to an outcome.
    [Ok] is a normal return.  [Stop] is every way control does not come back
    to the caller: [panic()], a dereference of a null or wild pointer, the
    switch away from a kernel thread that is not resumed, the loss of power
    between two disk writes, a spin on a lock that nobody releases, or a
    loop that exceeded the bound its model was given. *)
Inductive stop :=
  | Panic (msg : string)
  | Fault
  | Switched
  | PowerLoss
  | Spinning
  | NoFuel.

#[export] Instance stop_eq_dec : EqDecision stop.
Proof. solve_decision. Defined.

Inductive outcome (S A : Type) :=
  | Ok (a : A) (s : S)
  | Stop (w : stop) (s : S).
Arguments Ok {S A} a s.
Arguments Stop {S A} w s.

Definition M (S A : Type) : Type := S → outcome S A.

#[export] Instance M_ret S : MRet (M S) := fun A a s => Ok a s.
#[export] Instance M_bind S : MBind (M S) := fun A B f m s =>
  match m s with
  | Ok a s' => f a s'
  | Stop w s' => Stop w s'
  end.

Definition stop_with {S A} (w : stop) : M S A := fun s => Stop w s.
Definition panic {S A} (msg : string) : M S A := stop_with (Panic msg).
Definition fault {S A} : M S A := stop_with Fault.
Definition gets {S A} (f : S → A) : M S A := fun s => Ok (f s) s.
Definition modify {S} (f : S → S) : M S unit := fun s => Ok tt (f s).

(** Dereference: a null pointer faults. *)
Definition deref {S A} (o : option A) : M S A :=
  match o with Some a => mret a | None => fault end.

Definition when {S} (b : bool) (m : M S unit) : M S unit :=
  if b then m else mret tt.

(** Run an operation of a component inside a larger state. *)
Definition zoom {S T A} (get : S → T) (put : T → S → S) (m : M T A) : M S A := fun s =>
  match m (get s) with
  | Ok a t => Ok a (put t s)
  | Stop w t => Stop w (put t s)
  end.

(** [for_list l body] runs [body] on the elements of [l] in order; [body]
    returns [Some r] for a [return r] (or a [break] carrying [r]) and [None]
    to go on.  It models the bounded [for] loops. *)
Fixpoint for_list {S I R} (l : list I) (body : I → M S (option R)) : M S (option R) :=
  match l with
  | [] => mret None
  | i :: l' =>
      r ← body i;
      match r with
      | Some v => mret (Some v)
      | None => for_list l' body
      end
  end.

(** A [for] loop with neither [break] nor [return]. *)
Fixpoint for_each {S I} (l : list I) (body : I → M S unit) : M S unit :=
  match l with
  | [] => mret tt
  | i :: l' => body i ;; for_each l' body
  end.

(** ** Reasoning about outcomes

    [wp m Q E s]: started in [s], [m] either returns normally in a state
    that satisfies [Q], or stops in a way and a state that satisfy [E].
    With [E] the false predicate this is total correctness. *)
Definition wp {S A} (m : M S A) (Q : A → S → Prop) (E : stop → S → Prop) (s : S) : Prop :=
  match m s with Ok a s' => Q a s' | Stop w s' => E w s' end.

Definition never {S} : stop → S → Prop := fun _ _ => False.

(** The total-correctness form. *)
Abbreviation wpt m Q s := (wp m Q never s).

Lemma bind_ok {S A B} (m : M S A) (f : A → M S B) (s s' : S) (a : A) :
  m s = Ok a s' → (m ≫= f) s = f a s'.
Proof. unfold mbind, M_bind. by intros ->. Qed.

Lemma bind_stop {S A B} (m : M S A) (f : A → M S B) (s s' : S) (w : stop) :
  m s = Stop w s' → (m ≫= f) s = Stop w s'.
Proof. unfold mbind, M_bind. by intros ->. Qed.

Section wp_rules.
Context {S : Type}.
Implicit Types (s : S) (E : stop → S → Prop).

Lemma wp_ret {A} (a : A) Q E s : Q a s → wp (mret a) Q E s.
Proof. done. Qed.

Lemma wp_bind {A B} (m : M S A) (f : A → M S B) Q E s :
  wp m (fun a s' => wp (f a) Q E s') E s → wp (m ≫= f) Q E s.
Proof. unfold wp, mbind, M_bind. by destruct (m s). Qed.

Lemma wp_bind_inv {A B} (m : M S A) (f : A → M S B) Q E s :
  wp (m ≫= f) Q E s → wp m (fun a s' => wp (f a) Q E s') E s.
Proof. unfold wp, mbind, M_bind. by destruct (m s). Qed.

Lemma wp_gets {A} (f : S → A) Q E s : Q (f s) s → wp (gets f) Q E s.
Proof. done. Qed.

Lemma wp_modify (f : S → S) Q E s : Q tt (f s) → wp (modify f) Q E s.
Proof. done. Qed.

Lemma wp_panic {A} msg (Q : A → S → Prop) E s : E (Panic msg) s → wp (panic msg) Q E s.
Proof. done. Qed.

Lemma wp_deref {A} (o : option A) (a : A) Q E s :
  o = Some a → Q a s → wp (deref o) Q E s.
Proof. by intros ->. Qed.

Lemma wp_when (b : bool) (m : M S unit) Q E s :
  (b = true → wp m Q E s) → (b = false → Q tt s) → wp (when b m) Q E s.
Proof. destruct b; unfold when; intros; [auto | apply wp_ret; auto]. Qed.

Lemma wp_mono {A} (m : M S A) (Q Q' : A → S → Prop) (E E' : stop → S → Prop) s :
  wp m Q E s →
  (∀ a s', Q a s' → Q' a s') → (∀ w s', E w s' → E' w s') →
  wp m Q' E' s.
Proof. unfold wp. destruct (m s); eauto. Qed.

Lemma wp_weaken {A} (m : M S A) (Q Q' : A → S → Prop) E s :
  wp m Q E s → (∀ a s', Q a s' → Q' a s') → wp m Q' E s.
Proof. intros ??. eapply wp_mono; eauto. Qed.

Lemma wp_zoom {T A} (get : S → T) (put : T → S → S) (m : M T A) Q E s :
  wp m (fun a t => Q a (put t s)) (fun w t => E w (put t s)) (get s) →
  wp (zoom get put m) Q E s.
Proof. unfold wp, zoom. by destruct (m (get s)). Qed.

(** A total-correctness triple gives the outcome. *)
Lemma wpt_ok {A} (m : M S A) (Q : A → S → Prop) s :
  wpt m Q s ↔ ∃ a s', m s = Ok a s' ∧ Q a s'.
Proof.
  unfold wp, never. destruct (m s) as [a s'|w s']; split; try naive_solver.
Qed.

Lemma wp_ok {A} (m : M S A) (Q : A → S → Prop) E s a s' :
  m s = Ok a s' → wp m Q E s → Q a s'.
Proof. unfold wp. by intros ->. Qed.

Lemma wp_inv {A} (m : M S A) (Q : A → S → Prop) E s :
  wp m Q E s → (∃ a s', m s = Ok a s' ∧ Q a s') ∨ (∃ w s', m s = Stop w s' ∧ E w s').
Proof. unfold wp. destruct (m s) as [a s'|w s']; eauto. Qed.

(** Run a known computation. *)
Lemma wp_eq {A} (m : M S A) (Q : A → S → Prop) E s a s' :
  m s = Ok a s' → Q a s' → wp m Q E s.
Proof. unfold wp. by intros ->. Qed.

Lemma wpt_eq {A} (m : M S A) s a s' :
  wpt m (fun b t => b = a ∧ t = s') s → m s = Ok a s'.
Proof. intros (b & t & -> & -> & ->)%wpt_ok. done. Qed.

Lemma for_each_wp {I} (Inv : list I → S → Prop) (l : list I) (body : I → M S unit) E s :
  Inv l s →
  (∀ i l' s', Inv (i :: l') s' → wp (body i) (fun _ s'' => Inv l' s'') E s') →
  wp (for_each l body) (fun _ s' => Inv [] s') E s.
Proof.
  intros H0 Hstep. revert s H0. induction l as [|i l IH]; intros s H0; simpl.
  - by apply wp_ret.
  - apply wp_bind. eapply wp_weaken; [by apply Hstep|]. simpl. intros [] s' ?. by apply IH.
Qed.
End wp_rules.

(** The [for] loop rule: either the body ran on every element, or it stopped
    at one of them with a result. *)
Lemma for_list_wp {S I R} (Inv : list I → S → Prop) (Q : option R → S → Prop)
    (l : list I) (body : I → M S (option R)) E (s : S) :
  Inv l s →
  (∀ s', Inv [] s' → Q None s') →
  (∀ i l' s', Inv (i :: l') s' →
     wp (body i) (fun r s'' => match r with
                               | Some v => Q (Some v) s''
                               | None => Inv l' s''
                               end) E s') →
  wp (for_list l body) Q E s.
Proof.
  intros H0 Hend Hstep. revert s H0. induction l as [|i l IH]; intros s H0; simpl.
  - apply wp_ret. auto.
  - apply wp_bind. eapply wp_weaken; [by apply Hstep|].
    intros [v|] s' Hv; simpl in *; [by apply wp_ret | by apply IH].
Qed.

(** A loop that only looks: [first_some f l] is the first result of [f]. *)
Fixpoint first_some {I R} (f : I → option R) (l : list I) : option R :=
  match l with
  | [] => None
  | i :: l' => match f i with Some v => Some v | None => first_some f l' end
  end.

Lemma for_list_pure {S I R} (f : I → option R) (l : list I) (body : I → M S (option R)) (s : S) :
  (∀ i, i ∈ l → body i s = Ok (f i) s) → for_list l body s = Ok (first_some f l) s.
Proof.
  induction l as [|i l IH]; intros Hb; [done|]. simpl. unfold mbind, M_bind.
  rewrite Hb by apply list_elem_of_here. destruct (f i); [done|].
  apply IH. intros j Hj. apply Hb. by apply list_elem_of_further.
Qed.

(** A loop that passes over [l1] without effect before it reaches [i]. *)
Lemma wp_for_list_first {S I R} (l1 l2 : list I) (i : I) (body : I → M S (option R)) Q E (s : S) :
  (∀ j, j ∈ l1 → body j s = Ok None s) →
  wp (body i) (fun r s' => match r with
                           | Some v => Q (Some v) s'
                           | None => wp (for_list l2 body) Q E s'
                           end) E s →
  wp (for_list (l1 ++ i :: l2) body) Q E s.
Proof.
  intros Hb Hi. induction l1 as [|j l1 IH]; cbn.
  - apply wp_bind. eapply wp_weaken; [exact Hi|]. by intros [v|] s'.
  - apply wp_bind. eapply wp_eq; [apply Hb, list_elem_of_here|].
    apply IH. intros m Hm. apply Hb. by apply list_elem_of_further.
Qed.

Lemma first_some_Some {I R} (f : I → option R) (l : list I) (v : R) :
  first_some f l = Some v → ∃ i, i ∈ l ∧ f i = Some v.
Proof.
  induction l as [|i l IH]; [done|]. simpl. destruct (f i) as [w|] eqn:E; intros H.
  - exists i. split; [apply list_elem_of_here | congruence].
  - destruct (IH H) as (j & ? & ?). exists j. split; [by apply list_elem_of_further | done].
Qed.

Lemma first_some_None {I R} (f : I → option R) (l : list I) :
  first_some f l = None ↔ ∀ i, i ∈ l → f i = None.
Proof.
  induction l as [|i l IH]; simpl.
  - split; [|done]. intros _ j Hj. by apply elem_of_nil in Hj.
  - destruct (f i) as [w|] eqn:E.
    + split; [done|]. intros H. rewrite H in E by apply list_elem_of_here. done.
    + rewrite IH. split; intros H j.
      * intros [->|?]%elem_of_cons; auto.
      * intros ?. apply H. by apply list_elem_of_further.
Qed.

Lemma seqZ_snoc (m n : Z) : 0 ≤ n → seqZ m (n + 1) = seqZ m n ++ [m + n].
Proof. intros Hn. by rewrite seqZ_app by lia. Qed.

(** A counting loop keeps an invariant of its counter. *)
Lemma for_seqZ_wp {S} (Inv : Z → S → Prop) (n : Z) (body : Z → M S unit) E (s : S) :
  0 ≤ n → Inv 0 s →
  (∀ j s', 0 ≤ j < n → Inv j s' → wp (body j) (fun _ s'' => Inv (j + 1) s'') E s') →
  wp (for_each (seqZ 0 n) body) (fun _ s' => Inv n s') E s.
Proof.
  intros Hn H0 Hstep.
  eapply wp_weaken; [apply (for_each_wp (fun l s' => ∃ j, l = seqZ j (n - j) ∧ 0 ≤ j ≤ n ∧ Inv j s'))|].
  - exists 0. split; [f_equal; lia|]. split; [lia | done].
  - intros i l s' (j & Hl & Hj & HI). destruct (decide (j = n)) as [->|]; [by rewrite Z.sub_diag in Hl|].
    rewrite seqZ_cons in Hl by lia. injection Hl as -> ->.
    eapply wp_weaken; [apply Hstep; [lia | done]|]. intros [] s'' HI'. exists (j + 1).
    split; [f_equal; lia|]. split; [lia | done].
  - intros [] s' (j & Hl & Hj & HI). destruct (decide (j = n)) as [->|]; [done|].
    by rewrite seqZ_cons in Hl by lia.
Qed.

(** Rule induction on reachability: a property kept by every step is an
    invariant. *)
Lemma rtc_invariant {A} (R : relation A) (P : A → Prop) :
  (∀ x y, P x → R x y → P y) → ∀ a b, rtc R a b → P a → P b.
Proof. intros Hstep a b Hr. induction Hr; eauto. Qed.

Create HintDb xv6.

(** [wp_step] runs one monadic operation of the goal. *)
Ltac wp_step :=
  cbv beta;
  lazymatch goal with
  | |- wp (mbind _ _) _ _ _ => apply wp_bind
  | |- wp (mret _) _ _ _ => apply wp_ret
  | |- wp (gets _) _ _ _ => apply wp_gets
  | |- wp (modify _) _ _ _ => apply wp_modify
  | |- wp (panic _) _ _ _ => apply wp_panic
  | |- wp (deref (Some _)) _ _ _ => eapply wp_deref; [reflexivity|]
  | |- wp (when true _) _ _ _ => unfold when
  | |- wp (when false _) _ _ _ => unfold when; apply wp_ret
  | |- wp (if ?b then _ else _) _ _ _ => let H := fresh "Hb" in destruct b eqn:H
  end; cbv beta.

Ltac wp_run := repeat wp_step.

(** The same where the previous step decided a [match]. *)
Ltac wp_next := cbv beta iota; wp_step; cbv beta iota.

(** [lia] with the defining equations of [/] and [mod]. *)
Ltac dlia := Z.to_euclidean_division_equations; lia.

Lemma geb_true (a b : Z) : b ≤ a → (a >=? b) = true.
Proof. intros. apply Z.geb_le. lia. Qed.
Lemma geb_false (a b : Z) : a < b → (a >=? b) = false.
Proof. intros. rewrite Z.geb_leb. apply Z.leb_gt. lia. Qed.

(** [m_unfold] exposes the outcome an operation computes. *)
Ltac m_unfold :=
  cbv beta iota delta [mbind M_bind mret M_ret gets modify when panic fault stop_with deref zoom].

(** ** Lists as C arrays *)
Section arrays.
Context {A : Type}.
Implicit Types (l : list A) (x y : A).

(** [array_get]/[array_set] at a C index: [None] outside the array. *)
Definition array_get (l : list A) (i : Z) : option A :=
  if 0 <=? i then l !! Z.to_nat i else None.

Definition array_set (l : list A) (i : Z) (x : A) : option (list A) :=
  if (0 <=? i) && (i <? Z.of_nat (length l)) then Some (<[Z.to_nat i := x]> l) else None.

Lemma array_get_Some l i x :
  array_get l i = Some x ↔ 0 ≤ i ∧ l !! Z.to_nat i = Some x.
Proof. unfold array_get. destruct (Z.leb_spec 0 i); naive_solver lia. Qed.

Lemma array_get_bound l i x : array_get l i = Some x → 0 ≤ i < Z.of_nat (length l).
Proof. rewrite array_get_Some. intros [? H%lookup_lt_Some]. lia. Qed.

Lemma array_get_in l i : 0 ≤ i < Z.of_nat (length l) → is_Some (array_get l i).
Proof.
  intros [??]. unfold array_get. destruct (Z.leb_spec 0 i); [|lia].
  apply lookup_lt_is_Some. lia.
Qed.

Lemma array_set_in l i x :
  0 ≤ i < Z.of_nat (length l) → array_set l i x = Some (<[Z.to_nat i := x]> l).
Proof.
  intros [??]. unfold array_set.
  destruct (Z.leb_spec 0 i), (Z.ltb_spec i (Z.of_nat (length l))); auto; lia.
Qed.
End arrays.
