(* ===== verification/Spinlock.v ===== *)
(** * Spin locks and the interrupt-disable nesting (spinlock.c)

    [cpu] and [spinlock] are the fields of [struct cpu] and [struct spinlock]
    that spinlock.c reads and writes; the call-stack snapshot [pcs] is a
    debugging aid that no code reads back and is left out.

    Part one is the sequential behaviour on one CPU: [pushcli]/[popcli],
    [holding], [acquire], [release], each as a state transformer that panics
    where the code panics.  Part two is the lock under true concurrency: the
    atomic instructions of [acquire] and [release] as the transitions of a
    system of CPUs, with mutual exclusion as its invariant. *)
From S2P Require Import Prelude.

(** ** Per-CPU state *)
Record cpu := mkcpu {
  cpu_id : nat;         (* index in cpus[]; the address of struct cpu *)
  ncli : Z;             (* depth of pushcli nesting *)
  intena : bool;        (* were interrupts enabled before pushcli? *)
  eflags_IF : bool      (* the FL_IF bit of %eflags *)
}.
#[export] Instance cpu_eta : EtaRecord cpu :=
  fun c => mkcpu (cpu_id c) (ncli c) (intena c) (eflags_IF c).

Record spinlock := mkspinlock {
  lk_name : string;
  locked : bool;
  lk_cpu : option nat   (* the cpu holding the lock; None is the null pointer *)
}.
#[export] Instance spinlock_eta : EtaRecord spinlock :=
  fun l => mkspinlock (lk_name l) (locked l) (lk_cpu l).

Definition cli : M cpu unit := modify (fun c => c <| eflags_IF := false |>).
Definition sti : M cpu unit := modify (fun c => c <| eflags_IF := true |>).

Definition pushcli : M cpu unit :=
  eflags ← gets eflags_IF;
  cli;;
  n ← gets ncli;
  when (n =? 0) (modify (fun c => c <| intena := eflags |>));;
  modify (fun c => c <| ncli := i32 (ncli c + 1) |>).

Definition popcli : M cpu unit :=
  eflags ← gets eflags_IF;
  if (eflags : bool) then panic "popcli - interruptible" else
  modify (fun c => c <| ncli := i32 (ncli c - 1) |>);;
  n ← gets ncli;
  if n <? 0 then panic "popcli" else
  e ← gets intena;
  when ((n =? 0) && e) sti.

(** ** Lock operations, on the CPU that runs them and the lock *)
Definition initlock (name : string) : spinlock := mkspinlock name false None.

Definition holding (c : cpu) (lk : spinlock) : bool :=
  locked lk && bool_decide (lk_cpu lk = Some (cpu_id c)).

Definition on_cpu {A} (m : M cpu A) : M (cpu * spinlock) A :=
  zoom fst (fun c s => (c, s.2)) m.
Definition set_lock (f : spinlock → spinlock) : M (cpu * spinlock) unit :=
  modify (fun s => (s.1, f s.2)).

(** [acquire]: if another CPU holds the lock the [xchg] loop spins; nothing
    else runs in the sequential view, so it spins forever. *)
Definition acquire : M (cpu * spinlock) unit :=
  on_cpu pushcli;;
  h ← gets (fun s => holding s.1 s.2);
  if (h : bool) then panic "acquire" else
  l ← gets (fun s => locked s.2);
  set_lock (fun lk => lk <| locked := true |>);;
  if (l : bool) then stop_with Spinning else
  c ← gets (fun s => cpu_id s.1);
  set_lock (fun lk => lk <| lk_cpu := Some c |>).

Definition release : M (cpu * spinlock) unit :=
  h ← gets (fun s => holding s.1 s.2);
  if negb h then panic "release" else
  set_lock (fun lk => lk <| lk_cpu := None |>);;
  set_lock (fun lk => lk <| locked := false |>);;
  on_cpu popcli.

(** ** Interrupt-disable nesting *)

(** Between the outermost [pushcli] and its [popcli] interrupts are off. *)
Definition cli_ok (c : cpu) : Prop :=
  0 ≤ ncli c < INT_MAX ∧ (0 < ncli c → eflags_IF c = false).

Definition pushed (c : cpu) : cpu :=
  mkcpu (cpu_id c) (ncli c + 1) (if ncli c =? 0 then eflags_IF c else intena c) false.

Definition popped (c : cpu) : cpu :=
  mkcpu (cpu_id c) (ncli c - 1) (intena c) ((ncli c =? 1) && intena c).

Lemma pushcli_eq (c : cpu) : cli_ok c → pushcli c = Ok tt (pushed c).
Proof.
  intros [Hn _]. destruct c as [i n e f]. unfold cli_ok, INT_MAX in *. simpl in *.
  unfold pushcli, pushed, cli; m_unfold; cbn -[i32].
  destruct (n =? 0); cbn -[i32]; rewrite i32_id; unfold INT_MIN, INT_MAX; try done; lia.
Qed.

Lemma popcli_eq (c : cpu) :
  cli_ok c → 0 < ncli c → popcli c = Ok tt (popped c).
Proof.
  intros [Hn Hf] Hpos. destruct c as [i n e f]. unfold INT_MAX in *. simpl in *.
  unfold popcli, popped, sti; m_unfold; cbn -[i32]. rewrite (Hf Hpos). cbn [ncli].
  rewrite i32_id by (unfold INT_MIN, INT_MAX; lia).
  destruct (Z.ltb_spec (n - 1) 0); [lia|].
  destruct (Z.eqb_spec (n - 1) 0), (Z.eqb_spec n 1); try lia; by destruct e.
Qed.

Lemma cli_ok_pushed (c : cpu) : cli_ok c → ncli c + 1 < INT_MAX → cli_ok (pushed c).
Proof. intros [[??] ?] ?. split; cbn -[INT_MAX]; [lia | done]. Qed.

Lemma cli_ok_popped (c : cpu) : cli_ok c → 0 < ncli c → cli_ok (popped c).
Proof.
  intros [[??] ?] ?. split; cbn -[INT_MAX]; [lia|]. intros ?.
  destruct (Z.eqb_spec (ncli c) 1); [lia | done].
Qed.

Fixpoint repeat_m {S} (n : nat) (m : M S unit) : M S unit :=
  match n with O => mret tt | S n => m ;; repeat_m n m end.

(** [n] nested [pushcli] from [c]. *)
Lemma repeat_pushcli (n : nat) (c : cpu) :
  cli_ok c → ncli c + Z.of_nat n < INT_MAX →
  ∃ c', repeat_m n pushcli c = Ok tt c' ∧ cli_ok c' ∧ cpu_id c' = cpu_id c ∧
    ncli c' = ncli c + Z.of_nat n ∧
    ((0 < n)%nat → eflags_IF c' = false) ∧
    intena c' = if (ncli c =? 0) && (0 <? Z.of_nat n) then eflags_IF c else intena c.
Proof.
  revert c. induction n as [|n IH]; intros c Hc Hn.
  { exists c. rewrite andb_false_r. repeat split; try done; try lia; apply Hc. }
  destruct (IH (pushed c)) as (c' & Hr & Hok & Hid & Hn' & Hf & Hi).
  { apply cli_ok_pushed; [done | lia]. }
  { simpl. lia. }
  exists c'. simpl in *. destruct Hc as [Hc0 Hc1].
  repeat split; try done; try lia.
  - unfold mbind, M_bind. by rewrite pushcli_eq.
  - apply Hok.
  - intros _. destruct n as [|n]; [|apply Hf; lia].
    simpl in Hr. injection Hr as <-. done.
  - rewrite Hi. destruct (Z.eqb_spec (ncli c + 1) 0); [lia|]. simpl.
    destruct (Z.ltb_spec 0 (Z.of_nat (S n))); [|lia]. by rewrite andb_true_r.
Qed.

Lemma repeat_popcli (k : nat) (c : cpu) :
  cli_ok c → Z.of_nat k ≤ ncli c →
  ∃ c', repeat_m k popcli c = Ok tt c' ∧ cpu_id c' = cpu_id c ∧
    ncli c' = ncli c - Z.of_nat k ∧ intena c' = intena c ∧
    eflags_IF c' = if (0 <? Z.of_nat k) && (ncli c =? Z.of_nat k) then intena c else eflags_IF c.
Proof.
  revert c. induction k as [|k IH]; intros c Hc Hk.
  { exists c. repeat split; try done; lia. }
  destruct (IH (popped c)) as (c' & Hr & Hid & Hn' & Hi & Hf).
  { apply cli_ok_popped; [done | lia]. }
  { simpl. lia. }
  exists c'. simpl in *. repeat split; try done; try lia.
  - unfold mbind, M_bind. by rewrite popcli_eq by (done || lia).
  - rewrite Hf. destruct Hc as [_ Hc]. specialize (Hc ltac:(lia)). rewrite Hc.
    destruct (Z.ltb_spec 0 (Z.of_nat k)), (Z.eqb_spec (ncli c - 1) (Z.of_nat k)),
      (Z.eqb_spec (ncli c) (Z.of_nat (S k))), (Z.eqb_spec (ncli c) 1);
      simpl; try done; lia.
Qed.

(** [n] nested [pushcli] and [k < n] [popcli] leave interrupts off, and
    the [n]-th [popcli] restores both the nesting depth and the interrupt flag
    the CPU had before: interrupts that were off stay off, interrupts that
    were on come back on. *)
Theorem pushcli_popcli_nesting (c : cpu) (n : nat) :
  cli_ok c → ncli c + Z.of_nat n < INT_MAX →
  (∀ k : nat, (k < n)%nat → ∃ c',
     (repeat_m n pushcli ;; repeat_m k popcli) c = Ok tt c' ∧ eflags_IF c' = false) ∧
  ∃ c', (repeat_m n pushcli ;; repeat_m n popcli) c = Ok tt c' ∧
     ncli c' = ncli c ∧ eflags_IF c' = eflags_IF c.
Proof.
  intros Hc Hn. destruct (repeat_pushcli n c Hc Hn) as (c1 & Hr & Hok & Hid & Hn1 & Hf & Hi).
  unfold mbind, M_bind. rewrite Hr. destruct Hc as [Hc0 Hc1]. split.
  - intros k Hk. destruct (repeat_popcli k c1 Hok ltac:(lia)) as (c2 & -> & _ & _ & _ & Hf2).
    exists c2. split; [done|]. rewrite Hf2. rewrite Hf by lia.
    destruct (Z.eqb_spec (ncli c1) (Z.of_nat k)); [lia|]. by rewrite andb_false_r.
  - destruct (repeat_popcli n c1 Hok ltac:(lia)) as (c2 & -> & _ & Hn2 & _ & Hf2).
    exists c2. split; [done|]. split; [lia|]. rewrite Hf2, Hi.
    destruct n as [|n]; [simpl in *; injection Hr as <-; done|].
    rewrite Hf by lia.
    destruct (Z.ltb_spec 0 (Z.of_nat (S n))); [|lia].
    destruct (Z.eqb_spec (ncli c1) (Z.of_nat (S n))), (Z.eqb_spec (ncli c) 0); simpl; try done; try lia.
    symmetry. apply Hc1. lia.
Qed.

Lemma pushcli_popcli_nesting_witness :
  let c := mkcpu 0 0 false true in
  ∃ c', (repeat_m 3 pushcli ;; repeat_m 3 popcli) c = Ok tt c' ∧
     ncli c' = ncli c ∧ eflags_IF c' = eflags_IF c.
Proof.
  intros c.
  refine (proj2 (pushcli_popcli_nesting c 3 _ _)); unfold cli_ok, INT_MAX; simpl; [split|]; try done; lia.
Defined.

(** ** The lock on one CPU *)

Definition free (lk : spinlock) : Prop := locked lk = false ∧ lk_cpu lk = None.

Lemma acquire_free (c : cpu) (lk : spinlock) :
  cli_ok c → free lk →
  acquire (c, lk) = Ok tt (pushed c, mkspinlock (lk_name lk) true (Some (cpu_id c))).
Proof.
  intros Hc [Hl Hk]. destruct lk. simpl in *. subst.
  unfold acquire, on_cpu, set_lock. m_unfold. cbn [fst snd].
  by rewrite (pushcli_eq c Hc).
Qed.

Lemma release_held (c : cpu) (lk : spinlock) :
  cli_ok c → 0 < ncli c → holding c lk = true →
  release (c, lk) = Ok tt (popped c, mkspinlock (lk_name lk) false None).
Proof.
  intros Hc Hn Hh. unfold release, on_cpu, set_lock. m_unfold. cbn [fst snd].
  rewrite Hh. cbn [negb]. cbn [fst snd]. by rewrite (popcli_eq c Hc Hn).
Qed.

(** The two states of a lock, as [acquire] and [release] write them. *)
Definition locked_by (c : cpu) (lk : spinlock) : spinlock :=
  mkspinlock (lk_name lk) true (Some (cpu_id c)).
Definition unlocked (lk : spinlock) : spinlock := mkspinlock (lk_name lk) false None.

Lemma unlocked_free (lk : spinlock) : free lk → unlocked lk = lk.
Proof. destruct lk. unfold free. simpl. by intros [-> ->]. Qed.

Lemma unlocked_locked_by (c : cpu) (lk : spinlock) : free lk → unlocked (locked_by c lk) = lk.
Proof. exact (unlocked_free lk). Qed.

Lemma free_unlocked (lk : spinlock) : free (unlocked lk).
Proof. done. Qed.

Lemma holding_locked_by (c c' : cpu) (lk : spinlock) :
  cpu_id c = cpu_id c' → holding c' (locked_by c lk) = true.
Proof. intros ?. unfold holding. simpl. by rewrite bool_decide_eq_true_2 by congruence. Qed.

Lemma holding_iff (c : cpu) (lk : spinlock) :
  holding c lk = true ↔ lk = locked_by c lk.
Proof.
  split; [|intros ->; by apply holding_locked_by].
  destruct lk. unfold holding. simpl. intros [-> ->%bool_decide_eq_true]%andb_prop. done.
Qed.

(** A nested bracket does not disturb the outer one. *)
Lemma popped_pushed (c : cpu) :
  cli_ok c → popped (pushed c) = c <| intena := if ncli c =? 0 then eflags_IF c else intena c |>.
Proof.
  intros [Hn Hf]. destruct c as [i n e f]. unfold popped, pushed. simpl in *.
  replace (n + 1 - 1) with n by lia.
  destruct (Z.eqb_spec n 0) as [->|]; [done|].
  destruct (Z.eqb_spec (n + 1) 1); [lia|]. by rewrite Hf by lia.
Qed.

Lemma popped_pushed_nested (c : cpu) : cli_ok c → 0 < ncli c → popped (pushed c) = c.
Proof.
  intros Hc Hn. rewrite popped_pushed by done.
  destruct (Z.eqb_spec (ncli c) 0); [lia|]. by destruct c.
Qed.

(** A CPU that can enter one more critical section. *)
Definition calm (c : cpu) : Prop := cli_ok c ∧ ncli c + 1 < INT_MAX.

Lemma calm_bracket (c : cpu) : calm c → calm (popped (pushed c)).
Proof.
  intros [Hc Hn]. unfold calm. rewrite popped_pushed by done. destruct Hc as [??]. by split; [split|].
Qed.

Lemma bracket_same (c : cpu) :
  calm c → ncli (popped (pushed c)) = ncli c ∧ eflags_IF (popped (pushed c)) = eflags_IF c ∧
    cpu_id (popped (pushed c)) = cpu_id c.
Proof. intros [Hc _]. rewrite popped_pushed by done. done. Qed.

(** A lock that is part of a larger state. *)
Section zoomed.
Context {T : Type} (get : T → cpu * spinlock) (put : cpu * spinlock → T → T).

Lemma wp_zoom_acquire (Q : unit → T → Prop) E t :
  cli_ok (get t).1 → free (get t).2 →
  Q tt (put (pushed (get t).1, locked_by (get t).1 (get t).2) t) → wp (zoom get put acquire) Q E t.
Proof.
  intros Hc Hf HQ. apply wp_zoom. destruct (get t) as [c lk]. eapply wp_eq; [by apply acquire_free | done].
Qed.

(** Release of a lock taken by CPU [c], which was [calm]. *)
Lemma wp_zoom_release c lk (Q : unit → T → Prop) E t :
  calm c → get t = (pushed c, locked_by c lk) →
  Q tt (put (popped (pushed c), unlocked lk) t) → wp (zoom get put release) Q E t.
Proof.
  intros [Hc Hn] Hg HQ. apply wp_zoom. rewrite Hg. eapply wp_eq; [apply release_held|done].
  - by apply cli_ok_pushed.
  - destruct Hc. cbn. lia.
  - by apply holding_locked_by.
Qed.
End zoomed.

(** [acquire] of a free lock returns with the lock held by this CPU and
    interrupts off; a second [acquire] panics; [release] gives the lock and
    the interrupt state back exactly as they were; a second [release]
    panics. *)
Theorem acquire_release_bracket (c : cpu) (lk : spinlock) :
  cli_ok c → ncli c + 1 < INT_MAX → free lk →
  ∃ c1 lk1, acquire (c, lk) = Ok tt (c1, lk1) ∧
    holding c1 lk1 = true ∧ eflags_IF c1 = false ∧
    acquire (c1, lk1) = Stop (Panic "acquire") (pushed c1, lk1) ∧
    ∃ c2, release (c1, lk1) = Ok tt (c2, lk) ∧
      ncli c2 = ncli c ∧ eflags_IF c2 = eflags_IF c ∧
      release (c2, lk) = Stop (Panic "release") (c2, lk).
Proof.
  intros Hc Hn Hlk. eexists _, _. split; [by apply acquire_free|].
  set (lk1 := mkspinlock _ _ _).
  assert (Hh : holding (pushed c) lk1 = true).
  { unfold holding. simpl. by rewrite bool_decide_eq_true_2. }
  assert (Hok : cli_ok (pushed c)) by by apply cli_ok_pushed.
  split; [done|]. split; [done|]. split.
  { unfold acquire, on_cpu. m_unfold. cbn [fst snd]. rewrite (pushcli_eq _ Hok).
    cbn [fst snd]. unfold holding. simpl. by rewrite bool_decide_eq_true_2. }
  exists (popped (pushed c)). destruct lk as [nm l k], Hlk as [Hl Hk]. simpl in Hl, Hk. subst l k.
  destruct Hc as [Hc0 Hc1]. repeat split.
  - rewrite release_held; [done | done | simpl; lia | done].
  - simpl. lia.
  - simpl. destruct (Z.eqb_spec (ncli c) 0) as [->|]; [done|].
    destruct (Z.eqb_spec (ncli c + 1) 1); [lia|]. simpl. symmetry. apply Hc1. lia.
Qed.

Lemma acquire_release_bracket_witness :
  let c := mkcpu 1 0 false true in let lk := initlock "ptable" in
  ∃ c1 lk1, acquire (c, lk) = Ok tt (c1, lk1) ∧
    holding c1 lk1 = true ∧ eflags_IF c1 = false ∧
    acquire (c1, lk1) = Stop (Panic "acquire") (pushed c1, lk1) ∧
    ∃ c2, release (c1, lk1) = Ok tt (c2, lk) ∧
      ncli c2 = ncli c ∧ eflags_IF c2 = eflags_IF c ∧
      release (c2, lk) = Stop (Panic "release") (c2, lk).
Proof.
  intros c lk. apply acquire_release_bracket; unfold cli_ok, free, INT_MAX; simpl;
    repeat split; try done; lia.
Defined.

(** ** The lock under concurrency

    Every CPU runs [acquire(lk); critical section; release(lk)] forever.  Its
    program counter says which of the shared-memory accesses of the two
    functions comes next; each access is one atomic step, and the CPUs
    interleave arbitrarily. *)
Module SpinSystem.

Inductive pc :=
  | Outside      (* next: the [holding] test of acquire *)
  | AtXchg       (* next: xchg(&lk->locked, 1) *)
  | Taken        (* xchg returned 0; next: lk->cpu = cpu *)
  | Critical     (* in the critical section; next: the test and lk->cpu = 0 of release *)
  | Cleared.     (* next: lk->locked = 0 *)

#[export] Instance pc_eq_dec : EqDecision pc.
Proof. solve_decision. Defined.

Record sys := mksys {
  lock : spinlock;
  pcs : list pc          (* one per CPU *)
}.

Definition init (n : nat) : sys := mksys (initlock "lk") (replicate n Outside).

Definition holds (i : nat) (lk : spinlock) : bool :=
  locked lk && bool_decide (lk_cpu lk = Some i).

(** One atomic step of CPU [i]. *)
Definition cpu_step (i : nat) : M sys unit := fun s =>
  let lk := lock s in
  let goto f p := Ok tt (mksys (f lk) (<[i := p]> (pcs s))) in
  match pcs s !! i with
  | None => Ok tt s
  | Some Outside =>
      if holds i lk then Stop (Panic "acquire") s else goto id AtXchg
  | Some AtXchg =>
      if locked lk then goto id AtXchg
      else goto (fun l => l <| locked := true |>) Taken
  | Some Taken => goto (fun l => l <| lk_cpu := Some i |>) Critical
  | Some Critical =>
      if holds i lk then goto (fun l => l <| lk_cpu := None |>) Cleared
      else Stop (Panic "release") s
  | Some Cleared => goto (fun l => l <| locked := false |>) Outside
  end.

Definition step (s s' : sys) : Prop := ∃ i, cpu_step i s = Ok tt s'.

(** The CPU is between a successful [xchg] and the store that unlocks. *)
Definition owns (p : pc) : bool :=
  match p with Taken | Critical | Cleared => true | _ => false end.

Record inv (s : sys) : Prop := {
  inv_excl : ∀ i j p q, pcs s !! i = Some p → pcs s !! j = Some q →
    owns p = true → owns q = true → i = j;
  inv_locked : ∀ i p, pcs s !! i = Some p → owns p = true → locked (lock s) = true;
  inv_cpu : ∀ i, lk_cpu (lock s) = Some i → pcs s !! i = Some Critical;
  inv_crit : ∀ i, pcs s !! i = Some Critical → lk_cpu (lock s) = Some i
}.

Lemma inv_init n : inv (init n).
Proof.
  split; simpl; try done.
  - intros i j p q [-> _]%lookup_replicate. done.
  - intros i p [-> _]%lookup_replicate. done.
  - intros i [? _]%lookup_replicate. done.
Qed.

(** Moving CPU [i] from [p] to [p'] with a new lock keeps the invariant under
    the conditions that the transitions satisfy. *)
Lemma inv_goto (s : sys) (i : nat) (p p' : pc) (lk' : spinlock) :
  inv s → pcs s !! i = Some p →
  (owns p' = true → locked lk' = true ∧ (owns p = true ∨ locked (lock s) = false)) →
  (owns p = false ∨ owns p' = false → p' ≠ Critical) →
  (owns p = true ∨ locked lk' = locked (lock s) ∨ locked lk' = true) →
  lk_cpu lk' = (if decide (p' = Critical) then Some i
                else if decide (p = Critical) then None else lk_cpu (lock s)) →
  inv (mksys lk' (<[i := p']> (pcs s))).
Proof.
  intros [Hex Hlk Hcpu Hcrit] Hp Hown Hnc Hkeep Hc.
  pose proof (lookup_lt_Some _ _ _ Hp) as Hlt.
  assert (Hlook : ∀ j q, <[i:=p']> (pcs s) !! j = Some q →
            (j = i ∧ q = p') ∨ (j ≠ i ∧ pcs s !! j = Some q)).
  { intros j q Hj. destruct (decide (j = i)) as [->|].
    - rewrite list_lookup_insert_eq in Hj by done. simplify_eq. by left.
    - rewrite list_lookup_insert_ne in Hj by done. by right. }
  (* no other CPU owns the lock once CPU i does *)
  assert (Halone : ∀ j q, j ≠ i → pcs s !! j = Some q → owns q = true → owns p' = true → False).
  { intros j q Hne Hj Hq Hp'. destruct (Hown Hp') as [_ [Ho|Hf]].
    - by apply Hne, (Hex j i q p).
    - rewrite (Hlk j q Hj Hq) in Hf. done. }
  assert (Hp'crit : p' = Critical → p ≠ Critical → owns p = true).
  { intros -> _. destruct (owns p) eqn:E; [done|]. exfalso. by apply Hnc; [left|]. }
  split; simpl.
  - intros j k q r [[-> ->]|[??]]%Hlook [[-> ->]|[??]]%Hlook ??;
      first [done | by eapply Hex | exfalso; eauto].
  - intros j q [[-> ->]|[Hne Hj]]%Hlook Hq; [by apply Hown|].
    destruct Hkeep as [Ho|[->|?]]; [|by eapply Hlk|done].
    exfalso. by apply Hne, (Hex j i q p).
  - intros j Hj. rewrite Hc in Hj. destruct (decide (p' = Critical)) as [->|].
    { simplify_eq. by rewrite list_lookup_insert_eq. }
    destruct (decide (p = Critical)); [done|].
    destruct (decide (j = i)) as [->|]; [apply Hcpu in Hj; congruence|].
    rewrite list_lookup_insert_ne by done. eauto.
  - intros j [[-> <-]|[Hne Hj]]%Hlook; [by rewrite Hc, decide_True|].
    rewrite Hc. rewrite decide_False; [rewrite decide_False; [by apply Hcrit|]|].
    + intros ->. apply Hne, (Hex j i Critical Critical); done.
    + intros ->. by eapply Halone.
Qed.

Lemma inv_step s s' : inv s → step s s' → inv s'.
Proof.
  intros Hinv [i Hs]. unfold cpu_step in Hs.
  destruct (pcs s !! i) as [p|] eqn:Hp; [|by simplify_eq].
  destruct p; unfold holds in Hs; try case_match; simplify_eq;
    (eapply inv_goto; [done | done | ..]; simpl; auto; try done;
     intros; destruct_or?; try done; try (split; [by eapply (inv_locked s) | by left])).
Qed.

(** C13: However the CPUs interleave, at most one of them is between the
    [xchg] that takes the lock and the store that releases it, so critical
    sections exclude each other; and neither [acquire] nor [release] ever
    panics on a CPU that pairs them. *)
Theorem spinlock_mutual_exclusion (n : nat) (s : sys) :
  rtc step (init n) s →
  (∀ i j p q, pcs s !! i = Some p → pcs s !! j = Some q →
     owns p = true → owns q = true → i = j) ∧
  (∀ i, ∃ s', cpu_step i s = Ok tt s').
Proof.
  intros Hr. pose proof (rtc_invariant step inv inv_step _ _ Hr (inv_init n)) as Hinv.
  split; [apply Hinv|]. intros i. unfold cpu_step, holds.
  destruct (pcs s !! i) as [p|] eqn:Hp; [|by eexists].
  destruct p; try (by eexists); try (case_match; by eexists).
  - case_bool_decide as E; rewrite ?andb_true_r, ?andb_false_r; [|by eexists].
    apply (inv_cpu _ Hinv) in E. congruence.
  - rewrite (inv_locked _ Hinv i Critical) by done.
    rewrite bool_decide_eq_true_2 by by apply (inv_crit _ Hinv). by eexists.
Qed.

Lemma spinlock_mutual_exclusion_witness :
  let s := mksys (mkspinlock "lk" true (Some 1%nat)) [AtXchg; Critical] in
  rtc step (init 2) s ∧ ∀ i, ∃ s', cpu_step i s = Ok tt s'.
Proof.
  intros s. assert (Hr : rtc step (init 2) s).
  { eapply rtc_l; [by exists 1%nat|]. eapply rtc_l; [by exists 0%nat|].
    eapply rtc_l; [by exists 1%nat|]. eapply rtc_l; [by exists 1%nat|].
    apply rtc_refl. }
  split; [exact Hr | exact (proj2 (spinlock_mutual_exclusion 2 s Hr))].
Defined.

End SpinSystem.
