(* ===== verification/Proc.v ===== *)
(** * The process table and the globals of proc.c (proc.h, param.h, proc.c)

    [proc] is [struct proc], [kstate] is the global state that proc.c owns:
    the anonymous struct [ptable], the file-level variables and the static
    local of [select_stride_or_MLFQ], together with the CPU that runs the
    code and its current process.  A [struct proc *] is an index into
    [ptable.proc] or [None] for the null pointer.

    The file also holds the accessors through which every routine reads and
    writes the table: an access through a null pointer or outside an array
    is [Fault]. *)
From S2P Require Import Prelude Spinlock.

(** ** Constants of param.h *)
Definition NPROC : Z := 64.
Definition NOFILE : Z := 16.
Definition NMLFQ : Z := 3.
Definition NSTRIDE : Z := 100000.
Definition NSTRIDE_QUEUE : Z := NPROC + 1.
Definition MIN_CPU_SHARE : Z := 1.
Definition MAX_CPU_SHARE : Z := 800.
Definition KSTACKSIZE : Z := 4096.

(** ** Data *)
Inductive procstate := UNUSED | EMBRYO | SLEEPING | RUNNABLE | RUNNING | ZOMBIE.

#[export] Instance procstate_eq_dec : EqDecision procstate.
Proof. solve_decision. Defined.

(** The addresses that kernel code sleeps on. *)
Inductive chan_t :=
  | ch_null
  | ch_proc (i : nat)            (* &ptable.proc[i] *)
  | ch_addr (a : Z).             (* any other kernel address: &ticks, &log, a buf, ... *)

#[export] Instance chan_eq_dec : EqDecision chan_t.
Proof. solve_decision. Defined.

Abbreviation pptr := (option nat).
Definition chan_of (p : pptr) : chan_t :=
  match p with Some i => ch_proc i | None => ch_null end.

(** The fields of [struct trapframe] (x86.h) that the kernel sets or reads. *)
Record trapframe := mktf {
  eax : Z; eip : Z; esp : Z; cs : Z; ds : Z; es : Z; ss : Z; eflags : Z; trapno : Z; err : Z
}.
#[export] Instance trapframe_eta : EtaRecord trapframe := fun t =>
  mktf (eax t) (eip t) (esp t) (cs t) (ds t) (es t) (ss t) (eflags t) (trapno t) (err t).

Record proc := mkproc {
  sz : Z;
  pgdir : Z;
  kstack : Z;
  pstate : procstate;
  pid : Z;
  parent : pptr;
  tf_addr : Z;                     (* the pointer p->tf *)
  tf : trapframe;                  (* the frame it points at *)
  context : Z;                     (* address of the saved context on the kernel stack *)
  ctx_eip : Z;                     (* p->context->eip *)
  ctx_ret : Z;                     (* the word above the context: where eip's code returns *)
  chan : chan_t;
  killed : Z;
  ofile : list (option nat);       (* struct file *ofile[NOFILE] *)
  cwd : option nat;                (* struct inode * *)
  pname : list Z;                  (* char name[16] *)
  tick_used : Z;
  time_quantum_used : Z;
  level_of_MLFQ : Z;
  cpu_share : Z;
  stride : Z;
  stride_count : Z;
  tid : Z;
  pgdir_ref_idx : Z;
  thread_return : Z;
  num_of_threads : Z;
  proc_forked_in_thread : pptr;
  original_cpu_share : Z
}.
#[export] Instance proc_eta : EtaRecord proc := fun p =>
  mkproc (sz p) (pgdir p) (kstack p) (pstate p) (pid p) (parent p) (tf_addr p) (tf p) (context p) (ctx_eip p) (ctx_ret p) (chan p) (killed p)
    (ofile p) (cwd p) (pname p) (tick_used p) (time_quantum_used p) (level_of_MLFQ p)
    (cpu_share p) (stride p) (stride_count p) (tid p) (pgdir_ref_idx p) (thread_return p)
    (num_of_threads p) (proc_forked_in_thread p) (original_cpu_share p).

(** A zeroed [struct proc]: the table lives in .bss. *)
Definition tf0 : trapframe := mktf 0 0 0 0 0 0 0 0 0 0.
Definition proc0 : proc :=
  mkproc 0 0 0 UNUSED 0 None 0 tf0 0 0 0 ch_null 0 (replicate 16 None) None (replicate 16 0)
    0 0 0 0 0 0 0 0 0 0 None 0.

Record kstate := mkk {
  this_cpu : cpu;                       (* the CPU running the code *)
  curproc : pptr;                       (* the per-CPU variable proc *)
  cr3 : option Z;                       (* page directory loaded; None is kpgdir *)
  ts_esp0 : Z;                          (* cpu->ts.esp0, the kernel stack for traps *)
  ptable_lock : spinlock;
  procs : list proc;                    (* ptable.proc *)
  MLFQ_time_quantum : list Z;
  MLFQ_tick_used : Z;
  queue_level_at_most : Z;
  min_of_run_proc_level : Z;
  stride_queue : list pptr;
  sum_cpu_share : Z;
  stride_queue_size : Z;
  stride_time_quantum : Z;
  stride_tick_used : Z;
  initproc : pptr;
  nextpid : Z;
  next_thread_id : Z;
  thread_lock : spinlock;
  pgdir_ref : list Z;
  pgdir_ref_next_idx : Z;
  queue_selector : Z;                   (* static local of select_stride_or_MLFQ *)
  forkret_first : bool;                 (* static local first of forkret *)
  other_locks : list spinlock           (* the spin locks of the other subsystems *)
}.
#[export] Instance kstate_eta : EtaRecord kstate := fun k =>
  mkk (this_cpu k) (curproc k) (cr3 k) (ts_esp0 k) (ptable_lock k) (procs k) (MLFQ_time_quantum k)
    (MLFQ_tick_used k) (queue_level_at_most k) (min_of_run_proc_level k) (stride_queue k)
    (sum_cpu_share k) (stride_queue_size k) (stride_time_quantum k) (stride_tick_used k)
    (initproc k) (nextpid k) (next_thread_id k) (thread_lock k) (pgdir_ref k)
    (pgdir_ref_next_idx k) (queue_selector k) (forkret_first k) (other_locks k).

(** The variables as the kernel image has them at boot: zeroed, but for the
    three with an initializer, on a CPU with interrupts off. *)
Definition boot_state : kstate :=
  mkk (mkcpu 0 0 false false) None None 0 (initlock "unset") (replicate 64 proc0) [0; 0; 0] 0 0 0
    (replicate 65 None) 0 0 0 0 None 1 1 (initlock "unset") (replicate 64 0) 0 (-1)
    true (replicate 16 (initlock "unset")).

(** ** Access to the table *)
Abbreviation K := (M kstate).

Definition pget (i : nat) : K proc := ps ← gets procs; deref (ps !! i).
Definition pupd (i : nat) (f : proc → proc) : K unit :=
  p ← pget i; modify (fun k => k <| procs := <[i := f p]> (procs k) |>).

(** [p->...] through a pointer that may be null. *)
Definition pderef (p : pptr) : K proc := i ← deref p; pget i.

(** The current process [proc]; its use as a pointer faults when it is null. *)
Definition the_proc : K nat := p ← gets curproc; deref p.

Definition qget (i : Z) : K pptr := q ← gets stride_queue; deref (array_get q i).
Definition qset (i : Z) (p : pptr) : K unit :=
  q ← gets stride_queue;
  q' ← deref (array_set q i p);
  modify (fun k => k <| stride_queue := q' |>).

(** The indices of [ptable.proc], in the order the loops visit them. *)
Definition all_procs : list nat := seq 0 (Z.to_nat NPROC).

(** Order of two [struct proc *]: addresses grow with the index, null is 0. *)
Definition ptr_lt (p q : pptr) : bool :=
  match p, q with
  | None, Some _ => true
  | Some i, Some j => (i <? j)%nat
  | _, None => false
  end.

(** ** Locks of proc.c *)
Definition with_ptable_lock {A} (m : M (cpu * spinlock) A) : K A :=
  zoom (fun k => (this_cpu k, ptable_lock k))
       (fun x k => k <| this_cpu := x.1 |> <| ptable_lock := x.2 |>) m.
Definition with_thread_lock {A} (m : M (cpu * spinlock) A) : K A :=
  zoom (fun k => (this_cpu k, thread_lock k))
       (fun x k => k <| this_cpu := x.1 |> <| thread_lock := x.2 |>) m.

Definition acquire_ptable : K unit := with_ptable_lock acquire.
Definition release_ptable : K unit := with_ptable_lock release.
Definition acquire_thread : K unit := with_thread_lock acquire.
Definition release_thread : K unit := with_thread_lock release.

(** ** Rules for the accessors *)
Section rules.
Implicit Types (k : kstate) (E : stop → kstate → Prop).

Lemma pget_eq i p k : procs k !! i = Some p → pget i k = Ok p k.
Proof. intros Hp. unfold pget. m_unfold. by rewrite Hp. Qed.

Lemma wp_pget i p Q E k : procs k !! i = Some p → Q p k → wp (pget i) Q E k.
Proof. intros Hp ?. unfold pget. wp_run. by eapply wp_deref. Qed.

Lemma wp_pupd i f p (Q : unit → kstate → Prop) E k :
  procs k !! i = Some p →
  Q tt (k <| procs := <[i := f p]> (procs k) |>) → wp (pupd i f) Q E k.
Proof.
  intros Hp HQ. unfold pupd. wp_step. eapply wp_pget; [done|]. by wp_run.
Qed.

Lemma wp_pderef i p Q E k :
  procs k !! i = Some p → Q p k → wp (pderef (Some i)) Q E k.
Proof. intros. unfold pderef. wp_run. by eapply wp_pget. Qed.

Lemma the_proc_eq i k : curproc k = Some i → the_proc k = Ok i k.
Proof. intros Hc. unfold the_proc. m_unfold. by rewrite Hc. Qed.

Lemma wp_the_proc i Q E k : curproc k = Some i → Q i k → wp the_proc Q E k.
Proof. intros Hc ?. unfold the_proc. wp_run. by eapply wp_deref. Qed.

Lemma wp_qget i p Q E k : array_get (stride_queue k) i = Some p → Q p k → wp (qget i) Q E k.
Proof. intros Hp ?. unfold qget. wp_run. by eapply wp_deref. Qed.

Lemma wp_qset i p (Q : unit → kstate → Prop) E k :
  0 ≤ i < Z.of_nat (length (stride_queue k)) →
  Q tt (k <| stride_queue := <[Z.to_nat i := p]> (stride_queue k) |>) → wp (qset i p) Q E k.
Proof.
  intros Hi HQ. unfold qset. wp_run. eapply wp_deref; [by apply array_set_in|]. by wp_run.
Qed.

(** *** Locks *)
Lemma wp_acquire_ptable (Q : unit → kstate → Prop) E k :
  cli_ok (this_cpu k) → free (ptable_lock k) →
  Q tt (k <| this_cpu := pushed (this_cpu k) |>
          <| ptable_lock := locked_by (this_cpu k) (ptable_lock k) |>) →
  wp acquire_ptable Q E k.
Proof.
  intros Hc Hf HQ. apply wp_zoom. eapply wp_eq; [by apply acquire_free|]. done.
Qed.

Lemma wp_release_ptable (Q : unit → kstate → Prop) E k :
  cli_ok (this_cpu k) → 0 < ncli (this_cpu k) → holding (this_cpu k) (ptable_lock k) = true →
  Q tt (k <| this_cpu := popped (this_cpu k) |> <| ptable_lock := unlocked (ptable_lock k) |>) →
  wp release_ptable Q E k.
Proof.
  intros Hc Hn Hh HQ. apply wp_zoom. eapply wp_eq; [by apply release_held|]. done.
Qed.

Lemma wp_acquire_thread (Q : unit → kstate → Prop) E k :
  cli_ok (this_cpu k) → free (thread_lock k) →
  Q tt (k <| this_cpu := pushed (this_cpu k) |>
          <| thread_lock := locked_by (this_cpu k) (thread_lock k) |>) →
  wp acquire_thread Q E k.
Proof.
  intros Hc Hf HQ. apply wp_zoom. eapply wp_eq; [by apply acquire_free|]. done.
Qed.

Lemma wp_release_thread (Q : unit → kstate → Prop) E k :
  cli_ok (this_cpu k) → 0 < ncli (this_cpu k) → holding (this_cpu k) (thread_lock k) = true →
  Q tt (k <| this_cpu := popped (this_cpu k) |> <| thread_lock := unlocked (thread_lock k) |>) →
  wp release_thread Q E k.
Proof.
  intros Hc Hn Hh HQ. apply wp_zoom. eapply wp_eq; [by apply release_held|]. done.
Qed.

(** Leave a critical section entered in [k]. *)
Lemma wp_leave_ptable k s (Q : unit → kstate → Prop) E :
  cli_ok (this_cpu k) → ncli (this_cpu k) + 1 < INT_MAX →
  this_cpu s = pushed (this_cpu k) → ptable_lock s = locked_by (this_cpu k) (ptable_lock k) →
  Q tt (s <| this_cpu := popped (pushed (this_cpu k)) |>
          <| ptable_lock := unlocked (ptable_lock k) |>) →
  wp release_ptable Q E s.
Proof.
  intros Hc Hn Hcpu Hlk HQ. apply wp_release_ptable; rewrite ?Hcpu, ?Hlk; [| | |done].
  - by apply cli_ok_pushed.
  - destruct Hc. cbn. lia.
  - by apply holding_locked_by.
Qed.

(** The CPU after a whole [acquire]/[release] bracket. *)
Definition bracketed (k : kstate) : kstate := k <| this_cpu ::= fun c => popped (pushed c) |>.

(** A critical section of [ptable.lock]: the body runs with the lock held
    and must leave the lock and the CPU alone. *)
Lemma wp_ptable_section {A} (body : K A) (Q : A → kstate → Prop) k :
  cli_ok (this_cpu k) → ncli (this_cpu k) + 1 < INT_MAX → free (ptable_lock k) →
  (let k1 := k <| this_cpu := pushed (this_cpu k) |>
               <| ptable_lock := locked_by (this_cpu k) (ptable_lock k) |> in
   wpt body (fun a k' => this_cpu k' = this_cpu k1 ∧ ptable_lock k' = ptable_lock k1 ∧
     Q a (k' <| this_cpu := popped (pushed (this_cpu k)) |> <| ptable_lock := ptable_lock k |>)) k1) →
  wpt (acquire_ptable;; a ← body; release_ptable;; mret a) Q k.
Proof.
  intros Hc Hn Hf Hbody. wp_step. apply wp_acquire_ptable; [done..|].
  wp_step. eapply wp_weaken; [exact Hbody|]. intros a k' (Hcpu & Hlk & HQ).
  simpl in Hcpu, Hlk. wp_step. apply wp_release_ptable.
  - rewrite Hcpu. by apply cli_ok_pushed.
  - rewrite Hcpu. destruct Hc. simpl. lia.
  - rewrite Hcpu, Hlk. by apply holding_locked_by.
  - wp_step. rewrite Hcpu, Hlk. by rewrite <-(unlocked_free _ Hf) in HQ.
Qed.

(** This CPU is inside the one critical section of [ptable.lock]. *)
Definition in_ptable (k : kstate) : Prop :=
  ncli (this_cpu k) = 1 ∧ eflags_IF (this_cpu k) = false ∧
  holding (this_cpu k) (ptable_lock k) = true.

(** This CPU holds no lock and [ptable.lock] is free. *)
Definition outside_ptable (k : kstate) : Prop :=
  ncli (this_cpu k) = 0 ∧ free (ptable_lock k).

Lemma in_ptable_cli k : in_ptable k → cli_ok (this_cpu k) ∧ ncli (this_cpu k) + 1 < INT_MAX.
Proof. intros (Hn & Hf & _). unfold cli_ok, INT_MAX. rewrite Hn. split; [|lia]. split; [lia | done]. Qed.

Lemma all_procs_split (i : nat) :
  (i < 64)%nat → all_procs = seq 0 i ++ i :: seq (S i) (63 - i).
Proof.
  intros Hi. unfold all_procs, NPROC. change (Z.to_nat 64) with 64%nat.
  replace 64%nat with (i + S (63 - i))%nat by lia. by rewrite seq_app.
Qed.

Lemma elem_of_all_procs (i : nat) : i ∈ all_procs ↔ (i < 64)%nat.
Proof. unfold all_procs. rewrite elem_of_seq. unfold NPROC. lia. Qed.

(** *** Loops over the table

    A loop whose body rewrites entry [i] with [g] maps [g] over the table;
    [R j] is what is known of the rest of the state after [j] iterations. *)
Lemma for_procs_wp (body : nat → K unit) (g : proc → proc) (R : nat → kstate → Prop)
    (Q : unit → kstate → Prop) E k :
  length (procs k) = 64%nat → R 0%nat k →
  (∀ i x s, R i s → procs s !! i = Some x →
     wp (body i) (fun _ s' => procs s' = <[i := g x]> (procs s) ∧ R (S i) s') E s) →
  (∀ s, R 64%nat s → procs s = g <$> procs k → Q tt s) →
  wp (for_each all_procs body) Q E k.
Proof.
  intros Hl HR Hbody Hend.
  eapply wp_weaken; [apply (for_each_wp (fun l s => ∃ j, (j ≤ 64)%nat ∧ l = seq j (64 - j) ∧ R j s ∧
    procs s = (g <$> take j (procs k)) ++ drop j (procs k)))|].
  - exists 0%nat. split; [lia|]. by split.
  - intros i l s (j & Hj & Hseq & HRj & Hps).
    destruct (64 - j)%nat as [|n] eqn:Hn; cbn in Hseq; [done|]. injection Hseq as -> ->.
    destruct (lookup_lt_is_Some_2 (procs k) j) as [x Hx]; [lia|].
    assert (Hlen : length (g <$> take j (procs k)) = j) by (rewrite length_fmap, length_take; lia).
    assert (Hxs : procs s !! j = Some x).
    { rewrite Hps, lookup_app_r by lia. by rewrite Hlen, Nat.sub_diag, lookup_drop, Nat.add_0_r. }
    eapply wp_weaken; [by apply Hbody|]. intros [] s' [Hs' HR']. exists (S j).
    split; [lia|]. split; [f_equal; lia|]. split; [done|].
    rewrite Hs', Hps. rewrite insert_app_r_alt by lia. rewrite Hlen, Nat.sub_diag.
    rewrite (drop_S _ x j Hx). cbn. rewrite (take_S_r _ _ x) by done.
    by rewrite fmap_app, <-app_assoc.
  - intros [] s (j & Hj & Hseq & HRj & Hps). destruct (64 - j)%nat eqn:Hn; [|done].
    replace j with 64%nat in * by lia. apply Hend; [done|].
    by rewrite take_ge, drop_ge, app_nil_r in Hps by lia.
Qed.
End rules.
