(* ===== verification/StrideQueue.v ===== *)
(** * The stride queue (proc.c, stride_queue_* and find_idx_of_stride_to_run)

    The stride scheduler keeps the processes with a cpu share in a binary
    heap ordered by [stride_count]: [stride_queue[1..stride_queue_size]],
    the children of slot [i] in slots [2i] and [2i+1]. *)
From S2P Require Import Prelude Spinlock Proc.

(** ** The operations *)

(** The [while] loop of [stride_queue_heapify_up]; returns the final
    [stride_idx].  The index halves on every round, so 64 rounds are more
    than enough for an index of a 65-entry array. *)
Fixpoint heapify_up_loop (fuel : nat) (stride_idx : Z) : K Z :=
  match fuel with
  | O => stop_with NoFuel
  | S fuel =>
      if stride_idx =? 1 then mret stride_idx else
      a ← qget stride_idx;
      b ← qget (stride_idx / 2);
      if ptr_lt a b then
        qset stride_idx b;;
        heapify_up_loop fuel (stride_idx / 2)
      else mret stride_idx
  end.

Definition stride_queue_heapify_up (stride_idx : Z) : K unit :=
  target_proc ← qget stride_idx;
  idx ← heapify_up_loop 64 stride_idx;
  qset idx target_proc.

Definition count_of (p : pptr) : K Z := x ← pderef p; mret (stride_count x).

(** The [while] loop of [stride_queue_heapify_down]. *)
Fixpoint heapify_down_loop (fuel : nat) (p : pptr) (stride_idx : Z) : K Z :=
  match fuel with
  | O => stop_with NoFuel
  | S fuel =>
      size ← gets stride_queue_size;
      if (stride_idx * 2 <? NPROC) && (stride_idx <=? size) then
        l ← qget (stride_idx * 2);
        r ← match l with Some _ => qget (stride_idx * 2 + 1) | None => mret None end;
        match l, r with
        | Some _, Some _ =>
            (* two children *)
            cl ← count_of l;
            cr ← count_of r;
            let idx := if cl <? cr then stride_idx * 2 else stride_idx * 2 + 1 in
            c ← qget idx;
            cc ← count_of c;
            cp ← count_of p;
            if cc <? cp then
              qset (idx / 2) c;;
              heapify_down_loop fuel p idx
            else mret (idx / 2)
        | Some _, None =>
            (* only left child *)
            let idx := stride_idx * 2 in
            c ← qget idx;
            cc ← count_of c;
            cp ← count_of p;
            if cc <? cp then
              qset (idx / 2) c;;
              mret idx
            else mret (idx / 2)
        | _, _ => mret stride_idx
        end
      else mret stride_idx
  end.

Definition stride_queue_heapify_down (stride_idx : Z) : K unit :=
  p ← qget stride_idx;
  idx ← heapify_down_loop 64 p stride_idx;
  qset idx p.

(** The [while] loop of [stride_queue_push]: every ancestor of the new last
    slot moves down one level. *)
Fixpoint push_loop (fuel : nat) (idx : Z) : K Z :=
  match fuel with
  | O => stop_with NoFuel
  | S fuel =>
      if idx =? 1 then mret idx else
      a ← qget (idx / 2);
      qset idx a;;
      push_loop fuel (idx / 2)
  end.

Definition stride_queue_push (proc : nat) : K unit :=
  root ← qget 1;
  match root with
  | Some _ =>
      c ← count_of root;
      pupd proc (fun p => p <| stride_count := c |>)
  | None => mret tt
  end;;
  modify (fun k => k <| stride_queue_size := i32 (stride_queue_size k + 1) |>);;
  size ← gets stride_queue_size;
  idx ← push_loop 64 size;
  qset idx (Some proc).

(** The last part of [stride_queue_delete]: restore the heap around the slot
    that was overwritten.  [uninit] is the value that the local variable
    [heapify_up] happens to have when no branch assigns it. *)
Definition delete_heapify (uninit : bool) (stride_idx : Z) : K unit :=
  size ← gets stride_queue_size;
  heapify_up ←
    (if stride_idx =? 1 then mret false
     else if (stride_idx <=? size) && negb (stride_idx =? 1) then
       a ← qget stride_idx;
       ca ← count_of a;
       b ← qget (stride_idx / 2);
       cb ← count_of b;
       mret (ca <? cb)
     else mret uninit);
  if (size =? 0) || (size =? 1) then mret tt
  else if (heapify_up : bool) then stride_queue_heapify_down stride_idx
  else stride_queue_heapify_up stride_idx.

(** [stride_queue_delete(p)] ignores its argument and works on the current
    process. *)
Definition stride_queue_delete (uninit : bool) (p : nat) : K unit :=
  me ← the_proc;
  x ← pget me;
  modify (fun k => k <| sum_cpu_share := i32 (sum_cpu_share k - cpu_share x) |>);;
  found ← for_list (seqZ 1 (NSTRIDE_QUEUE - 1)) (fun i =>
    q ← qget i;
    mret (if decide (q = Some me) then Some i else None));
  match found with
  | None => panic "exit(): a process is not in the stride scheduler"
  | Some stride_idx =>
      size ← gets stride_queue_size;
      last ← qget size;
      qset stride_idx last;;
      qset size None;;
      modify (fun k => k <| stride_queue_size := i32 (size - 1) |>);;
      delete_heapify uninit stride_idx
  end.

(** The descent of [find_idx_of_stride_to_run]. *)
Fixpoint find_loop (fuel : nat) (stride_find_idx : Z) : K Z :=
  match fuel with
  | O => stop_with NoFuel
  | S fuel =>
      size ← gets stride_queue_size;
      if stride_find_idx <=? size then
        q ← qget stride_find_idx;
        i ← deref q;
        x ← pget i;
        if decide (pstate x = RUNNABLE) then
          pupd i (fun p => p <| stride_count := i32 (stride_count p + stride p) |>);;
          stride_queue_heapify_down stride_find_idx;;
          mret stride_find_idx
        else
          let left_child := stride_find_idx * 2 in
          let right_child := stride_find_idx * 2 + 1 in
          if right_child <=? size then
            l ← qget left_child; cl ← count_of l;
            r ← qget right_child; cr ← count_of r;
            find_loop fuel (if cl <? cr then left_child else right_child)
          else if left_child >? size then find_loop fuel (size + 1)
          else find_loop fuel left_child
      else mret stride_find_idx
  end.

Definition find_idx_of_stride_to_run : K Z :=
  stride_find_idx ← find_loop 66 1;
  size ← gets stride_queue_size;
  if stride_find_idx >=? size + 1 then
    found ← for_list (seqZ 1 size) (fun i =>
      q ← qget i;
      x ← pderef q;
      mret (if decide (pstate x = RUNNABLE) then Some i else None));
    mret (default stride_find_idx found)
  else mret stride_find_idx.

(** ** The heap invariant *)

(** The entry of a slot; null outside the array. *)
Definition slot (q : list pptr) (i : Z) : pptr := default None (array_get q i).

(** [p->stride_count]. *)
Definition key (ps : list proc) (p : pptr) : Z :=
  match p with
  | Some i => default 0 (stride_count <$> ps !! i)
  | None => 0
  end.

(** The shape of the queue: the slots [1..stride_queue_size] hold pairwise
    distinct processes of the table and every other slot is null. *)
Record wf_queue (k : kstate) : Prop := {
  wq_procs : length (procs k) = 64%nat;
  wq_len : length (stride_queue k) = 65%nat;
  wq_size : 0 ≤ stride_queue_size k ≤ 64;
  wq_used : ∀ i, 1 ≤ i ≤ stride_queue_size k →
    ∃ p, slot (stride_queue k) i = Some p ∧ (p < 64)%nat;
  wq_null : ∀ i, i < 1 ∨ stride_queue_size k < i → slot (stride_queue k) i = None;
  wq_inj : ∀ i j p, slot (stride_queue k) i = Some p → slot (stride_queue k) j = Some p → i = j
}.

(** Heap order: no process has a smaller count than its parent. *)
Definition heap_order (k : kstate) : Prop :=
  ∀ i, 2 ≤ i ≤ stride_queue_size k →
    key (procs k) (slot (stride_queue k) (i / 2)) ≤ key (procs k) (slot (stride_queue k) i).

(** The processes in the queue. *)
Definition queued (k : kstate) : list nat := omap id (stride_queue k).

(** The shape only depends on the queue itself. *)
Lemma wf_queue_frame k k' :
  wf_queue k → length (procs k') = 64%nat → stride_queue k' = stride_queue k →
  stride_queue_size k' = stride_queue_size k → wf_queue k'.
Proof.
  intros [_ Hl Hsz Hu Hn Hinj] Hp Hq Hs. split; rewrite ?Hq, ?Hs; assumption.
Qed.

Lemma slot_upd (q : list pptr) (i j : Z) (x : pptr) :
  0 ≤ i < Z.of_nat (length q) →
  slot (<[Z.to_nat i := x]> q) j = if decide (i = j) then x else slot q j.
Proof.
  intros Hi. unfold slot, array_get.
  destruct (Z.leb_spec 0 j); [|by rewrite decide_False by lia].
  case_decide as E.
  - subst j. rewrite list_lookup_insert_eq by lia. done.
  - by rewrite list_lookup_insert_ne by lia.
Qed.

Lemma slot_get (q : list pptr) (i : Z) :
  0 ≤ i < Z.of_nat (length q) → array_get q i = Some (slot q i).
Proof. intros Hi%array_get_in. unfold slot. by destruct Hi as [x ->]. Qed.

Lemma slot_lookup (q : list pptr) (i : Z) :
  0 ≤ i < Z.of_nat (length q) → q !! Z.to_nat i = Some (slot q i).
Proof. intros Hi. by apply array_get_Some, slot_get. Qed.

Lemma qget_slot k i :
  length (stride_queue k) = 65%nat → 0 ≤ i ≤ 64 → qget i k = Ok (slot (stride_queue k) i) k.
Proof. intros Hl Hi. unfold qget. m_unfold. by rewrite slot_get by lia. Qed.

Lemma wp_qget_slot i (Q : pptr → kstate → Prop) E k :
  length (stride_queue k) = 65%nat → 0 ≤ i ≤ 64 →
  Q (slot (stride_queue k) i) k → wp (qget i) Q E k.
Proof. intros Hl Hi HQ. eapply wp_qget; [apply slot_get; lia | done]. Qed.

Lemma wp_count_of (p : nat) (Q : Z → kstate → Prop) E k :
  length (procs k) = 64%nat → (p < 64)%nat →
  Q (key (procs k) (Some p)) k → wp (count_of (Some p)) Q E k.
Proof.
  intros Hl Hp HQ. destruct (lookup_lt_is_Some_2 (procs k) p) as [x Hx]; [lia|].
  unfold count_of. wp_step. eapply wp_pderef; [done|]. wp_run.
  unfold key in HQ. by rewrite Hx in HQ.
Qed.

(** The queue [q] with the process [p] written into slot [i]. *)
Definition with_slot (k : kstate) (i : Z) (p : pptr) : kstate :=
  k <| stride_queue := <[Z.to_nat i := p]> (stride_queue k) |>.

(** Heap order everywhere but between slot [i] and its children, which are
    still no smaller than the parent of [i]. *)
Definition heap_below (k : kstate) (i : Z) : Prop :=
  (∀ j, 2 ≤ j ≤ stride_queue_size k → j / 2 ≠ i →
     key (procs k) (slot (stride_queue k) (j / 2)) ≤ key (procs k) (slot (stride_queue k) j)) ∧
  (∀ j, 2 ≤ j ≤ stride_queue_size k → j / 2 = i → 2 ≤ i →
     key (procs k) (slot (stride_queue k) (i / 2)) ≤ key (procs k) (slot (stride_queue k) j)).

Lemma heap_below_done k i :
  heap_below k i →
  (∀ j, 2 ≤ j ≤ stride_queue_size k → j / 2 = i →
     key (procs k) (slot (stride_queue k) i) ≤ key (procs k) (slot (stride_queue k) j)) →
  heap_order k.
Proof.
  intros [H1 _] H2 j Hj. destruct (decide (j / 2 = i)) as [<-|]; auto.
Qed.

Section swap.
Context (k : kstate) (i j : Z).
Context (Hwf : wf_queue k) (Hi : 1 ≤ i ≤ stride_queue_size k).
Context (Hj : 1 ≤ j ≤ stride_queue_size k) (Hij : i ≠ j).

Definition swapped : kstate :=
  k <| stride_queue := <[Z.to_nat j := slot (stride_queue k) i]>
                         (<[Z.to_nat i := slot (stride_queue k) j]> (stride_queue k)) |>.

Lemma slot_swapped (m : Z) :
  slot (stride_queue swapped) m =
    if decide (m = j) then slot (stride_queue k) i
    else if decide (m = i) then slot (stride_queue k) j
    else slot (stride_queue k) m.
Proof.
  pose proof (wq_len _ Hwf) as Hl. pose proof (wq_size _ Hwf) as Hs. simpl.
  rewrite !slot_upd by (rewrite ?length_insert; lia).
  repeat case_decide; congruence.
Qed.

Lemma queued_swapped : queued swapped ≡ₚ queued k.
Proof.
  pose proof (wq_len _ Hwf) as Hl. pose proof (wq_size _ Hwf) as Hs.
  unfold queued, swapped. simpl.
  rewrite Permutation_insert_swap; [done | apply slot_lookup; lia | apply slot_lookup; lia].
Qed.

Lemma wf_swapped : wf_queue swapped.
Proof.
  pose proof Hwf as [Hp Hl Hs Hu Hn Hinj]. split; try done.
  - simpl. by rewrite !length_insert.
  - intros m Hm. rewrite slot_swapped. simpl in Hm.
    repeat case_decide; auto.
  - intros m Hm. rewrite slot_swapped. simpl in Hm.
    rewrite !decide_False by lia. by apply Hn.
  - intros m m' p. rewrite !slot_swapped. simpl.
    repeat case_decide; subst; intros Hq1 Hq2; try done; pose proof (Hinj _ _ _ Hq1 Hq2); lia.
Qed.

(** Moving the smaller child [j] of slot [i] up. *)
Lemma heap_below_swapped :
  heap_below k i → j / 2 = i →
  key (procs k) (slot (stride_queue k) j) ≤ key (procs k) (slot (stride_queue k) i) →
  (∀ m, 2 ≤ m ≤ stride_queue_size k → m / 2 = i →
     key (procs k) (slot (stride_queue k) j) ≤ key (procs k) (slot (stride_queue k) m)) →
  heap_below swapped j.
Proof.
  intros [H1 H2] Hc Hlt Hsib. split; intros m Hm Hmj; simpl in Hm; rewrite !slot_swapped; simpl.
  - rewrite (decide_False (P := m / 2 = j)) by done.
    destruct (decide (m = j)) as [->|Hne].
    { rewrite decide_True by done. done. }
    destruct (decide (m = i)) as [->|Hne'].
    { rewrite (decide_False (P := i / 2 = i)) by dlia. apply H2; dlia. }
    destruct (decide (m / 2 = i)); auto.
  - intros Hj2. rewrite (decide_False (P := m = j)) by dlia.
    rewrite (decide_False (P := m = i)) by dlia. rewrite (decide_False (P := j / 2 = j)) by dlia.
    rewrite decide_True by done. rewrite <-Hmj at 1. apply H1; dlia.
Qed.
End swap.

(** ** heapify_down *)

Lemma slot_with_slot k i j p :
  length (stride_queue k) = 65%nat → 0 ≤ i ≤ 64 →
  slot (stride_queue (with_slot k i p)) j =
    if decide (i = j) then p else slot (stride_queue k) j.
Proof. intros Hl Hi. simpl. apply slot_upd. lia. Qed.

(** Filling the hole at [i] with the child [j] and putting [p] there. *)
Lemma with_slot_swapped k i j p :
  length (stride_queue k) = 65%nat → 0 ≤ i ≤ 64 → i ≠ j →
  with_slot (with_slot k i (slot (stride_queue k) j)) j p = swapped (with_slot k i p) i j.
Proof.
  intros Hl Hi Hij. unfold swapped.
  rewrite !slot_with_slot by done. rewrite decide_True, decide_False by done.
  unfold with_slot. simpl. by rewrite list_insert_insert_eq.
Qed.

Lemma with_slot_with_slot k i p p' : with_slot (with_slot k i p) i p' = with_slot k i p'.
Proof. unfold with_slot. simpl. by rewrite list_insert_insert_eq. Qed.

(** What the sift-down loop guarantees when it stops in [k'] with the hole at
    [j], started from [k] with the hole at [i], for the process [p] to be
    written into the hole. *)
Definition sifted (k : kstate) (i : Z) (p : pptr) (j : Z) (k' : kstate) : Prop :=
  1 ≤ j ≤ stride_queue_size k ∧ (∃ q, k' = k <| stride_queue := q |>) ∧
  wf_queue (with_slot k' j p) ∧
  queued (with_slot k' j p) ≡ₚ queued (with_slot k i p) ∧
  (stride_queue_size k ≤ 63 → heap_below (with_slot k i p) i → heap_order (with_slot k' j p)).

Lemma sifted_stay k i p :
  1 ≤ i ≤ stride_queue_size k → wf_queue (with_slot k i p) →
  (stride_queue_size k ≤ 63 → ∀ j, 2 ≤ j ≤ stride_queue_size k → j / 2 = i →
     key (procs k) p ≤ key (procs k) (slot (stride_queue k) j)) →
  sifted k i p i k.
Proof.
  intros Hi Hwf Hc. split; [done|]. split; [exists (stride_queue k); by destruct k|].
  split; [done|]. split; [done|]. intros Hs Hb. apply (heap_below_done _ i Hb).
  pose proof (wq_len _ Hwf) as Hl. simpl in Hl. rewrite length_insert in Hl.
  pose proof (wq_size _ Hwf) as Hsz. simpl in Hsz.
  intros j Hj Hji. simpl in Hj. rewrite !slot_with_slot by (done || lia).
  rewrite decide_True by done. rewrite decide_False by dlia. by apply Hc.
Qed.

(** One level down: the child [c] moves up and the rest of the loop runs
    from [c]. *)
Lemma sifted_move k i c p j k' :
  1 ≤ i ≤ stride_queue_size k → 2 ≤ c ≤ stride_queue_size k → c / 2 = i →
  wf_queue (with_slot k i p) →
  key (procs k) (slot (stride_queue k) c) ≤ key (procs k) p →
  (∀ m, 2 ≤ m ≤ stride_queue_size k → m / 2 = i →
     key (procs k) (slot (stride_queue k) c) ≤ key (procs k) (slot (stride_queue k) m)) →
  (wf_queue (with_slot (with_slot k i (slot (stride_queue k) c)) c p) →
   sifted (with_slot k i (slot (stride_queue k) c)) c p j k') →
  sifted k i p j k'.
Proof.
  intros Hi Hc Hci Hwf Hlt Hsib Hrest.
  pose proof (wq_len _ Hwf) as Hl. simpl in Hl. rewrite length_insert in Hl.
  pose proof (wq_size _ Hwf) as Hsz. simpl in Hsz.
  assert (Hne : i ≠ c) by dlia.
  rewrite with_slot_swapped in Hrest by (done || lia).
  assert (Hwf' : wf_queue (swapped (with_slot k i p) i c)) by (apply wf_swapped; simpl; auto; lia).
  destruct (Hrest Hwf') as (Hj & [q ->] & Hw & Hperm & Hheap).
  rewrite with_slot_swapped in Hperm, Hheap by (done || lia).
  split; [done|]. split; [by exists q|]. split; [done|]. split.
  - rewrite Hperm. apply queued_swapped; simpl; auto; lia.
  - intros Hs Hb. apply Hheap; [done|].
    apply heap_below_swapped; simpl; auto; try lia.
    + rewrite !slot_upd by lia. rewrite decide_False, decide_True by done. done.
    + intros m Hm Hmi. rewrite !slot_upd by lia.
      rewrite (decide_False (P := i = c)) by done. rewrite (decide_False (P := i = m)) by dlia. auto.
Qed.

(** The slots of a queue with a hole at [i]: what the loop reads. *)
Lemma hole_used k i p c :
  wf_queue (with_slot k i p) → 0 ≤ i ≤ 64 → c ≠ i → 1 ≤ c ≤ stride_queue_size k →
  ∃ x, slot (stride_queue k) c = Some x ∧ (x < 64)%nat.
Proof.
  intros Hwf Hi Hc Hs. destruct (wq_used _ Hwf c) as (x & Hx & ?); [done|].
  pose proof (wq_len _ Hwf) as Hl. simpl in Hl. rewrite length_insert in Hl.
  rewrite slot_with_slot, decide_False in Hx by (done || lia). eauto.
Qed.

Lemma hole_null k i p c :
  wf_queue (with_slot k i p) → 0 ≤ i ≤ 64 → c ≠ i → stride_queue_size k < c →
  slot (stride_queue k) c = None.
Proof.
  intros Hwf Hi Hc Hs. pose proof (wq_null _ Hwf c) as Hn.
  pose proof (wq_len _ Hwf) as Hl. simpl in Hl. rewrite length_insert in Hl.
  rewrite slot_with_slot, decide_False in Hn by (done || lia). apply Hn. simpl. lia.
Qed.

(** The comparison with the chosen child [c], common to the two branches of
    the loop; [rest] is what the loop does after moving [c] up. *)
Lemma wp_compare_child (k : kstate) (i c : Z) (p : nat) (rest : K Z) :
  1 ≤ i ≤ stride_queue_size k → 2 ≤ c ≤ stride_queue_size k → c / 2 = i →
  wf_queue (with_slot k i (Some p)) → (p < 64)%nat →
  (∀ m, 2 ≤ m ≤ stride_queue_size k → m / 2 = i →
     key (procs k) (slot (stride_queue k) c) ≤ key (procs k) (slot (stride_queue k) m)) →
  (let k1 := with_slot k i (slot (stride_queue k) c) in
   wf_queue (with_slot k1 c (Some p)) → wpt rest (fun j k' => sifted k1 c (Some p) j k') k1) →
  wpt (x ← qget c; cc ← count_of x; cp ← count_of (Some p);
       if cc <? cp then qset (c / 2) x;; rest else mret (c / 2))
    (fun j k' => sifted k i (Some p) j k') k.
Proof.
  intros Hi Hc Hci Hwf Hp Hmin Hrest.
  pose proof (wq_procs _ Hwf) as Hpl. simpl in Hpl.
  pose proof (wq_size _ Hwf) as Hsz. simpl in Hsz.
  pose proof (wq_len _ Hwf) as Hl. simpl in Hl. rewrite length_insert in Hl.
  destruct (hole_used k i (Some p) c) as (xc & Hxc & Hxc64); [done | lia | dlia | lia |].
  wp_step. apply wp_qget_slot; [done | lia |]. rewrite Hxc.
  wp_step. apply wp_count_of; [done..|]. wp_step. apply wp_count_of; [done..|].
  rewrite <-Hxc, Hci.
  destruct (Z.ltb_spec (key (procs k) (slot (stride_queue k) c)) (key (procs k) (Some p))).
  - wp_step. apply wp_qset; [lia|]. fold (with_slot k i (slot (stride_queue k) c)).
    assert (Hne : i ≠ c) by dlia.
    assert (Hw : wf_queue (with_slot (with_slot k i (slot (stride_queue k) c)) c (Some p))).
    { rewrite with_slot_swapped by (done || lia). apply wf_swapped; simpl; auto; lia. }
    eapply wp_weaken; [by apply Hrest|]. intros j k' ?. eapply (sifted_move k i c); auto; lia.
  - wp_step. apply sifted_stay; auto. intros _ m Hm Hmi. specialize (Hmin m Hm Hmi). lia.
Qed.

Lemma heapify_down_loop_spec (fuel : nat) (p : nat) (i : Z) (k : kstate) :
  1 ≤ i ≤ stride_queue_size k → wf_queue (with_slot k i (Some p)) → (p < 64)%nat →
  (1 ≤ fuel)%nat → 34 ≤ i + Z.of_nat fuel →
  wpt (heapify_down_loop fuel (Some p) i) (fun j k' => sifted k i (Some p) j k') k.
Proof.
  revert i k. induction fuel as [|fuel IH]; intros i k Hi Hwf Hp Hf1 Hf; [lia|]. simpl.
  pose proof (wq_procs _ Hwf) as Hpl. simpl in Hpl.
  pose proof (wq_size _ Hwf) as Hsz. simpl in Hsz.
  pose proof (wq_len _ Hwf) as Hl. simpl in Hl. rewrite length_insert in Hl.
  do 2 wp_step. destruct (Z.ltb_spec (i * 2) NPROC) as [H64|H64]; unfold NPROC in H64; simpl.
  2:{ wp_step. apply sifted_stay; auto. intros. exfalso. dlia. }
  destruct (Z.leb_spec i (stride_queue_size k)); [|lia].
  wp_step. apply wp_qget_slot; [done | lia |].
  destruct (Z.le_gt_cases (i * 2) (stride_queue_size k)) as [Hleft|Hleft].
  2:{ rewrite (hole_null k i (Some p)) by (done || lia). do 3 wp_step.
      apply sifted_stay; auto. intros. exfalso. dlia. }
  destruct (hole_used k i (Some p) (i * 2)) as (xl & Hxl & Hxl64); [done | lia..|].
  rewrite Hxl. wp_step. apply wp_qget_slot; [done | lia |].
  destruct (Z.le_gt_cases (i * 2 + 1) (stride_queue_size k)) as [Hright|Hright].
  - (* two children *)
    destruct (hole_used k i (Some p) (i * 2 + 1)) as (xr & Hxr & Hxr64); [done | lia..|].
    rewrite Hxr.
    wp_step. apply wp_count_of; [done | done |]. wp_step. apply wp_count_of; [done | done |].
    rewrite <-Hxl, <-Hxr.
    apply wp_compare_child; auto; try (case_match; dlia).
    + intros m Hm Hmi. assert (m = i * 2 ∨ m = i * 2 + 1) as [-> | ->] by dlia;
        destruct (Z.ltb_spec (key (procs k) (slot (stride_queue k) (i * 2)))
                    (key (procs k) (slot (stride_queue k) (i * 2 + 1)))); lia.
    + intros k1 Hw. apply IH; auto; simpl; try lia; case_match; lia.
  - (* only the left child *)
    rewrite (hole_null k i (Some p)) by (done || lia).
    apply wp_compare_child; auto; try lia; try dlia.
    + intros m Hm Hmi. by replace m with (i * 2) by dlia.
    + intros k1 Hw. wp_step. apply sifted_stay; simpl; auto; [lia|].
      intros _ m Hm Hmi. exfalso. dlia.
Qed.

Arguments heapify_down_loop : simpl never.

Lemma with_slot_id k i :
  length (stride_queue k) = 65%nat → 0 ≤ i ≤ 64 → with_slot k i (slot (stride_queue k) i) = k.
Proof.
  intros Hl Hi. unfold with_slot. rewrite list_insert_id by (apply slot_lookup; lia). by destruct k.
Qed.

(** [stride_queue_heapify_down(i)] keeps the shape and the processes of the
    queue, changes nothing else, and restores heap order when the only
    violation is that the count in slot [i] has grown. *)
Lemma heapify_down_spec (i : Z) (k : kstate) :
  wf_queue k → 1 ≤ i ≤ stride_queue_size k →
  wpt (stride_queue_heapify_down i) (fun _ k' =>
    (∃ q, k' = k <| stride_queue := q |>) ∧ wf_queue k' ∧ queued k' ≡ₚ queued k ∧
    (stride_queue_size k ≤ 63 → heap_below k i → heap_order k')) k.
Proof.
  intros Hwf Hi. unfold stride_queue_heapify_down.
  pose proof (wq_size _ Hwf) as Hsz. pose proof (wq_len _ Hwf) as Hl.
  destruct (wq_used _ Hwf i Hi) as (p & Hp & Hp64).
  wp_step. apply wp_qget_slot; [done | lia |]. rewrite Hp.
  assert (Hself : with_slot k i (Some p) = k).
  { rewrite <-Hp. apply with_slot_id; lia. }
  wp_step. eapply wp_weaken; [apply heapify_down_loop_spec; rewrite ?Hself; done || lia|].
  intros j k' (Hj & [q ->] & Hw & Hperm & Hh). rewrite Hself in Hperm, Hh.
  pose proof (wq_len _ Hw) as Hl'. simpl in Hl'. rewrite length_insert in Hl'.
  apply wp_qset; [simpl; lia|]. fold (with_slot (k <| stride_queue := q |>) j (Some p)).
  split; [|by auto]. by eexists.
Qed.

(** ** Push *)

(** Heap order everywhere but between slot [i] and its parent; the children
    of [i] are no smaller than the parent of [i]. *)
Definition heap_above (k : kstate) (i : Z) : Prop :=
  (∀ j, 2 ≤ j ≤ stride_queue_size k → j ≠ i →
     key (procs k) (slot (stride_queue k) (j / 2)) ≤ key (procs k) (slot (stride_queue k) j)) ∧
  (∀ j, 2 ≤ j ≤ stride_queue_size k → j / 2 = i → 2 ≤ i →
     key (procs k) (slot (stride_queue k) (i / 2)) ≤ key (procs k) (slot (stride_queue k) j)).

(** [p] has the least count of the queue. *)
Definition least (k : kstate) (p : pptr) : Prop :=
  ∀ j, 1 ≤ j ≤ stride_queue_size k → key (procs k) p ≤ key (procs k) (slot (stride_queue k) j).

Lemma least_swapped k i j p :
  wf_queue k → 1 ≤ i ≤ stride_queue_size k → 1 ≤ j ≤ stride_queue_size k → i ≠ j →
  least k p → least (swapped k i j) p.
Proof.
  intros Hwf Hi Hj Hij Hp m Hm. simpl in Hm. rewrite slot_swapped by done. simpl.
  repeat case_decide; auto.
Qed.

Lemma heap_above_swapped k i :
  wf_queue k → 2 ≤ i ≤ stride_queue_size k →
  least k (slot (stride_queue k) i) → heap_above k i →
  heap_above (swapped k i (i / 2)) (i / 2).
Proof.
  intros Hwf Hi Hp [H1 H2]. split; intros m Hm Hmi; simpl in Hm.
  - rewrite !slot_swapped by (done || dlia). simpl.
    rewrite (decide_False (P := m = i / 2)) by done.
    destruct (decide (m / 2 = i / 2)) as [E|].
    + destruct (decide (m = i)) as [->|]; apply Hp; dlia.
    + destruct (decide (m / 2 = i)) as [E'|].
      * rewrite (decide_False (P := m = i)) by dlia. apply H2; dlia.
      * assert (m ≠ i) by congruence. rewrite (decide_False (P := m = i)) by done. by apply H1.
  - intros Hi4. rewrite !slot_swapped by (done || dlia). simpl.
    rewrite (decide_False (P := i / 2 / 2 = i / 2)) by dlia.
    rewrite (decide_False (P := i / 2 / 2 = i)) by dlia.
    rewrite (decide_False (P := m = i / 2)) by dlia.
    assert (Hup : key (procs k) (slot (stride_queue k) (i / 2 / 2)) ≤
                  key (procs k) (slot (stride_queue k) (i / 2))) by (apply H1; dlia).
    destruct (decide (m = i)); [done|].
    etransitivity; [done|]. rewrite <-Hmi. apply H1; lia.
Qed.

Lemma push_loop_spec (fuel : nat) (i : Z) (p : nat) (k : kstate) :
  let v := with_slot k i (Some p) in
  1 ≤ i ≤ stride_queue_size k → i ≤ Z.of_nat fuel →
  wf_queue v → least v (Some p) → heap_above v i →
  wpt (push_loop fuel i) (fun j k' =>
    let v' := with_slot k' j (Some p) in
    j = 1 ∧ (∃ q, k' = k <| stride_queue := q |>) ∧
    wf_queue v' ∧ heap_order v' ∧ queued v' ≡ₚ queued v) k.
Proof.
  revert i k. induction fuel as [|fuel IH]; intros i k v Hi Hf Hwf Hleast Hh; [lia|]. simpl.
  pose proof (wq_size _ Hwf) as Hsz. simpl in Hsz.
  pose proof (wq_len _ Hwf) as Hl. simpl in Hl. rewrite length_insert in Hl.
  destruct (Z.eqb_spec i 1) as [->|Hi1].
  { wp_step. split; [done|]. split; [exists (stride_queue k); by destruct k|].
    split; [done|]. split; [|done]. intros j Hj. apply Hh; [done | lia]. }
  assert (Hslot : slot (stride_queue v) i = Some p).
  { unfold v. rewrite slot_with_slot by (done || lia). by rewrite decide_True. }
  assert (Hne : i ≠ i / 2) by dlia.
  wp_step. apply wp_qget_slot; [done | dlia |].
  wp_step. apply wp_qset; [lia|]. fold (with_slot k i (slot (stride_queue k) (i / 2))).
  pose proof (with_slot_swapped k i (i / 2) (Some p) Hl ltac:(lia) Hne) as Hsw.
  eapply wp_weaken; [apply IH; rewrite ?Hsw; simpl|].
  - dlia.
  - dlia.
  - apply wf_swapped; simpl; auto; dlia.
  - apply least_swapped; simpl; auto; dlia.
  - apply heap_above_swapped; [done | simpl; lia | | done].
    change (least v (slot (stride_queue v) i)). by rewrite Hslot.
  - intros j k' (-> & [q ->] & Hw & Ho & Hperm). split; [done|]. split; [by exists q|].
    split; [done|]. split; [done|]. rewrite Hperm, Hsw.
    apply queued_swapped; simpl; auto; dlia.
Qed.

Arguments push_loop : simpl never.

Lemma elem_of_queued k p : p ∈ queued k ↔ ∃ j, slot (stride_queue k) j = Some p.
Proof.
  unfold queued. rewrite list_elem_of_omap. unfold slot, array_get. split.
  - intros (x & Hx & Hid). simpl in Hid. subst x. apply list_elem_of_lookup in Hx as [j Hj].
    exists (Z.of_nat j). destruct (Z.leb_spec 0 (Z.of_nat j)); [|lia]. by rewrite Nat2Z.id, Hj.
  - intros [j Hj]. destruct (Z.leb_spec 0 j); [|done].
    destruct (stride_queue k !! Z.to_nat j) as [x|] eqn:E; [|done]. simpl in Hj. subst x.
    exists (Some p). split; [|done]. apply list_elem_of_lookup. eauto.
Qed.

Lemma omap_insert_null (q : list pptr) (n : nat) (p : nat) :
  q !! n = Some None → omap id (<[n := Some p]> q) ≡ₚ p :: omap id q.
Proof.
  revert n. induction q as [|x q IH]; intros [|n] Hn; simplify_eq/=; [done|].
  destruct x as [x|]; simpl; rewrite IH by done; [by apply Permutation_swap | done].
Qed.

(** The root of a heap is its minimum. *)
Lemma root_least k : heap_order k → least k (slot (stride_queue k) 1).
Proof.
  intros Hh j. induction j as [j IH] using (well_founded_induction (Z.lt_wf 0)). intros Hj.
  destruct (decide (j = 1)) as [->|]; [done|].
  etransitivity; [apply (IH (j / 2)); dlia | apply Hh; lia].
Qed.

(** The process that the loop of [stride_queue_push] is about to insert is
    the least of the queue. *)
Lemma push_start (k : kstate) (p : nat) (x : proc) :
  let n := stride_queue_size k + 1 in
  let c := match slot (stride_queue k) 1 with
           | Some _ => key (procs k) (slot (stride_queue k) 1)
           | None => stride_count x
           end in
  let v := with_slot (k <| procs := <[p := x <| stride_count := c |>]> (procs k) |>
                        <| stride_queue_size := n |>) n (Some p) in
  wf_queue k → heap_order k → stride_queue_size k < 64 → (p < 64)%nat → p ∉ queued k →
  wf_queue v ∧ least v (Some p) ∧ heap_above v n ∧ queued v ≡ₚ p :: queued k.
Proof.
  intros n c v Hwf Hh Hs Hp Hnq. pose proof Hwf as [Hpl Hl Hsz Hu Hn Hinj].
  assert (Hfree : ∀ j, slot (stride_queue k) j ≠ Some p).
  { intros j Hj. apply Hnq, elem_of_queued. eauto. }
  assert (Hslot : ∀ j, slot (stride_queue v) j = if decide (n = j) then Some p else slot (stride_queue k) j).
  { intros j. unfold v. rewrite slot_with_slot; simpl; done || lia. }
  assert (Hkey : ∀ j, key (procs v) (slot (stride_queue k) j) = key (procs k) (slot (stride_queue k) j)).
  { intros j. specialize (Hfree j). unfold key. simpl.
    destruct (slot (stride_queue k) j) as [y|]; [|done].
    rewrite list_lookup_insert_ne by congruence. done. }
  assert (Hkeyp : key (procs v) (Some p) = c).
  { simpl. by rewrite list_lookup_insert_eq by lia. }
  split; [|split; [|split]].
  - split.
    + simpl. by rewrite length_insert.
    + simpl. by rewrite length_insert.
    + simpl. lia.
    + intros i Hi. simpl in Hi. rewrite Hslot. case_decide; [eauto | apply Hu; lia].
    + intros i Hi. simpl in Hi. rewrite Hslot. rewrite decide_False by lia. apply Hn. lia.
    + intros i j y. rewrite !Hslot. repeat case_decide; subst; intros E1 E2; try done.
      * simplify_eq. by apply Hfree in E2.
      * simplify_eq. by apply Hfree in E1.
      * eauto.
  - intros j Hj. simpl in Hj. rewrite Hslot. case_decide; [done|]. rewrite Hkey, Hkeyp.
    unfold c. destruct (Hu 1) as (r & Hr & _); [lia|]. rewrite Hr. rewrite <-Hr. apply root_least; [done | lia].
  - split; intros j Hj Hjn; simpl in Hj; rewrite !Hslot.
    + rewrite !decide_False by dlia. rewrite !Hkey. apply Hh. lia.
    + intros. exfalso. dlia.
  - unfold queued. simpl. apply omap_insert_null.
    rewrite slot_lookup by lia. f_equal. apply Hn. lia.
Qed.

(** What [stride_queue_push] does, with the part of the state it leaves alone. *)
Lemma stride_queue_push_spec (k : kstate) (p : nat) (x : proc) :
  wf_queue k → heap_order k → stride_queue_size k < 64 → procs k !! p = Some x → p ∉ queued k →
  wpt (stride_queue_push p) (fun _ k' =>
    (∃ c q, k' = k <| procs := <[p := x <| stride_count := c |>]> (procs k) |>
                   <| stride_queue_size := stride_queue_size k + 1 |> <| stride_queue := q |>) ∧
    wf_queue k' ∧ heap_order k' ∧ slot (stride_queue k') 1 = Some p ∧
    queued k' ≡ₚ p :: queued k) k.
Proof.
  intros Hwf Hh Hs Hx Hnq. pose proof Hwf as [Hpl Hl Hsz Hu Hn Hinj].
  assert (Hp : (p < 64)%nat) by (apply lookup_lt_Some in Hx; lia).
  destruct (push_start k p x Hwf Hh Hs Hp Hnq) as (Hwf' & Hleast & Habove & Hperm).
  unfold stride_queue_push. wp_step. apply wp_qget_slot; [done | lia |]. wp_step.
  eapply (wp_weaken _ (fun _ k1 => k1 = k <| procs := <[p := x <| stride_count :=
      match slot (stride_queue k) 1 with
      | Some _ => key (procs k) (slot (stride_queue k) 1)
      | None => stride_count x end |>]> (procs k) |>)).
  { destruct (slot (stride_queue k) 1) as [r|] eqn:Hr.
    - wp_step. apply wp_count_of; [done | |]; [|by eapply wp_pupd].
      destruct (Hu 1) as (r' & Hr' & ?); [|congruence].
      destruct (decide (stride_queue_size k < 1)); [rewrite Hn in Hr by lia; done | lia].
    - wp_step. rewrite list_insert_id; [by destruct k|]. rewrite Hx. by destruct x. }
  intros _ k1 ->. wp_run. simpl. rewrite i32_id by (unfold INT_MIN, INT_MAX; lia).
  eapply wp_weaken; [apply (push_loop_spec 64 _ p); simpl; auto; lia|].
  intros j k2 (-> & [q ->] & Hw & Ho & Hpq).
  pose proof (wq_len _ Hw) as Hl'. simpl in Hl'. rewrite length_insert in Hl'.
  apply wp_qset; [simpl; lia|].
  set (k3 := with_slot _ 1 (Some p)) in Hw, Ho, Hpq.
  change (_ <| stride_queue := <[Z.to_nat 1 := Some p]> _ |>) with k3.
  assert (Hroot : slot (stride_queue k3) 1 = Some p).
  { unfold k3. rewrite slot_with_slot by done. by rewrite decide_True. }
  split; [by eexists _, _|]. split; [done|]. split; [done|]. split; [done|]. by rewrite Hpq.
Qed.

(** C20: Pushing a process that is not queued onto a queue with room keeps the
    queue a well-formed heap, makes the process its root with the least count
    of the queue, and adds exactly that process; no other process changes. *)
Theorem stride_queue_push_correct (k : kstate) (p : nat) :
  wf_queue k → heap_order k → stride_queue_size k < 64 → (p < 64)%nat → p ∉ queued k →
  ∃ k', stride_queue_push p k = Ok tt k' ∧
    wf_queue k' ∧ heap_order k' ∧
    stride_queue_size k' = stride_queue_size k + 1 ∧
    slot (stride_queue k') 1 = Some p ∧ least k' (Some p) ∧
    queued k' ≡ₚ p :: queued k ∧
    (∀ i, i ≠ p → procs k' !! i = procs k !! i).
Proof.
  intros Hwf Hh Hs Hp Hnq.
  destruct (lookup_lt_is_Some_2 (procs k) p) as [x Hx]; [rewrite (wq_procs _ Hwf); lia|].
  destruct (proj1 (wpt_ok _ _ _) (stride_queue_push_spec k p x Hwf Hh Hs Hx Hnq))
    as ([] & k' & Hr & (c & q & ->) & Hw & Ho & Hroot & Hq).
  eexists. split; [exact Hr|]. do 4 (split; [done|]). split; [by rewrite <-Hroot; apply root_least|].
  split; [done|]. intros i Hi. simpl. by rewrite list_lookup_insert_ne.
Qed.

(** The queue at boot is an empty heap. *)
Lemma slot_boot (i : Z) : slot (stride_queue boot_state) i = None.
Proof.
  unfold slot, array_get. case_match; [|done].
  destruct (stride_queue boot_state !! Z.to_nat i) as [o|] eqn:E; [|done].
  by apply (lookup_replicate 65) in E as [-> _].
Qed.

Lemma boot_queue_ok : wf_queue boot_state ∧ heap_order boot_state.
Proof.
  split; [split; try done|].
  - intros i Hi. simpl in Hi. lia.
  - intros i _. apply slot_boot.
  - intros i j p. by rewrite slot_boot.
  - intros i Hi. simpl in Hi. lia.
Qed.

Lemma stride_queue_push_correct_witness :
  ∃ k', stride_queue_push 5 boot_state = Ok tt k' ∧ heap_order k' ∧
    slot (stride_queue k') 1 = Some 5%nat.
Proof.
  destruct (stride_queue_push_correct boot_state 5) as (k' & Hr & _ & Hh & _ & Hroot & _);
    try apply boot_queue_ok; try (simpl; lia).
  - rewrite elem_of_queued. intros [j Hj]. by rewrite slot_boot in Hj.
  - exists k'. auto.
Defined.

(** ** Choosing the process to run *)

(** Charging a process: [p->stride_count += p->stride]. *)
Definition charge (x : proc) : proc := x <| stride_count := i32 (stride_count x + stride x) |>.

Definition charged (k : kstate) (p : nat) (x : proc) : kstate :=
  k <| procs := <[p := charge x]> (procs k) |>.

Lemma wf_charged k p x : wf_queue k → wf_queue (charged k p x).
Proof. intros [Hpl ?????]. split; try done. simpl. by rewrite length_insert. Qed.

(** Growing the count in slot [i] can only break the order below [i]. *)
Lemma heap_below_charged k i p x :
  wf_queue k → heap_order k → 1 ≤ i ≤ stride_queue_size k →
  slot (stride_queue k) i = Some p → procs k !! p = Some x →
  0 ≤ stride x → INT_MIN ≤ stride_count x → stride_count x + stride x ≤ INT_MAX →
  heap_below (charged k p x) i.
Proof.
  intros Hwf Hh Hi Hp Hx Hst Hmin Hmax. pose proof (wq_procs _ Hwf) as Hpl.
  assert (Hp64 : (p < 64)%nat) by (apply lookup_lt_Some in Hx; lia).
  assert (Hgrow : key (procs k) (Some p) ≤ key (procs (charged k p x)) (Some p)).
  { simpl. rewrite list_lookup_insert_eq by lia. rewrite Hx. simpl.
    rewrite i32_id by lia. lia. }
  assert (Hsame : ∀ j, j ≠ i → key (procs (charged k p x)) (slot (stride_queue k) j) =
                               key (procs k) (slot (stride_queue k) j)).
  { intros j Hj. unfold key, charged. simpl.
    destruct (slot (stride_queue k) j) as [y|] eqn:E; [|done].
    rewrite list_lookup_insert_ne; [done|]. intros <-. by apply Hj, (wq_inj _ Hwf j i p). }
  split; intros j Hj Hji; simpl in Hj; unfold charged at 1 3; simpl;
    change (<[p := charge x]> (procs k)) with (procs (charged k p x)).
  - rewrite Hsame by done. specialize (Hh j Hj). destruct (decide (j = i)) as [->|].
    + rewrite Hp in *. lia.
    + rewrite Hsame by done. done.
  - intros Hi2. rewrite !Hsame by dlia. etransitivity; [apply (Hh i); lia|].
    specialize (Hh j Hj). by rewrite Hji in Hh.
Qed.

(** The state after the process [p] in slot [i] is charged and sifted down. *)
Definition rescheduled (k : kstate) (i : Z) (p : nat) (x : proc) (k' : kstate) : Prop :=
  (∃ q, k' = (charged k p x) <| stride_queue := q |>) ∧ wf_queue k' ∧ queued k' ≡ₚ queued k ∧
  (stride_queue_size k ≤ 63 → heap_below (charged k p x) i → heap_order k').

Lemma find_loop_spec (fuel : nat) (i : Z) (k : kstate) :
  wf_queue k → 1 ≤ i ≤ stride_queue_size k + 1 →
  (1 ≤ fuel)%nat → stride_queue_size k + 2 ≤ i + Z.of_nat fuel →
  wpt (find_loop fuel i) (fun r k' =>
    (r = stride_queue_size k + 1 ∧ k' = k) ∨
    (1 ≤ r ≤ stride_queue_size k ∧ ∃ p x,
       slot (stride_queue k) r = Some p ∧ procs k !! p = Some x ∧ pstate x = RUNNABLE ∧
       rescheduled k r p x k')) k.
Proof.
  intros Hwf. revert i. induction fuel as [|fuel IH]; intros i Hi Hf1 Hf; [lia|]. simpl.
  pose proof Hwf as [Hpl Hl Hsz Hu Hn Hinj].
  do 2 wp_step. destruct (Z.leb_spec i (stride_queue_size k)) as [Hle|Hgt].
  2:{ wp_step. left. split; [lia | done]. }
  wp_step. apply wp_qget_slot; [done | lia |].
  destruct (Hu i) as (p & Hp & Hp64); [lia|]. rewrite Hp. do 2 wp_step.
  destruct (lookup_lt_is_Some_2 (procs k) p) as [x Hx]; [lia|].
  wp_step. eapply wp_pget; [done|]. destruct (decide (pstate x = RUNNABLE)) as [Hrun|_].
  - wp_step. eapply wp_pupd; [done|]. fold (charge x). fold (charged k p x).
    wp_step. eapply wp_weaken; [apply heapify_down_spec; [by apply wf_charged | simpl; lia]|].
    intros _ k' (Hq & Hw & Hperm & Hh). wp_step. right. split; [lia|].
    exists p, x. do 3 (split; [done|]). by repeat (split; [done|]).
  - destruct (Z.leb_spec (i * 2 + 1) (stride_queue_size k)) as [Hr|Hr].
    + destruct (Hu (i * 2)) as (l & Hlq & ?); [lia|].
      destruct (Hu (i * 2 + 1)) as (r & Hrq & ?); [lia|].
      wp_step. apply wp_qget_slot; [done | lia |]. rewrite Hlq. wp_step. apply wp_count_of; [done..|].
      wp_step. apply wp_qget_slot; [done | lia |]. rewrite Hrq. wp_step. apply wp_count_of; [done..|].
      apply IH; try lia; case_match; lia.
    + destruct (Z.gtb_spec (i * 2) (stride_queue_size k)); apply IH; lia.
Qed.
Arguments find_loop : simpl never.

(** The linear scan that [find_idx_of_stride_to_run] falls back to. *)
Definition runnable_slot (k : kstate) (i : Z) : option Z :=
  match slot (stride_queue k) i with
  | Some p => match procs k !! p with
              | Some x => if decide (pstate x = RUNNABLE) then Some i else None
              | None => None
              end
  | None => None
  end.

Lemma find_scan (k : kstate) :
  wf_queue k →
  for_list (seqZ 1 (stride_queue_size k)) (fun i =>
      q ← qget i; x ← pderef q;
      mret (if decide (pstate x = RUNNABLE) then Some i else None)) k
  = Ok (first_some (runnable_slot k) (seqZ 1 (stride_queue_size k))) k.
Proof.
  intros [Hpl Hl Hsz Hu Hn Hinj]. apply for_list_pure. intros i Hi%elem_of_seqZ.
  destruct (Hu i) as (p & Hp & Hp64); [lia|].
  destruct (lookup_lt_is_Some_2 (procs k) p) as [x Hx]; [lia|].
  unfold pderef, runnable_slot. m_unfold. rewrite qget_slot, Hp by lia.
  by rewrite (pget_eq _ _ _ Hx), Hx.
Qed.

(** Some queued process is RUNNABLE. *)
Definition has_runnable (k : kstate) : Prop :=
  ∃ p x, p ∈ queued k ∧ procs k !! p = Some x ∧ pstate x = RUNNABLE.

Lemma runnable_slot_queued k r :
  wf_queue k → first_some (runnable_slot k) (seqZ 1 (stride_queue_size k)) = r →
  match r with
  | Some i => 1 ≤ i ≤ stride_queue_size k ∧ has_runnable k
  | None => ¬ has_runnable k
  end.
Proof.
  intros Hwf Hr. destruct r as [i|].
  - apply first_some_Some in Hr as (j & Hj%elem_of_seqZ & Hs). unfold runnable_slot in Hs.
    destruct (slot _ j) as [p|] eqn:Hp; [|done]. destruct (procs k !! p) as [x|] eqn:Hx; [|done].
    case_decide; [|done]. simplify_eq. split; [lia|]. exists p, x.
    split; [|done]. apply elem_of_queued. eauto.
  - intros (p & x & Hp & Hx & Hrun). apply elem_of_queued in Hp as [j Hj].
    rewrite first_some_None in Hr. specialize (Hr j). unfold runnable_slot in Hr.
    rewrite Hj, Hx, decide_True in Hr by done.
    enough (j ∈ seqZ 1 (stride_queue_size k)) as Hin by by specialize (Hr Hin).
    apply elem_of_seqZ. destruct (decide (1 ≤ j ≤ stride_queue_size k)); [lia|].
    rewrite (wq_null _ Hwf) in Hj by lia. done.
Qed.

(** The counts of the queued processes stay in the range of [int] when
    charged once more. *)
Definition no_overflow (k : kstate) : Prop :=
  ∀ p x, p ∈ queued k → procs k !! p = Some x →
    0 ≤ stride x ∧ INT_MIN ≤ stride_count x ∧ stride_count x + stride x ≤ INT_MAX.

(** What [find_idx_of_stride_to_run] does, with the part of the state it
    leaves alone. *)
Lemma find_idx_spec (k : kstate) :
  wf_queue k →
  wpt find_idx_of_stride_to_run (fun r k' =>
    (k' = k ∨ ∃ p x q, p ∈ queued k ∧ procs k !! p = Some x ∧
                       k' = (charged k p x) <| stride_queue := q |>) ∧
    1 ≤ r ∧ (r ≤ stride_queue_size k ↔ has_runnable k) ∧
    wf_queue k' ∧ queued k' ≡ₚ queued k ∧
    (stride_queue_size k ≤ 63 → no_overflow k → heap_order k → heap_order k')) k.
Proof.
  intros Hwf. pose proof (wq_size _ Hwf) as Hsz. unfold find_idx_of_stride_to_run. wp_step.
  eapply wp_weaken; [apply (find_loop_spec 66 1 k Hwf); lia|].
  intros r k' [[-> ->] | (Hr & p & x & Hp & Hx & Hrun & [q ->] & Hw & Hperm & Hh)]; do 2 wp_step.
  - rewrite geb_true by lia. wp_step. eapply wp_eq; [by apply find_scan|]. wp_step.
    destruct (first_some _ _) as [i|] eqn:E; apply runnable_slot_queued in E; auto; simpl;
      (split; [by left|]); (split; [lia|]); (split; [|done]); naive_solver lia.
  - assert (Hin : p ∈ queued k) by (apply elem_of_queued; eauto).
    rewrite geb_false by (simpl; lia). wp_step.
    split; [right; by exists p, x, q|]. split; [lia|]. split.
    { split; [|lia]. intros _. by exists p, x. }
    split; [done|]. split; [done|]. intros H63 Hno Hho. apply Hh; [done|].
    destruct (Hno p x) as (? & ? & ?); [done..|]. by apply heap_below_charged.
Qed.


(** ** Concrete queues

    [scenario l] has one queued process per entry of [l], in slot order, with
    the given state, stride and count; process [i] sits in slot [i + 1]. *)
Definition scenario_proc (e : procstate * Z * Z) : proc :=
  proc0 <| pstate := e.1.1 |> <| stride := e.1.2 |> <| stride_count := e.2 |> <| cpu_share := 10 |>.

Definition scenario (l : list (procstate * Z * Z)) : kstate :=
  boot_state
    <| procs := (scenario_proc <$> l) ++ replicate (64 - length l) proc0 |>
    <| stride_queue := None :: (Some <$> seq 0 (length l)) ++ replicate (64 - length l) None |>
    <| stride_queue_size := Z.of_nat (length l) |>
    <| sum_cpu_share := 10 * Z.of_nat (length l) |>
    <| curproc := Some 0%nat |>.

Lemma slot_scenario l i :
  (length l ≤ 64)%nat →
  slot (stride_queue (scenario l)) i =
    if decide (1 ≤ i ≤ Z.of_nat (length l)) then Some (Z.to_nat (i - 1)) else None.
Proof.
  intros Hl. unfold slot, array_get. simpl. destruct (Z.leb_spec 0 i); [|by rewrite decide_False by lia].
  destruct (decide (i = 0)) as [->|]; [done|].
  replace (Z.to_nat i) with (S (Z.to_nat (i - 1))) by lia. simpl.
  case_decide as Hi.
  - rewrite lookup_app_l by (rewrite length_fmap, length_seq; lia).
    rewrite list_lookup_fmap, lookup_seq_lt by lia. done.
  - rewrite lookup_app_r by (rewrite length_fmap, length_seq; lia).
    destruct (replicate _ _ !! _) as [o|] eqn:E; [|done].
    by apply lookup_replicate in E as [-> _].
Qed.

Lemma scenario_wf l : (length l ≤ 64)%nat → wf_queue (scenario l).
Proof.
  intros Hl. split.
  - simpl. rewrite length_app, length_fmap, length_replicate. lia.
  - simpl. rewrite length_app, length_fmap, length_seq, length_replicate. lia.
  - simpl. lia.
  - intros i Hi. simpl in Hi. rewrite slot_scenario, decide_True by (done || lia).
    eexists. split; [done | lia].
  - intros i Hi. simpl in Hi. by rewrite slot_scenario, decide_False by (done || lia).
  - intros i j p. rewrite !slot_scenario by done. repeat case_decide; naive_solver lia.
Qed.

(** Heap order is decidable. *)
Definition heap_orderb (k : kstate) : bool :=
  forallb (fun i => key (procs k) (slot (stride_queue k) (i / 2)) <=?
                    key (procs k) (slot (stride_queue k) i)) (seqZ 2 (stride_queue_size k - 1)).

Lemma heap_orderb_spec k : heap_orderb k = true ↔ heap_order k.
Proof.
  unfold heap_orderb, heap_order. rewrite forallb_forall. split; intros H i Hi.
  - apply Z.leb_le, H. apply list_elem_of_In, elem_of_seqZ. lia.
  - apply Z.leb_le, H. apply list_elem_of_In, elem_of_seqZ in Hi. lia.
Qed.



(** ** Delete *)

(** The sift-up loop only exchanges entries along a path to the root. *)
Lemma heapify_up_loop_spec (fuel : nat) (i : Z) (p : pptr) (k : kstate) :
  let v := with_slot k i p in
  1 ≤ i ≤ stride_queue_size k → i ≤ Z.of_nat fuel → wf_queue v →
  wpt (heapify_up_loop fuel i) (fun j k' =>
    let v' := with_slot k' j p in
    1 ≤ j ≤ stride_queue_size k ∧ (∃ q, k' = k <| stride_queue := q |>) ∧
    wf_queue v' ∧ queued v' ≡ₚ queued v) k.
Proof.
  revert i k. induction fuel as [|fuel IH]; intros i k v Hi Hf Hwf; [lia|]. simpl.
  pose proof (wq_size _ Hwf) as Hsz. simpl in Hsz.
  pose proof (wq_len _ Hwf) as Hl. simpl in Hl. rewrite length_insert in Hl.
  assert (Hstop : 1 ≤ i ≤ stride_queue_size k ∧ (∃ q, k = k <| stride_queue := q |>) ∧
            wf_queue (with_slot k i p) ∧ queued (with_slot k i p) ≡ₚ queued v).
  { split; [done|]. split; [exists (stride_queue k); by destruct k|]. done. }
  destruct (Z.eqb_spec i 1) as [->|Hi1]; [by wp_step|].
  wp_step. apply wp_qget_slot; [done | lia |]. wp_step. apply wp_qget_slot; [done | dlia |].
  destruct (ptr_lt _ _); [|by wp_step].
  wp_step. apply wp_qset; [lia|]. fold (with_slot k i (slot (stride_queue k) (i / 2))).
  assert (Hne : i ≠ i / 2) by dlia.
  pose proof (with_slot_swapped k i (i / 2) p Hl ltac:(lia) Hne) as Hsw.
  eapply wp_weaken; [apply IH; rewrite ?Hsw; simpl; [dlia | dlia |]|].
  - apply wf_swapped; simpl; auto; dlia.
  - intros j k' (Hj & [q ->] & Hw & Hperm). split; [done|]. split; [by exists q|].
    split; [done|]. rewrite Hperm, Hsw. apply queued_swapped; simpl; auto; dlia.
Qed.
Arguments heapify_up_loop : simpl never.

Lemma heapify_up_spec (i : Z) (k : kstate) :
  wf_queue k → 1 ≤ i ≤ stride_queue_size k →
  wpt (stride_queue_heapify_up i) (fun _ k' =>
    (∃ q, k' = k <| stride_queue := q |>) ∧ wf_queue k' ∧ queued k' ≡ₚ queued k) k.
Proof.
  intros Hwf Hi. unfold stride_queue_heapify_up.
  pose proof (wq_size _ Hwf) as Hsz. pose proof (wq_len _ Hwf) as Hl.
  wp_step. apply wp_qget_slot; [done | lia |].
  assert (Hself : with_slot k i (slot (stride_queue k) i) = k) by (apply with_slot_id; lia).
  wp_step. eapply wp_weaken; [apply (heapify_up_loop_spec 64 i (slot (stride_queue k) i));
    rewrite ?Hself; done || lia|].
  intros j k' (Hj & [q ->] & Hw & Hperm). rewrite Hself in Hperm.
  pose proof (wq_len _ Hw) as Hl'. simpl in Hl'. rewrite length_insert in Hl'.
  apply wp_qset; [simpl; lia|]. split; [by eexists | done].
Qed.

(** The queue with slot [i] overwritten by the last entry and the last slot
    cleared. *)
Definition removed (k : kstate) (i : Z) : kstate :=
  (with_slot (with_slot k i (slot (stride_queue k) (stride_queue_size k)))
     (stride_queue_size k) None) <| stride_queue_size := stride_queue_size k - 1 |>.

Lemma omap_insert_None (q : list pptr) (n : nat) (p : nat) :
  q !! n = Some (Some p) → omap id q ≡ₚ p :: omap id (<[n := None]> q).
Proof.
  intros Hn. rewrite <-(omap_insert_null (<[n := None]> q) n p).
  - rewrite list_insert_insert_eq. by rewrite list_insert_id.
  - apply list_lookup_insert_eq. by eapply lookup_lt_Some.
Qed.

Lemma removed_spec (k : kstate) (i : Z) (p : nat) :
  wf_queue k → 1 ≤ i ≤ stride_queue_size k → slot (stride_queue k) i = Some p →
  wf_queue (removed k i) ∧ queued k ≡ₚ p :: queued (removed k i).
Proof.
  intros Hwf Hi Hp. pose proof Hwf as [Hpl Hl Hsz Hu Hn Hinj].
  set (n := stride_queue_size k) in *.
  assert (Hslot : ∀ j, slot (stride_queue (removed k i)) j =
            if decide (n = j) then None
            else if decide (i = j) then slot (stride_queue k) n else slot (stride_queue k) j).
  { intros j. simpl. rewrite !slot_upd by (rewrite ?length_insert; lia). done. }
  split.
  - split.
    + done.
    + simpl. by rewrite !length_insert.
    + simpl. fold n. lia.
    + intros j Hj. simpl in Hj. fold n in Hj. rewrite Hslot, decide_False by lia.
      case_decide; apply Hu; lia.
    + intros j Hj. simpl in Hj. fold n in Hj. rewrite Hslot. case_decide; [done|].
      rewrite decide_False by lia. apply Hn. lia.
    + intros a b y. rewrite !Hslot. repeat case_decide; subst; try done; intros E1 E2;
        pose proof (Hinj _ _ _ E1 E2); congruence.
  - unfold queued. simpl. fold n.
    assert (Hlk : stride_queue k !! Z.to_nat i = Some (Some p)) by (rewrite slot_lookup by lia; by f_equal).
    destruct (Hu n) as (y & Hy & _); [lia|].
    destruct (decide (i = n)) as [->|Hne].
    + rewrite list_insert_insert_eq. by apply omap_insert_None.
    + rewrite (omap_insert_None _ _ _ Hlk). apply Permutation_skip. rewrite Hy.
      assert (Hy' : <[Z.to_nat i:=None]> (stride_queue k) !! Z.to_nat n = Some (Some y)).
      { rewrite list_lookup_insert_ne by lia. rewrite slot_lookup by lia. by f_equal. }
      rewrite (omap_insert_None _ _ _ Hy').
      rewrite (list_insert_insert_ne _ (Z.to_nat n) (Z.to_nat i)) by lia.
      rewrite (list_insert_insert_ne _ (Z.to_nat n) (Z.to_nat i)) by lia.
      rewrite <-(omap_insert_null _ (Z.to_nat i) y).
      * by rewrite list_insert_insert_eq.
      * apply list_lookup_insert_eq. rewrite length_insert. lia.
Qed.

(** The search loop of [stride_queue_delete] finds the slot of the process. *)
Lemma delete_search (k : kstate) (me : nat) (i : Z) :
  wf_queue k → slot (stride_queue k) i = Some me →
  for_list (seqZ 1 (NSTRIDE_QUEUE - 1)) (fun j =>
    q ← qget j; mret (if decide (q = Some me) then Some j else None)) k = Ok (Some i) k.
Proof.
  intros Hwf Hi. pose proof (wq_size _ Hwf) as Hsz. pose proof (wq_len _ Hwf) as Hl.
  rewrite (for_list_pure (fun j => if decide (slot (stride_queue k) j = Some me) then Some j else None)).
  - f_equal. destruct (first_some _ _) as [j|] eqn:E.
    + apply first_some_Some in E as (j' & _ & E). case_decide; [|done]. simplify_eq.
      f_equal. by eapply (wq_inj _ Hwf).
    + rewrite first_some_None in E. specialize (E i). rewrite decide_True in E by done.
      enough (i ∈ seqZ 1 (NSTRIDE_QUEUE - 1)) as Hin by by specialize (E Hin).
      apply elem_of_seqZ. unfold NSTRIDE_QUEUE, NPROC.
      destruct (decide (1 ≤ i ≤ stride_queue_size k)); [lia|].
      rewrite (wq_null _ Hwf) in Hi by lia. done.
  - intros j Hj%elem_of_seqZ. unfold NSTRIDE_QUEUE, NPROC in Hj. m_unfold.
    by rewrite qget_slot by lia.
Qed.

Lemma heapify_down_loop_exit (fuel : nat) (p : pptr) (i : Z) (k : kstate) :
  stride_queue_size k < i → heapify_down_loop (S fuel) p i k = Ok i k.
Proof.
  intros Hi. unfold heapify_down_loop. m_unfold.
  destruct (Z.leb_spec i (stride_queue_size k)); [lia|]. by rewrite andb_false_r.
Qed.

(** Sifting down a null last slot does nothing. *)
Lemma heapify_down_null (k : kstate) (i : Z) :
  wf_queue k → stride_queue_size k < i ≤ 64 →
  wpt (stride_queue_heapify_down i) (fun _ k' => k' = k) k.
Proof.
  intros Hwf Hi. pose proof (wq_size _ Hwf) as Hsz. pose proof (wq_len _ Hwf) as Hl.
  unfold stride_queue_heapify_down. wp_step. apply wp_qget_slot; [done | lia |].
  rewrite (wq_null _ Hwf) by lia. wp_step. unfold wp at 1.
  rewrite heapify_down_loop_exit by lia. apply wp_qset; [lia|]. rewrite <-(wq_null _ Hwf i) by lia. apply with_slot_id; lia.
Qed.

Lemma qset_eq k i p :
  length (stride_queue k) = 65%nat → 0 ≤ i ≤ 64 → qset i p k = Ok tt (with_slot k i p).
Proof. intros Hl Hi. unfold qset. m_unfold. by rewrite array_set_in by lia. Qed.

(** Restoring the heap keeps the shape and the processes of the queue. *)
Lemma delete_heapify_spec (uninit : bool) (i : Z) (k : kstate) :
  wf_queue k → 1 ≤ i ≤ 64 →
  i ≤ stride_queue_size k ∨ uninit = true ∨ stride_queue_size k ≤ 1 →
  wpt (delete_heapify uninit i) (fun _ k' =>
    (∃ q, k' = k <| stride_queue := q |>) ∧ wf_queue k' ∧ queued k' ≡ₚ queued k) k.
Proof.
  intros Hwf Hi Hcase. pose proof Hwf as [Hpl Hl Hsz Hu Hn Hinj].
  assert (Hid : (∃ q, k = k <| stride_queue := q |>) ∧ wf_queue k ∧ queued k ≡ₚ queued k).
  { split; [exists (stride_queue k); by destruct k | done]. }
  unfold delete_heapify. do 3 wp_step.
  eapply (wp_weaken _ (fun up k' => k' = k ∧
    (stride_queue_size k < i → 2 ≤ stride_queue_size k → up = true))).
  - destruct (Z.eqb_spec i 1) as [->|]; [wp_step; split; [done | lia]|].
    destruct (Z.leb_spec i (stride_queue_size k)) as [Hle|Hgt]; simpl.
    + destruct (Hu i) as (a & Ha & ?); [lia|]. destruct (Hu (i / 2)) as (b & Hb & ?); [dlia|].
      wp_step. apply wp_qget_slot; [done | lia |]. rewrite Ha. wp_step. apply wp_count_of; [done..|].
      wp_step. apply wp_qget_slot; [done | dlia |]. rewrite Hb. wp_step. apply wp_count_of; [done..|].
      wp_step. split; [done | lia].
    + wp_step. split; [done|]. intros ??. destruct Hcase as [?|[->|?]]; done || lia.
  - intros up k' [-> Hup]. wp_step; [by wp_step|].
    apply orb_false_iff in Hb as [?%Z.eqb_neq ?%Z.eqb_neq].
    destruct (Z.le_gt_cases i (stride_queue_size k)) as [Hle|Hgt].
    + destruct up.
      * eapply wp_weaken; [apply heapify_down_spec; done || lia|]. intros [] ? (? & ? & ? & _). auto.
      * eapply wp_weaken; [apply heapify_up_spec; done || lia|]. auto.
    + rewrite Hup by lia. eapply wp_weaken; [apply heapify_down_null; done || lia|]. by intros [] ? ->.
Qed.

(** Up to the heap restoration, [stride_queue_delete] subtracts the share and
    overwrites the slot of the current process with the last entry. *)
Lemma stride_queue_delete_eq (uninit : bool) (p me : nat) (i : Z) (k : kstate) (x : proc) :
  wf_queue k → curproc k = Some me → procs k !! me = Some x →
  slot (stride_queue k) i = Some me → 1 ≤ i ≤ stride_queue_size k →
  stride_queue_delete uninit p k =
    delete_heapify uninit i
      (removed (k <| sum_cpu_share := i32 (sum_cpu_share k - cpu_share x) |>) i).
Proof.
  intros Hwf Hcur Hx Hi Hir. pose proof (wq_size _ Hwf) as Hsz. pose proof (wq_len _ Hwf) as Hl.
  set (k1 := k <| sum_cpu_share := i32 (sum_cpu_share k - cpu_share x) |>).
  assert (Hwf1 : wf_queue k1) by (destruct Hwf; by split).
  unfold stride_queue_delete. rewrite (bind_ok _ _ _ _ _ (the_proc_eq _ _ Hcur)).
  rewrite (bind_ok _ _ _ _ _ (pget_eq _ _ _ Hx)).
  erewrite bind_ok by done. fold k1.
  rewrite (bind_ok _ _ _ _ _ (delete_search k1 me i Hwf1 Hi)).
  erewrite bind_ok by done.
  rewrite (bind_ok _ _ _ _ _ (qget_slot k1 _ Hl Hsz)).
  rewrite (bind_ok _ _ _ _ _ (qset_eq k1 i _ Hl ltac:(lia))).
  erewrite bind_ok by (apply qset_eq; [simpl; by rewrite length_insert | simpl; lia]).
  erewrite bind_ok by done. simpl stride_queue_size.
  by rewrite (i32_id (stride_queue_size k - 1)) by (unfold INT_MIN, INT_MAX; lia).
Qed.

Lemma slot_in_range k i p :
  wf_queue k → slot (stride_queue k) i = Some p → 1 ≤ i ≤ stride_queue_size k.
Proof.
  intros Hwf Hi. destruct (decide (1 ≤ i ≤ stride_queue_size k)); [done|].
  rewrite (wq_null _ Hwf) in Hi by lia. done.
Qed.

(** What [stride_queue_delete] does, with the part of the state it leaves
    alone. *)
Lemma stride_queue_delete_spec (uninit : bool) (p me : nat) (i : Z) (k : kstate) (x : proc) :
  wf_queue k → curproc k = Some me → procs k !! me = Some x →
  slot (stride_queue k) i = Some me →
  i < stride_queue_size k ∨ uninit = true ∨ stride_queue_size k ≤ 2 →
  wpt (stride_queue_delete uninit p) (fun _ k' =>
    (∃ q, k' = k <| sum_cpu_share := i32 (sum_cpu_share k - cpu_share x) |>
                 <| stride_queue_size := stride_queue_size k - 1 |> <| stride_queue := q |>) ∧
    wf_queue k' ∧ queued k ≡ₚ me :: queued k') k.
Proof.
  intros Hwf Hcur Hx Hi Hcase. pose proof (slot_in_range _ _ _ Hwf Hi) as Hir.
  pose proof (wq_size _ Hwf) as Hsz.
  unfold wp. rewrite (stride_queue_delete_eq uninit p me i k x) by done.
  set (k1 := k <| sum_cpu_share := _ |>).
  assert (Hwf1 : wf_queue k1) by (destruct Hwf; by split).
  destruct (removed_spec k1 i me Hwf1 Hir Hi) as [Hwf2 Hperm2].
  destruct (proj1 (wpt_ok _ _ _) (delete_heapify_spec uninit i (removed k1 i) Hwf2 ltac:(lia)
    ltac:(simpl; destruct Hcase as [?|[?|?]]; auto; lia))) as ([] & k' & -> & [q ->] & Hw & Hq).
  split; [by exists q|]. split; [done|]. by rewrite Hq.
Qed.

(** Whatever process it is called on, [stride_queue_delete] removes the
    current process: the queue stays well formed, loses exactly the current
    process, and [sum_cpu_share] drops by its share.  The one case left out,
    the last slot of a queue of three or more while the uninitialized variable
    happens to be zero, is that of [stride_queue_delete_null_root]. *)
Theorem stride_queue_delete_correct (uninit : bool) (p me : nat) (i : Z) (k : kstate) (x : proc) :
  wf_queue k → curproc k = Some me → procs k !! me = Some x →
  slot (stride_queue k) i = Some me →
  i < stride_queue_size k ∨ uninit = true ∨ stride_queue_size k ≤ 2 →
  ∃ k', stride_queue_delete uninit p k = Ok tt k' ∧
    wf_queue k' ∧ queued k ≡ₚ me :: queued k' ∧ procs k' = procs k ∧
    stride_queue_size k' = stride_queue_size k - 1 ∧
    sum_cpu_share k' = i32 (sum_cpu_share k - cpu_share x).
Proof.
  intros Hwf Hcur Hx Hi Hcase.
  destruct (proj1 (wpt_ok _ _ _) (stride_queue_delete_spec uninit p me i k x Hwf Hcur Hx Hi Hcase))
    as ([] & k' & Hr & [q ->] & Hw & Hq).
  eexists. split; [exact Hr|]. done.
Qed.

Lemma stride_queue_delete_correct_witness :
  let k := scenario [(RUNNING, 10, 0); (RUNNABLE, 20, 3); (RUNNABLE, 30, 4)] in
  ∃ k', stride_queue_delete false 2 k = Ok tt k' ∧ wf_queue k' ∧ sum_cpu_share k' = 20.
Proof.
  destruct (stride_queue_delete_correct false 2 0 1
      (scenario [(RUNNING, 10, 0); (RUNNABLE, 20, 3); (RUNNABLE, 30, 4)])
      (scenario_proc (RUNNING, 10, 0))) as (k' & Hr & Hw & _ & _ & _ & Hs).
  - apply scenario_wf. simpl. lia.
  - done.
  - done.
  - done.
  - left. simpl. lia.
  - exists k'. auto.
Defined.


(** When the process in the last slot of a queue of three or more is
    deleted, [heapify_up] is never assigned.  If the variable happens to be
    zero, [stride_queue_heapify_up] runs on the cleared slot, null is below
    every address, and null moves to the root; the next call of
    [find_idx_of_stride_to_run] dereferences it. *)
Theorem stride_queue_delete_null_root :
  let k := (scenario [(RUNNABLE, 10, 0); (RUNNABLE, 10, 1); (RUNNING, 10, 2)])
             <| curproc := Some 2%nat |> in
  ∃ k', stride_queue_delete false 2 k = Ok tt k' ∧
    stride_queue_size k' = 2 ∧ slot (stride_queue k') 1 = None ∧
    find_idx_of_stride_to_run k' = Stop Fault k'.
Proof. eexists. split; [vm_compute; reflexivity|]. by vm_compute. Qed.

(** The bound of the loop in [stride_queue_heapify_down] stops one level
    early for slot 32, so in a full queue the process in slot 64 is never
    compared with its parent. *)
Theorem heapify_down_ignores_last_slot :
  let k := scenario (replicate 31 (SLEEPING, 10, 0) ++ [(RUNNABLE, 10, 0)]
             ++ replicate 31 (SLEEPING, 10, 0) ++ [(SLEEPING, 10, 5)]) in
  wf_queue k ∧ heap_order k ∧
  let k1 := charged k 31 (scenario_proc (RUNNABLE, 10, 0)) in
  ∃ k', stride_queue_heapify_down 32 k1 = Ok tt k' ∧ ¬ heap_order k'.
Proof.
  split; [by apply scenario_wf; simpl; lia|]. split; [by apply heap_orderb_spec|].
  eexists. split; [vm_compute; reflexivity|]. rewrite <-heap_orderb_spec. by vm_compute.
Qed.
