(* ===== verification/Sched.v ===== *)
(** * The scheduler and process switching (proc.c, switchuvm/switchkvm of vm.c)

    [scheduler] is an endless loop; its three nested loops are a transition
    function [scheduler_step] on the loop position and the C locals, and
    [scheduler_run] iterates it.  The call [swtch(&cpu->scheduler, ...)] hands
    the CPU to a process until that process calls [sched]; what happens in
    between is the argument [run].  Symmetrically, [sched] hands the CPU to
    the scheduler until this process is chosen again, which is the argument
    [resume] of [sched], [yield] and [sleep].  The theorems hold for every
    [run] and [resume] that keep the stated protocol. *)
From S2P Require Import Prelude Spinlock Proc StrideQueue.

(** ** Initialization and getters *)
Definition get_time_quantum : K Z :=
  cur ← gets curproc;
  let mlfq :=
    i ← the_proc; x ← pget i; tq ← gets MLFQ_time_quantum;
    deref (array_get tq (level_of_MLFQ x)) in
  match cur with
  | Some i => x ← pget i; if negb (cpu_share x =? 0) then gets stride_time_quantum else mlfq
  | None => mlfq
  end.

Definition get_MLFQ_tick_used : K Z := gets MLFQ_tick_used.
Definition increase_MLFQ_tick_used : K unit :=
  modify (fun k => k <| MLFQ_tick_used := i32 (MLFQ_tick_used k + 1) |>).
Definition increase_stride_tick_used : K unit :=
  modify (fun k => k <| stride_tick_used := i32 (stride_tick_used k + 1) |>).

Fixpoint pinit_quantum (levels : list Z) (default_ticks : Z) : K unit :=
  match levels with
  | [] => mret tt
  | queue_level :: levels =>
      tq ← gets MLFQ_time_quantum;
      tq' ← deref (array_set tq queue_level default_ticks);
      modify (fun k => k <| MLFQ_time_quantum := tq' |>);;
      pinit_quantum levels (i32 (default_ticks * 2))
  end.

Definition pinit : K unit :=
  modify (fun k => k <| ptable_lock := initlock "ptable" |>);;
  modify (fun k => k <| thread_lock := initlock "thread" |>);;
  pinit_quantum (seqZ 0 NMLFQ) 5;;
  modify (fun k => k <| MLFQ_tick_used := 0 |>);;
  modify (fun k => k <| queue_level_at_most := NMLFQ - 1 |>);;
  modify (fun k => k <| min_of_run_proc_level := NMLFQ - 1 |>);;
  modify (fun k => k <| stride_queue := replicate (Z.to_nat NSTRIDE_QUEUE) None |>);;
  modify (fun k => k <| sum_cpu_share := 0 |>);;
  modify (fun k => k <| stride_queue_size := 0 |>);;
  modify (fun k => k <| stride_time_quantum := 1 |>);;
  modify (fun k => k <| stride_tick_used := 0 |>).

(** ** Address-space switching (vm.c) *)


Definition on_this_cpu {A} (m : M cpu A) : K A :=
  zoom this_cpu (fun c k => k <| this_cpu := c |>) m.

Definition switchuvm (p : pptr) : K unit :=
  match p with
  | None => panic "switchuvm: no process"
  | Some i =>
      x ← pget i;
      if kstack x =? 0 then panic "switchuvm: no kstack" else
      if pgdir x =? 0 then panic "switchuvm: no pgdir" else
      on_this_cpu pushcli;;
      modify (fun k => k <| ts_esp0 := u32 (kstack x + KSTACKSIZE) |>);;
      modify (fun k => k <| cr3 := Some (pgdir x) |>);;
      on_this_cpu popcli
  end.

Definition switchkvm : K unit := modify (fun k => k <| cr3 := None |>).

(** ** Choosing between the stride queue and the MLFQ *)
Definition select_stride_or_MLFQ : K Z :=
  acquire_thread;;
  modify (fun k => k <| queue_selector := i32 (queue_selector k + 1) |>);;
  modify (fun k => k <| queue_selector := Z.rem (queue_selector k) 100 |>);;
  release_thread;;
  sel ← gets queue_selector;
  sum ← gets sum_cpu_share;
  if sel <? Z.quot sum 10 then
    size ← gets stride_queue_size;
    if size =? 0 then
      modify (fun k => k <| sum_cpu_share := 0 |>);;
      mret 0
    else mret 1
  else mret 0.

(** ** scheduler *)

(** The locals that live across iterations: the scan pointer [p] as an index
    ([NPROC] is one past the table), [choosing_stride_or_MLFQ] and
    [stride_is_selected]. *)
Record slocal := mkslocal { cur_p : Z; choosing : bool; selected : bool }.
#[export] Instance slocal_eta : EtaRecord slocal := fun l =>
  mkslocal (cur_p l) (choosing l) (selected l).

(** The head of the loop body: which of the two schedulers is used. *)
Definition sched_choose (l : slocal) : K slocal :=
  sum ← gets sum_cpu_share;
  if sum =? 0 then mret (l <| selected := false |> <| choosing := false |>)
  else if choosing l then
    r ← select_stride_or_MLFQ;
    mret (l <| selected := negb (r =? 0) |>)
  else mret l.

(** Find a process: [Some p] goes on to run [p], [None] is a [continue]. *)
Definition sched_pick (l : slocal) : K (option pptr * slocal) :=
  if selected l then
    stride_idx_to_be_run ← find_idx_of_stride_to_run;
    size ← gets stride_queue_size;
    if stride_idx_to_be_run <=? size then
      p ← qget stride_idx_to_be_run;
      mret (Some p, l)
    else mret (None, l <| selected := false |> <| choosing := false |>)
  else
    x ← pget (Z.to_nat (cur_p l));
    at_most ← gets queue_level_at_most;
    if bool_decide (pstate x = RUNNABLE) && (cpu_share x =? 0) && (level_of_MLFQ x <=? at_most) then
      modify (fun k => k <| queue_level_at_most :=
        if level_of_MLFQ x <? at_most then level_of_MLFQ x else at_most |>);;
      modify (fun k => k <| min_of_run_proc_level := queue_level_at_most k |>);;
      mret (Some (Some (Z.to_nat (cur_p l))), l)
    else mret (None, l <| choosing := false |>).

Section scheduler.
Context (run : nat → K unit).

(** Switch to the process [p] and, when it is back, decide where the scan
    goes on. *)
Definition sched_dispatch (l : slocal) (p : pptr) : K slocal :=
  modify (fun k => k <| curproc := p |>);;
  switchuvm p;;
  i ← deref p;
  pupd i (fun x => x <| pstate := RUNNING |>);;
  before_MLFQ_used_tick ← gets MLFQ_tick_used;
  run i;;
  switchkvm;;
  x ← pget i;
  sum ← gets sum_cpu_share;
  tick ← gets MLFQ_tick_used;
  let rerun := negb (selected l) && negb (sum =? 0) && bool_decide (pstate x = RUNNABLE) &&
               (cpu_share x =? 0) && (tick =? before_MLFQ_used_tick) in
  modify (fun k => k <| curproc := None |>);;
  let p := if rerun then Z.of_nat i - 1 else Z.of_nat i in
  let p := if selected l then Z.of_nat i - 1 else p in
  mret (mkslocal p (negb rerun) (selected l)).

(** The body of the [for] loop over the table, with its [p++]. *)
Definition sched_body (l : slocal) : K slocal :=
  l ← sched_choose l;
  '(found, l) ← sched_pick l;
  l ← match found with
      | Some p => sched_dispatch l p
      | None => mret l
      end;
  mret (l <| cur_p := cur_p l + 1 |>).

(** Where the three nested loops are: at the top of [for(;;)], at the test of
    the [while], at the test of the inner [for]. *)
Inductive sched_pc := At_for | At_while | At_scan.

Definition scheduler_step (c : sched_pc * slocal) : K (sched_pc * slocal) :=
  let '(pc, l) := c in
  match pc with
  | At_for =>
      on_this_cpu sti;;
      acquire_ptable;;
      modify (fun k => k <| queue_level_at_most := NMLFQ - 1 |>);;
      mret (At_while, l <| choosing := true |>)
  | At_while =>
      at_most ← gets queue_level_at_most;
      if at_most <? NMLFQ then
        modify (fun k => k <| min_of_run_proc_level := NMLFQ - 1 |>);;
        mret (At_scan, l <| cur_p := 0 |>)
      else
        release_ptable;;
        mret (At_for, l)
  | At_scan =>
      if cur_p l <? NPROC then
        l ← sched_body l;
        mret (At_scan, l)
      else
        m ← gets min_of_run_proc_level;
        when (m =? NMLFQ - 1)
          (modify (fun k => k <| queue_level_at_most := i32 (queue_level_at_most k + 1) |>));;
        mret (At_while, l)
  end.

Fixpoint scheduler_run (n : nat) (c : sched_pc * slocal) : K (sched_pc * slocal) :=
  match n with
  | O => mret c
  | S n => c ← scheduler_step c; scheduler_run n c
  end.
End scheduler.

(** [p] and [choosing_stride_or_MLFQ] are not initialized on entry. *)
Definition scheduler_entry (p : Z) (ch : bool) : sched_pc * slocal := (At_for, mkslocal p ch false).

(** ** Priority boost *)
Definition priority_boost : K unit :=
  for_each all_procs (fun i =>
    pupd i (fun p => p <| level_of_MLFQ := 0 |>);;
    pupd i (fun p => p <| tick_used := 0 |>);;
    pupd i (fun p => p <| time_quantum_used := 0 |>);;
    modify (fun k => k <| MLFQ_tick_used := 0 |>)).

(** ** The selector *)

(** The state after the selector moved on: [acquire]/[release] of
    [thread_lock] leave the CPU as a nested bracket does. *)
Definition selected_next (k : kstate) : kstate :=
  k <| this_cpu := popped (pushed (this_cpu k)) |>
    <| queue_selector := (queue_selector k + 1) mod 100 |>.

(** What the selector needs: [thread_lock] free, room for one more level of
    interrupt nesting, the counter in its range. *)
Record selector_ok (k : kstate) : Prop := {
  so_cpu : cli_ok (this_cpu k);
  so_room : ncli (this_cpu k) + 1 < INT_MAX;
  so_lock : free (thread_lock k);
  so_range : -1 ≤ queue_selector k < 100
}.

Lemma select_spec (k : kstate) (Q : Z → kstate → Prop) :
  selector_ok k →
  (let k' := selected_next k in
   if queue_selector k' <? Z.quot (sum_cpu_share k) 10 then
     if stride_queue_size k =? 0 then Q 0 (k' <| sum_cpu_share := 0 |>) else Q 1 k'
   else Q 0 k') →
  wpt select_stride_or_MLFQ Q k.
Proof.
  intros [Hc Hn Hf Hr] HQ. unfold select_stride_or_MLFQ.
  wp_step. apply wp_acquire_thread; [done..|]. do 4 wp_step. wp_step.
  apply wp_release_thread.
  { by apply cli_ok_pushed. } { destruct Hc. simpl. lia. } { by apply holding_locked_by. }
  assert (Hrem : Z.rem (i32 (queue_selector k + 1)) 100 = (queue_selector k + 1) mod 100).
  { rewrite i32_id by (unfold INT_MIN, INT_MAX; lia). apply Z.rem_mod_nonneg; lia. }
  set (k2 := _ <| thread_lock := _ |>).
  assert (k2 = selected_next k) as ->.
  { unfold k2, selected_next. cbn. rewrite Hrem, unlocked_locked_by by done. by destruct k. }
  do 4 wp_step. change (sum_cpu_share (selected_next k)) with (sum_cpu_share k). revert HQ. cbv zeta.
  destruct (_ <? _); intros HQ; [|by wp_step].
  do 2 wp_step. change (stride_queue_size (selected_next k)) with (stride_queue_size k).
  destruct (_ =? 0); by wp_run.
Qed.

Lemma selector_ok_next (k : kstate) : selector_ok k → selector_ok (selected_next k).
Proof.
  intros [Hc Hn Hf Hr]. split; cbn.
  - rewrite popped_pushed by done. by destruct Hc.
  - destruct Hc. lia.
  - done.
  - pose proof (Z.mod_pos_bound (queue_selector k + 1) 100). lia.
Qed.

(** [n] calls in a row, with their answers. *)
Fixpoint select_calls (n : nat) : K (list Z) :=
  match n with
  | O => mret []
  | S n => r ← select_stride_or_MLFQ; l ← select_calls n; mret (r :: l)
  end.

(** The answers [n] consecutive calls give when the selector stands at [s]
    and the stride processes own [m] percent. *)
Definition answers (m s : Z) (n : nat) : list Z :=
  (fun i => if (s + 1 + Z.of_nat i) mod 100 <? m then 1 else 0) <$> seq 0 n.

Lemma select_calls_spec (n : nat) (k : kstate) :
  selector_ok k → 0 < stride_queue_size k → 0 ≤ sum_cpu_share k →
  wpt (select_calls n) (fun l k' =>
    l = answers (sum_cpu_share k / 10) (queue_selector k) n ∧ sum_cpu_share k' = sum_cpu_share k) k.
Proof.
  intros Hok Hq Hs. revert k Hok Hq Hs. induction n as [|n IH]; intros k Hok Hq Hs; [done|].
  change (wpt (r ← select_stride_or_MLFQ; l ← select_calls n; mret (r :: l)) (fun l k' =>
    l = answers (sum_cpu_share k / 10) (queue_selector k) (S n) ∧ sum_cpu_share k' = sum_cpu_share k) k).
  wp_step. apply select_spec; [done|]. cbv zeta. rewrite Z.quot_div_nonneg by lia.
  destruct (Z.eqb_spec (stride_queue_size k) 0); [lia|].
  set (q := queue_selector k) in *.
  assert (Htail : answers (sum_cpu_share k / 10) q (S n) =
    (if (q + 1) mod 100 <? sum_cpu_share k / 10 then 1 else 0) ::
      answers (sum_cpu_share k / 10) ((q + 1) mod 100) n).
  { unfold answers. cbn [seq fmap list_fmap]. f_equal; [by rewrite Z.add_0_r|].
    rewrite <-seq_shift, <-list_fmap_compose. apply list_fmap_ext. intros i x _. cbn.
    replace ((q + 1) mod 100 + 1 + Z.of_nat x) with ((q + 1) mod 100 + (1 + Z.of_nat x)) by lia.
    rewrite Zplus_mod_idemp_l.
    by replace (q + 1 + Z.of_nat (S x)) with (q + 1 + (1 + Z.of_nat x)) by lia. }
  rewrite Htail. change (queue_selector (selected_next k)) with ((q + 1) mod 100).
  destruct (_ <? _); wp_step; (eapply wp_weaken; [apply IH; [by apply selector_ok_next | done..]|]);
    intros l k' [-> ?]; by wp_step.
Qed.

(** However the selector stands, a window of a hundred answers has [m] ones. *)
Lemma answers_window (m s : Z) :
  0 ≤ m ≤ 100 → -1 ≤ s < 100 → count_occ Z.eq_dec (answers m s 100) 1 = Z.to_nat m.
Proof.
  intros Hm Hs.
  assert (Hall : forallb (fun m => forallb (fun s =>
      Nat.eqb (count_occ Z.eq_dec (answers m s 100) 1) (Z.to_nat m)) (seqZ (-1) 101)) (seqZ 0 101) = true)
    by (vm_compute; reflexivity).
  rewrite forallb_forall in Hall. specialize (Hall m). rewrite <-list_elem_of_In, elem_of_seqZ in Hall.
  specialize (Hall ltac:(lia)). rewrite forallb_forall in Hall. specialize (Hall s).
  rewrite <-list_elem_of_In, elem_of_seqZ in Hall. apply Nat.eqb_eq, Hall. lia.
Qed.

(** C31: The stride processes get exactly their share of the choices: while
    the queue is not empty and the shares do not change, any hundred
    consecutive calls of [select_stride_or_MLFQ], wherever the selector
    stands, choose the stride queue [sum_cpu_share / 10] times. *)
Theorem select_gives_exact_share (k : kstate) :
  selector_ok k → 0 < stride_queue_size k → 0 ≤ sum_cpu_share k ≤ 1000 →
  ∃ l k', select_calls 100 k = Ok l k' ∧ length l = 100%nat ∧
    count_occ Z.eq_dec l 1 = Z.to_nat (sum_cpu_share k / 10) ∧
    (∀ r, r ∈ l → r = 0 ∨ r = 1).
Proof.
  intros Hok Hq Hs. destruct (proj1 (wpt_ok _ _ _) (select_calls_spec 100 k Hok Hq ltac:(lia)))
    as (l & k' & Hr & -> & _).
  eexists _, _. split; [exact Hr|]. split; [by unfold answers; rewrite length_fmap, length_seq|].
  split; [apply answers_window; [dlia | apply Hok]|].
  intros r (i & -> & _)%list_elem_of_fmap. destruct (_ <? _); auto.
Qed.

Lemma select_gives_exact_share_witness :
  let k := scenario [(RUNNABLE, 20, 3); (RUNNABLE, 30, 4)] in
  ∃ l k', select_calls 100 k = Ok l k' ∧ length l = 100%nat ∧
    count_occ Z.eq_dec l 1 = 2%nat ∧ (∀ r, r ∈ l → r = 0 ∨ r = 1).
Proof.
  apply (select_gives_exact_share (scenario [(RUNNABLE, 20, 3); (RUNNABLE, 30, 4)]));
    [split; unfold cli_ok, free, INT_MAX; cbn; intuition lia | cbn; lia | cbn; lia].
Defined.

(** ** Safety of the scheduler *)

(** A process that may be dispatched has a kernel stack and an address
    space. *)
Definition has_space (k : kstate) : Prop :=
  ∀ i x, procs k !! i = Some x → pstate x = RUNNABLE ∨ i ∈ queued k →
    kstack x ≠ 0 ∧ pgdir x ≠ 0.

(** What holds whenever the scheduler or a process runs, lock or no lock. *)
Record table_ok (k : kstate) : Prop := {
  to_queue : wf_queue k;
  to_space : has_space k;
  to_thread : free (thread_lock k);
  to_selector : -1 ≤ queue_selector k < 100
}.

(** A process just switched to: it is the current process, RUNNING, in its
    own address space and on its own kernel stack, with [ptable.lock] held
    for it by the scheduler. *)
Definition dispatched (i : nat) (k : kstate) : Prop :=
  table_ok k ∧ in_ptable k ∧ curproc k = Some i ∧
  ∃ x, procs k !! i = Some x ∧ pstate x = RUNNING ∧ kstack x ≠ 0 ∧ pgdir x ≠ 0 ∧
    cr3 k = Some (pgdir x) ∧ ts_esp0 k = u32 (kstack x + KSTACKSIZE).

(** The protocol of a process: switched to in such a state, it comes back
    through [sched] with [ptable.lock] held and the table in order. *)
Definition protocol (run : nat → K unit) : Prop :=
  ∀ i k, dispatched i k → wpt (run i) (fun _ k' => table_ok k' ∧ in_ptable k') k.

Lemma in_ptable_selector k : table_ok k → in_ptable k → selector_ok k.
Proof. intros [???] Hin. by destruct (in_ptable_cli _ Hin). Qed.

Lemma in_ptable_next k : in_ptable k → selected_next k = k <| queue_selector := (queue_selector k + 1) mod 100 |>.
Proof.
  intros Hin. pose proof (in_ptable_cli _ Hin) as [Hc _]. unfold selected_next.
  rewrite popped_pushed_nested; [by destruct k | done |]. destruct Hin. lia.
Qed.

(** Steps that only touch scheduling counters keep the table in order. *)
Lemma table_ok_frame k k' :
  table_ok k → procs k' = procs k → stride_queue k' = stride_queue k →
  stride_queue_size k' = stride_queue_size k → thread_lock k' = thread_lock k →
  -1 ≤ queue_selector k' < 100 → table_ok k'.
Proof.
  intros [[Hpl Hl Hsz Hu Hn Hinj] Hsp Ht Hs] Hp Hq Hqs Htl Hsel.
  split; [split|..]; rewrite ?Hp, ?Hq, ?Hqs, ?Htl; auto.
  unfold has_space, queued. by rewrite Hp, Hq.
Qed.

Ltac frame_ok := eapply table_ok_frame; [eassumption | done.. |].

Lemma choose_spec (l : slocal) (k : kstate) :
  table_ok k → in_ptable k →
  wpt (sched_choose l) (fun l' k' => table_ok k' ∧ in_ptable k' ∧ cur_p l' = cur_p l) k.
Proof.
  intros Hok Hin. unfold sched_choose. do 2 wp_step. wp_step; [by wp_step|].
  wp_step; [|by wp_step]. wp_step. apply select_spec; [by apply in_ptable_selector|].
  cbv zeta. rewrite in_ptable_next by done.
  pose proof (Z.mod_pos_bound (queue_selector k + 1) 100 ltac:(lia)) as Hm.
  destruct (_ <? _); [destruct (stride_queue_size k =? 0)|]; wp_step;
    (split; [frame_ok; cbn; lia | split; [apply Hin | done]]).
Qed.

(** The process found, if any, exists and can be switched to. *)
Definition pickable (k : kstate) (p : pptr) : Prop :=
  ∃ i x, p = Some i ∧ procs k !! i = Some x ∧ kstack x ≠ 0 ∧ pgdir x ≠ 0.

Lemma has_space_charged k p x q :
  has_space k → procs k !! p = Some x → p ∈ queued k → queued ((charged k p x) <| stride_queue := q |>) ≡ₚ queued k →
  has_space ((charged k p x) <| stride_queue := q |>).
Proof.
  intros Hsp Hx Hp Hq i y Hy Hrun. rewrite Hq in Hrun. simpl in Hy.
  destruct (decide (i = p)) as [->|Hne].
  - rewrite list_lookup_insert_eq in Hy by (by eapply lookup_lt_Some). simplify_eq.
    apply (Hsp p x); auto.
  - rewrite list_lookup_insert_ne in Hy by done. apply (Hsp i y); auto.
Qed.

Lemma pick_spec (l : slocal) (k : kstate) :
  table_ok k → in_ptable k → 0 ≤ cur_p l < 64 →
  wpt (sched_pick l) (fun r k' => table_ok k' ∧ in_ptable k' ∧ cur_p r.2 = cur_p l ∧
    match r.1 with Some p => pickable k' p | None => True end) k.
Proof.
  intros Hok Hin Hp. pose proof Hok as [Hwf Hsp Ht Hs]. unfold sched_pick. wp_step.
  - wp_step. eapply wp_weaken; [by apply find_idx_spec|].
    intros r k' (Hk & Hr1 & Hiff & Hwf' & Hq & _).
    assert (Hok' : table_ok k' ∧ in_ptable k' ∧ stride_queue_size k' = stride_queue_size k).
    { destruct Hk as [->|(p & x & q & Hpq & Hx & ->)]; [done|].
      split; [|done]. split; [done | by apply has_space_charged | done..]. }
    destruct Hok' as (Hok' & Hin' & Hsz'). do 2 wp_step. wp_step; [|by wp_step].
    pose proof (wq_size _ Hwf').
    wp_step. apply wp_qget_slot; [apply Hwf' | lia |]. wp_step. do 3 (split; [done|]). cbn.
    destruct (wq_used _ Hwf' r) as (p & Hslot & Hp64); [lia|]. rewrite Hslot.
    destruct (lookup_lt_is_Some_2 (procs k') p) as [x Hx]; [rewrite (wq_procs _ Hwf'); lia|].
    destruct (to_space _ Hok' p x Hx) as [??]; [right; apply elem_of_queued; eauto|].
    by exists p, x.
  - destruct (lookup_lt_is_Some_2 (procs k) (Z.to_nat (cur_p l))) as [x Hx].
    { rewrite (wq_procs _ Hwf). lia. }
    wp_step. eapply wp_pget; [done|]. do 2 wp_step. wp_step; [|by wp_step].
    wp_run. split; [by frame_ok|]. split; [apply Hin|]. split; [done|].
    destruct (bool_decide_reflect (pstate x = RUNNABLE)); [|done].
    destruct (Hsp _ _ Hx) as [??]; [by left|]. by eexists _, x.
Qed.

Lemma switchuvm_spec (i : nat) (x : proc) (k : kstate) (Q : unit → kstate → Prop) :
  cli_ok (this_cpu k) → ncli (this_cpu k) + 1 < INT_MAX → 0 < ncli (this_cpu k) →
  procs k !! i = Some x → kstack x ≠ 0 → pgdir x ≠ 0 →
  Q tt (k <| ts_esp0 := u32 (kstack x + KSTACKSIZE) |> <| cr3 := Some (pgdir x) |>) →
  wpt (switchuvm (Some i)) Q k.
Proof.
  intros Hc Hroom Hn Hx Hk Hg HQ. unfold switchuvm, on_this_cpu.
  wp_step. eapply wp_pget; [done|]. wp_step; [lia|]. wp_step; [lia|].
  wp_step. apply wp_zoom. eapply wp_eq; [by apply pushcli_eq|]. do 4 wp_step.
  apply wp_zoom. eapply wp_eq; [apply popcli_eq; [by apply cli_ok_pushed | cbn; lia]|].
  cbn. rewrite popped_pushed_nested by done. by destruct k.
Qed.

Section safety.
Context (run : nat → K unit) (Hrun : protocol run).

Lemma has_space_running k i x :
  has_space k → procs k !! i = Some x → kstack x ≠ 0 → pgdir x ≠ 0 →
  has_space (k <| procs := <[i := x <| pstate := RUNNING |>]> (procs k) |>).
Proof.
  intros Hsp Hx Hk Hg j y Hy Hj. simpl in Hy. destruct (decide (j = i)) as [->|Hne].
  - rewrite list_lookup_insert_eq in Hy by (by eapply lookup_lt_Some). by simplify_eq.
  - rewrite list_lookup_insert_ne in Hy by done. by apply (Hsp j y).
Qed.

Lemma dispatch_spec (l : slocal) (p : pptr) (k : kstate) :
  table_ok k → in_ptable k → pickable k p →
  wpt (sched_dispatch run l p) (fun l' k' =>
    table_ok k' ∧ in_ptable k' ∧ -1 ≤ cur_p l' < 64) k.
Proof.
  intros Hok Hin (i & x & -> & Hx & Hk & Hg). pose proof (in_ptable_cli _ Hin) as [Hc Hroom].
  pose proof Hok as [Hwf Hsp Ht Hs]. assert (Hi : (i < 64)%nat).
  { rewrite <-(wq_procs _ Hwf). by eapply lookup_lt_Some. }
  unfold sched_dispatch. do 2 wp_step. wp_step.
  eapply switchuvm_spec; [done | done | destruct Hin; cbn; lia | done..|].
  do 2 wp_step. wp_step. eapply wp_pupd; [done|]. do 2 wp_step. wp_step.
  eapply wp_weaken; [apply Hrun|].
  - assert (Hlen : (i < length (procs k))%nat) by (by eapply lookup_lt_Some).
    split; [|split; [exact Hin | split; [done|]]].
    + split; [|by apply has_space_running | done..].
      destruct Hwf; split; cbn; rewrite ?length_insert; done.
    + exists (x <| pstate := RUNNING |>). cbn. by rewrite list_lookup_insert_eq.
  - intros _ k2 [Hok2 Hin2]. pose proof (wq_procs _ (to_queue _ Hok2)) as Hl2.
    destruct (lookup_lt_is_Some_2 (procs k2) i) as [y Hy]; [lia|].
    unfold switchkvm. do 3 wp_step. eapply wp_pget; [done|]. do 4 wp_step. cbv zeta. do 3 wp_step.
    split; [frame_ok; apply Hok2|]. split; [exact Hin2|].
    cbn. repeat case_match; lia.
Qed.

Lemma body_spec (l : slocal) (k : kstate) :
  table_ok k → in_ptable k → 0 ≤ cur_p l < 64 →
  wpt (sched_body run l) (fun l' k' => table_ok k' ∧ in_ptable k' ∧ 0 ≤ cur_p l' ≤ 64) k.
Proof.
  intros Hok Hin Hp. unfold sched_body. wp_step.
  eapply wp_weaken; [by apply choose_spec|]. intros l1 k1 (Hok1 & Hin1 & Hp1). wp_step.
  eapply wp_weaken; [apply pick_spec; [done.. | lia]|].
  intros [[p|] l2] k2 (Hok2 & Hin2 & Hp2 & Hpick); cbn in *; wp_step.
  - eapply wp_weaken; [by apply dispatch_spec|]. intros l3 k3 (Hok3 & Hin3 & Hp3). wp_step.
    cbn. split; [done|]. split; [done|]. lia.
  - wp_run. cbn. split; [done|]. split; [done|]. lia.
Qed.

(** Where the loops are decides whether the lock is held. *)
Definition scheduler_inv (c : sched_pc * slocal) (k : kstate) : Prop :=
  table_ok k ∧
  match c.1 with
  | At_for => outside_ptable k
  | At_while => in_ptable k
  | At_scan => in_ptable k ∧ 0 ≤ cur_p c.2 ≤ 64
  end.

Lemma step_spec (c : sched_pc * slocal) (k : kstate) :
  scheduler_inv c k → wpt (scheduler_step run c) scheduler_inv k.
Proof.
  destruct c as [[| |] l]; intros [Hok Hpc]; cbn in Hpc; unfold scheduler_step.
  - destruct Hpc as [Hn Hf]. wp_step. apply wp_zoom, wp_modify. wp_step.
    apply wp_acquire_ptable; [unfold cli_ok, INT_MAX; cbn; lia | done |]. wp_run. split.
    + frame_ok. apply Hok.
    + split; [cbn; lia|]. split; [done | by apply holding_locked_by].
  - pose proof (in_ptable_cli _ Hpc) as [Hc _]. destruct Hpc as (Hn & Hf & Hh).
    do 2 wp_step. wp_step.
    + wp_run. split; [frame_ok; apply Hok|]. split; [done|]. cbn. lia.
    + wp_step. apply wp_release_ptable; [done | lia | done |]. wp_step.
      split; [frame_ok; apply Hok|]. split; [cbn; lia | done].
  - destruct Hpc as [Hin Hp]. unfold NPROC. cbn in Hp. wp_step.
    + wp_step. eapply wp_weaken; [apply body_spec; [done.. | lia]|].
      intros l' k' (Hok' & Hin' & Hp'). by wp_step.
    + do 3 wp_step. apply wp_when; intros _; wp_run; (split; [frame_ok; apply Hok|]); done.
Qed.

(** C3: The scheduler never panics, faults or deadlocks: as long as every
    process it switches to keeps the protocol of [sched], any number of
    steps of its three loops, from any entry state with the table in order
    and no lock held, succeeds, keeps the table in order, and holds
    [ptable.lock] exactly inside the loop over the table.  In particular
    every dispatch satisfies [dispatched]. *)
Theorem scheduler_safe (n : nat) (p : Z) (ch : bool) (k : kstate) :
  table_ok k → outside_ptable k →
  ∃ c k', scheduler_run run n (scheduler_entry p ch) k = Ok c k' ∧ scheduler_inv c k'.
Proof.
  intros Hok Hout. apply wpt_ok. assert (Hinv : scheduler_inv (scheduler_entry p ch) k) by done.
  revert Hinv. generalize (scheduler_entry p ch). clear Hok Hout. intros c. revert c k.
  induction n as [|n IH]; intros c k Hinv; simpl; [done|].
  wp_step. eapply wp_weaken; [by apply step_spec|]. auto.
Qed.
End safety.

(** Concrete tables: one process of the MLFQ per entry, with the given state
    and level. *)
Definition mlfq_proc (e : procstate * Z) : proc :=
  proc0 <| pstate := e.1 |> <| level_of_MLFQ := e.2 |> <| kstack := 8192 |> <| pgdir := 4096 |>.

Definition mlfq_scenario (l : list (procstate * Z)) : kstate :=
  boot_state <| procs := (mlfq_proc <$> l) ++ replicate (64 - length l) proc0 |>.

Lemma mlfq_scenario_ok l :
  (length l ≤ 64)%nat → table_ok (mlfq_scenario l) ∧ outside_ptable (mlfq_scenario l).
Proof.
  intros Hl. destruct boot_queue_ok as [[_ Hql Hsz Hu Hn Hi] _]. split; [|done].
  split; [split; try done | | done | done].
  - cbn. rewrite length_app, length_fmap, length_replicate. lia.
  - intros i x Hx Hr. apply lookup_app_Some in Hx as [Hx|[_ Hx]].
    + apply list_lookup_fmap_Some in Hx as (e & -> & _). done.
    + apply lookup_replicate in Hx as [-> _]. destruct Hr as [Hr|Hr]; [done|].
      apply elem_of_queued in Hr as [j Hj]. change (slot (stride_queue boot_state) j = Some i) in Hj.
      by rewrite slot_boot in Hj.
Qed.

(** A process that yields at once keeps the protocol. *)
Definition yields (i : nat) : K unit := pupd i (fun x => x <| pstate := RUNNABLE |>).

Lemma yields_protocol : protocol yields.
Proof.
  intros i k ([Hwf Hsp Ht Hs] & Hin & _ & x & Hx & _ & Hk & Hg & _).
  unfold yields. eapply wp_pupd; [done|]. split; [|done].
  split; [destruct Hwf; split; cbn; rewrite ?length_insert; done | | done..].
  intros j y Hy Hj. cbn in Hy. destruct (decide (j = i)) as [->|].
  - rewrite list_lookup_insert_eq in Hy by (by eapply lookup_lt_Some). by simplify_eq.
  - rewrite list_lookup_insert_ne in Hy by done. by apply (Hsp j y).
Qed.

Lemma scheduler_safe_witness :
  let k := mlfq_scenario [(RUNNABLE, 0); (SLEEPING, 1); (RUNNABLE, 2)] in
  ∃ c k', scheduler_run yields 1000 (scheduler_entry 0 false) k = Ok c k' ∧ scheduler_inv c k'.
Proof.
  destruct (mlfq_scenario_ok [(RUNNABLE, 0); (SLEEPING, 1); (RUNNABLE, 2)]) as [Hok Hout];
    [cbn; lia|].
  exact (scheduler_safe yields yields_protocol 1000 0 false _ Hok Hout).
Defined.

(** ** What an MLFQ pass runs *)

(** The test of the scan at process [i]. *)
Definition eligible (k : kstate) (i : nat) : bool :=
  match procs k !! i with
  | Some x => bool_decide (pstate x = RUNNABLE) && (cpu_share x =? 0) &&
              (level_of_MLFQ x <=? queue_level_at_most k)
  | None => false
  end.

Lemma scheduler_run_app run n m c k c' k' :
  scheduler_run run n c k = Ok c' k' → scheduler_run run (n + m) c k = scheduler_run run m c' k'.
Proof.
  revert c k. induction n as [|n IH]; intros c k; cbn -[scheduler_step].
  - by intros [= <- <-].
  - unfold mbind, M_bind. destruct (scheduler_step run c k); [apply IH | done].
Qed.

(** The state while an MLFQ pass scans, before anything runs. *)
Definition scanning (k : kstate) : kstate :=
  k <| this_cpu := pushed ((this_cpu k) <| eflags_IF := true |>) |>
    <| ptable_lock := locked_by (this_cpu k) (ptable_lock k) |>
    <| queue_level_at_most := NMLFQ - 1 |> <| min_of_run_proc_level := NMLFQ - 1 |>.

Lemma scheduler_enter run p ch k :
  outside_ptable k →
  scheduler_run run 2 (scheduler_entry p ch) k = Ok (At_scan, mkslocal 0 true false) (scanning k).
Proof.
  intros [Hn Hf]. apply wpt_eq. unfold scheduler_run, scheduler_entry, scheduler_step.
  do 2 wp_step. apply wp_zoom, wp_modify. wp_step.
  apply wp_acquire_ptable; [unfold cli_ok, INT_MAX; cbn; lia | done |]. by wp_run.
Qed.

Lemma step_skip run l k :
  length (procs k) = 64%nat → sum_cpu_share k = 0 → 0 ≤ cur_p l < 64 →
  eligible k (Z.to_nat (cur_p l)) = false →
  scheduler_step run (At_scan, l) k = Ok (At_scan, mkslocal (cur_p l + 1) false false) k.
Proof.
  intros Hl Hs Hp He. unfold scheduler_step, NPROC. destruct (Z.ltb_spec (cur_p l) 64); [|lia].
  unfold sched_body, sched_choose, sched_pick, eligible in *.
  destruct (lookup_lt_is_Some_2 (procs k) (Z.to_nat (cur_p l))) as [x Hx]; [lia|].
  rewrite Hx in He. m_unfold. rewrite Hs. cbn -[pget]. rewrite (pget_eq _ x) by done. by rewrite He.
Qed.

Lemma scan_skip run n l k :
  length (procs k) = 64%nat → sum_cpu_share k = 0 → 0 ≤ cur_p l → cur_p l + Z.of_nat n ≤ 64 →
  (∀ j, cur_p l ≤ j < cur_p l + Z.of_nat n → eligible k (Z.to_nat j) = false) →
  ∃ c s, scheduler_run run n (At_scan, l) k = Ok (At_scan, mkslocal (cur_p l + Z.of_nat n) c s) k.
Proof.
  intros Hl Hs. revert l. induction n as [|n IH]; intros l Hp Hn He.
  - exists (choosing l), (selected l). cbn. rewrite Z.add_0_r. by destruct l.
  - destruct (IH (mkslocal (cur_p l + 1) false false)) as (c & s & Hr); [cbn; lia..| |].
    { intros j Hj. apply He. cbn in Hj. lia. }
    exists c, s. cbn -[scheduler_step] in *.
    rewrite (bind_ok _ _ _ _ _ (step_skip run l k Hl Hs ltac:(lia) ltac:(apply He; lia))), Hr.
    do 3 f_equal. lia.
Qed.

Lemma scanning_ok k : table_ok k → outside_ptable k → table_ok (scanning k) ∧ in_ptable (scanning k).
Proof.
  intros Hok [Hn _]. split; [frame_ok; apply Hok|].
  split; [cbn; lia|]. split; [done | by apply holding_locked_by].
Qed.

(** The step that finds an eligible process reaches [swtch]. *)
Lemma step_dispatch l k i x :
  table_ok k → in_ptable k → sum_cpu_share k = 0 → cur_p l = Z.of_nat i →
  procs k !! i = Some x → eligible k i = true →
  ∃ k', scheduler_step (fun _ => stop_with Switched) (At_scan, l) k = Stop Switched k' ∧
    dispatched i k' ∧ queue_level_at_most k' = level_of_MLFQ x.
Proof.
  intros Hok Hin Hs Hp Hx He. pose proof (to_queue _ Hok) as Hwf.
  assert (Hi : (i < 64)%nat) by (rewrite <-(wq_procs _ Hwf); by eapply lookup_lt_Some).
  unfold eligible in He. rewrite Hx in He.
  pose proof He as [[Hrun Hsh]%andb_prop Hlv%Z.leb_le]%andb_prop.
  destruct (to_space _ Hok i x Hx) as [Hk Hg]; [left; by apply bool_decide_eq_true in Hrun|].
  set (k1 := k <| queue_level_at_most := level_of_MLFQ x |> <| min_of_run_proc_level := level_of_MLFQ x |>).
  set (k2 := k1 <| curproc := Some i |> <| ts_esp0 := u32 (kstack x + KSTACKSIZE) |>
                <| cr3 := Some (pgdir x) |>
                <| procs := <[i := x <| pstate := RUNNING |>]> (procs k) |>).
  exists k2.
  assert (Hd : ∀ l', sched_dispatch (fun _ => stop_with Switched) l' (Some i) k1 = Stop Switched k2).
  { intros l'. unfold sched_dispatch. erewrite bind_ok by done.
    pose proof (in_ptable_cli _ Hin) as [Hc Hroom]. erewrite bind_ok.
    2:{ apply wpt_eq. eapply (switchuvm_spec i x); [done | done | destruct Hin; cbn; lia | done..]. }
    erewrite bind_ok by done. erewrite bind_ok; [done|].
    unfold pupd. erewrite bind_ok by (by apply pget_eq). done. }
  split; [|split; [|done]].
  - unfold scheduler_step, NPROC. rewrite Hp. destruct (Z.ltb_spec (Z.of_nat i) 64); [|lia].
    unfold sched_body, sched_choose, sched_pick. unfold mbind, M_bind, gets, mret, M_ret, modify. rewrite Hs.
    cbn -[pget sched_dispatch]. rewrite Hp, Nat2Z.id, (pget_eq _ x) by done. rewrite He.
    replace (if level_of_MLFQ x <? queue_level_at_most k then level_of_MLFQ x
             else queue_level_at_most k) with (level_of_MLFQ x) by (case_match; lia).
    cbn -[sched_dispatch]. unfold update_field in Hd |- *. by rewrite Hd.
  - split; [|split; [exact Hin | split; [done|]]].
    + split; [| | apply Hok..].
      * destruct Hwf; split; cbn; rewrite ?length_insert; done.
      * apply (has_space_running k i x); auto. apply Hok.
    + exists (x <| pstate := RUNNING |>). cbn. rewrite list_lookup_insert_eq; [done|].
      rewrite (wq_procs _ Hwf). lia.
Qed.

(** With no stride process, a pass of the scheduler switches to the first
    process of the table that is RUNNABLE, whatever the levels: the scheduler
    reaches [swtch] after a bounded number of steps, having run nothing else,
    and lowers [queue_level_at_most] to the level of that process. *)
Theorem mlfq_pass_runs_first_runnable (p : Z) (ch : bool) (k : kstate) (i : nat) (x : proc) :
  table_ok k → outside_ptable k → sum_cpu_share k = 0 →
  procs k !! i = Some x → pstate x = RUNNABLE → cpu_share x = 0 → level_of_MLFQ x ≤ 2 →
  (∀ j y, (j < i)%nat → procs k !! j = Some y → cpu_share y = 0 → level_of_MLFQ y ≤ 2 → pstate y ≠ RUNNABLE) →
  ∃ k', scheduler_run (fun _ => stop_with Switched) (i + 3) (scheduler_entry p ch) k = Stop Switched k' ∧
    dispatched i k' ∧ queue_level_at_most k' = level_of_MLFQ x.
Proof.
  intros Hok Hout Hs Hx Hrun Hsh Hlv Hfirst.
  destruct (scanning_ok k Hok Hout) as [Hok' Hin']. pose proof (wq_procs _ (to_queue _ Hok)) as Hl.
  assert (Hi : (i < 64)%nat) by (rewrite <-Hl; by eapply lookup_lt_Some).
  destruct (scan_skip (fun _ => stop_with Switched) i (mkslocal 0 true false) (scanning k))
    as (c & s & Hskip); [done | done | cbn; lia | cbn; lia | |].
  { intros j Hj. cbn in Hj. unfold eligible.
    change (procs (scanning k)) with (procs k). destruct (procs k !! Z.to_nat j) as [y|] eqn:Hy; [|done].
    apply not_true_iff_false.
    intros [[Hr%bool_decide_eq_true Hz%Z.eqb_eq]%andb_prop Hle%Z.leb_le]%andb_prop.
    by eapply (Hfirst (Z.to_nat j) y); [lia | ..]. }
  destruct (step_dispatch (mkslocal (Z.of_nat i) c s) (scanning k) i x) as (k' & Hd & HQ);
    [done | done | done | done | done | |].
  { unfold eligible. change (procs (scanning k)) with (procs k). rewrite Hx, Hrun, Hsh. by apply Z.leb_le. }
  exists k'. split; [|exact HQ].
  replace (i + 3)%nat with (2 + (i + 1))%nat by lia.
  rewrite (scheduler_run_app _ _ _ _ _ _ _ (scheduler_enter _ p ch k Hout)).
  rewrite (scheduler_run_app _ _ _ _ _ _ _ Hskip).
  cbn -[scheduler_step]. by rewrite (bind_stop _ _ _ _ _ Hd).
Qed.

Lemma mlfq_pass_runs_first_runnable_witness :
  let k := mlfq_scenario [(SLEEPING, 0); (RUNNABLE, 2); (RUNNABLE, 0)] in
  ∃ k', scheduler_run (fun _ => stop_with Switched) 4 (scheduler_entry 0 false) k = Stop Switched k' ∧
    dispatched 1 k' ∧ queue_level_at_most k' = 2.
Proof.
  set (l := [(SLEEPING, 0); (RUNNABLE, 2); (RUNNABLE, 0)]). intros k.
  destruct (mlfq_scenario_ok l) as [Hok Hout]; [cbn; lia|].
  apply (mlfq_pass_runs_first_runnable 0 false k 1 (mlfq_proc (RUNNABLE, 2)) Hok Hout); try done.
  intros [|j] y Hj Hy; [|lia]. by injection Hy as <-.
Defined.



(** The scan of the MLFQ loses its place when a stride process runs: the
    pointer backed up as [p_mlfq] is taken after [p] was overwritten with the
    stride process, so the scan goes on at that process.  Here the scan
    stands at process 5, process 0 is a stride process and yields at once;
    the next process looked at is 0, not 5. *)
Theorem stride_dispatch_moves_scan :
  let x := (scenario_proc (RUNNABLE, 100, 0)) <| kstack := 8192 |> <| pgdir := 4096 |> in
  let k := (scenario [(RUNNABLE, 100, 0)])
             <| procs := x :: replicate 63 proc0 |>
             <| this_cpu := mkcpu 0 1 true false |>
             <| ptable_lock := mkspinlock "ptable" true (Some 0%nat) |> in
  table_ok k ∧ in_ptable k ∧
  ∃ k', sched_body yields (mkslocal 5 true false) k = Ok (mkslocal 0 true true) k'.
Proof.
  intros x k. assert (Hsq : stride_queue k = stride_queue (scenario [(RUNNABLE, 100, 0)]))
    by (vm_compute; reflexivity).
  split; [|split; [done|]].
  - split; [| | done | cbn; lia].
    + apply (wf_queue_frame (scenario [(RUNNABLE, 100, 0)])); [apply scenario_wf; cbn; lia|..];
        [vm_compute; reflexivity | exact Hsq | vm_compute; reflexivity].
    + intros [|i] y Hy Hr; [by injection Hy as <-|].
      apply (lookup_replicate 63) in Hy as [-> _]. destruct Hr as [Hr|Hr]; [done|].
      apply elem_of_queued in Hr as [j Hj].
      rewrite Hsq, slot_scenario in Hj by (cbn; lia). case_decide; [|done]. cbn in *. simplify_eq. lia.
  - eexists. vm_compute. reflexivity.
Qed.
