(* ===== verification/Sleep.v ===== *)
(** * Giving up the CPU, sleeping and waking (proc.c)

    [sched], [yield], [sleep], [forkret], [wakeup] and [kill].  What other
    threads do between the switch away and the switch back is the argument
    [resume].  The last part is the sleep/wakeup protocol under true
    concurrency, as a step relation whose invariant excludes lost wakeups. *)
From S2P Require Import Prelude Spinlock Proc.

(** ** Giving up the CPU *)
Inductive lock_ptr := lk_null | lk_ptable | lk_thread | lk_other (n : nat).

#[export] Instance lock_ptr_eq_dec : EqDecision lock_ptr.
Proof. solve_decision. Defined.

Definition with_other_lock {A} (n : nat) (m : M (cpu * spinlock) A) : K A :=
  ls ← gets other_locks;
  lk ← deref (ls !! n);
  zoom (fun k => (this_cpu k, lk))
       (fun x k => k <| this_cpu := x.1 |> <| other_locks ::= <[n := x.2]> |>) m.

Definition with_lock {A} (lk : lock_ptr) (m : M (cpu * spinlock) A) : K A :=
  match lk with
  | lk_null => fault
  | lk_ptable => with_ptable_lock m
  | lk_thread => with_thread_lock m
  | lk_other n => with_other_lock n m
  end.

(** [sched] up to the switch, and from the switch back on. *)
Definition sched_out : K bool :=
  h ← gets (fun k => holding (this_cpu k) (ptable_lock k));
  if negb h then panic "sched ptable.lock" else
  n ← gets (fun k => ncli (this_cpu k));
  if negb (n =? 1) then panic "sched locks" else
  me ← the_proc;
  x ← pget me;
  if bool_decide (pstate x = RUNNING) then panic "sched running" else
  f ← gets (fun k => eflags_IF (this_cpu k));
  if (f : bool) then panic "sched interruptible" else
  gets (fun k => intena (this_cpu k)).

Definition sched_in (saved : bool) : K unit :=
  cur ← gets curproc;
  match cur with
  | Some i => pupd i (fun x => x <| time_quantum_used := 0 |>)
  | None => mret tt
  end;;
  modify (fun k => k <| this_cpu ::= fun c => c <| intena := saved |> |>).

(** [sleep] before and after its call of [sched]. *)
Definition sleep_enter (ch : chan_t) (lk : lock_ptr) : K unit :=
  cur ← gets curproc;
  match cur with
  | None => panic "sleep"
  | Some me =>
      if decide (lk = lk_null) then panic "sleep without lk" else
      when (bool_decide (lk ≠ lk_ptable)) (acquire_ptable;; with_lock lk release);;
      pupd me (fun x => x <| chan := ch |>);;
      pupd me (fun x => x <| pstate := SLEEPING |>)
  end.

Definition sleep_leave (lk : lock_ptr) : K unit :=
  me ← the_proc;
  pupd me (fun x => x <| chan := ch_null |>);;
  when (bool_decide (lk ≠ lk_ptable)) (release_ptable;; with_lock lk acquire).

Section switching.
Context (resume : K unit).

Definition sched : K unit :=
  saved ← sched_out;
  resume;;
  sched_in saved.

Definition yield : K unit :=
  acquire_ptable;;
  me ← the_proc;
  pupd me (fun x => x <| pstate := RUNNABLE |>);;
  sched;;
  release_ptable.

Definition sys_yield : K Z := yield;; mret 0.

Definition sleep (ch : chan_t) (lk : lock_ptr) : K unit :=
  sleep_enter ch lk;;
  sched;;
  sleep_leave lk.
End switching.

(** The first return of a new process; [fs_init] is [iinit] and [initlog]. *)
Definition forkret (fs_init : K unit) : K unit :=
  release_ptable;;
  first ← gets forkret_first;
  when first (modify (fun k => k <| forkret_first := false |>);; fs_init).

(** ** Waking and killing *)
Definition wakeup1 (ch : chan_t) : K unit :=
  for_each all_procs (fun i =>
    x ← pget i;
    when (bool_decide (pstate x = SLEEPING) && bool_decide (chan x = ch))
      (pupd i (fun p => p <| pstate := RUNNABLE |>))).

Definition wakeup (ch : chan_t) : K unit :=
  acquire_ptable;; wakeup1 ch;; release_ptable.

Definition kill (p : Z) : K Z :=
  acquire_ptable;;
  r ← for_list all_procs (fun i =>
    x ← pget i;
    if pid x =? p then
      pupd i (fun y => y <| killed := 1 |>);;
      when (bool_decide (pstate x = SLEEPING)) (pupd i (fun y => y <| pstate := RUNNABLE |>));;
      release_ptable;;
      mret (Some 0)
    else mret None);
  match r with
  | Some v => mret v
  | None => release_ptable;; mret (-1)
  end.

(** ** wakeup and kill *)
Definition woken (ch : chan_t) (x : proc) : proc :=
  if bool_decide (pstate x = SLEEPING) && bool_decide (chan x = ch)
  then x <| pstate := RUNNABLE |> else x.

Lemma wakeup1_eq (ch : chan_t) (k : kstate) :
  length (procs k) = 64%nat →
  wakeup1 ch k = Ok tt (k <| procs := woken ch <$> procs k |>).
Proof.
  intros Hl. apply wpt_eq. unfold wakeup1.
  apply (for_procs_wp _ (woken ch) (fun _ s => s <| procs := procs k |> = k)); [done | by destruct k | |].
  - intros i x s Hs Hx. wp_step. eapply wp_pget; [done|]. unfold woken.
    apply wp_when; intros ->.
    + eapply wp_pupd; [done|]. split; [done|]. by rewrite <-Hs.
    + split; [by rewrite list_insert_id | done].
  - intros s Hs Hp. split; [done|]. rewrite <-Hp.
    transitivity ((s <| procs := procs k |>) <| procs := procs s |>); [by destruct s | by rewrite Hs].
Qed.

Lemma wakeup_eq (ch : chan_t) (k : kstate) :
  length (procs k) = 64%nat → cli_ok (this_cpu k) → ncli (this_cpu k) + 1 < INT_MAX →
  free (ptable_lock k) →
  wakeup ch k = Ok tt ((bracketed k) <| procs := woken ch <$> procs k |>).
Proof.
  intros Hl Hc Hn Hf. apply wpt_eq. unfold wakeup. wp_step. apply wp_acquire_ptable; [done..|].
  wp_step. eapply wp_eq; [by apply wakeup1_eq|].
  apply wp_release_ptable; [by apply cli_ok_pushed | destruct Hc; cbn; lia | by apply holding_locked_by |].
  split; [done|]. cbn. rewrite unlocked_locked_by by done. by destruct k.
Qed.

(** A kernel thread that may take [ptable.lock]: what the callers of [wakeup]
    rely on. *)
Record kern_ok (k : kstate) : Prop := {
  kk_len : length (procs k) = 64%nat;
  kk_cpu : calm (this_cpu k);
  kk_pt : free (ptable_lock k);
  kk_cur : ∃ me x, curproc k = Some me ∧ procs k !! me = Some x
}.

Lemma wakeup_kern ch (Q : unit → kstate → Prop) E k :
  kern_ok k →
  (∀ k', kern_ok k' → other_locks k' = other_locks k →
     this_cpu k' = popped (pushed (this_cpu k)) → Q tt k') →
  wp (wakeup ch) Q E k.
Proof.
  intros [Hl [Hc Hn] Hp (me & x & Hcur & Hx)] HQ. eapply wp_eq; [by apply wakeup_eq|]. apply HQ; [|done..].
  split; [cbn; by rewrite length_fmap | by apply calm_bracket | done|].
  exists me, (woken ch x). split; [done|]. cbn. by rewrite list_lookup_fmap, Hx.
Qed.

(** [wakeup] makes RUNNABLE exactly the processes sleeping on the channel
    and changes nothing else: the lock is free again and the interrupt state
    is what it was. *)
Theorem wakeup_correct (ch : chan_t) (k : kstate) :
  length (procs k) = 64%nat → cli_ok (this_cpu k) → ncli (this_cpu k) + 1 < INT_MAX →
  free (ptable_lock k) →
  ∃ k', wakeup ch k = Ok tt k' ∧ k' = (bracketed k) <| procs := woken ch <$> procs k |> ∧
    ncli (this_cpu k') = ncli (this_cpu k) ∧ eflags_IF (this_cpu k') = eflags_IF (this_cpu k) ∧
    (∀ i x, procs k' !! i = Some x → ¬ (pstate x = SLEEPING ∧ chan x = ch)).
Proof.
  intros Hl Hc Hn Hf. eexists. split; [by apply wakeup_eq | split; [reflexivity|]].
  cbn. split; [lia|]. split.
  - pose proof (popped_pushed _ Hc) as Hpp. apply (f_equal eflags_IF) in Hpp. exact Hpp.
  - intros i x (y & -> & Hy)%list_lookup_fmap_Some [Hst Hch]. revert Hst Hch. unfold woken.
      destruct (bool_decide_reflect (pstate y = SLEEPING)), (bool_decide_reflect (chan y = ch)); done.
Qed.

Lemma wakeup_correct_witness :
  let k := boot_state <| procs := (proc0 <| pstate := SLEEPING |> <| chan := ch_addr 7 |>) :: replicate 63 proc0 |> in
  ∃ k', wakeup (ch_addr 7) k = Ok tt k' ∧ pstate <$> procs k' !! 0%nat = Some RUNNABLE.
Proof.
  intros k. destruct (wakeup_correct (ch_addr 7) k) as (k' & Hr & -> & _);
    [done | unfold cli_ok, INT_MAX; cbn; intuition lia | unfold INT_MAX; cbn; lia | done |].
  eexists. split; [exact Hr | done].
Defined.

Definition slain (x : proc) : proc :=
  let y := x <| killed := 1 |> in
  if decide (pstate x = SLEEPING) then y <| pstate := RUNNABLE |> else y.

(** The slots before [i] do not carry the pid. *)
Definition first_with_pid (p : Z) (i : nat) (k : kstate) : Prop :=
  ∀ j y, (j < i)%nat → procs k !! j = Some y → pid y ≠ p.

Section kill.
Context (p : Z) (k : kstate).
Context (Hl : length (procs k) = 64%nat) (Hc : cli_ok (this_cpu k)).
Context (Hn : ncli (this_cpu k) + 1 < INT_MAX) (Hf : free (ptable_lock k)).

Let k1 := k <| this_cpu := pushed (this_cpu k) |>
            <| ptable_lock := locked_by (this_cpu k) (ptable_lock k) |>.

Lemma wp_release_bracketed (f : list proc) (Q : unit → kstate → Prop) :
  Q tt ((bracketed k) <| procs := f |>) → wpt release_ptable Q (k1 <| procs := f |>).
Proof.
  intros HQ. apply wp_release_ptable; [by apply cli_ok_pushed | destruct Hc; cbn; lia | by apply holding_locked_by |].
  cbn. rewrite unlocked_locked_by by done. by destruct k.
Qed.

Lemma kill_skips (j : nat) (y : proc) (A : Type) (m : proc → K (option A)) :
  procs k !! j = Some y → pid y ≠ p →
  (x ← pget j; if pid x =? p then m x else mret None) k1 = Ok None k1.
Proof.
  intros Hy Hne. rewrite (bind_ok _ _ _ _ _ (pget_eq j y k1 Hy)).
  by destruct (Z.eqb_spec (pid y) p).
Qed.

Lemma kill_found (i : nat) (x : proc) :
  procs k !! i = Some x → pid x = p → first_with_pid p i k →
  kill p k = Ok 0 ((bracketed k) <| procs := <[i := slain x]> (procs k) |>).
Proof.
  intros Hx Hpid Hfirst. apply wpt_eq. unfold kill. wp_step. apply wp_acquire_ptable; [done..|].
  fold k1. assert (Hi : (i < 64)%nat) by (rewrite <-Hl; by eapply lookup_lt_Some).
  wp_step. rewrite (all_procs_split i) by done. apply wp_for_list_first.
  { intros j [_ Hj]%elem_of_seq. destruct (lookup_lt_is_Some_2 (procs k) j) as [y Hy]; [lia|].
    apply (kill_skips j y Z (fun x => _)); [done | by eapply Hfirst]. }
  wp_step. eapply wp_pget; [done|].
  rewrite Hpid, Z.eqb_refl. wp_step. eapply wp_pupd; [done|]. wp_step.
  eapply (wp_weaken _ (fun _ s => s = k1 <| procs := <[i := slain x]> (procs k) |>)).
  { unfold slain. apply wp_when; case_bool_decide; intros; try done.
    - eapply wp_pupd; [cbn; rewrite list_lookup_insert_eq by lia; done|].
      cbn. rewrite decide_True, list_insert_insert_eq by done. done.
    - by rewrite decide_False by done. }
  intros _ s ->. wp_step. apply wp_release_bracketed. by wp_run.
Qed.

Lemma kill_missing : first_with_pid p 64 k → kill p k = Ok (-1) (bracketed k).
Proof.
  intros Hnone. apply wpt_eq. unfold kill. wp_step. apply wp_acquire_ptable; [done..|]. fold k1.
  wp_step. eapply wp_eq.
  { apply (for_list_pure (fun _ => None)). intros j Hj%elem_of_all_procs.
    destruct (lookup_lt_is_Some_2 (procs k) j) as [y Hy]; [lia|].
    apply (kill_skips j y Z (fun x => _)); [done | by eapply Hnone]. }
  replace (first_some _ all_procs) with (@None Z) by (symmetry; by apply first_some_None).
  wp_step. assert (k1 = k1 <| procs := procs k |>) as -> by done. apply wp_release_bracketed.
  wp_step. split; [done|]. by destruct k.
Qed.
End kill.

(** [kill] finds the first process with the given pid, marks it killed,
    wakes it if it sleeps, and returns 0; if no process has the pid it
    returns -1 and changes nothing.  Either way the lock is free and the
    interrupt state restored. *)
Theorem kill_correct (p : Z) (k : kstate) :
  length (procs k) = 64%nat → cli_ok (this_cpu k) → ncli (this_cpu k) + 1 < INT_MAX →
  free (ptable_lock k) →
  (∀ i x, procs k !! i = Some x → pid x = p → first_with_pid p i k →
     kill p k = Ok 0 ((bracketed k) <| procs := <[i := slain x]> (procs k) |>)) ∧
  (first_with_pid p 64 k → kill p k = Ok (-1) (bracketed k)).
Proof.
  intros Hl Hc Hn Hf. split; intros; [by apply kill_found | by apply kill_missing].
Qed.

Lemma kill_correct_witness :
  let k := boot_state <| procs := (proc0 <| pstate := SLEEPING |> <| pid := 3 |>) :: replicate 63 proc0 |> in
  (∃ k', kill 3 k = Ok 0 k' ∧ pstate <$> procs k' !! 0%nat = Some RUNNABLE) ∧
  (∃ k', kill 9 k = Ok (-1) k' ∧ procs k' = procs k).
Proof.
  intros k.
  assert (Hc : cli_ok (this_cpu k)) by (unfold cli_ok, INT_MAX; cbn; intuition lia).
  assert (Hn : ncli (this_cpu k) + 1 < INT_MAX) by (unfold INT_MAX; cbn; lia).
  split; eexists; split.
  - apply (proj1 (kill_correct 3 k eq_refl Hc Hn (conj eq_refl eq_refl)) 0%nat
      (proc0 <| pstate := SLEEPING |> <| pid := 3 |>)); [done | done |]. intros j y Hj. lia.
  - done.
  - apply (proj2 (kill_correct 9 k eq_refl Hc Hn (conj eq_refl eq_refl))).
    intros [|j] y Hj Hy; [by injection Hy as <-|].
    by apply (lookup_replicate 63) in Hy as [-> _].
  - done.
Defined.

(** ** yield *)

(** What a thread that calls [sched] may rely on: switched away from in its
    critical section, not RUNNING, it is eventually switched back to as the
    current, RUNNING process, inside a critical section of [ptable.lock],
    maybe on another CPU and with another value of [intena].  [P] is what it
    left behind, [R] what it is owed besides. *)
Definition resumes (me : nat) (resume : K unit) (P R : kstate → Prop) : Prop :=
  ∀ k, in_ptable k → curproc k = Some me → P k →
    wpt resume (fun _ k' => in_ptable k' ∧ curproc k' = Some me ∧ R k' ∧
      ∃ x, procs k' !! me = Some x ∧ pstate x = RUNNING) k.

Definition quiet (me : nat) (st : procstate) (k : kstate) : Prop :=
  ∃ x, procs k !! me = Some x ∧ pstate x = st.

(** After [sched]: the CPU is the one the thread was resumed on, but for
    [intena], which is the thread's own. *)
Definition sched_back (saved : bool) (k' : kstate) (k2 : kstate) (me : nat) (x : proc) : Prop :=
  k2 = k' <| procs := <[me := x <| time_quantum_used := 0 |>]> (procs k') |>
          <| this_cpu := (this_cpu k') <| intena := saved |> |>.

Lemma sched_spec (me : nat) (resume : K unit) (P R : kstate → Prop) (st : procstate) (k : kstate) :
  resumes me resume P R → st ≠ RUNNING →
  in_ptable k → curproc k = Some me → quiet me st k → P k →
  wpt (sched resume) (fun _ k2 => ∃ k' x, sched_back (intena (this_cpu k)) k' k2 me x ∧
    in_ptable k' ∧ curproc k' = Some me ∧ R k' ∧ procs k' !! me = Some x ∧ pstate x = RUNNING) k.
Proof.
  intros Hres Hst Hin Hcur (x & Hx & Hxst) HP. pose proof Hin as (Hn & Hf & Hh).
  unfold sched, sched_out, sched_in. do 3 wp_step. rewrite Hh. cbn [negb]. do 2 wp_step. rewrite Hn. cbn [negb Z.eqb Pos.eqb].
  wp_step. eapply wp_the_proc; [done|]. wp_step. eapply wp_pget; [done|].
  rewrite bool_decide_eq_false_2 by congruence. do 2 wp_step. rewrite Hf. wp_step. wp_step.
  eapply wp_weaken; [by apply Hres|]. intros [] k' (Hin' & Hcur' & HR & y & Hy & Hrun).
  do 3 wp_step. rewrite Hcur'. eapply wp_pupd; [done|]. wp_step. exists k', y. done.
Qed.

(** [yield] returns with [ptable.lock] free and with interrupts exactly as
    they were before the call, even if the thread comes back on another CPU
    whose [intena] differs: [sched] saves and restores it.  The thread is
    RUNNING with a fresh time quantum, and while it was away it was RUNNABLE. *)
Theorem yield_preserves_interrupts (me : nat) (resume : K unit) (k : kstate) (x : proc) :
  resumes me resume (quiet me RUNNABLE) (fun _ => True) →
  outside_ptable k → curproc k = Some me → procs k !! me = Some x →
  ∃ k', yield resume k = Ok tt k' ∧ outside_ptable k' ∧ curproc k' = Some me ∧
    eflags_IF (this_cpu k') = eflags_IF (this_cpu k) ∧
    ∃ y, procs k' !! me = Some y ∧ pstate y = RUNNING ∧ time_quantum_used y = 0.
Proof.
  intros Hres [Hn Hf] Hcur Hx. enough (wpt (yield resume) (fun _ k' =>
    outside_ptable k' ∧ curproc k' = Some me ∧ eflags_IF (this_cpu k') = eflags_IF (this_cpu k) ∧
    ∃ y, procs k' !! me = Some y ∧ pstate y = RUNNING ∧ time_quantum_used y = 0) k)
    as ([] & k' & Hr & HQ)%wpt_ok by eauto.
  assert (Hlen : (me < length (procs k))%nat) by by eapply lookup_lt_Some.
  unfold yield. wp_step. apply wp_acquire_ptable; [unfold cli_ok, INT_MAX; lia | done |].
  wp_step. eapply wp_the_proc; [done|]. wp_step. eapply wp_pupd; [done|]. wp_step.
  eapply wp_weaken; [eapply (sched_spec me _ _ _ RUNNABLE); [exact Hres | done | | done | |]|].
  - split; [cbn; lia|]. split; [done | by apply holding_locked_by].
  - exists (x <| pstate := RUNNABLE |>). cbn. by rewrite list_lookup_insert_eq.
  - exists (x <| pstate := RUNNABLE |>). cbn. by rewrite list_lookup_insert_eq.
  - intros [] k2 (k' & y & -> & Hin & Hcur' & _ & Hy & Hrun). destruct Hin as (Hn' & Hf' & Hh').
    assert (Hlen' : (me < length (procs k'))%nat) by by eapply lookup_lt_Some.
    apply wp_release_ptable; [split; cbn; [unfold INT_MAX; lia | done] | cbn; lia | done |].
    split; [split; cbn; [lia | done]|]. split; [done|]. split.
    + cbn. by rewrite Hn', Hn.
    + exists (y <| time_quantum_used := 0 |>). cbn. by rewrite list_lookup_insert_eq.
Qed.

(** A thread that is switched back to at once, on another CPU. *)
Definition migrate (me : nat) : K unit :=
  modify (fun k => k <| this_cpu := mkcpu 1 1 false false |>
                     <| ptable_lock := mkspinlock "ptable" true (Some 1%nat) |>);;
  pupd me (fun x => x <| pstate := RUNNING |>).

Lemma migrate_resumes me st : resumes me (migrate me) (quiet me st) (fun _ => True).
Proof.
  intros k _ Hcur (x & Hx & _). unfold migrate. do 2 wp_step. eapply wp_pupd; [done|].
  split; [done|]. split; [done|]. split; [done|]. exists (x <| pstate := RUNNING |>).
  cbn. rewrite list_lookup_insert_eq; [done|]. by eapply lookup_lt_Some.
Qed.

Lemma yield_preserves_interrupts_witness :
  let k := boot_state <| curproc := Some 2%nat |> <| this_cpu := mkcpu 0 0 false true |> in
  ∃ k', yield (migrate 2) k = Ok tt k' ∧ eflags_IF (this_cpu k') = true.
Proof.
  intros k. destruct (yield_preserves_interrupts 2 (migrate 2) k proc0) as (k' & Hr & _ & _ & Hif & _).
  - apply migrate_resumes.
  - done.
  - done.
  - done.
  - exists k'. done.
Defined.

(** ** sleep *)
Definition lock_of (lk : lock_ptr) (k : kstate) : option spinlock :=
  match lk with
  | lk_null => None
  | lk_ptable => Some (ptable_lock k)
  | lk_thread => Some (thread_lock k)
  | lk_other n => other_locks k !! n
  end.

Definition put_lock (lk : lock_ptr) (l : spinlock) (k : kstate) : kstate :=
  match lk with
  | lk_null => k
  | lk_ptable => k <| ptable_lock := l |>
  | lk_thread => k <| thread_lock := l |>
  | lk_other n => k <| other_locks ::= <[n := l]> |>
  end.

Lemma wp_with_lock {A} (lk : lock_ptr) (l : spinlock) (m : M (cpu * spinlock) A) a c' l' Q E k :
  lock_of lk k = Some l → m (this_cpu k, l) = Ok a (c', l') →
  Q a (put_lock lk l' (k <| this_cpu := c' |>)) → wp (with_lock lk m) Q E k.
Proof.
  intros Hl Hm HQ. destruct lk as [| | |n]; cbn in Hl; simplify_eq; cbn.
  - apply wp_zoom. by eapply wp_eq.
  - apply wp_zoom. by eapply wp_eq.
  - unfold with_other_lock. do 3 wp_step. eapply wp_deref; [done|]. apply wp_zoom. by eapply wp_eq.
Qed.

(** Every projection of the state but the lock itself. *)
Lemma put_lock_frame lk l k :
  lk ≠ lk_ptable →
  procs (put_lock lk l k) = procs k ∧ curproc (put_lock lk l k) = curproc k ∧
  this_cpu (put_lock lk l k) = this_cpu k ∧ ptable_lock (put_lock lk l k) = ptable_lock k.
Proof. by destruct lk. Qed.

Lemma lock_of_put lk l l0 k : lock_of lk k = Some l0 → lock_of lk (put_lock lk l k) = Some l.
Proof.
  destruct lk as [| | |n]; try done. cbn. intros Hl%lookup_lt_Some. by rewrite list_lookup_insert_eq.
Qed.

(** The thread as [sleep] leaves it when it calls [sched]: SLEEPING on its
    channel, with the lock it came with released. *)
Definition asleep (me : nat) (ch : chan_t) (lk : lock_ptr) (k : kstate) : Prop :=
  (∃ x, procs k !! me = Some x ∧ pstate x = SLEEPING ∧ chan x = ch) ∧
  ∃ l, lock_of lk k = Some l ∧ free l.

Definition lock_free (lk : lock_ptr) (k : kstate) : Prop := ∃ l, lock_of lk k = Some l ∧ free l.

(** Holding exactly the lock [lk]. *)
Definition in_lock (lk : lock_ptr) (k : kstate) : Prop :=
  ncli (this_cpu k) = 1 ∧ eflags_IF (this_cpu k) = false ∧
  ∃ l, lock_of lk k = Some l ∧ holding (this_cpu k) l = true.

(** The first half of [sleep]: [ptable.lock] is taken before [lk] is let go. *)
Lemma sleep_switch_locks (lk : lock_ptr) (me : nat) (k : kstate) (Q : unit → kstate → Prop) :
  lk ≠ lk_ptable → in_lock lk k → free (ptable_lock k) →
  (∀ k', in_ptable k' → lock_free lk k' → procs k' = procs k → curproc k' = curproc k →
     intena (this_cpu k') = intena (this_cpu k) → Q tt k') →
  wpt (acquire_ptable;; with_lock lk release) Q k.
Proof.
  intros Hlk (Hn & Hf & l & Hl & Hh) Hfree HQ. wp_step.
  apply wp_acquire_ptable; [unfold cli_ok, INT_MAX; rewrite Hn; split; [lia | done] | done |].
  set (k1 := _ <| ptable_lock := _ |>).
  assert (Hl1 : lock_of lk k1 = Some l) by by destruct lk.
  assert (Hc1 : cli_ok (this_cpu k1)) by (split; cbn; [unfold INT_MAX; lia | done]).
  eapply wp_with_lock; [exact Hl1 | apply release_held; [done | cbn; lia | done] |].
  set (k2 := k1 <| this_cpu := popped (this_cpu k1) |>). fold (unlocked l).
  destruct (put_lock_frame lk (unlocked l) k2 Hlk) as (Hp & Hcur & Hcpu & Hpt).
  apply HQ; try (by rewrite ?Hp, ?Hcur).
  - unfold in_ptable. rewrite Hcpu, Hpt. split; [cbn; lia|]. split; [cbn; by rewrite Hn|].
    by apply (holding_locked_by (this_cpu k)).
  - exists (unlocked l). split; [|done]. apply (lock_of_put lk _ l). by destruct lk.
  - rewrite Hcpu. cbn. by rewrite Hn.
Qed.

(** The second half: [ptable.lock] is released and [lk] taken again. *)
Lemma sleep_switch_back (lk : lock_ptr) (k : kstate) (Q : unit → kstate → Prop) :
  lk ≠ lk_ptable → in_ptable k → lock_free lk k →
  (∀ k', in_lock lk k' → free (ptable_lock k') → procs k' = procs k → curproc k' = curproc k →
     intena (this_cpu k') = intena (this_cpu k) → Q tt k') →
  wpt (release_ptable;; with_lock lk acquire) Q k.
Proof.
  intros Hlk (Hn & Hf & Hh) (l & Hl & Hfree) HQ. wp_step.
  apply wp_release_ptable; [unfold cli_ok, INT_MAX; rewrite Hn; split; [lia | done] | lia | done |].
  set (k1 := _ <| ptable_lock := _ |>).
  assert (Hl1 : lock_of lk k1 = Some l) by by destruct lk.
  eapply wp_with_lock; [exact Hl1 | apply acquire_free; [split; cbn; [unfold INT_MAX; lia | lia] | done] |].
  set (k2 := k1 <| this_cpu := pushed (this_cpu k1) |>). fold (locked_by (this_cpu k1) l).
  destruct (put_lock_frame lk (locked_by (this_cpu k1) l) k2 Hlk) as (Hp & Hcur & Hcpu & Hpt).
  apply HQ; try (by rewrite ?Hp, ?Hcur).
  - unfold in_lock. rewrite Hcpu. cbn. split; [lia|]. split; [done|].
    exists (locked_by (this_cpu k1) l). split; [|by apply (holding_locked_by (this_cpu k1))].
    apply (lock_of_put lk _ l). by destruct lk.
  - by rewrite Hpt.
  - rewrite Hcpu. cbn. by rewrite Hn.
Qed.

(** [sleep] called with one lock held never sleeps with that lock held:
    while the thread is away it is
    SLEEPING on its channel with the lock free, and on return the thread is
    RUNNING, its channel is cleared, the same lock is held again,
    [ptable.lock] is free, and the interrupt nesting is what it was. *)
Theorem sleep_releases_and_reacquires (me : nat) (resume : K unit) (ch : chan_t) (lk : lock_ptr)
    (k : kstate) (x : proc) :
  resumes me resume (asleep me ch lk) (lock_free lk) →
  lk ≠ lk_null → lk ≠ lk_ptable → in_lock lk k → free (ptable_lock k) →
  curproc k = Some me → procs k !! me = Some x →
  ∃ k', sleep resume ch lk k = Ok tt k' ∧ in_lock lk k' ∧ free (ptable_lock k') ∧
    intena (this_cpu k') = intena (this_cpu k) ∧
    ∃ y, procs k' !! me = Some y ∧ pstate y = RUNNING ∧ chan y = ch_null.
Proof.
  intros Hres Hnull Hlk Hin Hfree Hcur Hx.
  enough (wpt (sleep resume ch lk) (fun _ k' => in_lock lk k' ∧ free (ptable_lock k') ∧
    intena (this_cpu k') = intena (this_cpu k) ∧
    ∃ y, procs k' !! me = Some y ∧ pstate y = RUNNING ∧ chan y = ch_null) k)
    as ([] & k' & Hr & HQ)%wpt_ok by eauto.
  unfold sleep, sleep_enter. do 3 wp_step. rewrite Hcur, decide_False by done.
  rewrite bool_decide_eq_true_2 by done. cbn [when]. wp_step.
  apply sleep_switch_locks; [done..|]. intros k1 Hin1 (l1 & Hl1 & Hf1) Hp1 Hcur1 Hie1.
  assert (Hlen : (me < length (procs k))%nat) by by eapply lookup_lt_Some.
  wp_step. eapply wp_pupd; [by rewrite Hp1|].
  eapply wp_pupd; [cbn; rewrite list_lookup_insert_eq by (by rewrite Hp1); done|]. wp_step.
  set (x2 := x <| chan := ch |> <| pstate := SLEEPING |>).
  eapply wp_weaken; [eapply (sched_spec me _ _ _ SLEEPING); [exact Hres | done | done | by cbn; rewrite Hcur1 | |]|].
  - exists x2. cbn. rewrite list_lookup_insert_eq by (by rewrite length_insert, Hp1). done.
  - split; [|by exists l1; destruct lk]. exists x2. cbn.
    rewrite list_lookup_insert_eq by (by rewrite length_insert, Hp1). done.
  - intros [] k2 (k' & y & -> & Hin' & Hcur' & (l' & Hl' & Hf') & Hy & Hrun).
    assert (Hlen' : (me < length (procs k'))%nat) by by eapply lookup_lt_Some.
    unfold sleep_leave. rewrite bool_decide_eq_true_2 by done. cbn [when]. wp_step. eapply wp_the_proc; [done|]. wp_step.
    eapply wp_pupd; [cbn; rewrite list_lookup_insert_eq by done; done|].
    apply sleep_switch_back; [done | exact Hin' | by exists l'; destruct lk |].
    intros k3 Hin3 Hf3 Hp3 _ Hie3. split; [done|]. split; [done|]. split; [by rewrite Hie3|].
    exists (y <| time_quantum_used := 0 |> <| chan := ch_null |>). rewrite Hp3. cbn.
    by rewrite list_lookup_insert_eq by (by rewrite length_insert).
Qed.

Lemma sleep_releases_and_reacquires_witness :
  let c := mkcpu 0 1 true false in
  let k := boot_state <| curproc := Some 2%nat |> <| this_cpu := c |>
             <| thread_lock := mkspinlock "thread" true (Some 0%nat) |> in
  ∃ k', sleep (migrate 2) (ch_addr 9) lk_thread k = Ok tt k' ∧ in_lock lk_thread k' ∧
    intena (this_cpu k') = true.
Proof.
  intros c k.
  destruct (sleep_releases_and_reacquires 2 (migrate 2) (ch_addr 9) lk_thread k proc0)
    as (k' & Hr & Hin & _ & Hie & _); try done.
  - intros s _ Hcur ((x & Hx & _) & l & Hl & Hf). unfold migrate. do 2 wp_step.
    eapply wp_pupd; [done|]. split; [done|]. split; [done|]. split; [by exists l|].
    exists (x <| pstate := RUNNING |>). cbn. rewrite list_lookup_insert_eq; [done|]. by eapply lookup_lt_Some.
  - split; [done|]. split; [done|]. by eexists.
  - exists k'. done.
Defined.

(** ** The protocol under concurrency

    Any number of threads share a condition guarded by a lock [lk].  A
    consumer runs
    [acquire(lk); while(!cond) sleep(chan, lk); cond = 0; release(lk);]
    and a producer
    [acquire(lk); cond = 1; wakeup(chan); release(lk);], both forever.  A
    program counter names the next access of [sleep] or [wakeup]; each access
    is one atomic step and the threads interleave arbitrarily. *)
Module SleepWakeup.

Inductive pc :=
  | C_start                  (* acquire(lk) *)
  | C_test                   (* while(!cond) *)
  | C_acq_pt                 (* sleep: acquire(&ptable.lock) *)
  | C_rel_lk                 (* sleep: release(lk) *)
  | C_set                    (* sleep: proc->chan = chan; proc->state = SLEEPING *)
  | C_sched (w : bool)       (* sleep: sched(), the state is RUNNABLE iff w *)
  | C_asleep (w : bool)      (* switched away, RUNNABLE iff w *)
  | C_tidy                   (* sleep: proc->chan = 0; release(&ptable.lock) *)
  | C_acq_lk                 (* sleep: acquire(lk) *)
  | C_done                   (* release(lk) *)
  | P_start                  (* acquire(lk) *)
  | P_set                    (* cond = 1 *)
  | P_acq_pt                 (* wakeup: acquire(&ptable.lock) *)
  | P_wake                   (* wakeup1(chan) *)
  | P_rel_pt                 (* wakeup: release(&ptable.lock) *)
  | P_rel_lk.                (* release(lk) *)

Record sys := mksys { lk : option nat; pt : option nat; cond : bool; at_pc : nat → pc }.
#[export] Instance sys_eta : EtaRecord sys := fun s => mksys (lk s) (pt s) (cond s) (at_pc s).

Definition goto (t : nat) (p : pc) (s : sys) : sys :=
  s <| at_pc := fun u => if decide (u = t) then p else at_pc s u |>.

(** wakeup1 on the one channel. *)
Definition wake (p : pc) : pc :=
  match p with C_sched false => C_sched true | C_asleep false => C_asleep true | _ => p end.

Definition when_free (o : option nat) (s : sys) : option sys :=
  match o with None => Some s | Some _ => None end.

(** The next access of thread [t]; [None] when it has to wait. *)
Definition thread_step (t : nat) (s : sys) : option sys :=
  match at_pc s t with
  | C_start => when_free (lk s) (goto t C_test (s <| lk := Some t |>))
  | C_test => Some (if cond s then goto t C_done (s <| cond := false |>) else goto t C_acq_pt s)
  | C_acq_pt => when_free (pt s) (goto t C_rel_lk (s <| pt := Some t |>))
  | C_rel_lk => Some (goto t C_set (s <| lk := None |>))
  | C_set => Some (goto t (C_sched false) s)
  | C_sched w => Some (goto t (C_asleep w) (s <| pt := None |>))
  | C_asleep w => if w then when_free (pt s) (goto t C_tidy (s <| pt := Some t |>)) else None
  | C_tidy => Some (goto t C_acq_lk (s <| pt := None |>))
  | C_acq_lk => when_free (lk s) (goto t C_test (s <| lk := Some t |>))
  | C_done => Some (goto t C_start (s <| lk := None |>))
  | P_start => when_free (lk s) (goto t P_set (s <| lk := Some t |>))
  | P_set => Some (goto t P_acq_pt (s <| cond := true |>))
  | P_acq_pt => when_free (pt s) (goto t P_wake (s <| pt := Some t |>))
  | P_wake => Some (goto t P_rel_pt (s <| at_pc := fun u => wake (at_pc s u) |>))
  | P_rel_pt => Some (goto t P_rel_lk (s <| pt := None |>))
  | P_rel_lk => Some (goto t P_start (s <| lk := None |>))
  end.

Definition step (s s' : sys) : Prop := ∃ t, thread_step t s = Some s'.

(** Which threads are producers is arbitrary. *)
Definition init (producer : nat → bool) : sys :=
  mksys None None false (fun t => if producer t then P_start else C_start).

(** *** Invariant *)
Definition holds_lk (p : pc) : bool :=
  match p with
  | C_test | C_acq_pt | C_rel_lk | C_done | P_set | P_acq_pt | P_wake | P_rel_pt | P_rel_lk => true
  | _ => false
  end.
Definition holds_pt (p : pc) : bool :=
  match p with
  | C_rel_lk | C_set | C_sched _ | C_tidy | P_wake | P_rel_pt => true
  | _ => false
  end.
(** Found the condition false and still holds the lock that protects it. *)
Definition checked (p : pc) : bool := match p with C_acq_pt | C_rel_lk => true | _ => false end.
(** Committed to sleep and not woken. *)
Definition sleeping (p : pc) : bool :=
  match p with C_set | C_sched false | C_asleep false => true | _ => false end.
(** Will call [wakeup1]. *)
Definition will_wake (p : pc) : bool := match p with P_acq_pt | P_wake => true | _ => false end.

Record inv (s : sys) : Prop := {
  inv_lk : ∀ t, holds_lk (at_pc s t) = true ↔ lk s = Some t;
  inv_pt : ∀ t, holds_pt (at_pc s t) = true ↔ pt s = Some t;
  inv_checked : ∀ t, checked (at_pc s t) = true → cond s = false;
  inv_sleeping : ∀ t, sleeping (at_pc s t) = true → cond s = true →
    ∃ u, will_wake (at_pc s u) = true
}.

Lemma wake_inv_init producer : inv (init producer).
Proof. split; cbn; intros t; destruct (producer t); done. Qed.

Lemma holds_wake p : holds_lk (wake p) = holds_lk p ∧ holds_pt (wake p) = holds_pt p ∧
  checked (wake p) = checked p ∧ will_wake (wake p) = will_wake p.
Proof. by destruct p as [| | | | |[]|[]| | | | | | | | |]. Qed.

(** A step that moves [t] to [q] and changes the locks and the condition. *)
Lemma inv_move (t : nat) (q : pc) (l' p' : option nat) (c' : bool) (s : sys) :
  inv s →
  (holds_lk q = true ↔ l' = Some t) → (∀ u, u ≠ t → l' = Some u ↔ lk s = Some u) →
  (holds_pt q = true ↔ p' = Some t) → (∀ u, u ≠ t → p' = Some u ↔ pt s = Some u) →
  (checked q = true → c' = false) → (c' = true → cond s = true ∨ holds_lk (at_pc s t) = true) →
  (sleeping q = true → c' = true → sleeping (at_pc s t) = true ∧ cond s = true) →
  (c' = true → cond s = true ∧ will_wake (at_pc s t) = false ∨ will_wake q = true) →
  inv (goto t q (mksys l' p' c' (at_pc s))).
Proof.
  intros [Hlk Hpt Hch Hsl] Hl1 Hl2 Hp1 Hp2 Hc1 Hc2 Hs Hw.
  assert (Hwake : c' = true → ∀ v, will_wake (at_pc s v) = true →
    ∃ u, will_wake (if decide (u = t) then q else at_pc s u) = true).
  { intros Hc v Hv. destruct (Hw Hc) as [[_ Hf]|Hq].
    - exists v. rewrite decide_False by congruence. done.
    - exists t. by rewrite decide_True. }
  split; cbn; intros u; destruct (decide (u = t)) as [->|Hne]; auto.
  - rewrite Hlk. symmetry. auto.
  - rewrite Hpt. symmetry. auto.
  - intros Hcu. destruct c'; [|done]. destruct (Hc2 eq_refl) as [Hc|Hh].
    + rewrite (Hch u Hcu) in Hc. done.
    + apply Hlk in Hh. assert (holds_lk (at_pc s u) = true) as Hu%Hlk by (by destruct (at_pc s u)).
      congruence.
  - intros Hsu Hc. destruct (Hs Hsu Hc) as [Hst Hcs]. destruct (Hsl t Hst Hcs) as [v Hv]. eauto.
  - intros Hsu Hc. destruct (Hw Hc) as [[Hcs _]|Hq].
    + destruct (Hsl u Hsu Hcs) as [v Hv]. eauto.
    + exists t. by rewrite decide_True.
Qed.

Lemma inv_wake (t : nat) (s : sys) :
  at_pc s t = P_wake → inv s → inv (goto t P_rel_pt (s <| at_pc := fun u => wake (at_pc s u) |>)).
Proof.
  intros Ht [Hlk Hpt Hch Hsl]. pose proof (Hlk t) as Hlt. pose proof (Hpt t) as Hptt.
  rewrite Ht in Hlt, Hptt. cbn in Hlt, Hptt.
  split; cbn; intros u; destruct (holds_wake (at_pc s u)) as (Hw1 & Hw2 & Hw3 & _);
    destruct (decide (u = t)) as [->|Hne]; rewrite ?Hw1, ?Hw2, ?Hw3; eauto; try done.
  intros Hsu _. exfalso. assert (holds_pt (at_pc s u) = true) as Hu%Hpt; [|naive_solver congruence].
  by destruct (at_pc s u) as [| | | | |[]|[]| | | | | | | | |].
Qed.

Lemma wake_inv_step s s' : inv s → step s s' → inv s'.
Proof.
  intros Hi [t Ht]. unfold thread_step in Ht. pose proof Hi as [Hlk Hpt Hch _].
  pose proof (Hlk t) as Hl. pose proof (Hpt t) as Hp. pose proof (Hch t) as Hc. clear Hlk Hpt Hch.
  destruct (at_pc s t) as [| | | | |w|w| | | | | | | | |] eqn:Et; try (injection Ht as <-; by apply inv_wake);
    destruct s as [l p c f]; cbn in *.
  all: try (destruct l; [done|]); try (destruct w); try (destruct p; [done|]); try done.
  all: injection Ht as <-; try (destruct c).
  all: apply (inv_move t _ _ _ _ _ Hi); cbn; rewrite ?Et; cbn; intuition congruence.
Qed.

(** C8: No wakeup is lost: in every reachable state in which the condition
    holds, either no thread is asleep on the channel, or a producer is still
    on its way to [wakeup1].  The invariant rests on [sleep] taking
    [ptable.lock] before it releases [lk]. *)
Theorem no_lost_wakeup (producer : nat → bool) (s : sys) (t : nat) :
  rtc step (init producer) s → cond s = true → sleeping (at_pc s t) = true →
  ∃ u, will_wake (at_pc s u) = true ∧ lk s = Some u.
Proof.
  intros Hr Hc Hs. assert (Hi : inv s).
  { eapply (rtc_invariant step inv wake_inv_step); [exact Hr | apply wake_inv_init]. }
  destruct (inv_sleeping _ Hi t Hs Hc) as [u Hu]. exists u. split; [done|].
  apply (inv_lk _ Hi). by destruct (at_pc s u).
Qed.

(** Run the threads in the given order. *)
Fixpoint run (l : list nat) (s : sys) : option sys :=
  match l with
  | [] => Some s
  | t :: l => match thread_step t s with Some s' => run l s' | None => None end
  end.

Lemma run_rtc l s s' : run l s = Some s' → rtc step s s'.
Proof.
  revert s. induction l as [|t l IH]; intros s; cbn; [intros [= ->]; done|].
  destruct (thread_step t s) as [s1|] eqn:E; [|done]. intros H.
  eapply rtc_l; [by exists t | by apply IH].
Qed.

(** Thread 1 is a producer, the others consumers: thread 0 goes to sleep and
    thread 1 is about to wake it. *)
Lemma no_lost_wakeup_witness :
  ∃ s, run [0; 0; 0; 0; 0; 0; 1; 1]%nat (init (Nat.eqb 1)) = Some s ∧
    ∃ u, will_wake (at_pc s u) = true ∧ lk s = Some u.
Proof.
  destruct (run [0; 0; 0; 0; 0; 0; 1; 1]%nat (init (Nat.eqb 1))) as [s|] eqn:E; [|done].
  exists s. split; [done|].
  apply (no_lost_wakeup (Nat.eqb 1) s 0); [by eapply run_rtc | |]; vm_compute in E;
    injection E as <-; reflexivity.
Defined.

End SleepWakeup.
