(* ===== verification/Share.v ===== *)
(** * CPU shares (proc.c: set_cpu_share and its helpers)

    [set_cpu_share] moves the current process from the MLFQ into the stride
    queue, or changes its share, and spreads the share over the threads of the
    process.  The invariant ties the three places where shares are recorded
    together: the field of each process, membership in the stride queue, and
    [ptable.sum_cpu_share]. *)
From S2P Require Import Prelude Spinlock Proc StrideQueue.

Definition set_cpu_share_other_threads (required : Z) (t : nat) : K Z :=
  me ← the_proc;
  x ← pget me;
  if negb (tid x =? 0)
  then panic "(set_cpu_share_other_threads) The argument proc is not a thread." else
  if negb ((MIN_CPU_SHARE <=? required) && (required <=? MAX_CPU_SHARE)) then mret (-1) else
  y ← pget t;
  let cpu_share_already_set := cpu_share y in
  sum ← gets sum_cpu_share;
  let desired_sum_cpu_share := i32 (i32 (sum - cpu_share_already_set) + required) in
  if desired_sum_cpu_share >? MAX_CPU_SHARE then mret (-1) else
  modify (fun k => k <| sum_cpu_share := desired_sum_cpu_share |>);;
  pupd t (fun p => p <| cpu_share := required |>);;
  x ← pget me;
  pupd t (fun p => p <| original_cpu_share := original_cpu_share x |>);;
  pupd t (fun p => p <| stride := Z.quot NSTRIDE (cpu_share p) |>);;
  when (cpu_share_already_set =? 0) (stride_queue_push t);;
  mret 0.

(** The loop of [set_cpu_share] over the threads of the process. *)
Definition share_threads (required : Z) : K unit :=
  for_each all_procs (fun t =>
    y ← pget t;
    me ← the_proc;
    x ← pget me;
    when ((pid y =? pid x) && negb (tid y =? 0))
      (r ← set_cpu_share_other_threads required t;
       if negb (r =? 0)
       then panic "(set_cpu_share) inserting threads to stride queue is failed." else mret tt)).

Definition set_cpu_share (required : Z) : K Z :=
  me ← the_proc;
  x ← pget me;
  let required :=
    if (tid x =? 0) && negb (num_of_threads x =? 0)
    then Z.quot required (i32 (num_of_threads x + 1)) else required in
  if negb ((MIN_CPU_SHARE <=? required) && (required <=? MAX_CPU_SHARE)) then mret (-1) else
  let cpu_share_already_set := cpu_share x in
  sum ← gets sum_cpu_share;
  let desired_sum_cpu_share := i32 (i32 (sum - cpu_share_already_set) + required) in
  if desired_sum_cpu_share >? MAX_CPU_SHARE then mret (-1) else
  modify (fun k => k <| sum_cpu_share := desired_sum_cpu_share |>);;
  pupd me (fun p => p <| cpu_share := required |>);;
  pupd me (fun p => p <| original_cpu_share := cpu_share p |>);;
  pupd me (fun p => p <| stride := Z.quot NSTRIDE (cpu_share p) |>);;
  when (cpu_share_already_set =? 0) (stride_queue_push me);;
  x ← pget me;
  when ((tid x =? 0) && negb (num_of_threads x =? 0)) (share_threads required);;
  mret 0.

Definition set_cpu_share_in_thread_create (required : Z) (p master_thread : nat) : K Z :=
  if negb ((MIN_CPU_SHARE <=? required) && (required <=? MAX_CPU_SHARE)) then mret (-1) else
  x ← pget p;
  let cpu_share_already_set := cpu_share x in
  pupd p (fun y => y <| cpu_share := required |>);;
  m ← pget master_thread;
  pupd p (fun y => y <| original_cpu_share := original_cpu_share m |>);;
  pupd p (fun y => y <| stride := Z.quot NSTRIDE (cpu_share y) |>);;
  when (cpu_share_already_set =? 0) (stride_queue_push p);;
  mret 0.

(** [argint0] is [argint(0, &required)]: the argument, or [None] for -1. *)
Definition sys_set_cpu_share (argint0 : K (option Z)) : K Z :=
  a ← argint0;
  match a with
  | None => mret (-1)
  | Some required => set_cpu_share (i32 (required * 10))
  end.

(** ** Accounting *)
Fixpoint total_share (ps : list proc) : Z :=
  match ps with [] => 0 | x :: ps => cpu_share x + total_share ps end.

Record share_ok (k : kstate) : Prop := {
  sh_queue : wf_queue k;
  sh_order : heap_order k;
  sh_member : ∀ i x, procs k !! i = Some x → (cpu_share x ≠ 0 ↔ i ∈ queued k);
  sh_range : ∀ i x, procs k !! i = Some x → 0 ≤ cpu_share x;
  sh_sum : sum_cpu_share k = total_share (procs k);
  sh_max : sum_cpu_share k ≤ MAX_CPU_SHARE
}.

Lemma total_share_insert (ps : list proc) (i : nat) (x y : proc) :
  ps !! i = Some x → total_share (<[i := y]> ps) = total_share ps - cpu_share x + cpu_share y.
Proof.
  revert i. induction ps as [|z ps IH]; intros [|i] Hx; simplify_eq/=; [lia|].
  rewrite (IH i Hx). lia.
Qed.

Lemma total_share_ge (ps : list proc) (i : nat) (x : proc) :
  (∀ j y, ps !! j = Some y → 0 ≤ cpu_share y) → ps !! i = Some x →
  0 ≤ cpu_share x ≤ total_share ps.
Proof.
  revert i. induction ps as [|z ps IH]; intros i Hr Hx; [done|].
  assert (Htl : ∀ j y, ps !! j = Some y → 0 ≤ cpu_share y) by (intros j; apply (Hr (S j))).
  pose proof (Hr 0%nat z eq_refl) as Hz. assert (Hnn : 0 ≤ total_share ps).
  { clear IH Hx Hr Hz i. induction ps as [|w ps IH]; cbn; [lia|].
    pose proof (Htl 0%nat w eq_refl). assert (0 ≤ total_share ps) by (apply IH; intros j; apply (Htl (S j))). lia. }
  destruct i as [|i]; simplify_eq/=; [lia|]. pose proof (IH i Htl Hx). lia.
Qed.

(** A process that is not queued leaves room in the queue. *)
Lemma queue_room (k : kstate) (p : nat) :
  wf_queue k → (p < 64)%nat → p ∉ queued k → stride_queue_size k < 64.
Proof.
  intros Hwf Hp Hnq. pose proof Hwf as [Hpl Hl Hsz Hu Hn Hinj].
  set (l := (fun j => default 0%nat (slot (stride_queue k) j)) <$> seqZ 1 (stride_queue_size k)).
  assert (Hslot : ∀ j, j ∈ seqZ 1 (stride_queue_size k) →
    slot (stride_queue k) j = Some (default 0%nat (slot (stride_queue k) j))).
  { intros j Hj%elem_of_seqZ. destruct (Hu j) as (q & -> & _); [lia | done]. }
  assert (Hnd : NoDup (p :: l)).
  { constructor.
    - intros (j & Hpj & Hj)%list_elem_of_fmap. apply Hnq, elem_of_queued. exists j.
      rewrite (Hslot j Hj). congruence.
    - apply NoDup_fmap_2_strong; [|apply NoDup_seqZ]. intros i j Hi Hj Heq.
      apply (Hinj i j (default 0%nat (slot (stride_queue k) i))); [by apply Hslot|].
      rewrite Heq. by apply Hslot. }
  assert (Hsub : p :: l ⊆+ seq 0 64).
  { apply NoDup_submseteq; [done|]. intros q [->|(j & -> & Hj)%list_elem_of_fmap]%elem_of_cons;
      apply elem_of_seq; [lia|]. apply elem_of_seqZ in Hj. destruct (Hu j) as (r & -> & ?); cbn; lia. }
  apply submseteq_length in Hsub. cbn in Hsub. unfold l in Hsub.
  rewrite length_fmap, length_seqZ in Hsub. lia.
Qed.

(** ** Giving a process a share *)

Lemma key_insert (ps : list proc) (i : nat) (x y : proc) (p : pptr) :
  ps !! i = Some x → stride_count y = stride_count x → key (<[i := y]> ps) p = key ps p.
Proof.
  intros Hx Hc. destruct p as [j|]; [|done]. cbn. destruct (decide (i = j)) as [->|].
  - rewrite list_lookup_insert_eq by (by eapply lookup_lt_Some). rewrite Hx. cbn. by rewrite Hc.
  - by rewrite list_lookup_insert_ne.
Qed.

(** The process [x] with share [r], derived from the original share [o]. *)
Definition shared (r o : Z) (x : proc) : proc :=
  x <| cpu_share := r |> <| original_cpu_share := o |> <| stride := Z.quot NSTRIDE r |>.

Definition assigned (k : kstate) (t : nat) (r o : Z) (x : proc) : kstate :=
  k <| sum_cpu_share := sum_cpu_share k - cpu_share x + r |>
    <| procs := <[t := shared r o x]> (procs k) |>.

(** What granting a share to [t] changes. *)
Definition granted (t : nat) (r o : Z) (x : proc) (k k' : kstate) : Prop :=
  curproc k' = curproc k ∧ sum_cpu_share k' = sum_cpu_share k - cpu_share x + r ∧
  (∃ c, procs k' = <[t := (shared r o x) <| stride_count := c |>]> (procs k)).

Lemma granted_lookup t r o x k k' j y :
  granted t r o x k k' → procs k !! t = Some x → procs k' !! j = Some y →
  (j = t ∧ cpu_share y = r) ∨ (j ≠ t ∧ procs k !! j = Some y).
Proof.
  intros (_ & _ & c & ->) Hx Hy. destruct (decide (j = t)) as [->|].
  - rewrite list_lookup_insert_eq in Hy by (by eapply lookup_lt_Some). simplify_eq. by left.
  - rewrite list_lookup_insert_ne in Hy by done. by right.
Qed.

(** The accounting part of the invariant follows from what was granted. *)
Lemma granted_ok t r o x k k' :
  share_ok k → procs k !! t = Some x → 1 ≤ r → sum_cpu_share k - cpu_share x + r ≤ MAX_CPU_SHARE →
  granted t r o x k k' → wf_queue k' → heap_order k' →
  (∀ i, i ∈ queued k' ↔ i = t ∨ i ∈ queued k) → share_ok k'.
Proof.
  intros [Hwf Hho Hmem Hrg Hsum Hmax] Hx Hr Hfit Hg Hwf' Hho' Hq.
  split; [done | done | | | |].
  - intros i y Hy. rewrite Hq. destruct (granted_lookup _ _ _ _ _ _ _ _ Hg Hx Hy) as [[-> ->]|[Hne Hy']].
    + split; [by left | lia].
    + rewrite (Hmem i y Hy'). naive_solver.
  - intros i y Hy. destruct (granted_lookup _ _ _ _ _ _ _ _ Hg Hx Hy) as [[_ ->]|[_ Hy']]; [lia|].
    by eapply Hrg.
  - destruct Hg as (_ & -> & c & ->). rewrite (total_share_insert _ _ x) by done. cbn. lia.
  - destruct Hg as (_ & -> & _). done.
Qed.

(** The common tail of the two routines. *)
Lemma grant_spec (k : kstate) (t : nat) (r o : Z) (x : proc) :
  share_ok k → procs k !! t = Some x → 1 ≤ r → sum_cpu_share k - cpu_share x + r ≤ MAX_CPU_SHARE →
  wpt (when (cpu_share x =? 0) (stride_queue_push t))
    (fun _ k' => share_ok k' ∧ granted t r o x k k') (assigned k t r o x).
Proof.
  intros Hok Hx Hr Hfit. pose proof Hok as [Hwf Hho Hmem Hrg Hsum Hmax].
  assert (Hlen : (t < length (procs k))%nat) by by eapply lookup_lt_Some.
  assert (Hwf1 : wf_queue (assigned k t r o x)).
  { apply (wf_queue_frame k); [done | cbn; rewrite length_insert; apply Hwf | done | done]. }
  assert (Hho1 : heap_order (assigned k t r o x)).
  { intros i Hi. cbn. rewrite !(key_insert _ _ x) by done. by apply Hho. }
  apply wp_when; intros Hz.
  - assert (Hnq : t ∉ queued k) by (rewrite <-Hmem by done; lia).
    eapply wp_weaken; [apply (stride_queue_push_spec _ t (shared r o x)); [done | done | | |]|].
    + cbn. eapply queue_room; [done | rewrite <-(wq_procs _ Hwf); done | done].
    + cbn. by rewrite list_lookup_insert_eq.
    + exact Hnq.
    + intros [] k' ((c & q & ->) & Hwf' & Hho' & _ & Hq).
      assert (Hg : granted t r o x k ((assigned k t r o x)
        <| procs := <[t := (shared r o x) <| stride_count := c |>]> (procs (assigned k t r o x)) |>
        <| stride_queue_size := stride_queue_size (assigned k t r o x) + 1 |> <| stride_queue := q |>)).
      { split; [done|]. split; [done|]. exists c. cbn. by rewrite list_insert_insert_eq. }
      split; [|done]. eapply granted_ok; [done..|]. intros i. rewrite Hq. apply elem_of_cons.
  - assert (Hin : t ∈ queued k) by (apply (Hmem t x Hx); lia).
    assert (Hg : granted t r o x k (assigned k t r o x)).
    { split; [done|]. split; [done|]. by exists (stride_count x). }
    split; [|done]. eapply granted_ok; [done..|]. intros i. split; [by right | intros [->|]; done].
Qed.

(** ** The two routines *)

(** The test both routines make. *)
Definition acceptable (r old sum : Z) : bool :=
  (MIN_CPU_SHARE <=? r) && (r <=? MAX_CPU_SHARE) && (sum - old + r <=? MAX_CPU_SHARE).

Lemma share_bounds k t x :
  share_ok k → procs k !! t = Some x → 0 ≤ cpu_share x ≤ sum_cpu_share k ∧ sum_cpu_share k ≤ 800.
Proof.
  intros Hok Hx. rewrite (sh_sum _ Hok). split.
  - eapply total_share_ge; [intros; by eapply (sh_range _ Hok) | done].
  - rewrite <-(sh_sum _ Hok). apply Hok.
Qed.

(** The C sums do not overflow. *)
Lemma desired_eq k t x r :
  share_ok k → procs k !! t = Some x → MIN_CPU_SHARE ≤ r ≤ MAX_CPU_SHARE →
  i32 (i32 (sum_cpu_share k - cpu_share x) + r) = sum_cpu_share k - cpu_share x + r.
Proof.
  intros Hok Hx Hr. pose proof (share_bounds k t x Hok Hx) as Hb.
  unfold MIN_CPU_SHARE, MAX_CPU_SHARE in *. rewrite (i32_id (_ - _)) by (unfold INT_MIN, INT_MAX; lia).
  apply i32_id. unfold INT_MIN, INT_MAX. lia.
Qed.

(** Fields that decide which processes are threads of the caller. *)
Definition same_threads (k k' : kstate) : Prop :=
  curproc k' = curproc k ∧ pid <$> procs k' = pid <$> procs k ∧ tid <$> procs k' = tid <$> procs k.

Lemma granted_same t r o x k k' :
  procs k !! t = Some x → granted t r o x k k' → same_threads k k'.
Proof.
  intros Hx (Hc & _ & c & Hp). split; [done|]. rewrite Hp, !list_fmap_insert.
  split; apply list_insert_id; by rewrite list_lookup_fmap, Hx.
Qed.

Lemma other_threads_spec (k : kstate) (me t : nat) (x y : proc) (r : Z) :
  share_ok k → curproc k = Some me → procs k !! me = Some x → tid x = 0 →
  procs k !! t = Some y → me ≠ t →
  wpt (set_cpu_share_other_threads r t) (fun v k' =>
    if acceptable r (cpu_share y) (sum_cpu_share k)
    then v = 0 ∧ share_ok k' ∧ granted t r (original_cpu_share x) y k k'
    else v = -1 ∧ k' = k) k.
Proof.
  intros Hok Hcur Hx Htid Hy Hne. unfold set_cpu_share_other_threads, acceptable.
  assert (Hlen : (t < length (procs k))%nat) by by eapply lookup_lt_Some.
  wp_step. eapply wp_the_proc; [done|]. wp_step. eapply wp_pget; [done|]. rewrite Htid.
  change (negb (0 =? 0)) with false. cbv iota.
  destruct (_ && _) eqn:Hv; cbn [negb andb]; [|by wp_step]. apply andb_prop in Hv as [H1%Z.leb_le H2%Z.leb_le].
  wp_step. eapply wp_pget; [done|]. do 2 wp_step. rewrite (desired_eq k t y r) by done.
  destruct (Z.leb_spec (sum_cpu_share k - cpu_share y + r) MAX_CPU_SHARE) as [Hfit|Hover].
  2:{ rewrite (proj2 (Z.gtb_lt _ _)) by lia. by wp_step. }
  destruct (Z.gtb_spec (sum_cpu_share k - cpu_share y + r) MAX_CPU_SHARE); [lia|].
  do 3 wp_step. eapply wp_pupd; [done|]. wp_step. eapply wp_pget; [cbn; rewrite list_lookup_insert_ne by done; done|].
  wp_step. eapply wp_pupd; [cbn; rewrite list_lookup_insert_eq by done; done|].
  wp_step. eapply wp_pupd; [cbn; rewrite list_lookup_insert_eq by (by rewrite length_insert); done|].

  wp_step. eapply wp_weaken.
  - match goal with |- wp _ _ _ ?s => replace s with (assigned k t r (original_cpu_share x) y) end.
    { apply grant_spec; [done | done | unfold MIN_CPU_SHARE in H1; lia | done]. }
    unfold assigned, shared. cbn. rewrite !list_insert_insert_eq. by destruct k.
  - intros [] k' [Hok' Hg]. by wp_step.
Qed.

Definition share_panic : stop := Panic "(set_cpu_share) inserting threads to stride queue is failed.".

Lemma same_threads_lookup k k' i x :
  same_threads k k' → procs k !! i = Some x →
  ∃ x', procs k' !! i = Some x' ∧ pid x' = pid x ∧ tid x' = tid x.
Proof.
  intros (_ & Hp & Ht) Hx.
  assert (Hp' : (pid <$> procs k') !! i = Some (pid x)) by (by rewrite Hp, list_lookup_fmap, Hx).
  apply list_lookup_fmap_Some in Hp' as (x' & Hpid & Hx'). exists x'. do 2 (split; [done|]).
  assert (Ht' : (tid <$> procs k') !! i = Some (tid x)) by (by rewrite Ht, list_lookup_fmap, Hx).
  rewrite list_lookup_fmap, Hx' in Ht'. by injection Ht'.
Qed.

(** Spreading a share over the threads keeps the accounting or panics. *)
Lemma share_threads_spec (k : kstate) (me : nat) (x : proc) (r : Z) :
  share_ok k → curproc k = Some me → procs k !! me = Some x → tid x = 0 →
  wp (share_threads r) (fun _ k' => share_ok k' ∧ same_threads k k' ∧
    ∃ x', procs k' !! me = Some x' ∧ cpu_share x' = cpu_share x ∧ stride x' = stride x)
    (fun w _ => w = share_panic) k.
Proof.
  intros Hok Hcur Hx Htid. unfold share_threads.
  eapply wp_weaken; [apply (for_each_wp (fun l s => (∀ i, i ∈ l → (i < 64)%nat) ∧ share_ok s ∧ same_threads k s ∧
    ∃ x', procs s !! me = Some x' ∧ cpu_share x' = cpu_share x ∧ stride x' = stride x))|].
  - split; [by intros i ?%elem_of_all_procs|]. split; [done|]. split; [done|]. by exists x.
  - intros i l s (Hi & Hoks & Hsame & x' & Hx' & Hcs & Hst).
    assert (Hl' : ∀ j, j ∈ l → (j < 64)%nat) by (intros; apply Hi; by apply list_elem_of_further).
    destruct (lookup_lt_is_Some_2 (procs s) i) as [y Hy].
    { rewrite (wq_procs _ (sh_queue _ Hoks)). apply Hi, list_elem_of_here. }
    wp_step. eapply wp_pget; [done|]. wp_step. eapply wp_the_proc; [by rewrite (proj1 Hsame)|].
    wp_step. eapply wp_pget; [done|].
    assert (Htid' : tid x' = 0).
    { destruct (same_threads_lookup _ _ _ _ Hsame Hx) as (? & ? & ? & ?). congruence. }
    apply wp_when; intros Hb; [|by eauto 10]. apply andb_prop in Hb as [_ Hb].
    assert (Hne : me ≠ i). { intros ->. assert (y = x') by congruence. subst. by rewrite Htid' in Hb. }
    wp_step. eapply wp_mono; [apply (other_threads_spec s me i x' y r); auto; by rewrite (proj1 Hsame)| |done].
    intros v s' Hpost. destruct (acceptable r (cpu_share y) (sum_cpu_share s)).
    + destruct Hpost as (-> & Hok' & Hg). cbn [negb Z.eqb]. wp_run. split; [done|]. split; [done|].
      pose proof (granted_same _ _ _ _ _ _ Hy Hg) as (E1 & E2 & E3).
      destruct Hsame as (F1 & F2 & F3). split; [split; [|split]; congruence|].
      exists x'. destruct Hg as (_ & _ & c & ->). by rewrite list_lookup_insert_ne.
    + destruct Hpost as [-> ->]. cbn [negb Z.eqb]. by wp_run.
  - by intros [] s (_ & ? & ? & ?).
Qed.

(** The share [set_cpu_share] works with: the master thread of a process
    with threads divides it among all of them. *)
Definition effective (required : Z) (x : proc) : Z :=
  if (tid x =? 0) && negb (num_of_threads x =? 0)
  then Z.quot required (i32 (num_of_threads x + 1)) else required.

(** The block of assignments of [set_cpu_share], with what follows it. *)
Lemma wp_grant_block (k : kstate) (me : nat) (x : proc) (r : Z) {A} (rest : K A) Q E :
  share_ok k → procs k !! me = Some x → 1 ≤ r → sum_cpu_share k - cpu_share x + r ≤ MAX_CPU_SHARE →
  (∀ k1 c, share_ok k1 → curproc k1 = curproc k →
     procs k1 !! me = Some ((shared r r x) <| stride_count := c |>) → wp rest Q E k1) →
  wp (modify (fun k0 => k0 <| sum_cpu_share := sum_cpu_share k - cpu_share x + r |>);;
      pupd me (fun p => p <| cpu_share := r |>);;
      pupd me (fun p => p <| original_cpu_share := cpu_share p |>);;
      pupd me (fun p => p <| stride := Z.quot NSTRIDE (cpu_share p) |>);;
      when (cpu_share x =? 0) (stride_queue_push me);;
      rest) Q E k.
Proof.
  intros Hok Hx Hr Hfit Hrest.
  assert (Hlen : (me < length (procs k))%nat) by by eapply lookup_lt_Some.
  do 3 wp_step. eapply wp_pupd; [done|].
  wp_step. eapply wp_pupd; [cbn; rewrite list_lookup_insert_eq by done; done|].
  wp_step. eapply wp_pupd; [cbn; rewrite list_lookup_insert_eq by (by rewrite length_insert); done|].
  wp_step. match goal with |- wp _ _ _ ?s => replace s with (assigned k me r r x) end.
  2:{ unfold assigned, shared. cbn. rewrite !list_insert_insert_eq. by destruct k. }
  eapply wp_mono; [by apply grant_spec| |done].
  intros [] k1 (Hok1 & Hcur1 & _ & c & Hp1). apply (Hrest k1 c); [done | done |].
  rewrite Hp1. by apply list_lookup_insert_eq.
Qed.

(** Spreading the new share, if the caller is a master thread. *)
Lemma wp_share_tail (k : kstate) (me : nat) (x : proc) (r : Z) :
  share_ok k → curproc k = Some me → procs k !! me = Some x →
  wp (when ((tid x =? 0) && negb (num_of_threads x =? 0)) (share_threads r))
    (fun _ k' => share_ok k' ∧ ∃ x', procs k' !! me = Some x' ∧
       cpu_share x' = cpu_share x ∧ stride x' = stride x)
    (fun w _ => w = share_panic ∧ num_of_threads x ≠ 0) k.
Proof.
  intros Hok Hcur Hx. apply wp_when; intros Hb; [|by eauto].
  apply andb_prop in Hb as [Ht%Z.eqb_eq Hnt].
  eapply wp_mono; [by apply (share_threads_spec k me x)| |].
  - by intros [] s (? & _ & ?).
  - intros w s ->. split; [done|]. intros E. by rewrite E in Hnt.
Qed.


(** No process has a share at boot. *)
Lemma boot_share_ok : share_ok boot_state.
Proof.
  destruct boot_queue_ok as [Hwf Hho]. split; [done | done | | | done | done].
  - intros i x Hx. apply (lookup_replicate 64) in Hx as [-> _]. split; [done|].
    intros [j Hj]%elem_of_queued. by rewrite slot_boot in Hj.
  - intros i x Hx. by apply (lookup_replicate 64) in Hx as [-> _].
Qed.

Lemma share_ok_frame k k' :
  share_ok k → procs k' = procs k → stride_queue k' = stride_queue k →
  stride_queue_size k' = stride_queue_size k → sum_cpu_share k' = sum_cpu_share k → share_ok k'.
Proof.
  intros [Hwf Hho Hm Hr Hs Hx] Hp Hq Hn Hsum.
  split; unfold heap_order, queued in *; rewrite ?Hp, ?Hq, ?Hn, ?Hsum; try done.
  apply (wf_queue_frame k); try done. rewrite Hp. apply Hwf.
Qed.

Lemma share_ok_curproc k c : share_ok k → share_ok (k <| curproc := c |>).
Proof. intros Hok. by apply (share_ok_frame k). Qed.


