(* ===== verification/Trap.v ===== *)
(** * Traps and the clock (trap.c)

    [trap] with all its branches; the parts of the kernel it calls that are
    not in proc.c's scheduling core ([syscall], [exit], the device interrupt
    handlers) are arguments.  The clock tick is where the MLFQ policy lives:
    accounting, demotion and the periodic boost. *)
From S2P Require Import Prelude Spinlock Proc StrideQueue Sched Sleep.

(** ** Trap numbers (traps.h, mmu.h) *)
Definition T_SYSCALL : Z := 64.
Definition T_USER_INT : Z := 128.
Definition T_IRQ0 : Z := 32.
Definition IRQ_TIMER : Z := 0.
Definition IRQ_KBD : Z := 1.
Definition IRQ_COM1 : Z := 4.
Definition IRQ_IDE : Z := 14.
Definition IRQ_SPURIOUS : Z := 31.
Definition DPL_USER : Z := 3.

(** The globals of trap.c beside the state of proc.c.  [tickslock] is lock 0
    of the other subsystems and [&ticks] a channel. *)
Record tstate := mkt { kern : kstate; ticks : Z }.
#[export] Instance tstate_eta : EtaRecord tstate := fun t => mkt (kern t) (ticks t).

Definition tickslock : lock_ptr := lk_other 0.
Definition ticks_chan : chan_t := ch_addr 0.

Abbreviation T := (M tstate).
Definition inK {A} (m : K A) : T A := zoom kern (fun k t => t <| kern := k |>) m.

(** [proc && proc->killed && (tf->cs&3) == DPL_USER] *)
Definition must_exit (f : trapframe) : T bool :=
  cur ← gets (fun t => curproc (kern t));
  match cur with
  | None => mret false
  | Some me =>
      x ← inK (pget me);
      mret (negb (killed x =? 0) && (Z.land (cs f) 3 =? DPL_USER))
  end.

(** The tick of a RUNNING process: lines up to the call of [yield]; the
    result tells whether it is made. *)
Definition clock_account : K bool :=
  me ← the_proc;
  pupd me (fun x => x <| tick_used := i32 (tick_used x + 1) |>);;
  pupd me (fun x => x <| time_quantum_used := i32 (time_quantum_used x + 1) |>);;
  x ← pget me;
  (if cpu_share x =? 0 then increase_MLFQ_tick_used else increase_stride_tick_used);;
  x ← pget me;
  q ← get_time_quantum;
  if time_quantum_used x >=? q then
    when (level_of_MLFQ x <? NMLFQ - 1)
      (pupd me (fun x => x <| level_of_MLFQ := i32 (level_of_MLFQ x + 1) |>));;
    pupd me (fun x => x <| time_quantum_used := 0 |>);;
    mret true
  else mret false.

Definition boost_if_due : K unit :=
  used ← get_MLFQ_tick_used;
  when (used >=? 100) priority_boost.

Section trap.
Context (syscall exit ideintr kbdintr uartintr : T unit) (resume : K unit).

(** The interrupt dispatch of [trap]. *)
Definition trap_dispatch (f : trapframe) : T unit :=
  if trapno f =? T_IRQ0 + IRQ_TIMER then
    cpunum ← gets (fun t => cpu_id (this_cpu (kern t)));
    when (Nat.eqb cpunum 0)
      (inK (with_lock tickslock acquire);;
       modify (fun t => t <| ticks := u32 (ticks t + 1) |>);;
       inK (wakeup ticks_chan);;
       inK (with_lock tickslock release))
  else if trapno f =? T_IRQ0 + IRQ_IDE then ideintr
  else if trapno f =? T_IRQ0 + IRQ_IDE + 1 then mret tt
  else if trapno f =? T_IRQ0 + IRQ_KBD then kbdintr
  else if trapno f =? T_IRQ0 + IRQ_COM1 then uartintr
  else if (trapno f =? T_IRQ0 + 7) || (trapno f =? T_IRQ0 + IRQ_SPURIOUS) then mret tt
  else
    cur ← gets (fun t => curproc (kern t));
    match cur with
    | None => panic "trap"
    | Some me =>
        if Z.land (cs f) 3 =? 0 then panic "trap"
        else inK (pupd me (fun x => x <| killed := 1 |>))
    end.

(** The clock part at the end of [trap]. *)
Definition trap_clock (f : trapframe) : T unit :=
  inK boost_if_due;;
  cur ← gets (fun t => curproc (kern t));
  match cur with
  | None => mret tt
  | Some me =>
      x ← inK (pget me);
      when (bool_decide (pstate x = RUNNING) && (trapno f =? T_IRQ0 + IRQ_TIMER))
        (full ← inK clock_account; when full (inK (yield resume)))
  end.

Definition trap (f : trapframe) : T unit :=
  if trapno f =? T_SYSCALL then
    me ← inK the_proc;
    x ← inK (pget me);
    when (negb (killed x =? 0)) exit;;
    me ← inK the_proc;
    inK (pupd me (fun x => x <| tf := f |>));;
    syscall;;
    me ← inK the_proc;
    x ← inK (pget me);
    when (negb (killed x =? 0)) exit
  else if trapno f =? T_USER_INT then exit
  else
    trap_dispatch f;;
    d ← must_exit f;
    when d exit;;
    trap_clock f;;
    d ← must_exit f;
    when d exit.
End trap.

(** ** The MLFQ policy of the clock tick *)
Definition quantum (level : Z) : Z := 5 * 2 ^ level.

Record mlfq_ok (k : kstate) : Prop := {
  mo_len : length (procs k) = 64%nat;
  mo_quantum : MLFQ_time_quantum k = [5; 10; 20];
  mo_stride : stride_time_quantum k = 1;
  mo_proc : ∀ i x, procs k !! i = Some x →
    0 ≤ level_of_MLFQ x < NMLFQ ∧ 0 ≤ time_quantum_used x < quantum (level_of_MLFQ x);
  mo_ticks : 0 ≤ MLFQ_tick_used k ≤ 100
}.

Lemma quantum_cases l : 0 ≤ l < NMLFQ → l = 0 ∧ quantum l = 5 ∨ l = 1 ∧ quantum l = 10 ∨ l = 2 ∧ quantum l = 20.
Proof.
  unfold NMLFQ. intros Hl. assert (l = 0 ∨ l = 1 ∨ l = 2) as [->|[->| ->]] by lia; auto.
Qed.

(** The tick of one process: does it yield, and what becomes of it. *)
Definition ticked (x : proc) : bool * proc :=
  let used := time_quantum_used x + 1 in
  let x' := x <| tick_used := i32 (tick_used x + 1) |> in
  if (if cpu_share x =? 0 then quantum (level_of_MLFQ x) else 1) <=? used
  then (true, x' <| level_of_MLFQ := Z.min (level_of_MLFQ x + 1) 2 |> <| time_quantum_used := 0 |>)
  else (false, x' <| time_quantum_used := used |>).

Definition charged_ticks (x : proc) (k : kstate) : kstate :=
  if cpu_share x =? 0 then k <| MLFQ_tick_used := i32 (MLFQ_tick_used k + 1) |>
  else k <| stride_tick_used := i32 (stride_tick_used k + 1) |>.

(** [get_time_quantum] reads the quantum of the scheduler the process is in. *)
Lemma get_time_quantum_eq (k : kstate) (me : nat) (x : proc) :
  MLFQ_time_quantum k = [5; 10; 20] → stride_time_quantum k = 1 →
  curproc k = Some me → procs k !! me = Some x → 0 ≤ level_of_MLFQ x < NMLFQ →
  get_time_quantum k = Ok (if cpu_share x =? 0 then quantum (level_of_MLFQ x) else 1) k.
Proof.
  intros Hq Hs Hcur Hx Hl. apply wpt_eq. unfold get_time_quantum. do 2 wp_step. rewrite Hcur.
  wp_step. eapply wp_pget; [done|]. destruct (cpu_share x =? 0); cbn [negb]; [|by wp_step].
  wp_step. eapply wp_the_proc; [done|]. wp_step. eapply wp_pget; [done|]. do 2 wp_step. rewrite Hq.
  destruct (quantum_cases _ Hl) as [[-> ->]|[[-> ->]|[-> ->]]]; by eapply wp_deref.
Qed.

(** The end of [clock_account]: demotion and the decision to yield. *)
Lemma demote_spec (k : kstate) (me : nat) (x : proc) (q : Z) :
  procs k !! me = Some x → 0 ≤ level_of_MLFQ x < NMLFQ →
  wpt (if time_quantum_used x >=? q then
         when (level_of_MLFQ x <? NMLFQ - 1)
           (pupd me (fun x => x <| level_of_MLFQ := i32 (level_of_MLFQ x + 1) |>));;
         pupd me (fun x => x <| time_quantum_used := 0 |>);;
         mret true
       else mret false)
    (fun b k' => b = (q <=? time_quantum_used x) ∧
       k' = k <| procs := <[me := if q <=? time_quantum_used x
              then x <| level_of_MLFQ := Z.min (level_of_MLFQ x + 1) 2 |> <| time_quantum_used := 0 |>
              else x]> (procs k) |>) k.
Proof.
  intros Hx Hl. assert (Hme : (me < length (procs k))%nat) by by eapply lookup_lt_Some.
  rewrite Z.geb_leb. destruct (Z.leb_spec q (time_quantum_used x)).
  2:{ wp_step. split; [done|]. rewrite list_insert_id by done. by destruct k. }
  wp_step. eapply (wp_weaken _ (fun _ s => s =
    k <| procs := <[me := x <| level_of_MLFQ := Z.min (level_of_MLFQ x + 1) 2 |>]> (procs k) |>)).
  - unfold NMLFQ in *. apply wp_when; intros Hb.
    + eapply wp_pupd; [done|]. rewrite i32_id by (unfold INT_MIN, INT_MAX; lia).
      by replace (Z.min (level_of_MLFQ x + 1) 2) with (level_of_MLFQ x + 1) by lia.
    + replace (Z.min (level_of_MLFQ x + 1) 2) with (level_of_MLFQ x) by lia.
      rewrite list_insert_id; [by destruct k|]. rewrite Hx. by destruct x.
  - intros [] s ->. wp_step. eapply wp_pupd; [cbn; by apply list_lookup_insert_eq|].
    wp_step. split; [done|]. cbn. by rewrite list_insert_insert_eq.
Qed.

Lemma clock_account_eq (k : kstate) (me : nat) (x : proc) :
  mlfq_ok k → curproc k = Some me → procs k !! me = Some x →
  clock_account k =
    Ok (ticked x).1 ((charged_ticks x k) <| procs := <[me := (ticked x).2]> (procs k) |>).
Proof.
  intros [Hlen Hq Hs Hp Ht] Hcur Hx. destruct (Hp me x Hx) as [Hl Hu].
  assert (Hme : (me < length (procs k))%nat) by by eapply lookup_lt_Some.
  assert (Hu' : i32 (time_quantum_used x + 1) = time_quantum_used x + 1).
  { apply i32_id. unfold INT_MIN, INT_MAX. destruct (quantum_cases _ Hl) as [[? E]|[[? E]|[? E]]]; lia. }
  apply wpt_eq. unfold clock_account. wp_step. eapply wp_the_proc; [done|].
  wp_step. eapply wp_pupd; [done|].
  wp_step. eapply wp_pupd; [cbn; by apply list_lookup_insert_eq|].
  set (x1 := x <| tick_used := i32 (tick_used x + 1) |>
               <| time_quantum_used := time_quantum_used x + 1 |>).
  match goal with |- wp _ _ _ ?s => replace s with (k <| procs := <[me := x1]> (procs k) |>) end.
  2:{ cbn. rewrite Hu', list_insert_insert_eq. by destruct k. }
  set (k1 := k <| procs := <[me := x1]> (procs k) |>).
  assert (Hx1 : procs k1 !! me = Some x1) by by apply list_lookup_insert_eq.
  wp_step. eapply wp_pget; [exact Hx1|]. wp_step.
  eapply (wp_weaken _ (fun _ s => s = charged_ticks x k1)).
  { unfold charged_ticks. change (cpu_share x1) with (cpu_share x). by destruct (_ =? 0). }
  intros [] k2 ->. assert (Hk2 : procs (charged_ticks x k1) = procs k1 ∧
    curproc (charged_ticks x k1) = Some me ∧ MLFQ_time_quantum (charged_ticks x k1) = [5; 10; 20] ∧
    stride_time_quantum (charged_ticks x k1) = 1) by (unfold charged_ticks; by destruct (_ =? 0)).
  destruct Hk2 as (Hp2 & Hcur2 & Hq2 & Hs2). wp_step. eapply wp_pget; [by rewrite Hp2|].
  wp_step. eapply wp_eq; [by apply (get_time_quantum_eq _ me x1); rewrite ?Hp2|].
  eapply wp_weaken; [apply (demote_spec _ me x1); [by rewrite Hp2 | done]|].
  intros b k3 [-> ->]. unfold ticked. change (cpu_share x1) with (cpu_share x).
  change (level_of_MLFQ x1) with (level_of_MLFQ x).
  change (time_quantum_used x1) with (time_quantum_used x + 1).
  rewrite Hp2. unfold charged_ticks. destruct (_ <=? _), (cpu_share x =? 0); (split; [done|]);
    cbn; rewrite list_insert_insert_eq; reflexivity.
Qed.

(** ** The boost *)
Definition boosted (x : proc) : proc :=
  x <| level_of_MLFQ := 0 |> <| tick_used := 0 |> <| time_quantum_used := 0 |>.

Definition boost (k : kstate) : kstate :=
  k <| procs := boosted <$> procs k |> <| MLFQ_tick_used := 0 |>.

Lemma priority_boost_eq (k : kstate) :
  length (procs k) = 64%nat → priority_boost k = Ok tt (boost k).
Proof.
  intros Hl. apply wpt_eq. unfold priority_boost.
  apply (for_procs_wp _ boosted (fun i s =>
    s <| procs := procs k |> = k <| MLFQ_tick_used := if (i =? 0)%nat then MLFQ_tick_used k else 0 |>)).
  - done.
  - by destruct k.
  - intros i x s Hs Hx. assert (Hi : (i < length (procs s))%nat) by by eapply lookup_lt_Some.
    wp_step. eapply wp_pupd; [done|].
    wp_step. eapply wp_pupd; [cbn; by apply list_lookup_insert_eq|].
    wp_step. eapply wp_pupd; [cbn; apply list_lookup_insert_eq; by rewrite length_insert|].
    wp_step. cbn. rewrite !list_insert_insert_eq. split; [done|].
    transitivity ((s <| procs := procs k |>) <| MLFQ_tick_used := 0 |>); [done|]. by rewrite Hs.
  - intros s Hs Hp. split; [done|]. unfold boost. rewrite <-Hp.
    transitivity ((s <| procs := procs k |>) <| procs := procs s |>); [by destruct s|]. by rewrite Hs.
Qed.

Lemma boost_ok k : mlfq_ok k → mlfq_ok (boost k).
Proof.
  intros [Hl Hq Hs Hp Ht]. split; cbn; [by rewrite length_fmap | done | done | | lia].
  intros i x (y & -> & _)%list_lookup_fmap_Some. done.
Qed.

Lemma boost_if_due_eq k :
  mlfq_ok k → boost_if_due k = Ok tt (if MLFQ_tick_used k =? 100 then boost k else k).
Proof.
  intros [Hl _ _ _ Ht]. unfold boost_if_due, get_MLFQ_tick_used. erewrite bind_ok by done.
  unfold when. destruct (Z.eqb_spec (MLFQ_tick_used k) 100) as [E|E].
  - rewrite geb_true by lia. by apply priority_boost_eq.
  - by rewrite geb_false by lia.
Qed.

Lemma ticked_ok x :
  0 ≤ level_of_MLFQ x < NMLFQ → 0 ≤ time_quantum_used x < quantum (level_of_MLFQ x) →
  let y := (ticked x).2 in
  0 ≤ level_of_MLFQ y < NMLFQ ∧ 0 ≤ time_quantum_used y < quantum (level_of_MLFQ y).
Proof.
  intros Hl Hu. unfold ticked. destruct (Z.leb_spec (if cpu_share x =? 0 then quantum (level_of_MLFQ x) else 1)
    (time_quantum_used x + 1)) as [H|H]; cbn -[quantum].
  - unfold NMLFQ in *. split; [lia|].
    destruct (quantum_cases (Z.min (level_of_MLFQ x + 1) 2)) as [[_ ->]|[[_ ->]|[_ ->]]]; unfold NMLFQ; lia.
  - split; [done|]. destruct (cpu_share x =? 0); lia.
Qed.

(** The scheduling part of a clock interrupt in a RUNNING process. *)
Definition clock_tick : K bool := boost_if_due;; clock_account.

Lemma clock_tick_spec (k : kstate) (me : nat) (x : proc) :
  mlfq_ok k → curproc k = Some me → procs k !! me = Some x →
  let k0 := if MLFQ_tick_used k =? 100 then boost k else k in
  let x0 := if MLFQ_tick_used k =? 100 then boosted x else x in
  clock_tick k = Ok (ticked x0).1
    ((charged_ticks x0 k0) <| procs := <[me := (ticked x0).2]> (procs k0) |>).
Proof.
  intros Hok Hcur Hx k0 x0. unfold clock_tick. rewrite (bind_ok _ _ _ _ _ (boost_if_due_eq k Hok)).
  fold k0. apply clock_account_eq; unfold k0, x0; destruct (_ =? 100); auto using boost_ok.
  cbn. by rewrite list_lookup_fmap, Hx.
Qed.

Lemma clock_tick_ok (k : kstate) (me : nat) (x : proc) :
  mlfq_ok k → curproc k = Some me → procs k !! me = Some x →
  wpt clock_tick (fun _ k' => mlfq_ok k' ∧ curproc k' = Some me) k.
Proof.
  intros Hok Hcur Hx. eapply wp_eq; [by apply (clock_tick_spec k me x)|].
  set (x0 := if _ =? 100 then boosted x else x). set (k0 := if _ =? 100 then boost k else k).
  assert (Hk0 : mlfq_ok k0 ∧ MLFQ_tick_used k0 < 100 ∧ procs k0 !! me = Some x0 ∧ curproc k0 = Some me).
  { unfold k0, x0. destruct (Z.eqb_spec (MLFQ_tick_used k) 100) as [E|E].
    - split; [by apply boost_ok|]. cbn. rewrite list_lookup_fmap, Hx. split; [lia | done].
    - pose proof (mo_ticks _ Hok). split; [done|]. split; [lia | done]. }
  destruct Hk0 as ([Hl Hq Hs Hp Ht] & Hlt & Hx0 & Hc0).
  destruct (Hp me x0 Hx0) as [Hlv Hu]. pose proof (ticked_ok x0 Hlv Hu) as Hy.
  split; [|unfold charged_ticks; by destruct (_ =? 0)].
  split; unfold charged_ticks; cbn; try (destruct (_ =? 0); cbn; done).
  - by rewrite length_insert.
  - intros i y Hy'. destruct (decide (i = me)) as [->|].
    + rewrite list_lookup_insert_eq in Hy' by (by eapply lookup_lt_Some). by simplify_eq.
    + rewrite list_lookup_insert_ne in Hy' by done. by apply (Hp i y).
  - destruct (_ =? 0); cbn; [|lia]. rewrite i32_id by (unfold INT_MIN, INT_MAX; lia). lia.
Qed.

(** C32: The clock keeps the MLFQ in order: at every tick of a RUNNING process
    levels stay in 0..2, no process has used up the quantum of its level
    without being demoted or reset, and the MLFQ is boosted before it has
    used more than 100 ticks; the boost puts every other process on level 0. *)
Theorem clock_tick_keeps_mlfq (k : kstate) (me : nat) (x : proc) :
  mlfq_ok k → curproc k = Some me → procs k !! me = Some x →
  ∃ b k', clock_tick k = Ok b k' ∧ mlfq_ok k' ∧
    (MLFQ_tick_used k = 100 → ∀ i y, i ≠ me → procs k' !! i = Some y → level_of_MLFQ y = 0).
Proof.
  intros Hok Hcur Hx. destruct (proj1 (wpt_ok _ _ _) (clock_tick_ok k me x Hok Hcur Hx))
    as (b & k' & Hr & Hok' & _). exists b, k'. split; [done|]. split; [done|].
  rewrite (clock_tick_spec k me x Hok Hcur Hx) in Hr. injection Hr as _ <-.
  intros -> i y Hne Hy. cbn in Hy. rewrite list_lookup_insert_ne in Hy by done.
  by apply list_lookup_fmap_Some in Hy as (z & -> & _).
Qed.

(** [n] ticks of the process that keeps running. *)
Fixpoint clock_ticks (n : nat) : K (list bool) :=
  match n with
  | O => mret []
  | S n => b ← clock_tick; l ← clock_ticks n; mret (b :: l)
  end.

(** One tick within the quantum, no boost due. *)
Lemma clock_tick_plain (k : kstate) (me : nat) (x : proc) :
  mlfq_ok k → curproc k = Some me → procs k !! me = Some x → cpu_share x = 0 →
  MLFQ_tick_used k < 100 →
  wpt clock_tick (fun b k' => b = (ticked x).1 ∧ mlfq_ok k' ∧ curproc k' = Some me ∧
    procs k' !! me = Some (ticked x).2 ∧ MLFQ_tick_used k' = MLFQ_tick_used k + 1) k.
Proof.
  intros Hok Hcur Hx Hsh Hlt. destruct (proj1 (wpt_ok _ _ _) (clock_tick_ok k me x Hok Hcur Hx))
    as (b & k' & Hr & Hok' & Hcur'). eapply wp_eq; [exact Hr|].
  pose proof (clock_tick_spec k me x Hok Hcur Hx) as Hr'. rewrite Hr in Hr'.
  destruct (Z.eqb_spec (MLFQ_tick_used k) 100); [lia|]. injection Hr' as -> ->.
  do 3 (split; [done|]). unfold charged_ticks. rewrite Hsh. cbn. split.
  - apply list_lookup_insert_eq. by eapply lookup_lt_Some.
  - apply i32_id. pose proof (mo_ticks _ Hok). unfold INT_MIN, INT_MAX. lia.
Qed.

Lemma clock_ticks_within (n : nat) (k : kstate) (me : nat) (x : proc) :
  mlfq_ok k → curproc k = Some me → procs k !! me = Some x → cpu_share x = 0 →
  time_quantum_used x + Z.of_nat n < quantum (level_of_MLFQ x) →
  MLFQ_tick_used k + Z.of_nat n ≤ 100 →
  wpt (clock_ticks n) (fun l k' => l = replicate n false ∧ mlfq_ok k' ∧ curproc k' = Some me ∧
    MLFQ_tick_used k' = MLFQ_tick_used k + Z.of_nat n ∧
    ∃ x', procs k' !! me = Some x' ∧ cpu_share x' = 0 ∧ level_of_MLFQ x' = level_of_MLFQ x ∧
      time_quantum_used x' = time_quantum_used x + Z.of_nat n) k.
Proof.
  revert k x. induction n as [|n IH]; intros k x Hok Hcur Hx Hsh Hu Ht; cbn [clock_ticks replicate].
  - wp_step. do 3 (split; [done|]). split; [lia|]. exists x. do 3 (split; [done|]). lia.
  - wp_step. eapply wp_weaken; [apply (clock_tick_plain k me x); [done.. | lia]|].
    intros b k1 (-> & Hok1 & Hcur1 & Hx1 & Ht1).
    assert (Hti : ticked x = (false, x <| tick_used := i32 (tick_used x + 1) |>
                                      <| time_quantum_used := time_quantum_used x + 1 |>)).
    { unfold ticked. rewrite Hsh. cbn -[quantum]. destruct (Z.leb_spec (quantum (level_of_MLFQ x))
        (time_quantum_used x + 1)); [lia | done]. }
    rewrite Hti in *. cbn [fst snd] in *. wp_step.
    eapply wp_weaken; [apply (IH _ _ Hok1 Hcur1 Hx1); [done | |]; cbn -[quantum]; lia|].
    intros l k2 (-> & Hok2 & Hcur2 & Ht2 & x' & Hx' & Hs' & Hl' & Hu'). wp_step.
    do 3 (split; [done|]). split; [lia|]. exists x'. do 3 (split; [done|]). cbn in Hu'. lia.
Qed.

Lemma clock_ticks_snoc n k l k1 b k2 :
  clock_ticks n k = Ok l k1 → clock_tick k1 = Ok b k2 → clock_ticks (n + 1) k = Ok (l ++ [b]) k2.
Proof.
  revert k l. induction n as [|n IH]; intros k l Hn Hb; cbn in *.
  - injection Hn as <- <-. rewrite (bind_ok _ _ _ _ _ Hb). done.
  - unfold mbind, M_bind in *. destruct (clock_tick k) as [b0 k0|]; [|done].
    destruct (clock_ticks n k0) as [l0 k0'|] eqn:E; [|done]. injection Hn as <- ->.
    by rewrite (IH _ _ E Hb).
Qed.

(** A process of the MLFQ that keeps the CPU from the start of a quantum,
    with no boost due meanwhile, is preempted exactly when it has used 5, 10
    or 20 ticks on level 0, 1 or 2, and then moves one level down, or stays
    on the last level, with a fresh quantum. *)
Theorem quantum_demotion (k : kstate) (me : nat) (x : proc) :
  mlfq_ok k → curproc k = Some me → procs k !! me = Some x → cpu_share x = 0 →
  time_quantum_used x = 0 → MLFQ_tick_used k + quantum (level_of_MLFQ x) ≤ 100 →
  let n := Z.to_nat (quantum (level_of_MLFQ x)) in
  ∃ k' x', clock_ticks n k = Ok (replicate (n - 1) false ++ [true]) k' ∧
    procs k' !! me = Some x' ∧ time_quantum_used x' = 0 ∧
    level_of_MLFQ x' = Z.min (level_of_MLFQ x + 1) 2.
Proof.
  intros Hok Hcur Hx Hsh Hu Ht n. destruct (mo_proc _ Hok me x Hx) as [Hl _].
  assert (Hn : 0 < quantum (level_of_MLFQ x)) by (destruct (quantum_cases _ Hl) as [[_ ->]|[[_ ->]|[_ ->]]]; lia).
  destruct (proj1 (wpt_ok _ _ _) (clock_ticks_within (n - 1) k me x Hok Hcur Hx Hsh ltac:(lia) ltac:(lia)))
    as (l & k1 & Hr1 & -> & Hok1 & Hcur1 & Ht1 & x1 & Hx1 & Hs1 & Hl1 & Hu1).
  destruct (proj1 (wpt_ok _ _ _) (clock_tick_plain k1 me x1 Hok1 Hcur1 Hx1 Hs1 ltac:(lia)))
    as (b & k2 & Hr2 & -> & _ & _ & Hx2 & _).
  assert (Hti : ticked x1 = (true, x1 <| tick_used := i32 (tick_used x1 + 1) |>
    <| level_of_MLFQ := Z.min (level_of_MLFQ x1 + 1) 2 |> <| time_quantum_used := 0 |>)).
  { unfold ticked. rewrite Hs1, Hl1. cbn -[quantum]. destruct (Z.leb_spec (quantum (level_of_MLFQ x))
      (time_quantum_used x1 + 1)); [done | lia]. }
  rewrite Hti in *. cbn [fst snd] in *. eexists k2, _. split; [|split; [exact Hx2|]].
  - replace n with (n - 1 + 1)%nat at 1 by lia. by apply clock_ticks_snoc with k1.
  - cbn. by rewrite Hl1.
Qed.

(** The state after [pinit] satisfies the invariant. *)
Lemma pinit_mlfq_ok : ∃ k, pinit boot_state = Ok tt k ∧ mlfq_ok k ∧
  procs k = replicate 64 proc0 ∧ MLFQ_tick_used k = 0.
Proof.
  eexists. split; [vm_compute; reflexivity|]. split; [|split; reflexivity].
  split; try reflexivity; [|cbn; lia].
  intros i x Hx. apply (lookup_replicate 64) in Hx as [-> _]. done.
Qed.

Lemma mlfq_ok_curproc k c : mlfq_ok k → mlfq_ok (k <| curproc := c |>).
Proof. intros [????]. by split. Qed.

Lemma clock_tick_keeps_mlfq_witness :
  ∃ k b k', pinit boot_state = Ok tt k ∧
    clock_tick (k <| curproc := Some 0%nat |>) = Ok b k' ∧ mlfq_ok k'.
Proof.
  destruct pinit_mlfq_ok as (k & Hk & Hok & Hp & _).
  destruct (clock_tick_keeps_mlfq (k <| curproc := Some 0%nat |>) 0 proc0) as (b & k' & Hr & Hok' & _).
  - by apply mlfq_ok_curproc.
  - reflexivity.
  - cbn. by rewrite Hp.
  - exists k, b, k'. auto.
Defined.

Lemma quantum_demotion_witness :
  ∃ k k' x', pinit boot_state = Ok tt k ∧
    clock_ticks 5 (k <| curproc := Some 0%nat |>) = Ok [false; false; false; false; true] k' ∧
    procs k' !! 0%nat = Some x' ∧ level_of_MLFQ x' = 1.
Proof.
  destruct pinit_mlfq_ok as (k & Hk & Hok & Hp & Ht).
  destruct (quantum_demotion (k <| curproc := Some 0%nat |>) 0 proc0) as (k' & x' & Hr & Hx & _ & Hl).
  - by apply mlfq_ok_curproc.
  - reflexivity.
  - cbn. by rewrite Hp.
  - reflexivity.
  - reflexivity.
  - change (MLFQ_tick_used k + 5 ≤ 100). lia.
  - exists k, k', x'. auto.
Defined.
