(* ===== verification/Bytes.v ===== *)
(** * Bytes: ranges of byte lists, little-endian words, memory

    [slice] and [splice] read and overwrite a range of a byte list; [get32],
    [put32], [get16], [put16] are the little-endian words that C structures
    keep in memory and in disk blocks.  [mem] is a byte memory addressed by
    [Z], for the routines that walk pointers: an access outside it faults. *)
From S2P Require Import Prelude.

(** ** Ranges of a byte list *)
Definition slice (d : list Z) (off n : nat) : list Z := take n (drop off d).
Definition splice (d : list Z) (off : nat) (l : list Z) : list Z :=
  take off d ++ l ++ drop (off + length l) d.

Lemma length_splice d off l :
  (off + length l ≤ length d)%nat → length (splice d off l) = length d.
Proof. intros H. unfold splice. rewrite !length_app, length_take, length_drop. lia. Qed.

Lemma lookup_splice d off l i :
  (off + length l ≤ length d)%nat →
  splice d off l !! i =
    if decide (off ≤ i < off + length l)%nat then l !! (i - off)%nat else d !! i.
Proof.
  intros H. unfold splice. assert (Ht : length (take off d) = off) by (rewrite length_take; lia).
  case_decide as Hi.
  - rewrite lookup_app_r by lia. rewrite Ht. by rewrite lookup_app_l by lia.
  - destruct (decide (i < off)%nat).
    + rewrite lookup_app_l by lia. by rewrite lookup_take_lt by lia.
    + rewrite lookup_app_r, lookup_app_r by lia. rewrite lookup_drop. f_equal. lia.
Qed.

Lemma lookup_slice d off n i :
  slice d off n !! i = if decide (i < n)%nat then d !! (off + i)%nat else None.
Proof.
  unfold slice. case_decide.
  - rewrite lookup_take_lt by done. by rewrite lookup_drop.
  - by rewrite lookup_take_ge by lia.
Qed.

Lemma slice_splice_same d off l :
  (off + length l ≤ length d)%nat → slice (splice d off l) off (length l) = l.
Proof.
  intros H. apply list_eq. intros i. rewrite lookup_slice. case_decide.
  - rewrite lookup_splice by done. rewrite decide_True by lia. f_equal. lia.
  - symmetry. apply lookup_ge_None. lia.
Qed.

Lemma slice_splice_other d off l off' n :
  (off + length l ≤ length d)%nat → (off' + n ≤ off ∨ off + length l ≤ off')%nat →
  slice (splice d off l) off' n = slice d off' n.
Proof.
  intros H Ho. apply list_eq. intros i. rewrite !lookup_slice. case_decide; [|done].
  rewrite lookup_splice by done. by rewrite decide_False by lia.
Qed.

(** ** Little-endian words *)
Fixpoint le_bytes (n : nat) (v : Z) : list Z :=
  match n with O => [] | S n => v mod 256 :: le_bytes n (v / 256) end.
Fixpoint le_val (l : list Z) : Z :=
  match l with [] => 0 | b :: l => b + 256 * le_val l end.

Lemma length_le_bytes n v : length (le_bytes n v) = n.
Proof. revert v. induction n as [|n IH]; intros v; cbn; [done|]. by rewrite IH. Qed.

(** Decoding inverts encoding, up to the width. *)
Lemma le_val_bytes n v : le_val (le_bytes n v) = v mod 256 ^ Z.of_nat n.
Proof.
  revert v. induction n as [|n IH]; intros v; cbn [le_bytes le_val].
  - by rewrite Z.mod_1_r.
  - rewrite IH, Nat2Z.inj_succ, Z.pow_succ_r by lia.
    assert (0 < 256 ^ Z.of_nat n) by (apply Z.pow_pos_nonneg; lia).
    rewrite Z.rem_mul_r by lia. lia.
Qed.

Definition get32 (d : list Z) (off : nat) : Z := le_val (slice d off 4).
Definition put32 (d : list Z) (off : nat) (v : Z) : list Z := splice d off (le_bytes 4 v).
Definition get16 (d : list Z) (off : nat) : Z := le_val (slice d off 2).
Definition put16 (d : list Z) (off : nat) (v : Z) : list Z := splice d off (le_bytes 2 v).

Lemma length_put32 d off v : (off + 4 ≤ length d)%nat → length (put32 d off v) = length d.
Proof. intros H. apply length_splice. by rewrite length_le_bytes. Qed.

Lemma get32_put32 d off v : (off + 4 ≤ length d)%nat → get32 (put32 d off v) off = u32 v.
Proof.
  intros H. unfold get32, put32.
  pose proof (slice_splice_same d off (le_bytes 4 v)) as E. rewrite length_le_bytes in E.
  rewrite E by done. by rewrite le_val_bytes.
Qed.

Lemma get32_put32_other d off v off' :
  (off + 4 ≤ length d)%nat → (off' + 4 ≤ off ∨ off + 4 ≤ off')%nat →
  get32 (put32 d off v) off' = get32 d off'.
Proof.
  intros H Ho. unfold get32, put32. by rewrite slice_splice_other by (rewrite length_le_bytes; lia).
Qed.

(** ** Byte memory *)
Abbreviation mem := (list Z).

(** [*a] and [*a = v] through a [char] pointer; a store keeps the low byte. *)
Definition load (a : Z) : M mem Z := m ← gets id; deref (array_get m a).
Definition store8 (a v : Z) : M mem unit :=
  m ← gets id; m' ← deref (array_set m a (u8 v)); modify (fun _ => m').

(** The range [a, a + n) is mapped. *)
Definition mapped (m : mem) (a n : Z) : Prop := 0 ≤ a ∧ 0 ≤ n ∧ a + n ≤ Z.of_nat (length m).

(** Bytes are bytes. *)
Definition is_byte (b : Z) : Prop := 0 ≤ b < 256.

Lemma u8_id b : is_byte b → u8 b = b.
Proof. unfold is_byte, u8. intros. by rewrite Z.mod_small. Qed.

Lemma u8_byte v : is_byte (u8 v).
Proof. unfold is_byte, u8. apply Z.mod_pos_bound. lia. Qed.

Lemma wp_load a v (Q : Z → mem → Prop) E m :
  0 ≤ a → m !! Z.to_nat a = Some v → Q v m → wp (load a) Q E m.
Proof.
  intros Ha Hv HQ. unfold load. do 2 wp_step. eapply wp_deref; [|exact HQ]. by apply array_get_Some.
Qed.

Lemma wp_store8 a v (Q : unit → mem → Prop) E m :
  0 ≤ a < Z.of_nat (length m) → Q tt (<[Z.to_nat a := u8 v]> m) → wp (store8 a v) Q E m.
Proof.
  intros Ha HQ. unfold store8. do 3 wp_step. eapply wp_deref; [by apply array_set_in|].
  by wp_step.
Qed.

(** A store is the splice of one byte. *)
Lemma splice_one (m : list Z) (i : nat) v : (i < length m)%nat → <[i := v]> m = splice m i [v].
Proof.
  intros Hi. apply list_eq. intros j. rewrite lookup_splice by (cbn; lia). cbn [length].
  case_decide.
  - assert (j = i) as -> by lia. by rewrite list_lookup_insert_eq, Nat.sub_diag.
  - by rewrite list_lookup_insert_ne by lia.
Qed.

(** Adjacent splices join. *)
Lemma splice_app m off l1 l2 :
  (off + length l1 + length l2 ≤ length m)%nat →
  splice (splice m off l1) (off + length l1) l2 = splice m off (l1 ++ l2).
Proof.
  intros H. apply list_eq. intros i.
  assert (length (splice m off l1) = length m) by (apply length_splice; lia).
  rewrite !lookup_splice by (rewrite ?length_app; lia). rewrite length_app.
  repeat case_decide; try lia; try done.
  - rewrite lookup_app_r by lia. f_equal. lia.
  - by rewrite lookup_app_l by lia.
Qed.

Lemma length_slice m off n : (off + n ≤ length m)%nat → length (slice m off n) = n.
Proof. intros H. unfold slice. rewrite length_take, length_drop. lia. Qed.

Lemma splice_nil m off : splice m off [] = m.
Proof. unfold splice. cbn. rewrite Nat.add_0_r. apply take_drop. Qed.
