(* ===== verification/CString.v ===== *)
(** * Memory and strings (string.c)

    The routines walk a byte memory through pointers.  The theorems say that
    each is what its name promises, for every mapped range: [memmove] is the
    copy of the old contents even when the ranges overlap, [memset] by words
    is [memset] by bytes, and the string routines read and write no byte
    beyond the terminator or the limit. *)
From S2P Require Import Prelude Bytes.

(** ** The code *)

(** [rep stosb] and [rep stosl] of x86.h. *)
Fixpoint stosb (addr data : Z) (cnt : nat) : M mem unit :=
  match cnt with
  | O => mret tt
  | S cnt => store8 addr data;; stosb (addr + 1) data cnt
  end.

Definition store32 (addr v : Z) : M mem unit :=
  store8 addr v;; store8 (addr + 1) (v / 2 ^ 8);;
  store8 (addr + 2) (v / 2 ^ 16);; store8 (addr + 3) (v / 2 ^ 24).

Fixpoint stosl (addr data : Z) (cnt : nat) : M mem unit :=
  match cnt with
  | O => mret tt
  | S cnt => store32 addr data;; stosl (addr + 4) data cnt
  end.

Definition memset (dst c n : Z) : M mem Z :=
  (if (Z.rem (i32 dst) 4 =? 0) && (n mod 4 =? 0) then
     let c := Z.land c 255 in
     stosl dst (Z.lor (Z.lor (Z.lor (Z.shiftl c 24) (Z.shiftl c 16)) (Z.shiftl c 8)) c)
       (Z.to_nat (n / 4))
   else stosb dst c (Z.to_nat n));;
  mret dst.

Fixpoint memcmp_loop (s1 s2 : Z) (n : nat) : M mem Z :=
  match n with
  | O => mret 0
  | S n =>
      a ← load s1; b ← load s2;
      if negb (a =? b) then mret (a - b) else memcmp_loop (s1 + 1) (s2 + 1) n
  end.
Definition memcmp (v1 v2 n : Z) : M mem Z := memcmp_loop v1 v2 (Z.to_nat n).

Fixpoint move_down (d s : Z) (n : nat) : M mem unit :=
  match n with
  | O => mret tt
  | S n => v ← load (s - 1); store8 (d - 1) v;; move_down (d - 1) (s - 1) n
  end.
Fixpoint move_up (d s : Z) (n : nat) : M mem unit :=
  match n with
  | O => mret tt
  | S n => v ← load s; store8 d v;; move_up (d + 1) (s + 1) n
  end.
Definition memmove (dst src n : Z) : M mem Z :=
  (if (src <? dst) && (src + n >? dst)
   then move_down (dst + n) (src + n) (Z.to_nat n)
   else move_up dst src (Z.to_nat n));;
  mret dst.

Definition memcpy (dst src n : Z) : M mem Z := memmove dst src n.

Fixpoint strncmp_loop (p q : Z) (n : nat) : M mem Z :=
  match n with
  | O => mret 0
  | S n' =>
      a ← load p;
      if a =? 0 then b ← load q; mret (a - b)
      else
        b ← load q;
        if a =? b then strncmp_loop (p + 1) (q + 1) n' else mret (a - b)
  end.
Definition strncmp (p q n : Z) : M mem Z := strncmp_loop p q (Z.to_nat n).

(** The two loops of [strncpy]; [n] is what is left of the limit. *)
Fixpoint zero_fill (s : Z) (n : nat) : M mem unit :=
  match n with O => mret tt | S n => store8 s 0;; zero_fill (s + 1) n end.
Fixpoint strncpy_loop (s t : Z) (n : nat) : M mem unit :=
  match n with
  | O => mret tt
  | S n =>
      v ← load t; store8 s v;;
      if v =? 0 then zero_fill (s + 1) n else strncpy_loop (s + 1) (t + 1) n
  end.
Definition strncpy (s t n : Z) : M mem Z := strncpy_loop s t (Z.to_nat n);; mret s.

(** The loop of [safestrcpy] returns the last position of [s]. *)
Fixpoint safestrcpy_loop (s t : Z) (n : nat) : M mem Z :=
  match n with
  | O => mret s
  | S n =>
      v ← load t; store8 s v;;
      if v =? 0 then mret (s + 1) else safestrcpy_loop (s + 1) (t + 1) n
  end.
Definition safestrcpy (s t n : Z) : M mem Z :=
  if n <=? 0 then mret s
  else
    e ← safestrcpy_loop s t (Z.to_nat (n - 1));
    store8 e 0;; mret s.

(** The memory bounds the walk of [strlen]: past its end a load faults. *)
Fixpoint strlen_loop (s n : Z) (fuel : nat) : M mem Z :=
  match fuel with
  | O => stop_with NoFuel
  | S fuel => c ← load (s + n); if c =? 0 then mret n else strlen_loop s (n + 1) fuel
  end.
Definition strlen (s : Z) : M mem Z := m ← gets id; strlen_loop s 0 (S (length m)).

(** ** Copying and filling *)
Section copy.
Implicit Types (m : mem) (d s n : nat).

Lemma slice_cons m s n v :
  m !! s = Some v → slice m s (S n) = v :: slice m (S s) n.
Proof. intros H. unfold slice. by rewrite (drop_S _ _ _ H). Qed.

Lemma slice_snoc m s n v :
  m !! (s + n)%nat = Some v → slice m s (S n) = slice m s n ++ [v].
Proof.
  intros H. unfold slice. rewrite (take_S_r _ _ v); [done|]. by rewrite lookup_drop.
Qed.

(** Writing a byte outside a range does not change the range. *)
Lemma slice_insert_other m i v s n :
  (i < s ∨ s + n ≤ i)%nat → slice (<[i := v]> m) s n = slice m s n.
Proof.
  intros Hi. apply list_eq. intros j. rewrite !lookup_slice. case_decide; [|done].
  by rewrite list_lookup_insert_ne by lia.
Qed.

Lemma splice_snoc m d l v :
  (d + length l < length m)%nat →
  splice (<[(d + length l)%nat := v]> m) d l = splice m d (l ++ [v]).
Proof.
  intros H. apply list_eq. intros i.
  rewrite !lookup_splice by (rewrite ?length_app, ?length_insert; cbn; lia).
  rewrite length_app. cbn [length]. repeat case_decide; try lia.
  - by rewrite lookup_app_l by lia.
  - assert (i = (d + length l)%nat) as -> by lia.
    rewrite list_lookup_insert_eq by lia. rewrite lookup_app_r by lia.
    by replace (d + length l - d - length l)%nat with 0%nat by lia.
  - by rewrite list_lookup_insert_ne by lia.
Qed.

Lemma bytes_insert m i v : Forall is_byte m → Forall is_byte (<[i := u8 v]> m).
Proof. intros H. apply Forall_insert; [done | apply u8_byte]. Qed.

Lemma store8_byte m v i w : Forall is_byte m → m !! i = Some w → v = w → u8 v = w.
Proof. intros H Hw ->. apply u8_id. by eapply Forall_lookup_1. Qed.

Lemma move_up_spec n d s m :
  Forall is_byte m → (d + n ≤ length m)%nat → (s + n ≤ length m)%nat →
  (d ≤ s ∨ s + n ≤ d)%nat →
  move_up (Z.of_nat d) (Z.of_nat s) n m = Ok tt (splice m d (slice m s n)).
Proof.
  revert d s m. induction n as [|n IH]; intros d s m Hb Hd Hs Ho; cbn [move_up].
  { unfold slice. cbn. by rewrite splice_nil. }
  destruct (lookup_lt_is_Some_2 m s ltac:(lia)) as [v Hv].
  apply wpt_eq. wp_step. eapply wp_load; [lia | by rewrite Nat2Z.id|].
  wp_step. apply wp_store8; [lia|]. rewrite Nat2Z.id, (store8_byte m v s v) by done.
  replace (Z.of_nat d + 1) with (Z.of_nat (S d)) by lia.
  replace (Z.of_nat s + 1) with (Z.of_nat (S s)) by lia.
  eapply wp_eq.
  { apply IH; rewrite ?length_insert; [|lia..].
    apply Forall_insert; [done | by eapply Forall_lookup_1]. }
  split; [done|]. rewrite slice_insert_other by lia.
  rewrite (slice_cons m s n v Hv), splice_one by lia.
  replace (S d) with (d + length [v])%nat by (cbn; lia).
  rewrite splice_app; [done|]. rewrite length_slice by lia. cbn. lia.
Qed.

Lemma move_down_spec n d s m :
  Forall is_byte m → (d + n ≤ length m)%nat → (s + n ≤ length m)%nat → (s ≤ d)%nat →
  move_down (Z.of_nat (d + n)) (Z.of_nat (s + n)) n m = Ok tt (splice m d (slice m s n)).
Proof.
  revert m. induction n as [|n IH]; intros m Hb Hd Hs Ho; cbn [move_down].
  { unfold slice. cbn. by rewrite splice_nil. }
  destruct (lookup_lt_is_Some_2 m (s + n)%nat ltac:(lia)) as [v Hv].
  replace (Z.of_nat (d + S n) - 1) with (Z.of_nat (d + n)) by lia.
  replace (Z.of_nat (s + S n) - 1) with (Z.of_nat (s + n)) by lia.
  apply wpt_eq. wp_step. eapply wp_load; [lia | by rewrite Nat2Z.id|].
  wp_step. apply wp_store8; [lia|]. rewrite Nat2Z.id, (store8_byte m v (s + n) v) by done.
  eapply wp_eq.
  { apply IH; rewrite ?length_insert; [|lia..].
    apply Forall_insert; [done | by eapply Forall_lookup_1]. }
  split; [done|]. rewrite slice_insert_other by lia. rewrite (slice_snoc m s n v Hv).
  rewrite <-splice_snoc by (rewrite length_slice; lia). by rewrite length_slice by lia.
Qed.
End copy.

(** [memmove] copies the old contents of the source whatever the overlap:
    on any two mapped ranges it returns [dst], the destination holds the
    bytes the source held before, and no other byte changes. *)
Theorem memmove_correct (m : mem) (dst src n : Z) :
  Forall is_byte m → mapped m dst n → mapped m src n →
  memmove dst src n m =
    Ok dst (splice m (Z.to_nat dst) (slice m (Z.to_nat src) (Z.to_nat n))).
Proof.
  intros Hb (Hd0 & Hn & Hd) (Hs0 & _ & Hs). unfold memmove.
  destruct ((src <? dst) && (src + n >? dst)) eqn:Ho.
  - apply andb_prop in Ho as [Hlt%Z.ltb_lt Hgt%Z.gtb_lt].
    replace (dst + n) with (Z.of_nat (Z.to_nat dst + Z.to_nat n)) by lia.
    replace (src + n) with (Z.of_nat (Z.to_nat src + Z.to_nat n)) by lia.
    erewrite bind_ok by (apply move_down_spec; [done | lia..]). done.
  - replace (move_up dst src) with (move_up (Z.of_nat (Z.to_nat dst)) (Z.of_nat (Z.to_nat src)))
      by (f_equal; lia).
    erewrite bind_ok; [done|]. apply move_up_spec; [done | lia | lia |].
    apply andb_false_iff in Ho as [Ho%Z.ltb_ge|Ho]; [lia|].
    rewrite Z.gtb_ltb in Ho. apply Z.ltb_ge in Ho. lia.
Qed.

Lemma memmove_correct_witness :
  memmove 1 0 4 [10; 20; 30; 40; 50; 60] = Ok 1 [10; 10; 20; 30; 40; 60].
Proof.
  apply (memmove_correct [10; 20; 30; 40; 50; 60] 1 0 4).
  - repeat constructor; lia.
  - unfold mapped. cbn. lia.
  - unfold mapped. cbn. lia.
Defined.

Lemma stosb_spec n (a : nat) v (m : mem) :
  (a + n ≤ length m)%nat →
  stosb (Z.of_nat a) v n m = Ok tt (splice m a (replicate n (u8 v))).
Proof.
  revert a m. induction n as [|n IH]; intros a m Ha; cbn [stosb replicate].
  { by rewrite splice_nil. }
  apply wpt_eq. wp_step. apply wp_store8; [lia|]. rewrite Nat2Z.id.
  replace (Z.of_nat a + 1) with (Z.of_nat (a + 1)) by lia.
  eapply wp_eq; [apply IH; rewrite length_insert; lia|]. split; [done|].
  rewrite splice_one by lia. change 1%nat with (length [u8 v]) at 1.
  rewrite splice_app; [done|]. rewrite length_replicate. cbn. lia.
Qed.

Lemma insert_splice (m : mem) (a : nat) l v :
  (a + length l < length m)%nat → <[(a + length l)%nat := v]> (splice m a l) = splice m a (l ++ [v]).
Proof. intros H. rewrite splice_one by (rewrite length_splice; lia). apply splice_app. cbn. lia. Qed.

(** Four bytes stored one after the other. *)
Lemma store32_spec (a : nat) v (m : mem) :
  (a + 4 ≤ length m)%nat →
  store32 (Z.of_nat a) v m =
    Ok tt (splice m a [u8 v; u8 (v / 2 ^ 8); u8 (v / 2 ^ 16); u8 (v / 2 ^ 24)]).
Proof.
  intros Ha. apply wpt_eq. unfold store32.
  repeat (wp_step; apply wp_store8; [rewrite ?length_insert; lia|]).
  apply wp_store8; [rewrite ?length_insert; lia|]. split; [done|].
  rewrite Nat2Z.id.
  replace (Z.to_nat (Z.of_nat a + 1)) with (a + 1)%nat by lia.
  replace (Z.to_nat (Z.of_nat a + 2)) with (a + 2)%nat by lia.
  replace (Z.to_nat (Z.of_nat a + 3)) with (a + 3)%nat by lia.
  rewrite (splice_one m a) by lia.
  rewrite (insert_splice m a [_]) by (cbn; lia). cbn [app].
  rewrite (insert_splice m a [_; _]) by (cbn; lia). cbn [app].
  by rewrite (insert_splice m a [_; _; _]) by (cbn; lia).
Qed.

Definition fill_word (c : Z) : Z :=
  Z.lor (Z.lor (Z.lor (Z.shiftl c 24) (Z.shiftl c 16)) (Z.shiftl c 8)) c.

Lemma fill_word_bytes c : 0 ≤ c < 256 →
  [u8 (fill_word c); u8 (fill_word c / 2 ^ 8); u8 (fill_word c / 2 ^ 16); u8 (fill_word c / 2 ^ 24)]
    = replicate 4 c.
Proof.
  intros Hc.
  assert (Hall : forallb (fun c => let w := fill_word c in
    (u8 w =? c) && (u8 (w / 2 ^ 8) =? c) && (u8 (w / 2 ^ 16) =? c) && (u8 (w / 2 ^ 24) =? c))
    (seqZ 0 256) = true) by (vm_compute; reflexivity).
  rewrite forallb_forall in Hall. specialize (Hall c).
  rewrite <-list_elem_of_In, elem_of_seqZ in Hall. specialize (Hall ltac:(lia)). cbv zeta in Hall.
  rewrite !andb_true_iff, !Z.eqb_eq in Hall. destruct Hall as [[[-> ->] ->] ->]. done.
Qed.

Lemma stosl_spec n (a : nat) c (m : mem) :
  0 ≤ c < 256 → (a + 4 * n ≤ length m)%nat →
  stosl (Z.of_nat a) (fill_word c) n m = Ok tt (splice m a (replicate (4 * n) c)).
Proof.
  intros Hc. revert a m. induction n as [|n IH]; intros a m Ha; cbn [stosl].
  { by rewrite splice_nil. }
  apply wpt_eq. wp_step. eapply wp_eq; [apply store32_spec; lia|]. rewrite fill_word_bytes by done.
  replace (Z.of_nat a + 4) with (Z.of_nat (a + 4)) by lia.
  assert (Hl : length (splice m a (replicate 4 c)) = length m)
    by (apply length_splice; rewrite length_replicate; lia).
  eapply wp_eq; [apply IH; rewrite Hl; lia|]. split; [done|].
  change 4%nat with (length (replicate 4 c)) at 2.
  rewrite splice_app by (rewrite !length_replicate; lia).
  rewrite <-replicate_add. f_equal. f_equal. lia.
Qed.

(** [memset] fills the range with the low byte of [c], whichever of the
    two instructions it uses: the word fill of an aligned range is the byte
    fill. *)
Theorem memset_correct (m : mem) (dst c n : Z) :
  mapped m dst n →
  memset dst c n m = Ok dst (splice m (Z.to_nat dst) (replicate (Z.to_nat n) (u8 c))).
Proof.
  intros (Hd0 & Hn & Hd). unfold memset. cbv zeta. fold (fill_word (Z.land c 255)).
  destruct (_ && _) eqn:Hw.
  - apply andb_prop in Hw as [_ Hm%Z.eqb_eq].
    assert (Hc : Z.land c 255 = u8 c) by apply (Z.land_ones c 8 ltac:(lia)). rewrite Hc.
    replace (stosl dst) with (stosl (Z.of_nat (Z.to_nat dst))) by (f_equal; lia).
    assert (Hq : Z.to_nat n = (4 * Z.to_nat (n / 4))%nat) by dlia.
    erewrite bind_ok; [|apply stosl_spec; [apply u8_byte | lia]]. by rewrite <-Hq.
  - replace (stosb dst) with (stosb (Z.of_nat (Z.to_nat dst))) by (f_equal; lia).
    erewrite bind_ok; [done|]. apply stosb_spec. lia.
Qed.

Lemma memset_correct_witness :
  memset 4 257 4 (replicate 12 9) = Ok 4 ([9; 9; 9; 9; 1; 1; 1; 1] ++ replicate 4 9).
Proof. apply (memset_correct (replicate 12 9) 4 257 4). unfold mapped. cbn. lia. Defined.

(** ** Strings *)

(** [str_at m s n l]: read with limit [n], the string at [s] is [l]: its
    bytes are not zero, and a zero follows it unless the limit is reached. *)
Record str_at (m : mem) (s n : nat) (l : list Z) : Prop := {
  sa_bytes : Forall (fun c => is_byte c ∧ c ≠ 0) l;
  sa_chars : ∀ i c, l !! i = Some c → m !! (s + i)%nat = Some c;
  sa_end : length l = n ∨ ((length l < n)%nat ∧ m !! (s + length l)%nat = Some 0)
}.

(** The comparison the string routines compute: the first difference. *)
Fixpoint byte_diff (l1 l2 : list Z) : Z :=
  match l1, l2 with
  | a :: l1, b :: l2 => if a =? b then byte_diff l1 l2 else a - b
  | _, _ => 0
  end.

Lemma byte_diff_zero l1 l2 : length l1 = length l2 → byte_diff l1 l2 = 0 ↔ l1 = l2.
Proof.
  revert l2. induction l1 as [|a l1 IH]; intros [|b l2] Hl; cbn in *; try done.
  destruct (Z.eqb_spec a b) as [->|Hn].
  - rewrite IH by lia. naive_solver.
  - split; [lia | congruence].
Qed.

Lemma byte_diff_str l1 l2 :
  Forall (fun c => is_byte c ∧ c ≠ 0) l1 → Forall (fun c => is_byte c ∧ c ≠ 0) l2 →
  byte_diff (l1 ++ [0]) (l2 ++ [0]) = 0 ↔ l1 = l2.
Proof.
  intros H1. revert l2. induction H1 as [|a l1 [Ha Ha0] H1 IH]; intros l2 H2.
  - destruct H2 as [|b l2 [Hb Hb0] H2]; [done|]. cbn. destruct b; cbn; split; congruence || lia.
  - destruct H2 as [|b l2 [Hb Hb0] H2]; cbn.
    + destruct (Z.eqb_spec a 0); [done|]. split; [lia | done].
    + destruct (Z.eqb_spec a b) as [->|Hn].
      * rewrite IH by done. naive_solver.
      * split; [lia | congruence].
Qed.

Section strings.
Implicit Types (m : mem) (s t n p q : nat) (l : list Z).

Lemma str_at_cons m s n a l :
  str_at m s (S n) (a :: l) → is_byte a ∧ a ≠ 0 ∧ m !! s = Some a ∧ str_at m (S s) n l.
Proof.
  intros [Hb Hc He]. inversion Hb as [|?? [Ha Ha0] Hb']; subst.
  split; [done|]. split; [done|]. split; [rewrite <-(Nat.add_0_r s); by apply Hc|].
  split; [done | |].
  - intros i c Hi. replace (S s + i)%nat with (s + S i)%nat by lia. by apply Hc.
  - cbn in He. replace (S s + length l)%nat with (s + S (length l))%nat by lia.
    destruct He as [He|[He Hz]]; [left; lia | right; split; [lia | done]].
Qed.

Lemma str_at_nil m s n : str_at m s (S n) [] → m !! s = Some 0.
Proof. intros [_ _ [H|[_ H]]]; [done|]. by rewrite Nat.add_0_r in H. Qed.

Lemma str_at_0 m s l : str_at m s 0 l → l = [].
Proof. intros [_ _ [H|[H _]]]; [by apply nil_length_inv | lia]. Qed.

(** A write that misses the string and its terminator keeps it. *)
Lemma str_at_insert m s n l i v :
  str_at m s n l → (i < s ∨ s + length l < i)%nat → str_at (<[i := v]> m) s n l.
Proof.
  intros [Hb Hc He] Hi. split; [done | |].
  - intros j c Hj. rewrite list_lookup_insert_ne; [by apply Hc|]. apply lookup_lt_Some in Hj. lia.
  - rewrite list_lookup_insert_ne by lia. done.
Qed.

Lemma strncmp_loop_spec n p q l1 l2 m :
  str_at m p n l1 → str_at m q n l2 →
  strncmp_loop (Z.of_nat p) (Z.of_nat q) n m = Ok (byte_diff (l1 ++ [0]) (l2 ++ [0])) m.
Proof.
  revert p q l1 l2. induction n as [|n IH]; intros p q l1 l2 H1 H2; cbn [strncmp_loop].
  { rewrite (str_at_0 _ _ _ H1), (str_at_0 _ _ _ H2). done. }
  assert (Hh : ∀ s l, str_at m s (S n) l → m !! s = Some (hd 0 l)).
  { intros s [|a l] H; [by eapply str_at_nil | by apply str_at_cons in H as (_ & _ & ? & _)]. }
  apply wpt_eq. wp_step. eapply wp_load; [lia | rewrite Nat2Z.id; by apply Hh|].
  destruct l1 as [|a l1]; cbn [hd].
  - rewrite Z.eqb_refl. wp_step. eapply wp_load; [lia | rewrite Nat2Z.id; by apply Hh|]. wp_step.
    split; [|done]. destruct l2 as [|b l2]; [done|]. apply str_at_cons in H2 as (_ & Hb & _).
    cbn. destruct b; [done | done | done].
  - apply str_at_cons in H1 as (_ & Ha0 & _ & H1). destruct (Z.eqb_spec a 0) as [|_]; [done|].
    wp_step. eapply wp_load; [lia | rewrite Nat2Z.id; by apply Hh|].
    destruct l2 as [|b l2]; cbn [hd].
    + destruct (Z.eqb_spec a 0) as [|Hn]; [done|]. wp_step. cbn. rewrite (proj2 (Z.eqb_neq a 0)) by done. done.
    + apply str_at_cons in H2 as (_ & _ & _ & H2). cbn [app byte_diff].
      destruct (Z.eqb_spec a b); [|by wp_step].
      replace (Z.of_nat p + 1) with (Z.of_nat (S p)) by lia.
      replace (Z.of_nat q + 1) with (Z.of_nat (S q)) by lia.
      eapply wp_eq; [by apply IH|]. done.
Qed.
End strings.

(** [strncmp] compares the two strings read with the limit: it returns
    zero exactly when they are equal, reads nothing past a terminator or the
    limit, and otherwise returns the difference at the first position where
    they differ. *)
Theorem strncmp_correct (m : mem) (p q n : Z) (l1 l2 : list Z) :
  0 ≤ p → 0 ≤ q → 0 ≤ n →
  str_at m (Z.to_nat p) (Z.to_nat n) l1 → str_at m (Z.to_nat q) (Z.to_nat n) l2 →
  ∃ v, strncmp p q n m = Ok v m ∧ v = byte_diff (l1 ++ [0]) (l2 ++ [0]) ∧ (v = 0 ↔ l1 = l2).
Proof.
  intros Hp Hq Hn H1 H2. eexists. split; [|split; [reflexivity|]].
  - unfold strncmp. rewrite <-(Z2Nat.id p), <-(Z2Nat.id q) by done. by apply strncmp_loop_spec.
  - apply byte_diff_str; [apply H1 | apply H2].
Qed.

Section string_copies.
Implicit Types (m : mem) (s t n : nat) (l : list Z).

Lemma zero_fill_spec n s m :
  (s + n ≤ length m)%nat → zero_fill (Z.of_nat s) n m = Ok tt (splice m s (replicate n 0)).
Proof.
  intros Hs. pose proof (stosb_spec n s 0 m Hs) as E. change (u8 0) with 0 in E. rewrite <-E.
  clear E. generalize (Z.of_nat s) as z. clear Hs. revert m.
  induction n as [|n IH]; intros m z; cbn; [done|]. unfold mbind, M_bind.
  destruct (store8 z 0 m); [apply IH | done].
Qed.

(** Where the copy must not write: the source and its terminator. *)
Definition apart (s n t k : nat) : Prop := (s + n ≤ t ∨ t + k ≤ s)%nat.

Lemma splice_insert m s v l :
  (s + S (length l) ≤ length m)%nat → splice (<[s := v]> m) (S s) l = splice m s (v :: l).
Proof.
  intros H. rewrite splice_one by lia. replace (S s) with (s + length [v])%nat by (cbn; lia).
  apply splice_app. cbn. lia.
Qed.

Lemma strncpy_loop_spec n s t l m :
  str_at m t n l → (s + n ≤ length m)%nat → apart s n t (S (length l)) →
  strncpy_loop (Z.of_nat s) (Z.of_nat t) n m = Ok tt (splice m s (l ++ replicate (n - length l) 0)).
Proof.
  revert s t l m. induction n as [|n IH]; intros s t l m Ht Hs Ha; cbn [strncpy_loop].
  { rewrite (str_at_0 _ _ _ Ht). by rewrite splice_nil. }
  apply wpt_eq. destruct l as [|a l].
  - wp_step. eapply wp_load; [lia | rewrite Nat2Z.id; by eapply str_at_nil|].
    wp_step. apply wp_store8; [lia|]. rewrite Nat2Z.id, Z.eqb_refl.
    replace (Z.of_nat s + 1) with (Z.of_nat (S s)) by lia.
    eapply wp_eq; [apply zero_fill_spec; rewrite length_insert; lia|]. split; [done|].
    rewrite splice_insert by (rewrite length_replicate; lia). done.
  - destruct (str_at_cons _ _ _ _ _ Ht) as (Hb & H0 & Hl & Ht'). unfold apart in Ha. cbn [length] in Ha.
    assert (Hle : (length l ≤ n)%nat) by (destruct Ht' as [_ _ [|[]]]; lia).
    wp_step. eapply wp_load; [lia | by rewrite Nat2Z.id|].
    wp_step. apply wp_store8; [lia|]. rewrite Nat2Z.id, u8_id by done.
    rewrite (proj2 (Z.eqb_neq a 0)) by done.
    replace (Z.of_nat s + 1) with (Z.of_nat (S s)) by lia.
    replace (Z.of_nat t + 1) with (Z.of_nat (S t)) by lia.
    eapply wp_eq; [apply IH; [apply str_at_insert; [done | lia] | rewrite length_insert; lia
      | unfold apart; lia]|].
    split; [done|]. rewrite splice_insert by (rewrite length_app, length_replicate; lia). done.
Qed.

(** What [safestrcpy] has written when its loop ends at offset [e]. *)
Lemma safestrcpy_loop_spec n s t l m :
  str_at m t n l → (s + n ≤ length m)%nat → apart s n t (S (length l)) →
  safestrcpy_loop (Z.of_nat s) (Z.of_nat t) n m =
    if decide (length l < n)%nat
    then Ok (Z.of_nat (s + length l + 1)) (splice m s (l ++ [0]))
    else Ok (Z.of_nat (s + n)) (splice m s l).
Proof.
  revert s t l m. induction n as [|n IH]; intros s t l m Ht Hs Ha; cbn [safestrcpy_loop].
  { rewrite (str_at_0 _ _ _ Ht). rewrite decide_False by (cbn; lia). by rewrite splice_nil, Nat.add_0_r. }
  destruct l as [|a l].
  - rewrite decide_True by (cbn; lia). apply wpt_eq.
    wp_step. eapply wp_load; [lia | rewrite Nat2Z.id; by eapply str_at_nil|].
    wp_step. apply wp_store8; [lia|]. rewrite Nat2Z.id, Z.eqb_refl. wp_step.
    split; [cbn; lia|]. rewrite splice_one by lia. done.
  - destruct (str_at_cons _ _ _ _ _ Ht) as (Hb & H0 & Hl & Ht'). unfold apart in Ha. cbn [length] in *.
    assert (Hle : (length l ≤ n)%nat) by (destruct Ht' as [_ _ [|[]]]; lia).
    erewrite bind_ok; [|apply wpt_eq; eapply wp_load; [lia | by rewrite Nat2Z.id | done]].
    erewrite bind_ok; [|apply wpt_eq; apply wp_store8; [lia | done]].
    rewrite Nat2Z.id, u8_id by done. rewrite (proj2 (Z.eqb_neq a 0)) by done.
    replace (Z.of_nat s + 1) with (Z.of_nat (S s)) by lia.
    replace (Z.of_nat t + 1) with (Z.of_nat (S t)) by lia.
    rewrite (IH (S s) (S t) l); [|apply str_at_insert; [done | lia] | rewrite length_insert; lia
      | unfold apart; lia].
    repeat case_decide; try lia; rewrite splice_insert by (rewrite ?length_app; cbn; lia);
      f_equal; lia.
Qed.
End string_copies.

(** [strncpy] fills exactly the [n] bytes at [s]: the string, cut at the
    limit, followed by zeros up to the limit. *)
Theorem strncpy_correct (m : mem) (s t n : Z) (l : list Z) :
  mapped m s n → 0 ≤ t → str_at m (Z.to_nat t) (Z.to_nat n) l →
  apart (Z.to_nat s) (Z.to_nat n) (Z.to_nat t) (S (length l)) →
  strncpy s t n m =
    Ok s (splice m (Z.to_nat s) (l ++ replicate (Z.to_nat n - length l) 0)).
Proof.
  intros (Hs & Hn & Hm) Ht Hl Ha. unfold strncpy.
  replace (strncpy_loop s t) with (strncpy_loop (Z.of_nat (Z.to_nat s)) (Z.of_nat (Z.to_nat t)))
    by (f_equal; lia).
  erewrite bind_ok; [done|]. apply strncpy_loop_spec; [done | lia | done].
Qed.

(** The bytes [safestrcpy] writes: the string and one zero, or two when the
    copy of the terminator is followed by the final store. *)
Lemma safestrcpy_writes (m : mem) (s t n : Z) (l : list Z) :
  mapped m s n → 0 < n → 0 ≤ t → str_at m (Z.to_nat t) (Z.to_nat (n - 1)) l →
  apart (Z.to_nat s) (Z.to_nat n) (Z.to_nat t) (S (length l)) →
  ∃ k, (1 ≤ k ≤ 2)%nat ∧ (length l + k ≤ Z.to_nat n)%nat ∧
    safestrcpy s t n m = Ok s (splice m (Z.to_nat s) (l ++ replicate k 0)).
Proof.
  intros (Hs & Hn & Hm) Hn0 Ht Hl Ha. unfold apart in Ha.
  assert (Hle : (length l ≤ Z.to_nat (n - 1))%nat) by (destruct Hl as [_ _ [|[]]]; lia).
  unfold safestrcpy. rewrite (proj2 (Z.leb_gt n 0)) by done.
  replace (safestrcpy_loop s t) with (safestrcpy_loop (Z.of_nat (Z.to_nat s)) (Z.of_nat (Z.to_nat t)))
    by (f_equal; lia).
  unfold mbind, M_bind. rewrite (safestrcpy_loop_spec _ _ _ l) by (done || lia || unfold apart; lia).
  assert (Hst : ∀ l', (Z.to_nat s + length l' < length m)%nat →
    store8 (Z.of_nat (Z.to_nat s + length l')) 0 (splice m (Z.to_nat s) l')
      = Ok tt (splice m (Z.to_nat s) (l' ++ [0]))).
  { intros l' Hl'. apply wpt_eq, wp_store8; [rewrite length_splice by lia; lia|].
    rewrite Nat2Z.id. by rewrite insert_splice. }
  case_decide; [exists 2%nat | exists 1%nat]; (split; [lia|]; split; [lia|]); cbn [replicate].
  - replace (Z.to_nat s + length l + 1)%nat with (Z.to_nat s + length (l ++ [0%Z]))%nat
      by (rewrite length_app; cbn; lia).
    rewrite Hst by (rewrite length_app; cbn; lia). by rewrite <-app_assoc.
  - replace (Z.to_nat s + Z.to_nat (n - 1))%nat with (Z.to_nat s + length l)%nat by lia.
    by rewrite Hst by lia.
Qed.

(** C39: [safestrcpy] never writes outside its [n] bytes and always
    terminates: afterwards the string at [s] is the source cut to [n - 1]
    characters, followed by a zero within the limit, and every byte outside
    [s .. s+n) is unchanged. *)
Theorem safestrcpy_correct (m : mem) (s t n : Z) (l : list Z) :
  mapped m s n → 0 < n → 0 ≤ t → str_at m (Z.to_nat t) (Z.to_nat (n - 1)) l →
  apart (Z.to_nat s) (Z.to_nat n) (Z.to_nat t) (S (length l)) →
  ∃ m', safestrcpy s t n m = Ok s m' ∧ length m' = length m ∧
    str_at m' (Z.to_nat s) (Z.to_nat n) l ∧ Z.of_nat (length l) < n ∧
    ∀ i, (i < Z.to_nat s ∨ Z.to_nat (s + n) ≤ i)%nat → m' !! i = m !! i.
Proof.
  intros Hm Hn0 Ht Hl Ha. destruct (safestrcpy_writes m s t n l Hm Hn0 Ht Hl Ha) as (k & Hk & Hlk & Hw).
  destruct Hm as (Hs & Hn & Hm). eexists. split; [exact Hw|].
  assert (Hlen : length (l ++ replicate k 0) = (length l + k)%nat) by (rewrite length_app, length_replicate; done).
  split; [apply length_splice; lia|]. split; [|split; [lia|]].
  - split; [apply Hl | |].
    + intros i c Hi. pose proof (lookup_lt_Some _ _ _ Hi). rewrite lookup_splice by lia.
      rewrite decide_True by lia. replace (Z.to_nat s + i - Z.to_nat s)%nat with i by lia.
      by rewrite lookup_app_l by lia.
    + right. split; [lia|]. rewrite lookup_splice by lia. rewrite decide_True by lia.
      replace (Z.to_nat s + length l - Z.to_nat s)%nat with (length l) by lia.
      rewrite lookup_app_r, Nat.sub_diag by lia. by destruct k as [|k]; [lia|].
  - intros i Hi. rewrite lookup_splice by lia. by rewrite decide_False by lia.
Qed.

(** ** Lengths and comparison of memory *)
Lemma memcmp_loop_spec n (p q : nat) (m : mem) :
  (p + n ≤ length m)%nat → (q + n ≤ length m)%nat →
  memcmp_loop (Z.of_nat p) (Z.of_nat q) n m = Ok (byte_diff (slice m p n) (slice m q n)) m.
Proof.
  revert p q. induction n as [|n IH]; intros p q Hp Hq; cbn [memcmp_loop]; [done|].
  destruct (lookup_lt_is_Some_2 m p ltac:(lia)) as [a Ha].
  destruct (lookup_lt_is_Some_2 m q ltac:(lia)) as [b Hb].
  rewrite (slice_cons m p n a Ha), (slice_cons m q n b Hb). apply wpt_eq.
  wp_step. eapply wp_load; [lia | by rewrite Nat2Z.id|].
  wp_step. eapply wp_load; [lia | by rewrite Nat2Z.id|]. cbn [byte_diff].
  destruct (a =? b); cbn [negb]; [|by wp_step].
  replace (Z.of_nat p + 1) with (Z.of_nat (S p)) by lia.
  replace (Z.of_nat q + 1) with (Z.of_nat (S q)) by lia.
  eapply wp_eq; [apply IH; lia | done].
Qed.

(** [memcmp] is zero exactly when the two ranges hold the same bytes. *)
Theorem memcmp_correct (m : mem) (v1 v2 n : Z) :
  mapped m v1 n → mapped m v2 n →
  let l1 := slice m (Z.to_nat v1) (Z.to_nat n) in
  let l2 := slice m (Z.to_nat v2) (Z.to_nat n) in
  memcmp v1 v2 n m = Ok (byte_diff l1 l2) m ∧ (byte_diff l1 l2 = 0 ↔ l1 = l2).
Proof.
  intros (H1 & Hn & H1m) (H2 & _ & H2m) l1 l2. split.
  - unfold memcmp. rewrite <-(Z2Nat.id v1), <-(Z2Nat.id v2) at 1 by done. apply memcmp_loop_spec; lia.
  - apply byte_diff_zero. unfold l1, l2. rewrite !length_slice; lia.
Qed.

Lemma strlen_loop_spec fuel (s : nat) (k : nat) l n (m : mem) :
  str_at m (s + k) n l → (length l < n)%nat → (length l < fuel)%nat →
  strlen_loop (Z.of_nat s) (Z.of_nat k) fuel m = Ok (Z.of_nat (k + length l)) m.
Proof.
  revert k l n. induction fuel as [|fuel IH]; intros k l n Hl Hn Hf; [lia|]. cbn [strlen_loop].
  destruct n as [|n]; [lia|]. apply wpt_eq. wp_step. destruct l as [|a l].
  - eapply wp_load; [lia | replace (Z.to_nat (Z.of_nat s + Z.of_nat k)) with (s + k)%nat by lia;
      by eapply str_at_nil|]. rewrite Z.eqb_refl. wp_step. cbn. split; [lia | done].
  - apply str_at_cons in Hl as (_ & Ha0 & Ha & Hl). cbn in Hn, Hf.
    eapply wp_load; [lia | by replace (Z.to_nat (Z.of_nat s + Z.of_nat k)) with (s + k)%nat by lia|].
    rewrite (proj2 (Z.eqb_neq a 0)) by done.
    replace (Z.of_nat k + 1) with (Z.of_nat (S k)) by lia.
    eapply wp_eq; [apply (IH (S k) l n); [by rewrite Nat.add_succ_r | lia..]|].
    split; [cbn; lia | done].
Qed.

(** [strlen] counts the bytes before the terminator. *)
Theorem strlen_correct (m : mem) (s : Z) (l : list Z) :
  0 ≤ s → str_at m (Z.to_nat s) (S (length l)) l → strlen s m = Ok (Z.of_nat (length l)) m.
Proof.
  intros Hs Hl. change (strlen s m) with (strlen_loop s 0 (S (length m)) m).
  rewrite <-(Z2Nat.id s) by done. apply (strlen_loop_spec _ (Z.to_nat s) 0 l (S (length l)));
    [by rewrite Nat.add_0_r | lia |].
  destruct Hl as [_ _ [He|[_ He]]]; [lia|]. apply lookup_lt_Some in He. lia.
Qed.

(** *** Examples: "abc" at address 2 *)
Definition sample_mem : mem := [7; 7; 97; 98; 99; 0; 7; 7; 7; 7; 7; 7; 97; 98; 100; 0].

Lemma sample_str n : (3 ≤ n)%nat → str_at sample_mem 2 n [97; 98; 99].
Proof.
  intros Hn. split; [repeat constructor; lia | |].
  - intros [|[|[|i]]] c Hi; done.
  - destruct (decide (n = 3)%nat) as [->|]; [by left | right; split; [cbn; lia | done]].
Qed.

Lemma strncmp_correct_witness :
  ∃ v, strncmp 2 12 14 sample_mem = Ok v sample_mem ∧
    v = byte_diff ([97; 98; 99] ++ [0]) ([97; 98; 100] ++ [0]) ∧ (v = 0 ↔ [97; 98; 99] = [97; 98; 100]).
Proof.
  apply (strncmp_correct sample_mem 2 12 14); [lia | lia | lia | apply sample_str; lia|].
  split; [repeat constructor; lia | |].
  - intros [|[|[|i]]] c Hi; done.
  - right. split; [cbn; lia | done].
Defined.

Lemma strncpy_correct_witness :
  strncpy 6 2 5 sample_mem = Ok 6 [7; 7; 97; 98; 99; 0; 97; 98; 99; 0; 0; 7; 97; 98; 100; 0].
Proof.
  apply (strncpy_correct sample_mem 6 2 5 [97; 98; 99]);
    [unfold mapped; cbn; lia | lia | apply sample_str; cbn; lia | unfold apart; cbn; lia].
Defined.

Lemma safestrcpy_correct_witness :
  ∃ m', safestrcpy 6 2 4 sample_mem = Ok 6 m' ∧ length m' = 16%nat ∧
    str_at m' 6 4 [97; 98; 99] ∧ 3 < 4 ∧
    ∀ i, (i < 6 ∨ 10 ≤ i)%nat → m' !! i = sample_mem !! i.
Proof.
  apply (safestrcpy_correct sample_mem 6 2 4 [97; 98; 99]);
    [unfold mapped; cbn; lia | lia | lia | apply sample_str; cbn; lia | unfold apart; cbn; lia].
Defined.
