(* ===== verification/Kalloc.v ===== *)
(** * The page allocator (kalloc.c)

    Physical memory is a byte for every kernel address; a free page holds the
    address of the next one in its first word.  [kalloc] and [kfree] are
    proved to implement a stack of pages, and the allocator to be safe in
    every sequence of allocations, releases and writes by its clients. *)
From S2P Require Import Prelude Spinlock Bytes.

Definition PGSIZE : Z := 4096.
Definition KERNBASE : Z := 2 ^ 31.
Definition PHYSTOP : Z := 14 * 2 ^ 24.
Definition V2P (a : Z) : Z := u32 (u32 a - KERNBASE).
Definition PGROUNDUP (sz : Z) : Z := Z.land (u32 (sz + PGSIZE - 1)) (u32 (Z.lnot (PGSIZE - 1))).

(** Memory, and [struct kmem] with the CPU that runs. *)
Abbreviation bytemem := (Z → Z).
Record kmem := mkkmem {
  km_cpu : cpu;
  km_lock : spinlock;
  use_lock : bool;
  freelist : Z;
  memory : bytemem
}.
#[export] Instance kmem_eta : EtaRecord kmem := fun k =>
  mkkmem (km_cpu k) (km_lock k) (use_lock k) (freelist k) (memory k).

Definition fill (m : bytemem) (a c n : Z) : bytemem := fun x => if (a <=? x) && (x <? a + n) then u8 c else m x.
Definition word_at (m : bytemem) (a : Z) : Z := le_val [m a; m (a + 1); m (a + 2); m (a + 3)].
Definition set_word (m : bytemem) (a v : Z) : bytemem := fun x =>
  if (a <=? x) && (x <? a + 4) then default 0 (le_bytes 4 v !! Z.to_nat (x - a)) else m x.

Definition lock_pair (k : kmem) : cpu * spinlock := (km_cpu k, km_lock k).
Definition set_lock_pair (p : cpu * spinlock) (k : kmem) : kmem := k <| km_cpu := p.1 |> <| km_lock := p.2 |>.
Definition with_kmem_lock {A} (m : M (cpu * spinlock) A) : M kmem A := zoom lock_pair set_lock_pair m.

Section code.
(** [end], the first address after the kernel, set by the linker. *)
Context (kend : Z).

Definition kfree (v : Z) : M kmem unit :=
  if negb (u32 v mod PGSIZE =? 0) || (v <? kend) || (V2P v >=? PHYSTOP) then panic "kfree"
  else
    modify (fun k => k <| memory := fill (memory k) v 1 PGSIZE |>);;
    l ← gets use_lock;
    when l (with_kmem_lock acquire);;
    modify (fun k => k <| memory := set_word (memory k) v (freelist k) |>);;
    modify (fun k => k <| freelist := v |>);;
    l ← gets use_lock;
    when l (with_kmem_lock release).

Definition kalloc : M kmem Z :=
  l ← gets use_lock;
  when l (with_kmem_lock acquire);;
  r ← gets freelist;
  when (negb (r =? 0)) (modify (fun k => k <| freelist := word_at (memory k) r |>));;
  l ← gets use_lock;
  when l (with_kmem_lock release);;
  mret r.

Fixpoint freerange_loop (fuel : nat) (p vend : Z) : M kmem unit :=
  if p + PGSIZE <=? vend then
    match fuel with
    | O => stop_with NoFuel
    | S fuel => kfree p;; freerange_loop fuel (p + PGSIZE) vend
    end
  else mret tt.

(** As many turns as whole pages fit below [vend]. *)
Definition freerange (vstart vend : Z) : M kmem unit :=
  let p := PGROUNDUP vstart in
  freerange_loop (Z.to_nat ((vend - p) / PGSIZE)) p vend.

Definition kinit1 (vstart vend : Z) : M kmem unit :=
  modify (fun k => k <| km_lock := initlock "kmem" |>);;
  modify (fun k => k <| use_lock := false |>);;
  freerange vstart vend.

Definition kinit2 (vstart vend : Z) : M kmem unit :=
  freerange vstart vend;;
  modify (fun k => k <| use_lock := true |>).
End code.

(** ** Pages and the free list *)
Section proofs.
Context (kend : Z).

Record page_ok (p : Z) : Prop := {
  pg_aligned : p mod PGSIZE = 0;
  pg_end : kend ≤ p;
  pg_range : KERNBASE ≤ p < KERNBASE + PHYSTOP
}.

Fixpoint chain (m : bytemem) (a : Z) (l : list Z) : Prop :=
  match l with
  | [] => a = 0
  | p :: l' => a = p ∧ page_ok p ∧ chain m (word_at m p) l'
  end.

(** The free list holds the pages [l], and no lock is held. *)
Record kmem_ok (k : kmem) (l : list Z) : Prop := {
  ko_chain : chain (memory k) (freelist k) l;
  ko_nodup : NoDup l;
  ko_cpu : calm (km_cpu k);
  ko_lock : Spinlock.free (km_lock k)
}.

Definition in_page (p x : Z) : Prop := p ≤ x < p + PGSIZE.

Lemma pages_apart p q x : page_ok p → page_ok q → in_page p x → in_page q x → p = q.
Proof.
  intros [Hp _ _] [Hq _ _] H1 H2. unfold in_page, PGSIZE in *.
  assert (p = 4096 * (p / 4096)) by dlia. assert (q = 4096 * (q / 4096)) by dlia. lia.
Qed.

Lemma page_guard v :
  0 ≤ v < 2 ^ 32 →
  negb (u32 v mod PGSIZE =? 0) || (v <? kend) || (V2P v >=? PHYSTOP) = false ↔ page_ok v.
Proof.
  intros Hv. unfold V2P. rewrite (u32_id v) by done.
  assert (Hr : u32 (v - KERNBASE) < PHYSTOP ↔ KERNBASE ≤ v < KERNBASE + PHYSTOP).
  { unfold u32, KERNBASE, PHYSTOP in *. split; intros H; dlia. }
  rewrite !orb_false_iff, negb_false_iff, Z.eqb_eq, Z.ltb_ge, Z.geb_leb, Z.leb_gt, Hr.
  split; [by intros [[? ?] ?] | intros []; auto].
Qed.

Lemma page_bounds p : page_ok p → 0 < p < 2 ^ 32.
Proof. intros [_ _ H]. unfold KERNBASE, PHYSTOP in H. lia. Qed.

Lemma word_at_ext m m' a : (∀ x, a ≤ x < a + 4 → m' x = m x) → word_at m' a = word_at m a.
Proof. intros H. unfold word_at. by rewrite !H by lia. Qed.

Lemma word_at_set m a v : word_at (set_word m a v) a = u32 v.
Proof.
  unfold word_at. assert (Hx : ∀ i, 0 ≤ i < 4 → set_word m a v (a + i) = default 0 (le_bytes 4 v !! Z.to_nat i)).
  { intros i Hi. unfold set_word.
    rewrite (proj2 (Z.leb_le a (a + i))), (proj2 (Z.ltb_lt (a + i) (a + 4))) by lia.
    cbn [andb]. do 2 f_equal. lia. }
  pose proof (Hx 0 ltac:(lia)) as H0. rewrite Z.add_0_r in H0.
  rewrite H0, !Hx by lia. apply (le_val_bytes 4 v).
Qed.

(** Only the first words of the listed pages matter. *)
Lemma chain_frame m m' a l :
  (∀ p x, p ∈ l → p ≤ x < p + 4 → m' x = m x) → chain m a l → chain m' a l.
Proof.
  revert a. induction l as [|p l IH]; intros a Hm; cbn [chain]; [done|]. intros (-> & Hp & Hc).
  split; [done|]. split; [done|].
  rewrite (word_at_ext m m') by (intros; apply (Hm p); [apply list_elem_of_here | done]).
  apply IH; [|done]. intros q x Hq. apply Hm. by apply list_elem_of_further.
Qed.

Lemma chain_pages m a l p : chain m a l → p ∈ l → page_ok p.
Proof.
  revert a. induction l as [|q l IH]; intros a; [by intros _ ?%elem_of_nil|].
  cbn. intros (_ & Hq & Hc) [->|Hp]%elem_of_cons; eauto.
Qed.

Lemma chain_head m a l : chain m a l → 0 ≤ a < 2 ^ 32 ∧ (a = 0 ↔ l = []).
Proof.
  destruct l as [|p l]; cbn; [intros ->; split; [lia | done]|].
  intros (-> & Hp%page_bounds & _). split; [lia|]. split; [lia | done].
Qed.

(** ** [kalloc] and [kfree] implement a stack of pages *)
Lemma km_unlock (k : kmem) (c : cpu) (lk : spinlock) (Q : unit → kmem → Prop) E :
  calm c → Spinlock.free lk → km_cpu k = pushed c → km_lock k = locked_by c lk →
  Q tt (k <| km_cpu := popped (pushed c) |> <| km_lock := lk |>) → wp (with_kmem_lock release) Q E k.
Proof.
  intros Hc Hf Hcpu Hlk HQ. eapply (wp_zoom_release _ _ c lk); [done | unfold lock_pair; congruence|].
  by rewrite unlocked_free.
Qed.

(** The bracket is taken only when [use_lock] is set. *)
Definition entered (k k1 : kmem) : Prop :=
  memory k1 = memory k ∧ freelist k1 = freelist k ∧ use_lock k1 = use_lock k ∧
  lock_pair k1 = if use_lock k then (pushed (km_cpu k), locked_by (km_cpu k) (km_lock k)) else lock_pair k.

Lemma wp_km_enter k (Q : unit → kmem → Prop) E :
  calm (km_cpu k) → Spinlock.free (km_lock k) → (∀ k1, entered k k1 → Q tt k1) →
  wp (when (use_lock k) (with_kmem_lock acquire)) Q E k.
Proof.
  intros Hc Hl HQ. apply wp_when; intros Hu.
  - eapply wp_zoom_acquire; [apply Hc | done|]. apply HQ. unfold entered. by rewrite Hu.
  - apply HQ. unfold entered. by rewrite Hu.
Qed.

Lemma wp_km_leave k k1 k2 (Q : unit → kmem → Prop) E :
  calm (km_cpu k) → Spinlock.free (km_lock k) → entered k k1 →
  lock_pair k2 = lock_pair k1 → use_lock k2 = use_lock k1 →
  (∀ k3, memory k3 = memory k2 → freelist k3 = freelist k2 → use_lock k3 = use_lock k →
    calm (km_cpu k3) → Spinlock.free (km_lock k3) → Q tt k3) →
  wp (when (use_lock k2) (with_kmem_lock release)) Q E k2.
Proof.
  intros Hc Hl (_ & _ & Hu1 & Hp1) Hp2 Hu2 HQ. rewrite Hp1 in Hp2. apply wp_when; intros Hu.
  - assert (Huk : use_lock k = true) by congruence. rewrite Huk in Hp2. injection Hp2 as Hcpu Hlk.
    eapply km_unlock; [exact Hc | exact Hl | done | done|].
    apply HQ; [done | done | cbn; congruence | cbn; by apply calm_bracket | done].
  - assert (Huk : use_lock k = false) by congruence. rewrite Huk in Hp2. injection Hp2 as Hcpu Hlk.
    apply HQ; [done | done | congruence | by rewrite Hcpu | by rewrite Hlk].
Qed.

(** The junk fill touches only the page. *)
Lemma kmem_ok_fill k l v c :
  kmem_ok k l → page_ok v → v ∉ l → kmem_ok (k <| memory := fill (memory k) v c PGSIZE |>) l.
Proof.
  intros [Hch Hnd Hc Hl] Hv Hn. split; [|done..]. apply (chain_frame (memory k)); [|done].
  intros p x Hp Hx. cbn. unfold fill. destruct (_ && _) eqn:E; [|done].
  apply andb_prop in E as [?%Z.leb_le ?%Z.ltb_lt]. destruct Hn.
  rewrite (pages_apart v p x Hv (chain_pages _ _ _ _ Hch Hp)); [done | done|]. unfold in_page, PGSIZE. lia.
Qed.

Lemma kfree_spec k l v :
  kmem_ok k l → page_ok v → v ∉ l →
  wpt (kfree kend v) (fun _ k' => kmem_ok k' (v :: l) ∧ use_lock k' = use_lock k ∧
    ∀ x, ¬ in_page v x → memory k' x = memory k x) k.
Proof.
  intros Hok Hv Hn. unfold kfree. pose proof (page_bounds v Hv) as Hb.
  rewrite (proj2 (page_guard v ltac:(lia)) Hv). wp_step. wp_step.
  pose proof (kmem_ok_fill k l v 1 Hok Hv Hn) as [Hch Hnd Hc Hl]. set (k0 := k <| memory := _ |>) in *.
  do 3 wp_step. apply wp_km_enter; [done..|]. intros k1 Hent. pose proof Hent as (Hm1 & Hf1 & Hu1 & Hp1).
  do 6 wp_step. eapply (wp_km_leave k0 k1); [done | done | done | done | done|].
  intros k3 Hm3 Hf3 Hu3 Hc3 Hl3. cbn in Hm3, Hf3. rewrite Hm1, Hf1 in Hm3.
  split; [split|split]; [|by constructor | done | done | done |].
  - rewrite Hf3, Hm3. cbn [chain]. split; [done|]. split; [done|]. rewrite word_at_set.
    destruct (chain_head _ _ _ Hch) as [Hr _]. rewrite u32_id by done.
    apply (chain_frame (memory k0)); [|done]. intros p x Hp Hx. unfold set_word.
    destruct (_ && _) eqn:E; [|done]. apply andb_prop in E as [?%Z.leb_le ?%Z.ltb_lt]. destruct Hn.
    rewrite (pages_apart v p x Hv (chain_pages _ _ _ _ Hch Hp)); [done|..]; unfold in_page, PGSIZE; lia.
  - intros x Hx. rewrite Hm3. unfold set_word, in_page, PGSIZE in *.
    destruct (_ && _) eqn:E; [apply andb_prop in E as [?%Z.leb_le ?%Z.ltb_lt]; lia|].
    clear E. change (fill (memory k) v 1 4096 x = memory k x). unfold fill. destruct (_ && _) eqn:E2; [|done].
    apply andb_prop in E2 as [?%Z.leb_le ?%Z.ltb_lt]. lia.
Qed.

Lemma kalloc_spec k l :
  kmem_ok k l →
  wpt kalloc (fun r k' => memory k' = memory k ∧ use_lock k' = use_lock k ∧
    r = hd 0 l ∧ kmem_ok k' (tl l)) k.
Proof.
  intros [Hch Hnd Hc Hl]. unfold kalloc. do 3 wp_step. apply wp_km_enter; [done..|].
  intros k1 Hent. pose proof Hent as (Hm1 & Hf1 & Hu1 & Hp1). do 3 wp_step. rewrite Hf1.
  assert (Hpop : ∀ k2, memory k2 = memory k → freelist k2 = (if freelist k =? 0 then 0 else word_at (memory k) (freelist k)) →
    freelist k = hd 0 l ∧ chain (memory k2) (freelist k2) (tl l)).
  { intros k2 -> ->. destruct l as [|p l]; cbn in Hch |- *; [by rewrite Hch|].
    destruct Hch as (-> & Hp%page_bounds & Hch). by rewrite (proj2 (Z.eqb_neq p 0)) by lia. }
  assert (Hnd' : NoDup (tl l)) by (destruct l; [done | by apply NoDup_cons in Hnd as []]).
  apply wp_when; intros Hz; [apply wp_modify|]; do 3 wp_step;
    (eapply (wp_km_leave k k1); [done | done | done | done | done|]);
    intros k3 Hm3 Hf3 Hu3 Hc3 Hl3; cbn in Hm3, Hf3; wp_step;
    (destruct (Hpop k3) as [Hr Hch3]; [congruence | |]).
  1, 3: rewrite Hf3, ?Hf1, ?Hm1; destruct (Z.eqb_spec (freelist k) 0); done || congruence.
  all: split; [congruence|]; split; [done|]; split; [done|]; by split.
Qed.

Lemma wp_kalloc k l (Q : Z → kmem → Prop) E :
  kmem_ok k l → (∀ k', memory k' = memory k → kmem_ok k' (tl l) → Q (hd 0 l) k') → wp kalloc Q E k.
Proof.
  intros Hk HQ. apply (wp_mono _ _ _ _ _ _ (kalloc_spec k l Hk)); [|done]. intros r k' (H1 & _ & -> & H2). by apply HQ.
Qed.

(** ** Clients

    The kernel allocates pages, writes anywhere in the pages it owns, and
    frees pages it owns, in any order. *)
Inductive client_step : kmem * list Z → kmem * list Z → Prop :=
  | cs_alloc k k' r owned :
      kalloc k = Ok r k' → r ≠ 0 → client_step (k, owned) (k', r :: owned)
  | cs_full k k' owned :
      kalloc k = Ok 0 k' → client_step (k, owned) (k', owned)
  | cs_free k k' v owned owned' :
      owned ≡ₚ v :: owned' → kfree kend v k = Ok tt k' → client_step (k, owned) (k', owned')
  | cs_write k p a b owned :
      p ∈ owned → in_page p a →
      client_step (k, owned) (k <| memory := fun x => if x =? a then b else memory k x |>, owned).

(** Every page of the pool is either free or owned by the clients. *)
Definition pool_inv (pool : list Z) (s : kmem * list Z) : Prop :=
  ∃ l, kmem_ok s.1 l ∧ l ++ s.2 ≡ₚ pool.

Lemma pool_step pool s s' :
  NoDup pool → Forall page_ok pool → pool_inv pool s → client_step s s' → pool_inv pool s'.
Proof.
  intros Hnd Hpg (l & Hok & Hp) Hs.
  assert (Hall : ∀ p, p ∈ s.2 → page_ok p ∧ p ∉ l).
  { intros p Ho. rewrite <-Hp in Hnd, Hpg. apply Forall_app in Hpg as [_ Hpg].
    apply NoDup_app in Hnd as (_ & Hd & _). split; [by eapply Forall_forall|]. intros Hl. by apply (Hd p). }
  destruct Hs as [k k' r owned Hr Hnz|k k' owned Hr|k k' v owned owned' Hv Hr|k p a b owned Ho Ha];
    cbn [fst snd] in *.
  - pose proof (wp_ok _ _ _ _ _ _ Hr (kalloc_spec k l Hok)) as (_ & _ & -> & Hok').
    destruct l as [|q l]; [done|]. exists l. split; [done|]. cbn in *. by rewrite <-Permutation_middle.
  - pose proof (wp_ok _ _ _ _ _ _ Hr (kalloc_spec k l Hok)) as (_ & _ & Hz & Hok').
    destruct l as [|q l]; [by exists []|]. cbn in Hz. destruct Hok as [(_ & Hq%page_bounds & _) _ _ _]. lia.
  - destruct (Hall v) as [Hpv Hnl]; [rewrite Hv; apply list_elem_of_here|].
    pose proof (wp_ok _ _ _ _ _ _ Hr (kfree_spec k l v Hok Hpv Hnl)) as (Hok' & _).
    exists (v :: l). split; [done|]. cbn. by rewrite <-Hp, Hv, <-Permutation_middle.
  - exists l. split; [|done]. destruct (Hall p Ho) as [Hpp Hnl]. destruct Hok as [Hch Hd Hc Hl].
    split; [|done..]. apply (chain_frame (memory k)); [|done]. intros q x Hq Hx. cbn.
    destruct (Z.eqb_spec x a) as [->|]; [|done]. destruct Hnl.
    rewrite (pages_apart p q a Hpp (chain_pages _ _ _ _ Hch Hq) Ha); [done|]. unfold in_page, PGSIZE. lia.
Qed.

(** ** The pool: [freerange] *)
Definition pages_from (p n : Z) : list Z := (fun i => p + PGSIZE * i) <$> seqZ 0 n.

Lemma pages_from_S p n : 0 < n → pages_from p n = p :: pages_from (p + PGSIZE) (n - 1).
Proof.
  intros Hn. unfold pages_from. rewrite seqZ_cons by done. cbn [fmap list_fmap]. f_equal; [lia|].
  replace (Z.pred n) with (n - 1) by lia. rewrite <-(fmap_add_seqZ 1 0), <-list_fmap_compose.
  apply list_fmap_ext. intros _ i _. cbn. unfold PGSIZE. lia.
Qed.

Lemma elem_of_pages p n x : x ∈ pages_from p n ↔ ∃ i, x = p + PGSIZE * i ∧ 0 ≤ i < n.
Proof. unfold pages_from. rewrite list_elem_of_fmap. by setoid_rewrite elem_of_seqZ. Qed.

Lemma freerange_loop_spec fuel p vend k l :
  kmem_ok k l → p mod PGSIZE = 0 → kend ≤ p → KERNBASE ≤ p → vend ≤ KERNBASE + PHYSTOP →
  (∀ q, q ∈ l → q < p ∨ vend ≤ q) → fuel = Z.to_nat ((vend - p) / PGSIZE) →
  wpt (freerange_loop kend fuel p vend)
    (fun _ k' => kmem_ok k' (rev (pages_from p ((vend - p) / PGSIZE)) ++ l) ∧ use_lock k' = use_lock k) k.
Proof.
  revert p k l. induction fuel as [|fuel IH]; intros p k l Hok Hal Hke Hkb Hv Hl Hf; cbn [freerange_loop].
  - destruct (Z.leb_spec (p + PGSIZE) vend); [unfold PGSIZE in *; dlia|]. wp_step.
    unfold pages_from. rewrite seqZ_nil by lia. done.
  - destruct (Z.leb_spec (p + PGSIZE) vend); [|unfold PGSIZE in *; dlia].
    assert (Hp : page_ok p) by (split; [done | done | unfold PGSIZE in *; lia]).
    wp_step. eapply wp_weaken; [apply kfree_spec; [done | done|]|].
    { intros Hin. destruct (Hl p Hin); unfold PGSIZE in *; lia. }
    cbn. intros _ k1 (Hok1 & Hu1 & _).
    assert (Hd : (vend - p) / PGSIZE = (vend - (p + PGSIZE)) / PGSIZE + 1) by (unfold PGSIZE; dlia).
    eapply wp_weaken; [apply (IH (p + PGSIZE) k1 (p :: l))|]; try done; try (unfold PGSIZE in *; dlia).
    + intros q [->|Hq]%elem_of_cons; [unfold PGSIZE; lia|]. destruct (Hl q Hq); unfold PGSIZE; lia.
    + cbn. intros _ k2 [Hok2 Hu2]. split; [|congruence].
      assert (0 ≤ (vend - (p + PGSIZE)) / PGSIZE) by (unfold PGSIZE in *; dlia).
      rewrite (pages_from_S p) by lia. cbn [rev]. rewrite <-app_assoc.
      by replace ((vend - p) / PGSIZE - 1) with ((vend - (p + PGSIZE)) / PGSIZE) by lia.
Qed.

Lemma PGROUNDUP_eq v : 0 ≤ v → v + PGSIZE ≤ 2 ^ 32 → PGROUNDUP v = PGSIZE * ((v + PGSIZE - 1) / PGSIZE).
Proof.
  intros Hv Hb. unfold PGROUNDUP. unfold PGSIZE in *. rewrite u32_id by lia.
  set (x := v + 4096 - 1). assert (Hx : 0 ≤ x < 2 ^ 32) by lia.
  assert (Z.land x (u32 (Z.lnot (4096 - 1))) = Z.ldiff x (Z.ones 12)) as ->.
  { apply Z.bits_inj'. intros i Hi. rewrite Z.land_spec, Z.ldiff_spec.
    change (u32 (Z.lnot (4096 - 1))) with (Z.shiftl (Z.ones 20) 12).
    rewrite Z.shiftl_spec by done. rewrite (Z.testbit_ones 12) by lia.
    destruct (Z.lt_ge_cases i 12).
    - rewrite (Z.testbit_neg_r _ (i - 12)) by lia. destruct (Z.leb_spec 0 i), (Z.ltb_spec i 12); lia || by rewrite !andb_false_r.
    - rewrite Z.testbit_ones by lia.
      destruct (Z.leb_spec 0 (i - 12)), (Z.ltb_spec i 12); try lia. rewrite andb_false_r. cbn.
      destruct (Z.ltb_spec (i - 12) 20); [done|].
      by rewrite <-(Z.mod_small x (2 ^ 32)), Z.mod_pow2_bits_high by lia. }
  rewrite Z.ldiff_ones_r, Z.shiftl_mul_pow2, Z.shiftr_div_pow2 by lia. change (2 ^ 12) with 4096. lia.
Qed.

(** [freerange] puts the whole pages between its arguments on the list. *)
Lemma freerange_spec vstart vend k l :
  kmem_ok k l → kend ≤ vstart → KERNBASE ≤ vstart → vstart ≤ vend ≤ KERNBASE + PHYSTOP →
  (∀ q, q ∈ l → q < vstart ∨ vend ≤ q) →
  wpt (freerange kend vstart vend) (fun _ k' => ∃ l', kmem_ok k' l' ∧ use_lock k' = use_lock k ∧
    ∀ x, x ∈ l' ↔ x ∈ l ∨ (x mod PGSIZE = 0 ∧ vstart ≤ x ∧ x + PGSIZE ≤ vend)) k.
Proof.
  intros Hok Hke Hkb Hv Hl. unfold freerange. cbv zeta.
  assert (Hp : PGROUNDUP vstart = PGSIZE * ((vstart + PGSIZE - 1) / PGSIZE))
    by (apply PGROUNDUP_eq; unfold KERNBASE, PHYSTOP, PGSIZE in *; lia).
  set (p := PGROUNDUP vstart) in *.
  assert (Hpv : vstart ≤ p < vstart + PGSIZE ∧ p mod PGSIZE = 0) by (unfold PGSIZE in *; dlia).
  eapply wp_weaken; [apply (freerange_loop_spec _ p vend k l); try done; try lia|].
  { intros q Hq. destruct (Hl q Hq); [left; lia | by right]. }
  cbn. intros _ k' [Hok' Hu]. eexists. split; [exact Hok'|]. split; [done|]. intros x.
  assert (x ∈ rev (pages_from p ((vend - p) / PGSIZE)) ↔ x ∈ pages_from p ((vend - p) / PGSIZE)) as Hrev
    by by rewrite !list_elem_of_In, <-in_rev.
  rewrite elem_of_app, Hrev, elem_of_pages.
  assert (He : (∃ i, x = p + PGSIZE * i ∧ 0 ≤ i < (vend - p) / PGSIZE) ↔
    x mod PGSIZE = 0 ∧ vstart ≤ x ∧ x + PGSIZE ≤ vend); [|rewrite He; tauto].
  destruct Hpv as [Hpv Hpm]. unfold PGSIZE in *. split.
  - intros (i & -> & Hi). split; [|dlia]. rewrite Z.add_mod, Hpm by lia. rewrite Z.mul_comm, Z.mod_mul by lia. done.
  - intros (Hxm & Hx1 & Hx2). exists ((x - p) / 4096). dlia.
Qed.
End proofs.

(** C26: The page allocator is safe for every behaviour of its clients.  However
    they allocate, free what they own and scribble over the pages they own,
    the free pages and the owned pages together are always exactly the pool;
    [kalloc] always returns, gives 0 only when the clients own the whole pool,
    and otherwise a page of the pool that nobody owns; and [kfree] of an owned
    page always succeeds. *)
Theorem kalloc_safe (kend : Z) (k0 k : kmem) (pool owned : list Z) :
  kmem_ok kend k0 pool → rtc (client_step kend) (k0, []) (k, owned) →
  NoDup owned ∧ (∀ p, p ∈ owned → p ∈ pool) ∧
  (∃ r k', kalloc k = Ok r k' ∧ (r = 0 ↔ owned ≡ₚ pool) ∧ (r ≠ 0 → r ∈ pool ∧ r ∉ owned)) ∧
  (∀ v, v ∈ owned → ∃ k', kfree kend v k = Ok tt k').
Proof.
  intros Hok0 Hr.
  assert (Hpg : Forall (page_ok kend) pool)
    by (apply Forall_forall; intros p Hp; eapply chain_pages; [apply Hok0 | done]).
  assert (Hnd : NoDup pool) by apply Hok0.
  assert (pool_inv kend pool (k, owned)) as (l & Hok & Hp).
  { eapply (rtc_invariant (client_step kend) (pool_inv kend pool)); [|exact Hr|].
    - intros s s' Hs Hst. by eapply pool_step.
    - exists pool. by rewrite app_nil_r. }
  cbn [fst snd] in *. rewrite <-Hp in Hnd. apply NoDup_app in Hnd as (Hnl & Hd & Hno).
  split; [done|]. split; [intros p Ho; rewrite <-Hp; apply elem_of_app; by right|]. split.
  - destruct (proj1 (wpt_ok _ _ _) (kalloc_spec kend k l Hok)) as (r & k' & Hk & _ & _ & -> & _).
    exists (hd 0 l), k'. split; [done|]. destruct Hok as [Hch _ _ _]. destruct l as [|q l]; cbn [hd].
    + split; [|done]. split; [intros _; done | done].
    + destruct Hch as (_ & Hq%page_bounds & _). split.
      * split; [lia|]. intros Heq. rewrite <-Hp in Heq. apply Permutation_length in Heq.
        cbn in Heq. rewrite length_app in Heq. lia.
      * intros _. split; [rewrite <-Hp; apply list_elem_of_here | apply Hd, list_elem_of_here].
  - intros v Hv. assert (Hvp : page_ok kend v).
    { apply (proj1 (Forall_forall _ _) Hpg). rewrite <-Hp. apply elem_of_app. by right. }
    destruct (proj1 (wpt_ok _ _ _) (kfree_spec kend k l v Hok Hvp ltac:(intros Hl; by apply (Hd v))))
      as ([] & k' & Hk & _). by exists k'.
Qed.

(** Booting fills the allocator with every page: after [kinit1] and
    [kinit2] the free list is well formed, holds exactly the whole pages of
    the two ranges, each once, and the lock is in use. *)
Theorem kinit_pool (kend vstart mid vend : Z) (k : kmem) :
  calm (km_cpu k) → freelist k = 0 →
  kend ≤ vstart → KERNBASE ≤ vstart → vstart ≤ mid → mid ≤ vend → vend ≤ KERNBASE + PHYSTOP →
  ∃ k' l, (kinit1 kend vstart mid;; kinit2 kend mid vend) k = Ok tt k' ∧
    kmem_ok kend k' l ∧ use_lock k' = true ∧
    ∀ x, x ∈ l ↔ x mod PGSIZE = 0 ∧
      ((vstart ≤ x ∧ x + PGSIZE ≤ mid) ∨ (mid ≤ x ∧ x + PGSIZE ≤ vend)).
Proof.
  intros Hc Hf Hke Hkb H1 H2 H3.
  assert (wpt (kinit1 kend vstart mid;; kinit2 kend mid vend) (fun _ k' => ∃ l, kmem_ok kend k' l ∧
    use_lock k' = true ∧ ∀ x, x ∈ l ↔ x mod PGSIZE = 0 ∧
      ((vstart ≤ x ∧ x + PGSIZE ≤ mid) ∨ (mid ≤ x ∧ x + PGSIZE ≤ vend))) k)
    as ([] & k' & Hr & l & Hl)%wpt_ok; [|by exists k', l].
  unfold kinit1, kinit2. do 5 wp_step. eapply wp_weaken.
  { apply (freerange_spec kend vstart mid _ []); try lia; [|by intros q ?%elem_of_nil].
    split; [done | constructor | done | done]. }
  cbn. intros _ k1 (l1 & Hok1 & Hu1 & Hl1). wp_step. eapply wp_weaken.
  { apply (freerange_spec kend mid vend k1 l1); try done; try lia.
    intros q [Hq%elem_of_nil|Hq]%Hl1; [done|]. unfold PGSIZE in *. lia. }
  intros _ k2 (l2 & Hok2 & _ & Hl2). wp_step. exists l2. split; [by destruct Hok2; split|].
  split; [done|]. intros x. rewrite Hl2, Hl1, elem_of_nil. tauto.
Qed.

(** *** Two pages after a kernel that ends at 0x80100000 *)
Definition sample_end : Z := KERNBASE + 2 ^ 20.
Definition sample_kmem : kmem :=
  mkkmem (mkcpu 0 0 false true) (initlock "kmem") true sample_end
    (set_word (fun _ => 0) sample_end (sample_end + PGSIZE)).

Lemma sample_kmem_ok : kmem_ok sample_end sample_kmem [sample_end; sample_end + PGSIZE].
Proof.
  assert (Hp : ∀ i, 0 ≤ i < 2 → page_ok sample_end (sample_end + PGSIZE * i)).
  { intros i Hi. split; unfold sample_end, KERNBASE, PHYSTOP, PGSIZE; [|lia..].
    rewrite Z.add_mod, (Z.mul_comm 4096), Z.mod_mul by lia. done. }
  split; [|by apply (bool_decide_unpack _); vm_compute | unfold calm, cli_ok, INT_MAX; cbn; lia | done].
  cbn [chain sample_kmem freelist memory]. split; [done|]. split; [apply (Hp 0); lia|].
  split; [vm_compute; reflexivity|]. split; [apply (Hp 1); lia | vm_compute; reflexivity].
Qed.

Lemma kalloc_safe_witness :
  ∃ k owned, rtc (client_step sample_end) (sample_kmem, []) (k, owned) ∧ owned = [sample_end] ∧
    ∃ r k', kalloc k = Ok r k' ∧ (r = 0 ↔ owned ≡ₚ [sample_end; sample_end + PGSIZE]) ∧
      (r ≠ 0 → r ∈ [sample_end; sample_end + PGSIZE] ∧ r ∉ owned).
Proof.
  destruct (proj1 (wpt_ok _ _ _) (kalloc_spec _ _ _ sample_kmem_ok)) as (r & k & Hr & _ & _ & -> & _).
  assert (Hs : rtc (client_step sample_end) (sample_kmem, []) (k, [sample_end])).
  { apply rtc_once. apply (cs_alloc _ _ _ sample_end); [exact Hr|]. unfold sample_end, KERNBASE. lia. }
  exists k, [sample_end]. split; [exact Hs|]. split; [reflexivity|].
  apply (kalloc_safe sample_end sample_kmem k [sample_end; sample_end + PGSIZE] [sample_end] sample_kmem_ok Hs).
Defined.

Lemma kinit_pool_witness :
  let k := mkkmem (mkcpu 0 0 false true) (initlock "") false 0 (fun _ => 0) in
  let v := KERNBASE + 2 ^ 20 + 100 in
  ∃ k' l, (kinit1 v v (v + 9000);; kinit2 v (v + 9000) (v + 9000)) k = Ok tt k' ∧
    kmem_ok v k' l ∧ use_lock k' = true ∧
    ∀ x, x ∈ l ↔ x mod PGSIZE = 0 ∧
      ((v ≤ x ∧ x + PGSIZE ≤ v + 9000) ∨ (v + 9000 ≤ x ∧ x + PGSIZE ≤ v + 9000)).
Proof.
  intros k v. apply (kinit_pool v v (v + 9000) (v + 9000) k);
    unfold v, KERNBASE, PHYSTOP, calm, cli_ok, INT_MAX; cbn; intuition lia.
Defined.
