(* ===== verification/Vm.v ===== *)
(** * Page tables (vm.c)

    A page directory and its page tables are pages of the memory that
    [Kalloc] hands out: an entry is a word of memory, and [kalloc] and [kfree]
    are those of kalloc.c.  Addresses are 32-bit numbers; [P2V] and [V2P] move
    between physical and kernel addresses. *)
From stdpp Require Import gmap.
From S2P Require Import Prelude Spinlock Bytes Kalloc.

(** ** mmu.h and memlayout.h *)
Definition EXTMEM : Z := 2 ^ 20.
Definition DEVSPACE : Z := 254 * 2 ^ 24.
Definition KERNLINK : Z := KERNBASE + EXTMEM.
Definition P2V (a : Z) : Z := u32 (a + KERNBASE).

Definition NPDENTRIES : Z := 1024.
Definition PTXSHIFT : Z := 12.
Definition PDXSHIFT : Z := 22.
Definition PDX (va : Z) : Z := Z.land (Z.shiftr va PDXSHIFT) 1023.
Definition PTX (va : Z) : Z := Z.land (Z.shiftr va PTXSHIFT) 1023.
Definition PGADDR (d t o : Z) : Z := u32 (Z.lor (Z.lor (Z.shiftl d PDXSHIFT) (Z.shiftl t PTXSHIFT)) o).
Definition PGROUNDDOWN (a : Z) : Z := Z.land a (u32 (Z.lnot (PGSIZE - 1))).

Definition PTE_P : Z := 1.
Definition PTE_W : Z := 2.
Definition PTE_U : Z := 4.
Definition PTE_ADDR (pte : Z) : Z := Z.land pte (u32 (Z.lnot 4095)).
Definition PTE_FLAGS (pte : Z) : Z := Z.land pte 4095.
Definition present (pte : Z) : bool := negb (Z.land pte PTE_P =? 0).

(** ** Access to memory *)
Definition load32 (a : Z) : M kmem Z := gets (fun k => word_at (memory k) a).
(** [*p] of a pointer that the code has not tested. *)
Definition deref_word (p : Z) : M kmem Z := if p =? 0 then fault else load32 p.
Definition store_word (a v : Z) : M kmem unit := modify (fun k => k <| memory := set_word (memory k) a v |>).
Definition fill_page (a c : Z) : M kmem unit := modify (fun k => k <| memory := fill (memory k) a c PGSIZE |>).

(** [memmove] of [n] bytes. *)
Definition moved (m : bytemem) (dst src n : Z) : bytemem :=
  fun x => if (dst <=? x) && (x <? dst + n) then m (src + (x - dst)) else m x.
Definition move (dst src n : Z) : M kmem unit := modify (fun k => k <| memory := moved (memory k) dst src n |>).

(** [memmove] of bytes that are not in this memory. *)
Definition poked (m : bytemem) (dst : Z) (l : list Z) : bytemem :=
  fun x => if (dst <=? x) && (x <? dst + Z.of_nat (length l)) then default 0 (l !! Z.to_nat (x - dst)) else m x.
Definition poke (dst : Z) (l : list Z) : M kmem unit := modify (fun k => k <| memory := poked (memory k) dst l |>).

Section code.
(** [end] and [data], set by the linker. *)
Context (kend kdata : Z).

(** The address of the entry, or 0. *)
Definition walkpgdir (pgdir va : Z) (alloc : bool) : M kmem Z :=
  let pde := pgdir + 4 * PDX va in
  e ← load32 pde;
  if present e then mret (P2V (PTE_ADDR e) + 4 * PTX va)
  else if negb alloc then mret 0
  else
    pgtab ← kalloc;
    if pgtab =? 0 then mret 0
    else
      fill_page pgtab 0;;
      store_word pde (Z.lor (Z.lor (Z.lor (V2P pgtab) PTE_P) PTE_W) PTE_U);;
      mret (pgtab + 4 * PTX va).

Fixpoint mappages_loop (fuel : nat) (pgdir a last pa perm : Z) : M kmem Z :=
  match fuel with
  | O => stop_with NoFuel
  | S fuel =>
      pte ← walkpgdir pgdir a true;
      if pte =? 0 then mret (-1) else
      e ← load32 pte;
      if present e then panic "remap" else
      store_word pte (Z.lor (Z.lor pa perm) PTE_P);;
      if a =? last then mret 0
      else mappages_loop fuel pgdir (u32 (a + PGSIZE)) last (u32 (pa + PGSIZE)) perm
  end.

(** One turn for each page from the first to the last. *)
Definition mappages (pgdir va size pa perm : Z) : M kmem Z :=
  let a := PGROUNDDOWN va in
  let last := PGROUNDDOWN (u32 (va + size - 1)) in
  mappages_loop (S (Z.to_nat (u32 (last - a) / PGSIZE))) pgdir a last pa perm.

(** The table of the kernel's mappings: address, first and end physical
    address, permissions. *)
Definition kmap : list (Z * Z * Z * Z) :=
  [ (KERNBASE, 0, EXTMEM, PTE_W);
    (KERNLINK, V2P KERNLINK, V2P kdata, 0);
    (kdata, V2P kdata, PHYSTOP, PTE_W);
    (DEVSPACE, DEVSPACE, 0, PTE_W) ].

Definition setupkvm : M kmem Z :=
  pgdir ← kalloc;
  if pgdir =? 0 then mret 0 else
  fill_page pgdir 0;;
  if P2V PHYSTOP >? DEVSPACE then panic "PHYSTOP too high" else
  r ← for_list kmap (fun '(virt, phys_start, phys_end, perm) =>
    v ← mappages pgdir virt (u32 (phys_end - phys_start)) phys_start perm;
    mret (if v <? 0 then Some 0 else None));
  mret (default pgdir r).

Definition inituvm (pgdir : Z) (init : list Z) : M kmem unit :=
  if Z.of_nat (length init) >=? PGSIZE then panic "inituvm: more than a page" else
  mem ← kalloc;
  if mem =? 0 then fault else
  fill_page mem 0;;
  mappages pgdir 0 PGSIZE (V2P mem) (Z.lor PTE_W PTE_U);;
  poke mem init.

Fixpoint deallocuvm_loop (fuel : nat) (pgdir a oldsz : Z) : M kmem unit :=
  if a <? oldsz then
    match fuel with
    | O => stop_with NoFuel
    | S fuel =>
        pte ← walkpgdir pgdir a false;
        if pte =? 0 then
          deallocuvm_loop fuel pgdir (u32 (u32 (PGADDR (PDX a + 1) 0 0 - PGSIZE) + PGSIZE)) oldsz
        else
          e ← load32 pte;
          when (present e)
            (let pa := PTE_ADDR e in
             if pa =? 0 then panic "kfree"
             else kfree kend (P2V pa);; store_word pte 0);;
          deallocuvm_loop fuel pgdir (u32 (a + PGSIZE)) oldsz
    end
  else mret tt.

(** Every turn moves on by a page at least. *)
Definition deallocuvm (pgdir oldsz newsz : Z) : M kmem Z :=
  if newsz >=? oldsz then mret oldsz else
  let a := PGROUNDUP newsz in
  deallocuvm_loop (Z.to_nat ((oldsz - a) / PGSIZE + 1)) pgdir a oldsz;;
  mret newsz.

(** [None]: the loop came to its end. *)
Fixpoint allocuvm_loop (fuel : nat) (pgdir a oldsz newsz : Z) : M kmem (option Z) :=
  if a <? newsz then
    match fuel with
    | O => stop_with NoFuel
    | S fuel =>
        mem ← kalloc;
        if mem =? 0 then deallocuvm pgdir newsz oldsz;; mret (Some 0) else
        fill_page mem 0;;
        r ← mappages pgdir a PGSIZE (V2P mem) (Z.lor PTE_W PTE_U);
        if r <? 0 then deallocuvm pgdir newsz oldsz;; kfree kend mem;; mret (Some 0)
        else allocuvm_loop fuel pgdir (u32 (a + PGSIZE)) oldsz newsz
    end
  else mret None.

Definition allocuvm (pgdir oldsz newsz : Z) : M kmem Z :=
  if newsz >=? KERNBASE then mret 0 else
  if newsz <? oldsz then mret oldsz else
  let a := PGROUNDUP oldsz in
  r ← allocuvm_loop (Z.to_nat ((newsz - a) / PGSIZE + 1)) pgdir a oldsz newsz;
  mret (default newsz r).

Definition freevm (pgdir : Z) : M kmem unit :=
  if pgdir =? 0 then panic "freevm: no pgdir" else
  deallocuvm pgdir KERNBASE 0;;
  for_each (seqZ 0 NPDENTRIES) (fun i =>
    e ← load32 (pgdir + 4 * i);
    when (present e) (kfree kend (P2V (PTE_ADDR e))));;
  kfree kend pgdir.

Definition clearpteu (pgdir uva : Z) : M kmem unit :=
  pte ← walkpgdir pgdir uva false;
  if pte =? 0 then panic "clearpteu" else
  e ← load32 pte;
  store_word pte (Z.land e (u32 (Z.lnot PTE_U))).

(** [false]: goto bad. *)
Fixpoint copyuvm_loop (fuel : nat) (pgdir d i sz : Z) : M kmem bool :=
  if i <? sz then
    match fuel with
    | O => stop_with NoFuel
    | S fuel =>
        pte ← walkpgdir pgdir i false;
        if pte =? 0 then panic "copyuvm: pte should exist" else
        e ← load32 pte;
        if negb (present e) then panic "copyuvm: page not present" else
        let pa := PTE_ADDR e in
        let flags := PTE_FLAGS e in
        mem ← kalloc;
        if mem =? 0 then mret false else
        move mem (P2V pa) PGSIZE;;
        r ← mappages d i PGSIZE (V2P mem) flags;
        if r <? 0 then mret false
        else copyuvm_loop fuel pgdir d (u32 (i + PGSIZE)) sz
    end
  else mret true.

Definition copyuvm (pgdir sz : Z) : M kmem Z :=
  d ← setupkvm;
  if d =? 0 then mret 0 else
  ok ← copyuvm_loop (Z.to_nat (sz / PGSIZE + 1)) pgdir d 0 sz;
  if (ok : bool) then mret d else freevm d;; mret 0.

Definition uva2ka (pgdir uva : Z) : M kmem Z :=
  pte ← walkpgdir pgdir uva false;
  e ← deref_word pte;
  if Z.land e PTE_P =? 0 then mret 0 else
  if Z.land e PTE_U =? 0 then mret 0 else
  mret (P2V (PTE_ADDR e)).

Fixpoint copyout_loop (fuel : nat) (pgdir va : Z) (buf : list Z) (len : Z) : M kmem Z :=
  if len >? 0 then
    match fuel with
    | O => stop_with NoFuel
    | S fuel =>
        let va0 := PGROUNDDOWN va in
        pa0 ← uva2ka pgdir va0;
        if pa0 =? 0 then mret (-1) else
        let n := u32 (PGSIZE - (va - va0)) in
        let n := if n >? len then len else n in
        poke (pa0 + (va - va0)) (take (Z.to_nat n) buf);;
        copyout_loop fuel pgdir (u32 (va0 + PGSIZE)) (drop (Z.to_nat n) buf) (len - n)
    end
  else mret 0.

(** At most one turn more than whole pages. *)
Definition copyout (pgdir va : Z) (p : list Z) (len : Z) : M kmem Z :=
  copyout_loop (Z.to_nat (len / PGSIZE + 2)) pgdir va p len.

(** [readi ip dst off n], with the state of the file system beside. *)
Section loaduvm.
Context {W : Type} (readi : Z → Z → Z → M (kmem * W) Z).
Definition on_mem {A} (m : M kmem A) : M (kmem * W) A := zoom fst (fun k s => (k, s.2)) m.

Fixpoint loaduvm_loop (fuel : nat) (pgdir addr offset i sz : Z) : M (kmem * W) Z :=
  if i <? sz then
    match fuel with
    | O => stop_with NoFuel
    | S fuel =>
        pte ← on_mem (walkpgdir pgdir (u32 (addr + i)) false);
        if pte =? 0 then panic "loaduvm: address should exist" else
        e ← on_mem (load32 pte);
        let pa := PTE_ADDR e in
        let n := if sz - i <? PGSIZE then sz - i else PGSIZE in
        r ← readi (P2V pa) (u32 (offset + i)) n;
        if negb (r =? n) then mret (-1)
        else loaduvm_loop fuel pgdir addr offset (u32 (i + PGSIZE)) sz
    end
  else mret 0.

Definition loaduvm (pgdir addr offset sz : Z) : M (kmem * W) Z :=
  if negb (addr mod PGSIZE =? 0) then panic "loaduvm: addr must be page aligned" else
  loaduvm_loop (Z.to_nat (sz / PGSIZE + 1)) pgdir addr offset 0 sz.
End loaduvm.
End code.
