(* ===== verification/VmTable.v ===== *)
(** * Page tables as maps (vm.c: walkpgdir, mappages)

    A directory and its tables stand for two maps: from the index of a table
    to its page, and from a virtual page number to its entry.  The predicate
    [tvm] says so of a memory in which the free pages, the directory, the
    tables and all other pages in use are distinct. *)
From stdpp Require Import gmap.
From S2P Require Import Prelude Spinlock Bytes Kalloc Vm.

(** ** Numbers *)
Lemma land_page x : 0 ≤ x < 2 ^ 32 → Z.land x (u32 (Z.lnot 4095)) = 4096 * (x / 4096).
Proof.
  intros Hx. assert (Z.land x (u32 (Z.lnot 4095)) = Z.ldiff x (Z.ones 12)) as ->.
  { apply Z.bits_inj'. intros i Hi. rewrite Z.land_spec, Z.ldiff_spec.
    change (u32 (Z.lnot 4095)) with (Z.shiftl (Z.ones 20) 12).
    rewrite Z.shiftl_spec by done. rewrite (Z.testbit_ones 12) by lia.
    destruct (Z.lt_ge_cases i 12).
    - rewrite (Z.testbit_neg_r _ (i - 12)) by lia. destruct (Z.leb_spec 0 i), (Z.ltb_spec i 12); lia || by rewrite !andb_false_r.
    - rewrite Z.testbit_ones by lia.
      destruct (Z.leb_spec 0 (i - 12)), (Z.ltb_spec i 12); try lia. rewrite andb_false_r. cbn.
      destruct (Z.ltb_spec (i - 12) 20); [done|].
      by rewrite <-(Z.mod_small x (2 ^ 32)), Z.mod_pow2_bits_high by lia. }
  rewrite Z.ldiff_ones_r, Z.shiftl_mul_pow2, Z.shiftr_div_pow2 by lia. change (2 ^ 12) with 4096. lia.
Qed.

Lemma PTE_ADDR_eq x : 0 ≤ x < 2 ^ 32 → PTE_ADDR x = 4096 * (x / 4096).
Proof. apply land_page. Qed.

Lemma PGROUNDDOWN_eq x : 0 ≤ x < 2 ^ 32 → PGROUNDDOWN x = 4096 * (x / 4096).
Proof. apply land_page. Qed.

Lemma PTE_FLAGS_eq x : PTE_FLAGS x = x mod 4096.
Proof. unfold PTE_FLAGS. change 4095 with (Z.ones 12). by rewrite Z.land_ones. Qed.

Lemma PDX_eq va : 0 ≤ va < 2 ^ 32 → PDX va = va / 4096 / 1024.
Proof.
  intros H. unfold PDX, PDXSHIFT. change 1023 with (Z.ones 10). rewrite Z.land_ones, Z.shiftr_div_pow2 by lia.
  change (2 ^ 22) with 4194304. change (2 ^ 10) with 1024. dlia.
Qed.

Lemma PTX_eq va : PTX va = (va / 4096) mod 1024.
Proof.
  unfold PTX, PTXSHIFT. change 1023 with (Z.ones 10). by rewrite Z.land_ones, Z.shiftr_div_pow2 by lia.
Qed.

Lemma lor_low a f : a mod 4096 = 0 → 0 ≤ f < 4096 → Z.lor a f = a + f.
Proof.
  intros Ha Hf. assert (H0 : Z.land a f = 0).
  { apply Z.bits_inj'. intros i Hi. rewrite Z.land_spec, Z.bits_0. destruct (Z.lt_ge_cases i 12) as [H|H].
    - assert (Hz : Z.testbit (a mod 2 ^ 12) i = false) by (change (2 ^ 12) with 4096; by rewrite Ha, Z.bits_0).
      rewrite Z.mod_pow2_bits_low in Hz by lia. by rewrite Hz.
    - rewrite <-(Z.mod_small f (2 ^ 12)), Z.mod_pow2_bits_high by lia. apply andb_false_r. }
  by rewrite <-Z.lxor_lor, <-Z.add_nocarry_lxor.
Qed.

Lemma present_eq e : present e = Z.odd e.
Proof.
  unfold present, PTE_P. change 1 with (Z.ones 1). rewrite Z.land_ones by lia. change (2 ^ 1) with 2.
  rewrite Zmod_odd. by destruct (Z.odd e).
Qed.

(** The entry that maps a page: its physical address and the flags. *)
Definition entry_of (pa perm : Z) : Z := pa + Z.lor perm 1.

Lemma flags_lor perm : 0 ≤ perm < 4096 → 0 < Z.lor perm 1 < 4096 ∧ Z.odd (Z.lor perm 1) = true.
Proof.
  intros Hp. assert (Hodd : Z.odd (Z.lor perm 1) = true).
  { rewrite <-Z.bit0_odd, Z.lor_spec. apply orb_true_r. }
  split; [|done]. assert (H1 : 0 ≤ Z.lor perm 1) by (apply Z.lor_nonneg; lia).
  assert (H2 : Z.lor perm 1 ≠ 0) by (intros E; by rewrite E in Hodd).
  assert (H3 : Z.lor perm 1 < 2 ^ 12); [|lia]. destruct (decide (perm = 0)) as [->|Hne]; [done|].
  apply Z.log2_lt_cancel. rewrite Z.log2_lor by lia. change (Z.log2 1) with 0. change (Z.log2 (2 ^ 12)) with 12.
  assert (Z.log2 perm < 12); [apply Z.log2_lt_pow2; [lia | change (2 ^ 12) with 4096; lia]|].
  pose proof (Z.log2_nonneg perm). lia.
Qed.

Lemma entry_lor pa perm : pa mod 4096 = 0 → 0 ≤ perm < 4096 → Z.lor (Z.lor pa perm) PTE_P = entry_of pa perm.
Proof.
  intros Ha Hp. rewrite <-Z.lor_assoc. apply lor_low; [done|]. destruct (flags_lor perm Hp). unfold PTE_P. lia.
Qed.

Lemma entry_parts pa perm : pa mod 4096 = 0 → 0 ≤ pa → pa + 4096 ≤ 2 ^ 32 → 0 ≤ perm < 4096 →
  0 ≤ entry_of pa perm < 2 ^ 32 ∧ present (entry_of pa perm) = true ∧ PTE_ADDR (entry_of pa perm) = pa ∧
  PTE_FLAGS (entry_of pa perm) = Z.lor perm 1.
Proof.
  intros Ha H0 Hb Hp. destruct (flags_lor perm Hp) as [Hf Ho]. unfold entry_of.
  assert (Hr : 0 ≤ pa + Z.lor perm 1 < 2 ^ 32) by lia. split; [done|]. split; [|split].
  - rewrite present_eq, Z.odd_add, Ho. assert (Z.odd pa = false) as ->; [|done].
    rewrite (Z.div_mod pa 4096), Ha, Z.add_0_r, Z.odd_mul by lia. done.
  - rewrite PTE_ADDR_eq by done. dlia.
  - rewrite PTE_FLAGS_eq. dlia.
Qed.

(** ** Words of a page *)
Lemma word_at_set_other m a b v : a + 4 ≤ b ∨ b + 4 ≤ a → word_at (set_word m a v) b = word_at m b.
Proof.
  intros H. apply word_at_ext. intros x Hx. unfold set_word.
  destruct (Z.leb_spec a x), (Z.ltb_spec x (a + 4)); cbn; try done. lia.
Qed.

Lemma set_word_out m a v x : ¬ (a ≤ x < a + 4) → set_word m a v x = m x.
Proof. intros H. unfold set_word. destruct (Z.leb_spec a x), (Z.ltb_spec x (a + 4)); cbn; try done. lia. Qed.

Lemma fill_out m a c n x : ¬ (a ≤ x < a + n) → fill m a c n x = m x.
Proof. intros H. unfold fill. destruct (Z.leb_spec a x), (Z.ltb_spec x (a + n)); cbn; try done. lia. Qed.

Lemma fill_in m a c n x : a ≤ x < a + n → fill m a c n x = u8 c.
Proof. intros H. unfold fill. by rewrite (proj2 (Z.leb_le a x)), (proj2 (Z.ltb_lt x (a + n))) by lia. Qed.

(** Two memories agree but in the pages [ps]. *)
Definition same_outside (ps : list Z) (m m' : bytemem) : Prop :=
  ∀ x, (∀ p, p ∈ ps → ¬ in_page p x) → m' x = m x.

Lemma same_outside_refl ps m : same_outside ps m m.
Proof. done. Qed.

Lemma same_outside_trans ps qs m1 m2 m3 :
  same_outside ps m1 m2 → same_outside qs m2 m3 → (∀ p, p ∈ qs → p ∈ ps) → same_outside ps m1 m3.
Proof. intros H1 H2 Hs x Hx. rewrite H2; [by apply H1|]. intros p Hp. by apply Hx, Hs. Qed.

Lemma same_outside_mono ps qs m m' : same_outside ps m m' → (∀ p, p ∈ ps → p ∈ qs) → same_outside qs m m'.
Proof. intros H Hs x Hx. apply H. intros p Hp. by apply Hx, Hs. Qed.

Section tables.
Context (kend : Z).
Abbreviation page_ok := (page_ok kend).
Abbreviation kmem_ok := (kmem_ok kend).
Implicit Types (k : kmem) (m : bytemem) (pg d v p : Z) (tabs ents : gmap Z Z) (l o : list Z).

Lemma page_same ps m m' p x :
  same_outside ps m m' → page_ok p → Forall page_ok ps → p ∉ ps → in_page p x → m' x = m x.
Proof.
  intros Hs Hp Hps Hn Hx. apply Hs. intros q Hq Hin. apply Hn. rewrite Forall_forall in Hps.
  by rewrite (pages_apart kend p q x Hp (Hps q Hq) Hx Hin).
Qed.

Lemma in_word p i j : 0 ≤ i < 1024 → 0 ≤ j < 4 → in_page p (p + 4 * i + j).
Proof. unfold in_page, PGSIZE. lia. Qed.

Lemma word_same ps m m' p i :
  same_outside ps m m' → page_ok p → Forall page_ok ps → p ∉ ps → 0 ≤ i < 1024 →
  word_at m' (p + 4 * i) = word_at m (p + 4 * i).
Proof.
  intros Hs Hp Hps Hn Hi. apply word_at_ext. intros x Hx. eapply page_same; [done..|].
  replace x with (p + 4 * i + (x - p - 4 * i)) by lia. apply in_word; lia.
Qed.

(** ** Directories and tables *)
Definition tpages (tabs : gmap Z Z) : list Z := (map_to_list tabs).*2.

Record tables (m : bytemem) (pg : Z) (tabs ents : gmap Z Z) : Prop := {
  tb_pde : ∀ d, 0 ≤ d < 1024 →
    word_at m (pg + 4 * d) = match tabs !! d with Some p => entry_of (p - KERNBASE) 6 | None => 0 end;
  tb_pte : ∀ d p i, tabs !! d = Some p → 0 ≤ i < 1024 → word_at m (p + 4 * i) = default 0 (ents !! (1024 * d + i));
  tb_dom : ∀ v e, ents !! v = Some e → is_Some (tabs !! (v / 1024)) ∧ 0 ≤ e < 2 ^ 32 ∧ present e = true;
  tb_tdom : ∀ d p, tabs !! d = Some p → 0 ≤ d < 1024
}.

Record tvm (k : kmem) (pg : Z) (tabs ents : gmap Z Z) (l o : list Z) : Prop := {
  tv_k : kmem_ok k l;
  tv_tab : tables (memory k) pg tabs ents;
  tv_nodup : NoDup (l ++ pg :: tpages tabs ++ o);
  tv_pages : Forall page_ok (l ++ pg :: tpages tabs ++ o)
}.

Lemma elem_of_tpages tabs p : p ∈ tpages tabs ↔ ∃ d, tabs !! d = Some p.
Proof.
  unfold tpages. rewrite list_elem_of_fmap. split.
  - intros ([d q] & -> & H%elem_of_map_to_list). by exists d.
  - intros [d H]. exists (d, p). split; [done|]. by apply elem_of_map_to_list.
Qed.

Lemma tpages_insert tabs d p : tabs !! d = None → tpages (<[d := p]> tabs) ≡ₚ p :: tpages tabs.
Proof. intros H. unfold tpages. by rewrite map_to_list_insert. Qed.

(** The tables of a directory are distinct pages. *)
Lemma tabs_inj tabs d e p : NoDup (tpages tabs) → tabs !! d = Some p → tabs !! e = Some p → d = e.
Proof.
  intros Hnd Hd He. destruct (decide (d = e)) as [|Hne]; [done|].
  assert (Hp : tpages tabs ≡ₚ p :: tpages (delete d tabs)).
  { rewrite <-(insert_delete_id tabs d p) at 1 by done. apply tpages_insert, lookup_delete_eq. }
  rewrite Hp in Hnd. apply NoDup_cons in Hnd as [Hnd _]. destruct Hnd. apply elem_of_tpages. exists e.
  by rewrite lookup_delete_ne.
Qed.

Lemma tables_frame ps m m' pg tabs ents :
  tables m pg tabs ents → same_outside ps m m' → Forall page_ok ps → page_ok pg → Forall page_ok (tpages tabs) →
  pg ∉ ps → (∀ p, p ∈ tpages tabs → p ∉ ps) → tables m' pg tabs ents.
Proof.
  intros [H1 H2 H3 H4] Hs Hps Hpg Htp Hn Hnt. split; [| |done|done].
  - intros d Hd. rewrite <-H1 by done. by apply (word_same ps).
  - intros d p i Hd Hi. rewrite <-(H2 d p i) by done. assert (Hp : p ∈ tpages tabs) by (apply elem_of_tpages; by exists d).
    apply (word_same ps); [done | by eapply Forall_forall | done | by apply Hnt | done].
Qed.

(** Facts of [tvm] used all the time. *)
Lemma tvm_pg k pg tabs ents l o : tvm k pg tabs ents l o → page_ok pg ∧ pg ∉ l ∧ pg ∉ tpages tabs ∧ pg ∉ o.
Proof.
  intros [_ _ Hnd Hp]. rewrite Forall_app, Forall_cons in Hp. apply NoDup_app in Hnd as (_ & Hd & Hnd).
  apply NoDup_cons in Hnd as [Hnd _]. split; [tauto|]. split; [|set_solver]. intros Hl. apply (Hd pg Hl). left.
Qed.

Lemma tvm_table k pg tabs ents l o d p :
  tvm k pg tabs ents l o → tabs !! d = Some p → page_ok p ∧ p ∉ l ∧ p ≠ pg ∧ p ∉ o ∧ 0 ≤ d < 1024.
Proof.
  intros [_ Ht Hnd Hp] Hd. assert (Hin : p ∈ tpages tabs) by (apply elem_of_tpages; by exists d).
  rewrite !Forall_app, Forall_cons, Forall_app in Hp. apply NoDup_app in Hnd as (_ & Hdis & Hnd).
  apply NoDup_cons in Hnd as [Hn1 Hnd]. apply NoDup_app in Hnd as (_ & Hn2 & _).
  split_and!; [by destruct Hp as (_ & _ & Hp & _); eapply Forall_forall | | | by apply Hn2 | by eapply tb_tdom.. ].
  - intros Hl. apply (Hdis p Hl). right. apply elem_of_app. by left.
  - intros ->. apply Hn1. apply elem_of_app. by left.
Qed.

Lemma tvm_perm k pg tabs ents l o o' : o ≡ₚ o' → tvm k pg tabs ents l o → tvm k pg tabs ents l o'.
Proof. intros Hp [H1 H2 H3 H4]. split; [done | done | by rewrite <-Hp | by rewrite <-Hp]. Qed.

Lemma page_phys p : page_ok p → V2P p = p - KERNBASE ∧ (p - KERNBASE) mod 4096 = 0 ∧ 0 ≤ p - KERNBASE ∧ p - KERNBASE + 4096 ≤ 2 ^ 32 ∧
  P2V (p - KERNBASE) = p.
Proof.
  intros [Ha _ Hr]. unfold V2P, P2V, KERNBASE, PHYSTOP, PGSIZE in *. rewrite (u32_id p), (u32_id (p - 2 ^ 31)), u32_id by lia.
  split_and!; [done | dlia | lia | dlia | lia].
Qed.

(** ** walkpgdir *)
Lemma wp_load32 a (Q : Z → kmem → Prop) E k : Q (word_at (memory k) a) k → wp (load32 a) Q E k.
Proof. intros HQ. unfold load32. by wp_step. Qed.

Lemma pde_parts p : page_ok p → present (entry_of (p - KERNBASE) 6) = true ∧ P2V (PTE_ADDR (entry_of (p - KERNBASE) 6)) = p.
Proof.
  intros Hp. destruct (page_phys p Hp) as (_ & H1 & H2 & H3 & H4).
  destruct (entry_parts (p - KERNBASE) 6 H1 H2 H3 ltac:(lia)) as (_ & E1 & E2 & _). by rewrite E2.
Qed.

(** Where the entry of page [v] is. *)
Definition slot (tabs : gmap Z Z) (v : Z) : Z :=
  match tabs !! (v / 1024) with Some p => p + 4 * (v mod 1024) | None => 0 end.

Lemma wp_walk k pg tabs ents l o va (Q : Z → kmem → Prop) E :
  tvm k pg tabs ents l o → 0 ≤ va < 2 ^ 32 → Q (slot tabs (va / 4096)) k → wp (walkpgdir pg va false) Q E k.
Proof.
  intros T Hva HQ. unfold walkpgdir. wp_step. apply wp_load32. rewrite PDX_eq, PTX_eq by done. unfold slot in HQ.
  rewrite (tb_pde _ _ _ _ (tv_tab _ _ _ _ _ _ T)) by dlia. destruct (tabs !! (va / 4096 / 1024)) as [p|] eqn:Hd.
  - destruct (tvm_table _ _ _ _ _ _ _ _ T Hd) as [Hp _]. destruct (pde_parts p Hp) as [-> ->]. by wp_step.
  - change (present 0) with false. cbn [negb]. by wp_step.
Qed.

Lemma slot_nonzero k pg tabs ents l o v : tvm k pg tabs ents l o → slot tabs v = 0 ↔ tabs !! (v / 1024) = None.
Proof.
  intros T. unfold slot. destruct (tabs !! (v / 1024)) as [p|] eqn:Hd; [|done].
  destruct (tvm_table _ _ _ _ _ _ _ _ T Hd) as [Hp%page_bounds _]. split; [|done]. intros H. dlia.
Qed.

Lemma slot_word k pg tabs ents l o v :
  tvm k pg tabs ents l o → slot tabs v ≠ 0 → word_at (memory k) (slot tabs v) = default 0 (ents !! v).
Proof.
  intros T Hn. unfold slot in *. destruct (tabs !! (v / 1024)) as [p|] eqn:Hd; [|done].
  rewrite (tb_pte _ _ _ _ (tv_tab _ _ _ _ _ _ T) (v / 1024) p (v mod 1024) Hd) by (apply Z.mod_pos_bound; lia).
  do 2 f_equal. dlia.
Qed.

(** ** Changing memory *)
Lemma kmem_ok_mem k l ps m' :
  kmem_ok k l → same_outside ps (memory k) m' → Forall page_ok ps → (∀ p, p ∈ ps → p ∉ l) → kmem_ok (k <| memory := m' |>) l.
Proof.
  intros [H1 H2 H3 H4] Hs Hps Hn. split; [|done..]. apply (chain_frame kend (memory k)); [|done].
  intros p x Hp Hx. cbn. eapply (page_same ps); [done | by eapply chain_pages | done | | unfold in_page, PGSIZE; lia].
  intros Hin. by apply (Hn p).
Qed.

Lemma same_set_word m p i e : 0 ≤ i < 1024 → same_outside [p] m (set_word m (p + 4 * i) e).
Proof.
  intros Hi x Hx. apply set_word_out. intros H. apply (Hx p); [left|]. unfold in_page, PGSIZE. lia.
Qed.

Lemma same_fill m p c : same_outside [p] m (fill m p c PGSIZE).
Proof. intros x Hx. apply fill_out. intros H. apply (Hx p); [left|]. done. Qed.

Definition set_entry (ents : gmap Z Z) (v e : Z) : gmap Z Z := if e =? 0 then delete v ents else <[v := e]> ents.

Lemma lookup_set_entry ents v e w : default 0 (set_entry ents v e !! w) = if decide (w = v) then e else default 0 (ents !! w).
Proof.
  unfold set_entry. destruct (Z.eqb_spec e 0) as [->|He]; case_decide as Hw; subst.
  - by rewrite lookup_delete_eq.
  - by rewrite lookup_delete_ne.
  - by rewrite lookup_insert_eq.
  - by rewrite lookup_insert_ne.
Qed.

(** Storing an entry. *)
Lemma tvm_store k pg tabs ents l o v p e :
  tvm k pg tabs ents l o → tabs !! (v / 1024) = Some p → 0 ≤ e < 2 ^ 32 → e = 0 ∨ present e = true →
  let m' := set_word (memory k) (slot tabs v) e in
  tvm (k <| memory := m' |>) pg tabs (set_entry ents v e) l o ∧ same_outside [p] (memory k) m'.
Proof.
  intros T Hd He Hpe m'. destruct (tvm_table _ _ _ _ _ _ _ _ T Hd) as (Hp & Hl & Hne & Ho & Hdr).
  assert (Hi : 0 ≤ v mod 1024 < 1024) by (apply Z.mod_pos_bound; lia).
  assert (Hm : m' = set_word (memory k) (p + 4 * (v mod 1024)) e) by (unfold m', slot; by rewrite Hd).
  assert (Hs : same_outside [p] (memory k) m') by (rewrite Hm; by apply same_set_word).
  split; [|done]. pose proof T as [H1 [P1 P2 P3 P4] H3 H4].
  destruct (tvm_pg _ _ _ _ _ _ T) as (Hpg & _ & Hnt & _).
  assert (Hndt : NoDup (tpages tabs)).
  { apply NoDup_app in H3 as (_ & _ & H3). apply NoDup_cons in H3 as [_ H3]. by apply NoDup_app in H3 as [H3 _]. }
  split; [| |done|done].
  - eapply kmem_ok_mem; [done | exact Hs | by constructor|]. intros q ->%list_elem_of_singleton. done.
  - split; [| | |done].
    + intros d Hd'. rewrite <-P1 by done. apply (word_same [p]); [done | done | by constructor | | done].
      rewrite list_elem_of_singleton. congruence.
    + intros d q i Hq Hi'. rewrite lookup_set_entry. cbn [memory update_field]. destruct (decide (q = p)) as [->|Hqp].
      * assert (d = v / 1024) as -> by (by eapply tabs_inj). rewrite Hm. case_decide as Hv.
        -- assert (i = v mod 1024) as -> by dlia. rewrite word_at_set. by apply u32_id.
        -- rewrite word_at_set_other; [by apply P2|]. assert (i ≠ v mod 1024) by (intros ->; apply Hv; dlia). lia.
      * rewrite decide_False; [|intros <-; apply Hqp]. 
        -- rewrite <-(P2 d q i) by done. destruct (tvm_table _ _ _ _ _ _ _ _ T Hq) as [Hq' _].
           apply (word_same [p]); [done | done | by constructor | | done]. by rewrite list_elem_of_singleton.
        -- assert (Hdiv : (1024 * d + i) / 1024 = d) by dlia. rewrite Hdiv in Hd. congruence.
    + intros w f Hw. unfold set_entry in Hw. destruct (Z.eqb_spec e 0) as [->|Hn0].
      * apply lookup_delete_Some in Hw as [_ Hw]. by apply P3.
      * apply lookup_insert_Some in Hw as [[<- <-]|[_ Hw]]; [|by apply P3]. split; [by exists p|]. split; [done|].
        by destruct Hpe.
Qed.

(** A new table from the free list. *)
Lemma tvm_table_new k pg tabs ents q l o d :
  tvm k pg tabs ents (q :: l) o → tabs !! d = None → 0 ≤ d < 1024 →
  let m' := set_word (fill (memory k) q 0 PGSIZE) (pg + 4 * d) (entry_of (q - KERNBASE) 6) in
  ∀ k', memory k' = m' → kmem_ok (k' <| memory := memory k |>) l →
  tvm k' pg (<[d := q]> tabs) ents l o ∧ same_outside (pg :: [q]) (memory k) m'.
Proof.
  intros T Hd Hr m' k' Hk' Hkm. destruct (tvm_pg _ _ _ _ _ _ T) as (Hpg & Hpl & Hpt & Hpo).
  pose proof T as [H1 [P1 P2 P3 P4] H3 H4].
  assert (Hq : page_ok q) by (by apply Forall_cons in H4 as [? _]).
  assert (Hql : q ∉ l) by (apply NoDup_cons in H3 as [H3 _]; set_solver).
  assert (Hqt : q ∉ tpages tabs) by (apply NoDup_cons in H3 as [H3 _]; set_solver).
  assert (Hqp : q ≠ pg) by set_solver.
  assert (Hs : same_outside (pg :: [q]) (memory k) m').
  { eapply (same_outside_trans _ [pg] _ (fill (memory k) q 0 PGSIZE)); [| by apply same_set_word | set_solver].
    eapply same_outside_mono; [apply same_fill | set_solver]. }
  assert (Hps : Forall page_ok (pg :: [q])) by (by rewrite !Forall_cons).
  assert (Hperm : l ++ pg :: tpages (<[d := q]> tabs) ++ o ≡ₚ (q :: l) ++ pg :: tpages tabs ++ o).
  { rewrite tpages_insert by done. cbn [app]. rewrite (perm_swap q pg). by rewrite <-Permutation_middle. }
  split; [|done]. split.
  - replace k' with ((k' <| memory := memory k |>) <| memory := m' |>) by (destruct k'; cbn in *; by subst).
    eapply kmem_ok_mem; [done | exact Hs | done|]. set_solver.
  - rewrite Hk'. split; [| | |].
    + intros d' Hd'. destruct (decide (d' = d)) as [->|Hne].
      * rewrite lookup_insert_eq. unfold m'. rewrite word_at_set. apply u32_id.
        destruct (page_phys q Hq) as (_ & E1 & E2 & E3 & _). apply (entry_parts (q - KERNBASE) 6); [done | done | done | lia].
      * rewrite lookup_insert_ne by done. unfold m'. rewrite word_at_set_other by lia. rewrite <-P1 by done.
        apply (word_same [q]); [apply same_fill | done | by constructor | | done]. rewrite list_elem_of_singleton. congruence.
    + intros d' r i Hr' Hi. destruct (decide (d' = d)) as [->|Hne].
      * rewrite lookup_insert_eq in Hr'. injection Hr' as <-.
        assert (ents !! (1024 * d + i) = None) as ->.
        { destruct (ents !! (1024 * d + i)) as [e|] eqn:He; [|done]. destruct (P3 _ _ He) as [[x Hx] _].
          assert (Hdiv : (1024 * d + i) / 1024 = d) by dlia. rewrite Hdiv in Hx. congruence. }
        assert (Hin : ∀ j, 0 ≤ j < 4 → m' (q + 4 * i + j) = 0).
        { intros j Hj. unfold m'. rewrite set_word_out; [by rewrite fill_in by (unfold PGSIZE; lia)|]. intros H.
          apply Hqp. apply (pages_apart kend q pg (q + 4 * i + j)); [done | done | by apply in_word | unfold in_page, PGSIZE; lia]. }
        unfold word_at. rewrite !Hin by lia. pose proof (Hin 0 ltac:(lia)) as H0. rewrite Z.add_0_r in H0. by rewrite H0.
      * rewrite lookup_insert_ne in Hr' by done. rewrite <-(P2 d' r i) by done.
        destruct (tvm_table _ _ _ _ _ _ _ _ T Hr') as (Hr1 & Hr2 & Hr3 & _).
        apply (word_same (pg :: [q])); [done | done | done | | done]. set_solver.
    + intros v e He. destruct (P3 v e He) as ([x Hx] & H5). split; [|done].
      destruct (decide (v / 1024 = d)) as [->|Hne]; [by rewrite lookup_insert_eq | by rewrite lookup_insert_ne].
    + intros d' r. destruct (decide (d' = d)) as [->|Hne]; [done|]. rewrite lookup_insert_ne by done. apply P4.
  - by rewrite Hperm.
  - by rewrite Hperm.
Qed.

(** ** mappages *)
Lemma tvm_kmem k k' pg tabs ents l o : tvm k pg tabs ents l o → memory k' = memory k → kmem_ok k' l → tvm k' pg tabs ents l o.
Proof. intros [H1 H2 H3 H4] Hm Hk. split; [done | by rewrite Hm | done | done]. Qed.

(** A page taken from the free list joins the others. *)
Lemma tvm_take k k' pg tabs ents q l o :
  tvm k pg tabs ents (q :: l) o → memory k' = memory k → kmem_ok k' l → tvm k' pg tabs ents l (q :: o).
Proof.
  intros [H1 H2 H3 H4] Hm Hk.
  assert (Hperm : l ++ pg :: tpages tabs ++ q :: o ≡ₚ (q :: l) ++ pg :: tpages tabs ++ o).
  { replace (l ++ pg :: tpages tabs ++ q :: o) with ((l ++ pg :: tpages tabs) ++ q :: o) by (by rewrite <-app_assoc).
    rewrite <-Permutation_middle. cbn [app]. by rewrite <-app_assoc. }
  split; [done | by rewrite Hm | by rewrite Hperm | by rewrite Hperm].
Qed.

Lemma wp_walk_alloc k pg tabs ents l o va (Q : Z → kmem → Prop) E :
  tvm k pg tabs ents l o → 0 ≤ va < 2 ^ 32 →
  (∀ k' tabs' l', tvm k' pg tabs' ents l' o → tabs ⊆ tabs' → l' ++ tpages tabs' ≡ₚ l ++ tpages tabs →
     same_outside (pg :: l) (memory k) (memory k') → is_Some (tabs' !! (va / 4096 / 1024)) → Q (slot tabs' (va / 4096)) k') →
  (∀ k', tvm k' pg tabs ents [] o → l = [] → memory k' = memory k → Q 0 k') →
  wp (walkpgdir pg va true) Q E k.
Proof.
  intros T Hva HQ H0. unfold walkpgdir. wp_step. apply wp_load32. rewrite PDX_eq, PTX_eq by done.
  rewrite (tb_pde _ _ _ _ (tv_tab _ _ _ _ _ _ T)) by dlia. destruct (tabs !! (va / 4096 / 1024)) as [p|] eqn:Hd.
  - destruct (tvm_table _ _ _ _ _ _ _ _ T Hd) as [Hp _]. destruct (pde_parts p Hp) as [-> ->]. wp_step.
    assert (Hsl : p + 4 * ((va / 4096) mod 1024) = slot tabs (va / 4096)) by (unfold slot; by rewrite Hd). rewrite Hsl.
    eapply HQ; [exact T | done | done | apply same_outside_refl | by exists p].
  - change (present 0) with false. cbn [negb]. wp_step. eapply wp_kalloc; [apply T|]. intros k1 Hm1 Hk1.
    destruct l as [|q l]; cbn [hd tl] in *.
    { rewrite Z.eqb_refl. wp_step. apply H0; [by eapply tvm_kmem | done | done]. }
    assert (Hq : page_ok q) by (by apply (Forall_cons_1 _ q _ (tv_pages _ _ _ _ _ _ T))).
    pose proof (page_bounds kend q Hq) as Hqb. rewrite (proj2 (Z.eqb_neq q 0)) by lia.
    unfold fill_page, store_word. do 4 wp_step.
    destruct (page_phys q Hq) as (-> & E1 & E2 & E3 & _).
    assert (Z.lor (Z.lor (Z.lor (q - KERNBASE) PTE_P) PTE_W) PTE_U = entry_of (q - KERNBASE) 6) as ->.
    { rewrite <-!Z.lor_assoc. change (Z.lor PTE_P (Z.lor PTE_W PTE_U)) with 7. unfold entry_of. change (Z.lor 6 1) with 7. apply lor_low; [done | lia]. }
    wp_step. cbn [memory update_field]. rewrite Hm1.
    match goal with |- Q _ ?s => destruct (tvm_table_new k pg tabs ents q l o (va / 4096 / 1024) T Hd ltac:(dlia) s) as [T' Hs]; [done | |] end.
    { destruct k1; cbn in *; by subst. }
    assert (Hsl : q + 4 * ((va / 4096) mod 1024) = slot (<[va / 4096 / 1024 := q]> tabs) (va / 4096)).
    { unfold slot. by rewrite lookup_insert_eq. }
    rewrite Hsl. eapply HQ; [exact T' | by apply insert_subseteq | | | by rewrite lookup_insert_eq].
    + rewrite tpages_insert by done. by rewrite <-Permutation_middle.
    + eapply same_outside_mono; [exact Hs | set_solver].
Qed.

(** What mapping does to the pages: some free ones become tables, and memory
    changes only in the directory, in tables and in pages that were free. *)
Record grown (k : kmem) (pg : Z) (tabs : gmap Z Z) (l : list Z) (k' : kmem) (tabs' : gmap Z Z) (l' : list Z) : Prop := {
  gr_tabs : tabs ⊆ tabs';
  gr_pages : l' ++ tpages tabs' ≡ₚ l ++ tpages tabs;
  gr_same : same_outside (pg :: tpages tabs ++ l) (memory k) (memory k')
}.

Lemma grown_refl k pg tabs l : grown k pg tabs l k tabs l.
Proof. by split. Qed.

Lemma grown_trans k pg tabs l k1 tabs1 l1 k2 tabs2 l2 :
  grown k pg tabs l k1 tabs1 l1 → grown k1 pg tabs1 l1 k2 tabs2 l2 → grown k pg tabs l k2 tabs2 l2.
Proof.
  intros [A1 A2 A3] [B1 B2 B3]. split; [by etrans | by etrans|].
  eapply same_outside_trans; [exact A3 | exact B3|]. intros p.
  rewrite !elem_of_cons. intros [->|Hp]; [by left | right]. rewrite (Permutation_app_comm _ l1), A2 in Hp. set_solver.
Qed.

Lemma wp_map_step k pg tabs ents l o a pa perm (fail : M kmem Z) (rest : M kmem Z) (Q : Z → kmem → Prop) E :
  tvm k pg tabs ents l o → 0 ≤ a < 2 ^ 32 → ents !! (a / 4096) = None → pa mod 4096 = 0 → 0 ≤ pa → pa + 4096 ≤ 2 ^ 32 →
  0 ≤ perm < 4096 →
  (∀ k', tvm k' pg tabs ents [] o → l = [] → memory k' = memory k → wp fail Q E k') →
  (∀ k' tabs' l', tvm k' pg tabs' (<[a / 4096 := entry_of pa perm]> ents) l' o → grown k pg tabs l k' tabs' l' → wp rest Q E k') →
  wp (pte ← walkpgdir pg a true;
      if pte =? 0 then fail else
      e ← load32 pte;
      if present e then panic "remap" else
      store_word pte (Z.lor (Z.lor pa perm) PTE_P);;
      rest) Q E k.
Proof.
  intros T Ha Hn Hpa Hpa0 Hpab Hperm Hfail Hrest. wp_step. eapply wp_walk_alloc; [exact T | exact Ha | |].
  2:{ intros k' T' Hl Hm. rewrite Z.eqb_refl. by apply Hfail. }
  intros k1 tabs1 l1 T1 Hsub Hperm1 Hs1 [p Hp].
  assert (Hnz : slot tabs1 (a / 4096) ≠ 0).
  { intros Hz. by rewrite (slot_nonzero _ _ _ _ _ _ _ T1), Hp in Hz. }
  rewrite (proj2 (Z.eqb_neq _ _) Hnz). wp_step. apply wp_load32. rewrite (slot_word _ _ _ _ _ _ _ T1 Hnz), Hn. cbn [default].
  change (present 0) with false. cbv iota. unfold store_word. wp_step. wp_step. rewrite entry_lor by done.
  destruct (entry_parts pa perm Hpa Hpa0 Hpab Hperm) as (He & Hpr & _).
  destruct (tvm_store k1 pg tabs1 ents l1 o (a / 4096) p (entry_of pa perm) T1 Hp He (or_intror Hpr)) as [T2 Hs2].
  assert (Hset : set_entry ents (a / 4096) (entry_of pa perm) = <[a / 4096 := entry_of pa perm]> ents).
  { unfold set_entry. destruct (Z.eqb_spec (entry_of pa perm) 0) as [H0|]; [by rewrite H0 in Hpr | done]. }
  rewrite Hset in T2. eapply Hrest; [exact T2|]. split; [done | done|].
  eapply same_outside_trans; [eapply same_outside_mono; [exact Hs1 | set_solver] | exact Hs2|].
  intros q ->%list_elem_of_singleton. assert (Hin : p ∈ l1 ++ tpages tabs1) by (apply elem_of_app; right; apply elem_of_tpages; by eexists).
  rewrite Hperm1 in Hin. set_solver.
Qed.

(** The entries of [n] pages from [v] on. *)
Fixpoint map_range (n : nat) (v pa perm : Z) (ents : gmap Z Z) : gmap Z Z :=
  match n with
  | O => ents
  | S n => map_range n (v + 1) (pa + 4096) perm (<[v := entry_of pa perm]> ents)
  end.

Lemma lookup_map_range n v pa perm ents w :
  map_range n v pa perm ents !! w =
    if decide (v ≤ w < v + Z.of_nat n) then Some (entry_of (pa + 4096 * (w - v)) perm) else ents !! w.
Proof.
  revert v pa ents. induction n as [|n IH]; intros v pa ents; cbn [map_range].
  - rewrite decide_False by lia. done.
  - rewrite IH. destruct (decide (w = v)) as [->|Hne].
    + rewrite decide_False, decide_True, lookup_insert_eq by lia. do 2 f_equal. lia.
    + rewrite lookup_insert_ne by done. case_decide; case_decide; try lia; [|done]. do 2 f_equal. lia.
Qed.

Lemma wp_mappages_loop n k pg tabs ents l o v pa perm (Q : Z → kmem → Prop) E :
  tvm k pg tabs ents l o → 0 ≤ v → v + Z.of_nat n < 2 ^ 20 → pa mod 4096 = 0 → 0 ≤ pa → pa + 4096 * (Z.of_nat n + 1) ≤ 2 ^ 32 →
  0 ≤ perm < 4096 → (∀ w, v ≤ w ≤ v + Z.of_nat n → ents !! w = None) →
  (∀ j k' tabs', (j ≤ n)%nat → tvm k' pg tabs' (map_range j v pa perm ents) [] o → grown k pg tabs l k' tabs' [] → Q (-1) k') →
  (∀ k' tabs' l', tvm k' pg tabs' (map_range (S n) v pa perm ents) l' o → grown k pg tabs l k' tabs' l' → Q 0 k') →
  wp (mappages_loop (S n) pg (4096 * v) (4096 * (v + Z.of_nat n)) pa perm) Q E k.
Proof.
  revert k tabs ents l v pa. induction n as [|n IH]; intros k tabs ents l v pa T Hv Hvn Hpa Hpa0 Hpab Hperm Hnone HF HS;
    cbn [mappages_loop]; assert (Hdiv : 4096 * v / 4096 = v) by dlia.
  - eapply wp_map_step; [exact T | lia | rewrite Hdiv; apply Hnone; lia | done | done | lia | done | |].
    + intros k' T' -> Hm. wp_step. eapply (HF 0%nat); [lia | exact T'|]. split; [done | done|]. rewrite Hm. apply same_outside_refl.
    + intros k' tabs' l' T' G. rewrite Hdiv in T'. rewrite Z.add_0_r, Z.eqb_refl. wp_step. by eapply HS.
  - eapply wp_map_step; [exact T | lia | rewrite Hdiv; apply Hnone; lia | done | done | lia | done | |].
    + intros k' T' -> Hm. wp_step. eapply (HF 0%nat); [lia | exact T'|]. split; [done | done|]. rewrite Hm. apply same_outside_refl.
    + intros k1 tabs1 l1 T1 G1. rewrite Hdiv in T1. rewrite (proj2 (Z.eqb_neq _ _)) by lia.
      change PGSIZE with 4096. rewrite (u32_id (4096 * v + 4096)), (u32_id (pa + 4096)) by lia.
      replace (4096 * v + 4096) with (4096 * (v + 1)) by lia.
      replace (4096 * (v + Z.of_nat (S n))) with (4096 * (v + 1 + Z.of_nat n)) by lia.
      change (match n with O => _ | _ => _ end) with (mappages_loop (S n) pg (4096 * (v + 1)) (4096 * (v + 1 + Z.of_nat n)) (pa + 4096) perm).
      eapply IH; [exact T1 | lia | lia | dlia | lia | lia | done | | |].
      * intros w Hw. rewrite lookup_insert_ne by lia. apply Hnone. lia.
      * intros j k' tabs' Hj T' G'. eapply (HF (S j)); [lia | exact T' | by eapply grown_trans].
      * intros k' tabs' l' T' G'. eapply HS; [exact T' | by eapply grown_trans].
Qed.

Lemma wp_mappages k pg tabs ents l o v (n : nat) pa perm (Q : Z → kmem → Prop) E :
  tvm k pg tabs ents l o → 0 ≤ v → v + Z.of_nat n ≤ 2 ^ 20 → (0 < n)%nat → pa mod 4096 = 0 → 0 ≤ pa →
  pa + 4096 * Z.of_nat n ≤ 2 ^ 32 → 0 ≤ perm < 4096 → (∀ w, v ≤ w < v + Z.of_nat n → ents !! w = None) →
  (∀ j k' tabs', (j < n)%nat → tvm k' pg tabs' (map_range j v pa perm ents) [] o → grown k pg tabs l k' tabs' [] → Q (-1) k') →
  (∀ k' tabs' l', tvm k' pg tabs' (map_range n v pa perm ents) l' o → grown k pg tabs l k' tabs' l' → Q 0 k') →
  wp (mappages pg (4096 * v) (4096 * Z.of_nat n) pa perm) Q E k.
Proof.
  intros T Hv Hvn Hn Hpa Hpa0 Hpab Hperm Hnone HF HS. destruct n as [|n]; [lia|].
  assert (Ha : PGROUNDDOWN (4096 * v) = 4096 * v) by (rewrite PGROUNDDOWN_eq by lia; dlia).
  assert (Hlast : PGROUNDDOWN (u32 (4096 * v + 4096 * Z.of_nat (S n) - 1)) = 4096 * (v + Z.of_nat n)).
  { rewrite u32_id, PGROUNDDOWN_eq by lia. dlia. }
  unfold mappages. rewrite Ha, Hlast. cbv zeta. change PGSIZE with 4096.
  assert (Hfuel : Z.to_nat (u32 (4096 * (v + Z.of_nat n) - 4096 * v) / 4096) = n) by (rewrite u32_id by lia; dlia).
  rewrite Hfuel. eapply (wp_mappages_loop n); [exact T | lia | lia | done | lia | lia | done | | |done].
  - intros w Hw. apply Hnone. lia.
  - intros j k' tabs' Hj. apply HF. lia.
Qed.

End tables.

(** *** A small address space: one table, one page at address 0, two pages free *)
Definition space_page (i : Z) : Z := sample_end + 4096 * i.
Definition space_tabs : gmap Z Z := {[0 := space_page 3]}.
Definition space_ents : gmap Z Z := {[0 := entry_of (space_page 4 - KERNBASE) 6]}.
Definition space_mem : bytemem :=
  set_word (set_word (set_word (fun _ => 0) (space_page 0) (space_page 1))
    (space_page 2) (entry_of (space_page 3 - KERNBASE) 6)) (space_page 3) (entry_of (space_page 4 - KERNBASE) 6).
Definition space : kmem := mkkmem (mkcpu 0 0 false true) (initlock "kmem") true (space_page 0) space_mem.

Lemma space_zero x : (∀ i, 0 ≤ i < 4 → ¬ (space_page i ≤ x < space_page i + 4)) → space_mem x = 0.
Proof.
  intros H. pose proof (H 0 ltac:(lia)). pose proof (H 2 ltac:(lia)). pose proof (H 3 ltac:(lia)). unfold space_mem, set_word.
  repeat match goal with |- context [(?a <=? ?b) && (?c <? ?d)] => rewrite (proj2 (andb_false_iff (a <=? b) (c <? d))) by lia end. done.
Qed.

Lemma space_word i j : 0 ≤ i < 5 → 0 < j < 1024 → word_at space_mem (space_page i + 4 * j) = 0.
Proof.
  intros Hi Hj. unfold word_at. rewrite !space_zero; [done | unfold space_page; intros; lia..].
Qed.

Lemma space_page_ok i : 0 ≤ i < 5 → page_ok sample_end (space_page i).
Proof. intros Hi. unfold space_page. split; unfold sample_end, KERNBASE, PHYSTOP, PGSIZE; [dlia | lia | lia]. Qed.

Lemma space_tvm : tvm sample_end space (space_page 2) space_tabs space_ents [space_page 0; space_page 1] [space_page 4].
Proof.
  assert (Hall : Forall (page_ok sample_end) [space_page 0; space_page 1; space_page 2; space_page 3; space_page 4]).
  { rewrite !Forall_cons. split_and!; try (apply space_page_ok; lia). constructor. }
  assert (Hl : [space_page 0; space_page 1] ++ space_page 2 :: tpages space_tabs ++ [space_page 4] =
    [space_page 0; space_page 1; space_page 2; space_page 3; space_page 4]).
  { unfold tpages, space_tabs. by rewrite map_to_list_singleton. }
  split; [| | rewrite Hl; by apply (bool_decide_unpack _); vm_compute | by rewrite Hl].
  - split; [| by apply (bool_decide_unpack _); vm_compute | unfold calm, cli_ok, INT_MAX; cbn; lia | done].
    cbn [chain space freelist memory]. split; [done|]. split; [apply space_page_ok; lia|].
    split; [vm_compute; reflexivity|]. split; [apply space_page_ok; lia | vm_compute; reflexivity].
  - unfold space_tabs, space_ents. cbn [memory space]. split.
    + intros d Hd. destruct (decide (d = 0)) as [->|Hne]; [by vm_compute|]. rewrite lookup_singleton_ne by done. apply space_word; lia.
    + intros d p i [<- <-]%lookup_singleton_Some Hi. destruct (decide (i = 0)) as [->|Hne]; [by vm_compute|].
      rewrite lookup_singleton_ne by lia. apply space_word; lia.
    + intros v e [<- <-]%lookup_singleton_Some. split; [by eexists|]. by vm_compute.
    + intros d p [<- <-]%lookup_singleton_Some. lia.
Qed.

