(* ===== verification/VmUser.v ===== *)
(** * User address spaces (vm.c: allocuvm, deallocuvm, freevm, copyuvm, copyout)

    The pages below [KERNBASE] belong to one address space each.  The theorems
    say which pages an operation takes, gives back and copies; in all of them
    the pages of the pool stay accounted for. *)
From stdpp Require Import gmap.
From S2P Require Import Prelude Spinlock Bytes Kalloc Vm VmTable.

Section user.
Context (kend : Z) (Hkend : KERNBASE < kend).
Abbreviation page_ok := (page_ok kend).
Abbreviation kmem_ok := (kmem_ok kend).
Abbreviation tvm := (tvm kend).
Implicit Types (k : kmem) (m : bytemem) (pg v : Z) (tabs ents : gmap Z Z) (l o : list Z).

(** The page of an entry, and the pages of the user half. *)
Definition upage (e : Z) : Z := P2V (PTE_ADDR e).
Definition uents (ents : gmap Z Z) : gmap Z Z := filter (fun p => p.1 < 2 ^ 19) ents.
Definition upages (ents : gmap Z Z) : list Z := (fun p => upage p.2) <$> map_to_list (uents ents).

Definition uvm (k : kmem) (pg : Z) (tabs ents : gmap Z Z) (l o : list Z) : Prop :=
  tvm k pg tabs ents l (upages ents ++ o).

Lemma upages_insert ents v e : v < 2 ^ 19 → ents !! v = None → upages (<[v := e]> ents) ≡ₚ upage e :: upages ents.
Proof.
  intros Hv Hn. unfold upages, uents. rewrite map_filter_insert_True by done.
  rewrite map_to_list_insert; [done|]. rewrite map_lookup_filter, Hn. done.
Qed.

Lemma upages_insert_kernel ents v e : 2 ^ 19 ≤ v → upages (<[v := e]> ents) = upages ents.
Proof.
  intros Hv. unfold upages, uents. rewrite map_filter_insert_False by (cbn; lia).
  rewrite map_filter_delete, delete_id; [done|]. rewrite map_lookup_filter_None. right. intros x _. cbn. lia.
Qed.

Lemma upages_delete ents v e : v < 2 ^ 19 → ents !! v = Some e → upages ents ≡ₚ upage e :: upages (delete v ents).
Proof.
  intros Hv He. rewrite <-(insert_delete_id ents v e He) at 1. apply upages_insert; [done | apply lookup_delete_eq].
Qed.

Lemma elem_of_upages ents p : p ∈ upages ents ↔ ∃ v e, ents !! v = Some e ∧ v < 2 ^ 19 ∧ p = upage e.
Proof.
  unfold upages, uents. rewrite list_elem_of_fmap. split.
  - intros ([v e] & -> & H). apply elem_of_map_to_list, map_lookup_filter_Some in H as [H1 H2]. by exists v, e.
  - intros (v & e & He & Hv & ->). exists (v, e). split; [done|]. by apply elem_of_map_to_list, map_lookup_filter_Some.
Qed.

(** ** Pages *)

(** A page among the others goes back to the free list. *)
Lemma wp_kfree k pg tabs ents l p o (Q : unit → kmem → Prop) E :
  tvm k pg tabs ents l (p :: o) →
  (∀ k', tvm k' pg tabs ents (p :: l) o → same_outside [p] (memory k) (memory k') → Q tt k') →
  wp (kfree kend p) Q E k.
Proof.
  intros T HQ. pose proof T as [H1 H2 H3 H4].
  assert (Hperm : l ++ pg :: tpages tabs ++ p :: o ≡ₚ (p :: l) ++ pg :: tpages tabs ++ o).
  { replace (l ++ pg :: tpages tabs ++ p :: o) with ((l ++ pg :: tpages tabs) ++ p :: o) by (by rewrite <-app_assoc).
    rewrite <-Permutation_middle. cbn [app]. by rewrite <-app_assoc. }
  rewrite Hperm in H3, H4. assert (Hp : page_ok p) by (by apply Forall_cons in H4 as [? _]).
  assert (Hpl : p ∉ l ∧ p ≠ pg ∧ p ∉ tpages tabs) by (apply NoDup_cons in H3 as [H3 _]; set_solver).
  destruct Hpl as (Hpl & Hppg & Hpt).
  apply (wp_mono _ _ _ _ _ _ (kfree_spec kend k l p H1 Hp Hpl)); [|done]. intros [] k' (Hk' & _ & Hm).
  assert (Hs : same_outside [p] (memory k) (memory k')) by (intros x Hx; apply Hm, Hx; left).
  apply HQ; [|done]. split; [done | | done | done].
  destruct (tvm_pg _ _ _ _ _ _ _ T) as [Hpg _].
  eapply (tables_frame kend [p]); [done | done | by constructor | done | | set_solver | set_solver].
  apply Forall_forall. intros q Hq. rewrite Forall_forall in H4. apply H4. set_solver.
Qed.

(** Writing to a page that is neither a table nor free. *)
Lemma tvm_poke k pg tabs ents l p o m' :
  tvm k pg tabs ents l o → p ∈ o → same_outside [p] (memory k) m' → tvm (k <| memory := m' |>) pg tabs ents l o.
Proof.
  intros T Hp Hs. pose proof T as [H1 H2 H3 H4]. destruct (tvm_pg _ _ _ _ _ _ _ T) as (Hpg & _ & _ & Hpo).
  rewrite Forall_forall in H4. assert (Hpp : page_ok p) by (apply H4; set_solver).
  apply NoDup_app in H3 as H3'. destruct H3' as (_ & Hd & H3'). apply NoDup_cons in H3' as [_ H3']. apply NoDup_app in H3' as (_ & Hto & _).
  split; [| |done | by apply Forall_forall].
  - eapply kmem_ok_mem; [done | exact Hs | by constructor|]. intros q ->%list_elem_of_singleton Hl. apply (Hd p Hl). set_solver.
  - eapply (tables_frame kend [p]); [done | exact Hs | by constructor | done | | set_solver | ].
    + apply Forall_forall. intros q Hq. apply H4. set_solver.
    + intros q Hq ->%list_elem_of_singleton. by apply (Hto p).
Qed.

Lemma upage_entry p f : page_ok p → 0 ≤ f < 4096 → upage (entry_of (p - KERNBASE) f) = p.
Proof.
  intros Hp Hf. destruct (page_phys kend p Hp) as (_ & H1 & H2 & H3 & H4). unfold upage.
  by destruct (entry_parts (p - KERNBASE) f H1 H2 H3 Hf) as (_ & _ & -> & _).
Qed.

(** The physical page of an entry of the user half is not page 0. *)
Lemma upage_nonzero e : 0 ≤ e < 2 ^ 32 → page_ok (upage e) → PTE_ADDR e ≠ 0.
Proof.
  intros He [_ Hk _] H0. unfold upage in Hk. rewrite H0 in Hk. change (P2V 0) with KERNBASE in Hk. lia.
Qed.

(** ** deallocuvm *)

(** The entries without the pages of a range of addresses. *)
Definition unmap (v oldsz : Z) (ents : gmap Z Z) : gmap Z Z := filter (fun p => ¬ (v ≤ p.1 ∧ 4096 * p.1 < oldsz)) ents.

Lemma lookup_unmap v oldsz ents w :
  unmap v oldsz ents !! w = if decide (v ≤ w ∧ 4096 * w < oldsz) then None else ents !! w.
Proof.
  unfold unmap. case_decide as H.
  - apply map_lookup_filter_None. right. intros x _ Hn. by apply Hn.
  - destruct (ents !! w) as [e|] eqn:He.
    + by apply map_lookup_filter_Some.
    + apply map_lookup_filter_None. by left.
Qed.

(** Pages moved from the user half to the free list. *)
Record shrunk (k : kmem) (tabs ents : gmap Z Z) (l : list Z) (k' : kmem) (ents' : gmap Z Z) (l' : list Z) : Prop := {
  sh_pages : l' ++ upages ents' ≡ₚ l ++ upages ents;
  sh_free : l ⊆ l';
  sh_same : same_outside (tpages tabs ++ l') (memory k) (memory k')
}.

Lemma shrunk_refl k tabs ents l : shrunk k tabs ents l k ents l.
Proof. by split. Qed.

Lemma shrunk_trans k tabs ents l k1 ents1 l1 k2 ents2 l2 :
  shrunk k tabs ents l k1 ents1 l1 → shrunk k1 tabs ents1 l1 k2 ents2 l2 → shrunk k tabs ents l k2 ents2 l2.
Proof.
  intros [A1 A2 A3] [B1 B2 B3]. split; [by etrans | by etrans|].
  eapply same_outside_trans; [eapply same_outside_mono; [exact A3|] | exact B3|]; set_solver.
Qed.

Lemma wp_deallocuvm_loop fuel k pg tabs ents l o v oldsz (Q : unit → kmem → Prop) E :
  uvm k pg tabs ents l o → 0 ≤ v → 4096 * v ≤ KERNBASE → oldsz ≤ KERNBASE → oldsz - 4096 * v ≤ 4096 * Z.of_nat fuel →
  (∀ k' l', uvm k' pg tabs (unmap v oldsz ents) l' o → shrunk k tabs ents l k' (unmap v oldsz ents) l' → Q tt k') →
  wp (deallocuvm_loop kend fuel pg (4096 * v) oldsz) Q E k.
Proof.
  revert k ents l v. induction fuel as [|fuel IH]; intros k ents l v U Hv Hvk Hold Hfuel HQ; cbn [deallocuvm_loop].
  { rewrite (proj2 (Z.ltb_ge _ _)) by lia. wp_step.
    assert (Hun : unmap v oldsz ents = ents).
    { apply map_eq. intros w. rewrite lookup_unmap. case_decide; [lia | done]. }
    eapply HQ; rewrite Hun; [exact U | apply shrunk_refl]. }
  destruct (Z.ltb_spec (4096 * v) oldsz) as [Hlt|Hge].
  2:{ wp_step. assert (Hun : unmap v oldsz ents = ents).
      { apply map_eq. intros w. rewrite lookup_unmap. case_decide; [lia | done]. }
      eapply HQ; rewrite Hun; [exact U | apply shrunk_refl]. }
  unfold KERNBASE in Hvk, Hold. assert (Hdiv : 4096 * v / 4096 = v) by dlia.
  wp_step. eapply wp_walk; [exact U | lia|]. rewrite Hdiv.
  destruct (Z.eqb_spec (slot tabs v) 0) as [Hs|Hs].
  - (* no table: on to the next one *)
    pose proof (proj1 (slot_nonzero _ _ _ _ _ _ _ _ U) Hs) as Hnone.
    assert (Hgap : ∀ w, v ≤ w < 1024 * (v / 1024 + 1) → ents !! w = None).
    { intros w Hw. destruct (ents !! w) as [e|] eqn:He; [|done].
      destruct (tb_dom _ _ _ _ (tv_tab _ _ _ _ _ _ _ U) w e He) as [[p Hp] _].
      replace (w / 1024) with (v / 1024) in Hp by dlia. congruence. }
    assert (Ha : u32 (u32 (PGADDR (PDX (4096 * v) + 1) 0 0 - PGSIZE) + PGSIZE) = 4096 * (1024 * (v / 1024 + 1))).
    { rewrite PDX_eq, Hdiv by lia. unfold PGADDR, PDXSHIFT, PTXSHIFT, PGSIZE. rewrite Z.shiftl_0_l, !Z.lor_0_r, Z.shiftl_mul_pow2 by lia.
      change (2 ^ 22) with 4194304. assert (v / 1024 < 512) by dlia. assert (0 ≤ v / 1024) by dlia.
      rewrite (u32_id ((v / 1024 + 1) * 4194304)), (u32_id ((v / 1024 + 1) * 4194304 - 4096)), u32_id by lia. lia. }
    rewrite Ha. assert (Hun : unmap (1024 * (v / 1024 + 1)) oldsz ents = unmap v oldsz ents).
    { apply map_eq. intros w. rewrite !lookup_unmap. repeat case_decide; try done; [dlia | apply Hgap; lia]. }
    eapply IH; [exact U | dlia | unfold KERNBASE; dlia | done | dlia|]. rewrite Hun. exact HQ.
  - wp_step. apply wp_load32. rewrite (slot_word _ _ _ _ _ _ _ _ U Hs).
    assert (Hnext : u32 (4096 * v + PGSIZE) = 4096 * (v + 1)) by (unfold PGSIZE; rewrite u32_id by lia; lia).
    rewrite Hnext. wp_step. destruct (ents !! v) as [e|] eqn:He; cbn [default from_option id].
    + destruct (tb_dom _ _ _ _ (tv_tab _ _ _ _ _ _ _ U) v e He) as ([p Hp] & Her & Hpr). rewrite Hpr. unfold when. cbv zeta.
      assert (Hvu : v < 2 ^ 19) by lia.
      assert (Hup : upages ents ++ o ≡ₚ upage e :: upages (delete v ents) ++ o) by (rewrite (upages_delete ents v e Hvu He); done).
      pose proof (tvm_perm _ _ _ _ _ _ _ _ Hup U) as U1.
      assert (Hpage : page_ok (upage e)).
      { pose proof (tv_pages _ _ _ _ _ _ _ U1) as Hpg. rewrite Forall_forall in Hpg. apply Hpg. set_solver. }
      rewrite (proj2 (Z.eqb_neq _ _) (upage_nonzero e Her Hpage)). wp_step.
      eapply wp_kfree; [exact U1|]. intros k1 T1 Hs1. unfold store_word. wp_step.
      destruct (tvm_store _ k1 pg tabs ents _ _ v p 0 T1 Hp ltac:(lia) (or_introl eq_refl)) as [T2 Hs2].
      unfold set_entry in T2. rewrite Z.eqb_refl in T2.
      assert (Hun : unmap (v + 1) oldsz (delete v ents) = unmap v oldsz ents).
      { apply map_eq. intros w. rewrite !lookup_unmap. destruct (decide (w = v)) as [->|Hne].
        - rewrite lookup_delete_eq, (decide_True (P := v ≤ v ∧ _)) by lia. by case_decide.
        - rewrite lookup_delete_ne by done. repeat case_decide; try done; lia. }
      eapply (IH _ (delete v ents) (upage e :: l) (v + 1)); [exact T2 | lia | unfold KERNBASE; lia | unfold KERNBASE; lia | lia|].
      rewrite Hun. intros k' l' U' S'. eapply HQ; [exact U'|].
      eapply (shrunk_trans k tabs ents l _ (delete v ents) (upage e :: l)); [|exact S'].
      split; [rewrite (upages_delete ents v e Hvu He); by rewrite <-Permutation_middle | set_solver|].
      eapply same_outside_trans; [eapply same_outside_mono; [exact Hs1 | set_solver] | exact Hs2|].
      intros q ->%list_elem_of_singleton. apply elem_of_app. left. apply elem_of_tpages. by eexists.
    + change (present 0) with false. unfold when. wp_step.
      assert (Hun : unmap (v + 1) oldsz ents = unmap v oldsz ents).
      { apply map_eq. intros w. rewrite !lookup_unmap. destruct (decide (w = v)) as [->|Hne].
        - rewrite He. by repeat case_decide.
        - repeat case_decide; try done; lia. }
      eapply IH; [exact U | lia | unfold KERNBASE; lia | unfold KERNBASE; lia | lia|]. rewrite Hun. exact HQ.
Qed.

(** The first page at or above an address. *)
Definition rup (sz : Z) : Z := (sz + 4095) / 4096.

Lemma PGROUNDUP_rup sz : 0 ≤ sz ≤ KERNBASE → PGROUNDUP sz = 4096 * rup sz.
Proof. intros H. rewrite PGROUNDUP_eq; [|lia | unfold PGSIZE, KERNBASE in *; lia]. unfold rup, PGSIZE. do 2 f_equal. lia. Qed.

Lemma wp_deallocuvm k pg tabs ents l o oldsz newsz (Q : Z → kmem → Prop) E :
  uvm k pg tabs ents l o → 0 ≤ newsz < oldsz → oldsz ≤ KERNBASE →
  (∀ k' l', uvm k' pg tabs (unmap (rup newsz) oldsz ents) l' o →
     shrunk k tabs ents l k' (unmap (rup newsz) oldsz ents) l' → Q newsz k') →
  wp (deallocuvm kend pg oldsz newsz) Q E k.
Proof.
  intros U Hn Ho HQ. unfold deallocuvm. rewrite geb_false by lia. rewrite PGROUNDUP_rup by lia. cbv zeta. wp_step.
  eapply wp_deallocuvm_loop; [exact U | unfold rup; dlia | unfold rup, KERNBASE in *; dlia | done | unfold PGSIZE, rup in *; dlia|].
  intros k' l' U' S'. wp_step. by eapply HQ.
Qed.

(** [deallocuvm] takes away exactly the pages of the given range: each
    mapped one goes to the free list, the others keep their entries and
    contents, and no page is lost. *)
Theorem deallocuvm_correct k pg tabs ents l o oldsz newsz :
  uvm k pg tabs ents l o → 0 ≤ newsz → oldsz ≤ KERNBASE →
  ∃ k' ents' l', deallocuvm kend pg oldsz newsz k = Ok (Z.min oldsz newsz) k' ∧ uvm k' pg tabs ents' l' o ∧
    l' ++ upages ents' ≡ₚ l ++ upages ents ∧ same_outside (tpages tabs ++ l') (memory k) (memory k') ∧
    ∀ w, ents' !! w = if decide (newsz ≤ 4096 * w < oldsz) then None else ents !! w.
Proof.
  intros U Hn Ho. destruct (decide (newsz < oldsz)) as [Hlt|Hge].
  2:{ exists k, ents, l. unfold deallocuvm. rewrite geb_true by lia. split_and!; [by rewrite Z.min_l by lia | done | done | apply same_outside_refl|].
      intros w. by rewrite decide_False by lia. }
  assert (Hw : wpt (deallocuvm kend pg oldsz newsz) (fun r k' => ∃ l', r = newsz ∧ uvm k' pg tabs (unmap (rup newsz) oldsz ents) l' o ∧
    shrunk k tabs ents l k' (unmap (rup newsz) oldsz ents) l') k).
  { eapply wp_deallocuvm; [done | lia | done|]. intros k' l' U' S'. by exists l'. }
  apply wpt_ok in Hw as (r & k' & Hrun & l' & -> & U' & [S1 _ S2]). exists k', (unmap (rup newsz) oldsz ents), l'.
  split_and!; [by rewrite Z.min_r by lia | done | done | done|]. intros w. rewrite lookup_unmap. unfold rup.
  repeat case_decide; try done; dlia.
Qed.

(** ** allocuvm *)
Definition zero_page (m : bytemem) (p : Z) : Prop := ∀ x, in_page p x → m x = 0.

(** The pages from [v0] to [v] were added: fresh, zeroed, writable by the
    user. *)
Record added (k0 : kmem) (pg : Z) (tabs0 ents0 : gmap Z Z) (l0 : list Z) (v0 v : Z)
    (k : kmem) (tabs ents : gmap Z Z) (l o : list Z) : Prop := {
  ad_uvm : uvm k pg tabs ents l o;
  ad_tabs : tabs0 ⊆ tabs;
  ad_pages : l ++ tpages tabs ++ upages ents ≡ₚ l0 ++ tpages tabs0 ++ upages ents0;
  ad_same : same_outside (pg :: tpages tabs0 ++ l0) (memory k0) (memory k);
  ad_old : ∀ w, ¬ (v0 ≤ w < v) → ents !! w = ents0 !! w;
  ad_new : ∀ w, v0 ≤ w < v → ∃ p, p ∈ l0 ∧ ents !! w = Some (entry_of (p - KERNBASE) 6) ∧ zero_page (memory k) p;
  ad_free : ∀ p, p ∈ l → p ∈ l0;
  ad_tp : ∀ p, p ∈ tpages tabs → p ∈ tpages tabs0 ++ l0
}.

Lemma added_refl k pg tabs ents l v0 o : uvm k pg tabs ents l o → added k pg tabs ents l v0 v0 k tabs ents l o.
Proof. intros U. split; try done; [intros w Hw; lia | set_solver]. Qed.

(** Giving the new pages back restores the entries. *)
Lemma unmap_added k0 pg tabs0 ents0 l0 v0 v k tabs ents l o newsz :
  added k0 pg tabs0 ents0 l0 v0 v k tabs ents l o → (∀ w, v0 ≤ w → 4096 * w < newsz → ents0 !! w = None) → 4096 * (v - 1) < newsz →
  unmap v0 newsz ents = ents0.
Proof.
  intros A Hnone Hv. apply map_eq. intros w. rewrite lookup_unmap. case_decide as H; [symmetry; apply Hnone; lia|].
  apply A. lia.
Qed.

(** One page: a fresh one is zeroed and mapped, or there is no table for it. *)
Lemma wp_add_page k pg tabs ents q l o v (fail rest : M kmem (option Z)) (Q : option Z → kmem → Prop) E :
  uvm k pg tabs ents (q :: l) o → 0 ≤ v < 2 ^ 19 → ents !! v = None →
  (∀ k' tabs', tvm k' pg tabs' ents [] (q :: upages ents ++ o) → tabs ⊆ tabs' → tpages tabs' ≡ₚ l ++ tpages tabs →
     same_outside (pg :: tpages tabs ++ q :: l) (memory k) (memory k') → wp fail Q E k') →
  (∀ k' tabs' l', added k pg tabs ents (q :: l) v (v + 1) k' tabs' (<[v := entry_of (q - KERNBASE) 6]> ents) l' o → wp rest Q E k') →
  ∀ k1, memory k1 = memory k → kmem_ok k1 l →
  wp (fill_page q 0;;
      r ← mappages pg (4096 * v) PGSIZE (V2P q) (Z.lor PTE_W PTE_U);
      if r <? 0 then fail else rest) Q E k1.
Proof.
  intros U Hv Hnone HF HS k1 Hm1 Hk1. pose proof (tvm_take _ _ _ _ _ _ _ _ _ U Hm1 Hk1) as T1.
  assert (Hq : page_ok q) by (pose proof (tv_pages _ _ _ _ _ _ _ U) as H; by apply Forall_cons in H as [? _]).
  assert (Hql : q ∉ pg :: tpages tabs ++ l).
  { pose proof (tv_nodup _ _ _ _ _ _ _ U) as H. apply NoDup_cons in H as [H _]. set_solver. }
  unfold fill_page. wp_step. wp_step.
  pose proof (tvm_poke k1 pg tabs ents l q _ _ T1 ltac:(left) (same_fill (memory k1) q 0)) as T2.
  destruct (page_phys kend q Hq) as (-> & E1 & E2 & E3 & _). wp_step. change (Z.lor PTE_W PTE_U) with 6.
  change PGSIZE with (4096 * Z.of_nat 1).
  assert (Hs0 : same_outside (pg :: tpages tabs ++ q :: l) (memory k) (fill (memory k1) q 0 (4096 * Z.of_nat 1))).
  { rewrite Hm1. eapply same_outside_mono; [apply (same_fill (memory k) q 0) | set_solver]. }
  assert (Hinl : ∀ p, p ∈ pg :: tpages tabs ++ l → p ∈ pg :: tpages tabs ++ q :: l) by set_solver.
  eapply (wp_mappages kend _ pg tabs ents l _ v 1 (q - KERNBASE) 6); [exact T2 | lia | lia | lia | done | done | lia | lia | | |].
  - intros w Hw. by replace w with v by lia.
  - intros j k' tabs' Hj T' [G1 G2 G3]. assert (j = 0%nat) as -> by lia. cbn [map_range] in T'. rewrite (proj2 (Z.ltb_lt _ _)) by lia.
    eapply HF; [exact T' | done | done | by eapply same_outside_trans].
  - intros k' tabs' l' T' [G1 G2 G3]. cbn [map_range] in T'. rewrite (proj2 (Z.ltb_ge _ _)) by lia.
    assert (Hup : upages (<[v := entry_of (q - KERNBASE) 6]> ents) ≡ₚ q :: upages ents).
    { rewrite upages_insert by (done || lia). by rewrite upage_entry by (done || lia). }
    assert (Hz : zero_page (memory k') q).
    { intros x Hx. rewrite (page_same kend _ _ _ q x G3 Hq); [cbn; by rewrite fill_in| |done|done].
      pose proof (tv_pages _ _ _ _ _ _ _ T1) as H. rewrite Forall_forall in H |- *. intros p Hp. apply H. set_solver. }
    eapply (HS k' tabs' l'). split; [| done | | by eapply same_outside_trans | | | |].
    + unfold uvm. eapply tvm_perm; [|exact T']. by rewrite Hup.
    + rewrite Hup. rewrite (assoc_L (++)), <-!Permutation_middle, G2. cbn [app]. by rewrite (assoc_L (++)).
    + intros w Hw. by rewrite lookup_insert_ne by lia.
    + intros w Hw. replace w with v by lia. exists q. split_and!; [left | by rewrite lookup_insert_eq | done].
    + intros p Hp. right. 
      assert (Hin : p ∈ l ++ tpages tabs) by (rewrite <-G2; set_solver). apply elem_of_app in Hin as [|Hin]; [done|]. exfalso.
      pose proof (tv_nodup _ _ _ _ _ _ _ T') as Hnd. apply NoDup_app in Hnd as (_ & Hd & _). apply (Hd p Hp).
      apply elem_of_tpages in Hin as [d Hd']. right. apply elem_of_app. left. apply elem_of_tpages. exists d. by eapply lookup_weaken.
    + intros p Hp. assert (Hin : p ∈ l ++ tpages tabs) by (rewrite <-G2; set_solver). set_solver.
Qed.

Lemma uvm_pages k pg tabs ents l o p :
  uvm k pg tabs ents l o → p ∈ upages ents → page_ok p ∧ p ∉ l ∧ p ≠ pg ∧ p ∉ tpages tabs ∧ p ∉ o.
Proof.
  intros [_ _ Hnd Hp] Hin. rewrite Forall_forall in Hp. split; [apply Hp; set_solver|].
  apply NoDup_app in Hnd as (_ & H1 & Hnd). apply NoDup_cons in Hnd as [H2 Hnd]. apply NoDup_app in Hnd as (_ & H3 & Hnd).
  apply NoDup_app in Hnd as (_ & H4 & _). split_and!.
  - intros Hl. apply (H1 p Hl). set_solver.
  - intros ->. set_solver.
  - intros Ht. apply (H3 p Ht). set_solver.
  - by apply H4.
Qed.

Lemma uvm_all_pages k pg tabs ents l o : uvm k pg tabs ents l o → Forall page_ok (pg :: tpages tabs ++ l).
Proof. intros [_ _ _ Hp]. rewrite Forall_forall in Hp |- *. intros q Hq. apply Hp. set_solver. Qed.

Lemma zero_page_kept k pg tabs ents l o m' p :
  uvm k pg tabs ents l o → p ∈ upages ents → same_outside (pg :: tpages tabs ++ l) (memory k) m' →
  zero_page (memory k) p → zero_page m' p.
Proof.
  intros U Hp Hs Hz x Hx. destruct (uvm_pages _ _ _ _ _ _ _ U Hp) as (Hpo & H1 & H2 & H3 & _).
  rewrite (page_same kend _ _ _ p x Hs Hpo (uvm_all_pages _ _ _ _ _ _ U)); [by apply Hz | set_solver | done].
Qed.

Lemma added_trans k0 pg tabs0 ents0 l0 v0 v k tabs ents l k' tabs' ents' l' o :
  added k0 pg tabs0 ents0 l0 v0 v k tabs ents l o → added k pg tabs ents l v (v + 1) k' tabs' ents' l' o → 
  v0 ≤ v → 0 ≤ v0 → v < 2 ^ 19 → Forall page_ok l0 → added k0 pg tabs0 ents0 l0 v0 (v + 1) k' tabs' ents' l' o.
Proof.
  intros A B Hv Hv0 Hv19 Hpg. split; [apply B | etrans; [apply A | apply B] | etrans; [apply B | apply A] | | | | |].
  - eapply same_outside_trans; [apply A | apply B|]. intros p. rewrite !elem_of_cons, !elem_of_app. intros [->|[Hp|Hp]]; [by left| |].
    + right. apply elem_of_app. by apply A.
    + right. right. by apply A.
  - intros w Hw. rewrite (ad_old _ _ _ _ _ _ _ _ _ _ _ _ B) by lia. apply A. lia.
  - intros w Hw. destruct (decide (w = v)) as [->|Hne].
    + destruct (ad_new _ _ _ _ _ _ _ _ _ _ _ _ B v ltac:(lia)) as (p & Hp & He & Hz). exists p. split_and!; [by apply A | done | done].
    + destruct (ad_new _ _ _ _ _ _ _ _ _ _ _ _ A w ltac:(lia)) as (p & Hp & He & Hz). exists p. split; [done|].
      split; [by rewrite (ad_old _ _ _ _ _ _ _ _ _ _ _ _ B) by lia|].
      eapply zero_page_kept; [apply A | | apply B | done]. apply elem_of_upages. exists w, (entry_of (p - KERNBASE) 6).
      split_and!; [done | lia|]. symmetry. apply upage_entry; [by eapply Forall_forall | lia].
  - intros p Hp. by apply A, B.
  - intros p Hp. apply B in Hp. apply elem_of_app in Hp as [Hp|Hp]; [by apply A|]. apply elem_of_app. right. by apply A.
Qed.

(** The address space is as before, with perhaps more tables. *)
Record undone (k0 : kmem) (pg : Z) (tabs0 ents0 : gmap Z Z) (l0 : list Z) (k : kmem) (tabs : gmap Z Z) (l o : list Z) : Prop := {
  un_uvm : uvm k pg tabs ents0 l o;
  un_tabs : tabs0 ⊆ tabs;
  un_pages : l ++ tpages tabs ≡ₚ l0 ++ tpages tabs0;
  un_same : same_outside (pg :: tpages tabs0 ++ l0) (memory k0) (memory k)
}.

Lemma undo k0 pg tabs0 ents0 l0 v0 v k tabs ents l o k' l' :
  added k0 pg tabs0 ents0 l0 v0 v k tabs ents l o → uvm k' pg tabs ents0 l' o → 
  shrunk k tabs ents l k' ents0 l' → undone k0 pg tabs0 ents0 l0 k' tabs l' o.
Proof.
  intros A U' [S1 S2 S3]. assert (Hp : l' ++ tpages tabs ≡ₚ l0 ++ tpages tabs0).
  { apply (Permutation_app_inv_r (upages ents0)). rewrite <-!app_assoc, <-(ad_pages _ _ _ _ _ _ _ _ _ _ _ _ A).
    rewrite (Permutation_app_comm (tpages tabs)), (assoc_L (++)), S1, <-app_assoc. by rewrite (Permutation_app_comm (tpages tabs)). }
  split; [done | apply A | done|]. eapply same_outside_trans; [apply A | exact S3|]. intros p Hin.
  assert (Hin' : p ∈ l' ++ tpages tabs) by set_solver. rewrite Hp in Hin'. set_solver.
Qed.

Lemma wp_allocuvm_loop fuel k0 pg tabs0 ents0 l0 o v k tabs ents l oldsz newsz (Q : option Z → kmem → Prop) E :
  added k0 pg tabs0 ents0 l0 (rup oldsz) v k tabs ents l o → 0 ≤ oldsz ≤ newsz → newsz < KERNBASE →
  rup oldsz ≤ v → 4096 * (v - 1) < newsz ∨ v = rup oldsz → newsz - 4096 * v ≤ 4096 * Z.of_nat fuel → Forall page_ok l0 →
  (∀ w, rup oldsz ≤ w → 4096 * w < newsz → ents0 !! w = None) →
  (∀ k' tabs' l', undone k0 pg tabs0 ents0 l0 k' tabs' l' o → Q (Some 0) k') →
  (∀ v' k' tabs' ents' l', added k0 pg tabs0 ents0 l0 (rup oldsz) v' k' tabs' ents' l' o → newsz ≤ 4096 * v' →
     4096 * (v' - 1) < newsz ∨ v' = rup oldsz → Q None k') →
  wp (allocuvm_loop kend fuel pg (4096 * v) oldsz newsz) Q E k.
Proof.
  intros A Ho Hn Hv Hv1 Hfuel Hpg Hnone HF HS. revert v k tabs ents l A Hv Hv1 Hfuel.
  induction fuel as [|fuel IH]; intros v k tabs ents l A Hv Hv1 Hfuel; cbn [allocuvm_loop].
  { rewrite (proj2 (Z.ltb_ge _ _)) by lia. wp_step. eapply HS; [exact A | lia | done]. }
  destruct (Z.ltb_spec (4096 * v) newsz) as [Hlt|Hge]; [|wp_step; by eapply HS].
  assert (Hr : 0 ≤ rup oldsz ∧ oldsz ≤ 4096 * rup oldsz) by (unfold rup; dlia). unfold KERNBASE in Hn.
  pose proof (ad_uvm _ _ _ _ _ _ _ _ _ _ _ _ A) as U.
  assert (Hnv : ents !! v = None) by (rewrite (ad_old _ _ _ _ _ _ _ _ _ _ _ _ A) by lia; by apply Hnone).
  assert (Hback : unmap (rup oldsz) newsz ents = ents0).
  { eapply unmap_added; [exact A | exact Hnone|]. lia. }
  wp_step. eapply (wp_kalloc kend); [apply U|]. intros k1 Hm1 Hk1. destruct l as [|q l]; cbn [hd tl] in *.
  - rewrite Z.eqb_refl. wp_step. eapply wp_deallocuvm; [eapply tvm_kmem; [exact U | done | done] | lia | unfold KERNBASE; lia|].
    rewrite Hback. intros k' l' U' [S1 S2 S3]. wp_step. eapply HF. eapply (undo _ _ _ _ _ _ _ _ _ _ _ _ _ _ A U').
    split; [done | done | by rewrite <-Hm1].
  - assert (Hq : page_ok q) by (pose proof (tv_pages _ _ _ _ _ _ _ U) as H; by apply Forall_cons in H as [? _]).
    pose proof (page_bounds kend q Hq) as Hqb. rewrite (proj2 (Z.eqb_neq q 0)) by lia.
    eapply (wp_add_page k pg tabs ents q l o v); [exact U | lia | done | | | done | done].
    + intros k' tabs' T' Hsub Hp' Hs'.
      assert (U2 : uvm k' pg tabs' ents [] (q :: o)) by (eapply tvm_perm; [|exact T']; by rewrite Permutation_middle).
      wp_step. eapply wp_deallocuvm; [exact U2 | lia | unfold KERNBASE; lia|]. rewrite Hback. intros k2 l2 U3 [S1 S2 S3].
      wp_step. assert (T3 : tvm k2 pg tabs' ents0 l2 (q :: upages ents0 ++ o)) by (eapply tvm_perm; [|exact U3]; by rewrite Permutation_middle).
      eapply wp_kfree; [exact T3|]. intros k3 T4 Hs4. wp_step.
      assert (Hperm : (q :: l2) ++ tpages tabs' ≡ₚ l0 ++ tpages tabs0).
      { apply (Permutation_app_inv_r (upages ents0)). rewrite <-!app_assoc, <-(ad_pages _ _ _ _ _ _ _ _ _ _ _ _ A). cbn [app].
        rewrite (Permutation_app_comm (tpages tabs')), (assoc_L (++) l2), S1. cbn [app]. f_equiv.
        by rewrite (Permutation_app_comm (upages ents)), Hp', <-app_assoc. }
      eapply (HF k3 tabs' (q :: l2)). split; [exact T4 | etrans; [apply A | done] | done|].
      assert (Hin : ∀ p, p ∈ (q :: l2) ++ tpages tabs' → p ∈ pg :: tpages tabs0 ++ l0).
      { intros p Hp. rewrite Hperm in Hp. set_solver. }
      eapply same_outside_trans; [|exact Hs4 | intros p ->%list_elem_of_singleton; apply Hin; set_solver].
      eapply same_outside_trans; [|exact S3 | intros p Hp; apply Hin; set_solver].
      eapply same_outside_trans; [apply A | exact Hs' |]. intros p. rewrite !elem_of_cons, !elem_of_app. intros [->|[Hp|Hp]]; [by left| |].
      * right. apply elem_of_app. by apply A.
      * right. right. apply A. exact Hp.
    + intros k' tabs' l' B. assert (Hnx : u32 (4096 * v + PGSIZE) = 4096 * (v + 1)) by (unfold PGSIZE; rewrite u32_id by lia; lia).
      rewrite Hnx. eapply (IH (v + 1)); [eapply added_trans; [exact A | exact B | lia | lia | lia | done] | lia | left; lia | lia].
Qed.

(** The address space after [allocuvm] returned [r]. *)
Definition enlarged k pg tabs ents l o oldsz newsz (r : Z) (k' : kmem) : Prop := ∃ tabs' ents' l',
  uvm k' pg tabs' ents' l' o ∧ l' ++ tpages tabs' ++ upages ents' ≡ₚ l ++ tpages tabs ++ upages ents ∧
  same_outside (pg :: tpages tabs ++ l) (memory k) (memory k') ∧
  (r = 0 ∧ ents' = ents ∨
   r = newsz ∧ (∀ w, ¬ (rup oldsz ≤ w < rup newsz) → ents' !! w = ents !! w) ∧
   ∀ w, rup oldsz ≤ w < rup newsz → ∃ p, p ∈ l ∧ ents' !! w = Some (entry_of (p - KERNBASE) 6) ∧ zero_page (memory k') p).

Lemma wp_allocuvm k pg tabs ents l o oldsz newsz :
  uvm k pg tabs ents l o → 0 ≤ oldsz ≤ newsz → newsz < KERNBASE →
  (∀ w, rup oldsz ≤ w → 4096 * w < newsz → ents !! w = None) →
  wpt (allocuvm kend pg oldsz newsz) (enlarged k pg tabs ents l o oldsz newsz) k.
Proof.
  intros U Ho Hn Hnone.
  unfold allocuvm. rewrite geb_false, (proj2 (Z.ltb_ge _ _)) by lia. rewrite PGROUNDUP_rup by lia. cbv zeta. wp_step.
  assert (Hpg : Forall page_ok l) by (pose proof (tv_pages _ _ _ _ _ _ _ U) as H; by apply Forall_app in H as [? _]).
  eapply (wp_allocuvm_loop _ k pg tabs ents l o (rup oldsz)); [by apply added_refl | done | done | lia | by right | | done | done | |].
  - unfold PGSIZE, rup. dlia.
  - intros k' tabs' l' [U' _ Hp Hs]. wp_step. exists tabs', ents, l'. split_and!; [done | | done | by left].
    by rewrite !(assoc_L (++)), Hp.
  - intros v' k' tabs' ents' l' A Hv' Hv''. wp_step. exists tabs', ents', l'. split; [apply A|]. split; [apply A|]. split; [apply A|].
    right. split; [done|]. assert (Hr : v' = rup newsz ∨ rup newsz ≤ v' ∧ v' = rup oldsz) by (unfold rup in *; dlia).
    destruct A as [_ _ _ _ A1 A2 _ _]. destruct Hr as [->|[Hr ->]]; [by split|]. split.
    + intros w _. apply A1. lia.
    + intros w Hw. lia.
Qed.


(** ** freevm *)

(** The tables from index [i] on. *)
Definition tabs_from (i : Z) (tabs : gmap Z Z) : gmap Z Z := filter (fun p => i ≤ p.1) tabs.

Lemma tabs_from_some i tabs p : tabs !! i = Some p → tpages (tabs_from i tabs) ≡ₚ p :: tpages (tabs_from (i + 1) tabs).
Proof.
  intros Hp. assert (Heq : tabs_from i tabs = <[i := p]> (tabs_from (i + 1) tabs)).
  { apply map_eq. intros d. unfold tabs_from. destruct (decide (d = i)) as [->|Hne].
    - rewrite lookup_insert_eq. apply map_lookup_filter_Some. split; [done | cbn; lia].
    - rewrite lookup_insert_ne by done. rewrite !map_lookup_filter. destruct (tabs !! d); [|done]. cbn.
      repeat case_guard; try done; lia. }
  rewrite Heq. apply tpages_insert. unfold tabs_from. apply map_lookup_filter_None. right. intros x _. cbn. lia.
Qed.

Lemma tabs_from_none i tabs : tabs !! i = None → tabs_from i tabs = tabs_from (i + 1) tabs.
Proof.
  intros Hn. apply map_eq. intros d. unfold tabs_from. rewrite !map_lookup_filter. destruct (decide (d = i)) as [->|Hne].
  - by rewrite Hn.
  - destruct (tabs !! d); [|done]. cbn. repeat case_guard; try done; lia.
Qed.

Lemma upages_unmap_all ents : (∀ w e, ents !! w = Some e → 0 ≤ w) → upages (unmap 0 KERNBASE ents) = [].
Proof.
  intros Hpos. unfold upages. assert (Hu : uents (unmap 0 KERNBASE ents) = ∅).
  { apply map_eq. intros w. rewrite lookup_empty. unfold uents. apply map_lookup_filter_None.
    destruct (decide (w < 2 ^ 19)) as [Hw|Hw]; [left | by right]. rewrite lookup_unmap. case_decide as H; [done|].
    destruct (ents !! w) as [e|] eqn:He; [|done]. apply Hpos in He. unfold KERNBASE in H. lia. }
  by rewrite Hu, map_to_list_empty.
Qed.

(** The state of the loop that frees the tables. *)
Record freeing (k0 : kmem) (pg : Z) (tabs : gmap Z Z) (l0 o : list Z) (i : Z) (k : kmem) (l : list Z) : Prop := {
  fr_k : kmem_ok k l;
  fr_pde : ∀ d, 0 ≤ d < 1024 → word_at (memory k) (pg + 4 * d) = match tabs !! d with Some p => entry_of (p - KERNBASE) 6 | None => 0 end;
  fr_pages : l ++ tpages (tabs_from i tabs) ≡ₚ l0 ++ tpages tabs;
  fr_same : same_outside (tpages tabs) (memory k0) (memory k)
}.

Lemma wp_free_tables k0 pg tabs ents l0 o (Q : unit → kmem → Prop) E :
  tvm k0 pg tabs ents l0 o →
  (∀ k l, freeing k0 pg tabs l0 o 1024 k l → Q tt k) →
  wp (for_each (seqZ 0 NPDENTRIES) (fun i =>
    e ← load32 (pg + 4 * i);
    when (present e) (kfree kend (P2V (PTE_ADDR e))))) Q E k0.
Proof.
  intros T HQ. pose proof T as [H1 [P1 _ _ P4] H3 H4]. destruct (tvm_pg _ _ _ _ _ _ _ T) as (Hpg & Hpl & Hpt & _).
  eapply wp_mono; [apply (for_seqZ_wp (fun i k => ∃ l, freeing k0 pg tabs l0 o i k l)) | |done].
  - done.
  - exists l0. split; [done | done | | apply same_outside_refl].
    assert (Heq : tabs_from 0 tabs = tabs); [|by rewrite Heq]. apply map_eq. intros d. unfold tabs_from. rewrite map_lookup_filter.
    destruct (tabs !! d) as [p|] eqn:Hd; [|done]. cbn. rewrite option_guard_True; [done|]. by apply (P4 d p).
  - intros i' k Hi (l & [F1 F2 F3 F4]). change NPDENTRIES with 1024 in Hi. wp_step. apply wp_load32. rewrite F2 by lia.
    destruct (tabs !! i') as [p|] eqn:Hd.
    + destruct (tvm_table _ _ _ _ _ _ _ _ _ T Hd) as (Hp & Hpl0 & Hppg & _ & _). destruct (pde_parts kend p Hp) as [-> ->]. unfold when.
      assert (Hin : p ∈ tpages tabs) by (apply elem_of_tpages; by exists i').
      assert (Hnl : p ∉ l).
      { intros Hl. assert (Hnd : NoDup (l ++ tpages (tabs_from i' tabs))).
        { rewrite F3. apply NoDup_app in H3 as (N1 & N2 & N3). apply NoDup_cons in N3 as [_ N3]. apply NoDup_app in N3 as (N3 & _ & _).
          apply NoDup_app. split_and!; [done | | done]. intros q Hq Hq'. apply (N2 q Hq). set_solver. }
        apply NoDup_app in Hnd as (_ & Hd' & _). apply (Hd' p Hl). rewrite (tabs_from_some i' tabs p Hd). left. }
      apply (wp_mono _ _ _ _ _ _ (kfree_spec kend k l p F1 Hp Hnl)); [|done]. intros [] k' (Hk' & _ & Hm').
      assert (Hs' : same_outside [p] (memory k) (memory k')) by (intros x Hx; apply Hm', Hx; left).
      exists (p :: l). split; [done | | |].
      * intros d Hd'. rewrite <-F2 by done. apply (word_same kend [p]); [done | done | by constructor | | done].
        rewrite list_elem_of_singleton. congruence.
      * rewrite <-F3, (tabs_from_some i' tabs p Hd). by rewrite <-Permutation_middle.
      * eapply same_outside_trans; [exact F4 | exact Hs' |]. by intros q ->%list_elem_of_singleton.
    + change (present 0) with false. unfold when. wp_step. exists l. split; [done | done | by rewrite <-tabs_from_none | done].
  - intros [] k [l F]. by eapply HQ.
Qed.

Lemma freevm_spec k pg tabs ents l o :
  uvm k pg tabs ents l o →
  ∃ k' l', freevm kend pg k = Ok tt k' ∧ kmem_ok k' l' ∧ l' ≡ₚ l ++ pg :: tpages tabs ++ upages ents ∧
    same_outside l' (memory k) (memory k').
Proof.
  intros U. destruct (tvm_pg _ _ _ _ _ _ _ U) as (Hpg & Hpl & Hpt & Hpo). pose proof (page_bounds kend pg Hpg) as Hpb.
  assert (Hw : wpt (freevm kend pg) (fun _ k' => ∃ l', kmem_ok k' l' ∧ l' ≡ₚ l ++ pg :: tpages tabs ++ upages ents ∧
    same_outside l' (memory k) (memory k')) k).
  2:{ apply wpt_ok in Hw as ([] & k' & Hrun & l' & H). by exists k', l'. }
  unfold freevm. rewrite (proj2 (Z.eqb_neq pg 0)) by lia. wp_step.
  eapply wp_deallocuvm; [exact U | unfold KERNBASE; lia | lia|]. change (rup 0) with 0. intros k1 l1 U1 [S1 S2 S3].
  assert (Hup : upages (unmap 0 KERNBASE ents) = []).
  { apply upages_unmap_all. intros w e He. destruct (tb_dom _ _ _ _ (tv_tab _ _ _ _ _ _ _ U) w e He) as [[p Hp] _].
    destruct (tb_tdom _ _ _ _ (tv_tab _ _ _ _ _ _ _ U) _ _ Hp). dlia. }
  rewrite Hup, app_nil_r in S1. unfold uvm in U1. rewrite Hup in U1. cbn [app] in U1.
  wp_step. eapply wp_free_tables; [exact U1|]. intros k2 l2 [F1 F2 F3 F4].
  assert (Hlast : tabs_from 1024 tabs = ∅).
  { apply map_eq. intros d. rewrite lookup_empty. apply map_lookup_filter_None. right. intros p Hp. cbn.
    pose proof (tb_tdom _ _ _ _ (tv_tab _ _ _ _ _ _ _ U) _ _ Hp). lia. }
  rewrite Hlast in F3. unfold tpages at 1 in F3. rewrite map_to_list_empty, app_nil_r in F3.
  assert (Hp2 : l2 ≡ₚ l ++ tpages tabs ++ upages ents) by (rewrite F3, S1, <-app_assoc; by rewrite (Permutation_app_comm (upages ents))).
  assert (Hn2 : pg ∉ l2) by (rewrite Hp2; set_solver).
  apply (wp_mono _ _ _ _ _ _ (kfree_spec kend k2 l2 pg F1 Hpg Hn2)); [|done]. intros [] k3 (Hk3 & _ & Hm3).
  exists (pg :: l2). split; [done|]. split; [rewrite Hp2; by rewrite Permutation_middle|].
  assert (Hs : ∀ q, q ∈ tpages tabs ++ l1 → q ∈ pg :: l2).
  { intros q Hq. right. rewrite F3. set_solver. }
  intros x Hx. rewrite Hm3 by (apply Hx; left). rewrite F4 by (intros q Hq; apply Hx, Hs; set_solver). apply S3. intros q Hq. by apply Hx, Hs.
Qed.
(** C19: [freevm] gives back every page of the address space: the user's pages,
    the tables and the directory; it touches no other page. *)
Theorem freevm_correct k pg tabs ents l o :
  uvm k pg tabs ents l o →
  ∃ k' l', freevm kend pg k = Ok tt k' ∧ kmem_ok k' l' ∧ l' ≡ₚ l ++ pg :: tpages tabs ++ upages ents ∧
    same_outside l' (memory k) (memory k').
Proof. apply freevm_spec. Qed.
End user.

Lemma space_uvm : uvm sample_end space (space_page 2) space_tabs space_ents [space_page 0; space_page 1] [].
Proof.
  unfold uvm. assert (upages space_ents = [space_page 4]) as ->; [by vm_compute|]. exact space_tvm.
Qed.

Lemma sample_above : KERNBASE < sample_end.
Proof. by vm_compute. Qed.

Lemma deallocuvm_correct_witness :
  ∃ k' ents' l', deallocuvm sample_end (space_page 2) 4096 100 space = Ok (Z.min 4096 100) k' ∧
    uvm sample_end k' (space_page 2) space_tabs ents' l' [] ∧
    l' ++ upages ents' ≡ₚ [space_page 0; space_page 1] ++ upages space_ents ∧
    same_outside (tpages space_tabs ++ l') (memory space) (memory k') ∧
    ∀ w, ents' !! w = if decide (100 ≤ 4096 * w < 4096) then None else space_ents !! w.
Proof.
  apply (deallocuvm_correct sample_end sample_above space (space_page 2) space_tabs space_ents [space_page 0; space_page 1] [] 4096 100 space_uvm);
    unfold KERNBASE; lia.
Defined.


Lemma freevm_correct_witness :
  ∃ k' l', freevm sample_end (space_page 2) space = Ok tt k' ∧ kmem_ok sample_end k' l' ∧
    l' ≡ₚ [space_page 0; space_page 1] ++ space_page 2 :: tpages space_tabs ++ upages space_ents ∧
    same_outside l' (memory space) (memory k').
Proof.
  apply (freevm_correct sample_end sample_above space (space_page 2) space_tabs space_ents [space_page 0; space_page 1] [] space_uvm).
Defined.
