(* ===== verification/VmCopy.v ===== *)
(** * New address spaces and copies (vm.c: setupkvm, copyuvm)

    [setupkvm] maps the kernel and nothing of the user; [copyuvm] makes an
    address space with the same contents in pages of its own. *)
From stdpp Require Import gmap.
From S2P Require Import Prelude Spinlock Bytes Kalloc Vm VmTable VmUser.

(** Membership in lists built by [::] and [++]. *)
Ltac in_list := intros; repeat match goal with
  | H : context [_ ∈ _] |- _ => progress rewrite ?elem_of_cons, ?elem_of_app in H
  | _ => progress rewrite ?elem_of_cons, ?elem_of_app
  end; tauto.

Section copy.
Context (kend kdata : Z) (Hkend : KERNBASE < kend).
(** [data] begins a page of the kernel image. *)
Context (Hdata : kdata mod 4096 = 0 ∧ KERNLINK < kdata < KERNBASE + PHYSTOP).
Abbreviation page_ok := (page_ok kend).
Abbreviation kmem_ok := (kmem_ok kend).
Abbreviation tvm := (tvm kend).
Abbreviation uvm := (uvm kend).
Implicit Types (k : kmem) (m : bytemem) (pg v : Z) (tabs ents : gmap Z Z) (l o : list Z).

(** ** setupkvm *)
Lemma tvm_fresh k k1 pg l o :
  kmem_ok k (pg :: l) → memory k1 = memory k → kmem_ok k1 l → NoDup (l ++ pg :: o) → Forall page_ok (pg :: o) →
  tvm (k1 <| memory := fill (memory k1) pg 0 PGSIZE |>) pg ∅ ∅ l o ∧ same_outside [pg] (memory k) (fill (memory k1) pg 0 PGSIZE).
Proof.
  intros Hk Hm Hk1 Hnd Hp. assert (Hs : same_outside [pg] (memory k1) (fill (memory k1) pg 0 PGSIZE)) by apply same_fill.
  split; [|by rewrite Hm in *]. pose proof Hp as Hpg. apply Forall_cons in Hpg as [Hpg _]. split.
  - eapply kmem_ok_mem; [done | exact Hs | by constructor|]. intros p ->%list_elem_of_singleton Hl.
    apply NoDup_app in Hnd as (_ & Hd & _). apply (Hd pg Hl). left.
  - cbn [memory update_field]. split; [| done | done | done].
    intros d Hd. rewrite lookup_empty. unfold word_at. rewrite !fill_in by (unfold PGSIZE; lia). done.
  - done.
  - apply Forall_app. split; [|done]. apply Forall_forall. intros p Hpl. by eapply chain_pages; [apply Hk1|].
Qed.

(** The kernel half of every address space: physical memory from [KERNBASE]
    on and the devices, not for the user. *)
Definition kernel_only (ents : gmap Z Z) : Prop :=
  (∀ w, w < 2 ^ 19 → ents !! w = None) ∧
  (∀ w, KERNBASE ≤ 4096 * w < KERNBASE + PHYSTOP → ∃ perm, (perm = 0 ∨ perm = PTE_W) ∧
     ents !! w = Some (entry_of (4096 * w - KERNBASE) perm)) ∧
  (∀ w, DEVSPACE ≤ 4096 * w < 2 ^ 32 → ents !! w = Some (entry_of (4096 * w) PTE_W)).

(** The four rows of [kmap] in pages. *)
Definition rows : list (Z * nat * Z * Z) :=
  [ (2 ^ 19, 256%nat, 0, PTE_W);
    (2 ^ 19 + 256, Z.to_nat ((kdata - KERNLINK) / 4096), EXTMEM, 0);
    (kdata / 4096, Z.to_nat ((KERNBASE + PHYSTOP - kdata) / 4096), kdata - KERNBASE, PTE_W);
    (DEVSPACE / 4096, Z.to_nat 8192, DEVSPACE, PTE_W) ].
Definition add_row (r : Z * nat * Z * Z) (ents : gmap Z Z) : gmap Z Z :=
  let '(v, n, pa, perm) := r in map_range n v pa perm ents.
Definition all_rows : gmap Z Z := foldl (fun e r => add_row r e) ∅ rows.

Lemma all_rows_eq : all_rows =
  map_range (Z.to_nat 8192) (DEVSPACE / 4096) DEVSPACE PTE_W
    (map_range (Z.to_nat ((KERNBASE + PHYSTOP - kdata) / 4096)) (kdata / 4096) (kdata - KERNBASE) PTE_W
      (map_range (Z.to_nat ((kdata - KERNLINK) / 4096)) (2 ^ 19 + 256) EXTMEM 0
        (map_range 256 (2 ^ 19) 0 PTE_W ∅))).
Proof. unfold all_rows, rows. cbn [foldl add_row]. reflexivity. Qed.

Lemma lookup_all_rows w : all_rows !! w =
  if decide (DEVSPACE ≤ 4096 * w < 2 ^ 32) then Some (entry_of (4096 * w) PTE_W)
  else if decide (kdata ≤ 4096 * w < KERNBASE + PHYSTOP) then Some (entry_of (4096 * w - KERNBASE) PTE_W)
  else if decide (KERNLINK ≤ 4096 * w < kdata) then Some (entry_of (4096 * w - KERNBASE) 0)
  else if decide (KERNBASE ≤ 4096 * w < KERNLINK) then Some (entry_of (4096 * w - KERNBASE) PTE_W) else None.
Proof.
  destruct Hdata as [Hal Hr]. rewrite all_rows_eq, !lookup_map_range, lookup_empty.
  unfold KERNLINK, KERNBASE, EXTMEM, PHYSTOP, DEVSPACE in *. change (254 * 2 ^ 24 / 4096) with 1040384.
  assert (E1 : Z.of_nat (Z.to_nat ((2 ^ 31 + 14 * 2 ^ 24 - kdata) / 4096)) = (2 ^ 31 + 14 * 2 ^ 24 - kdata) / 4096) by dlia.
  assert (E2 : Z.of_nat (Z.to_nat ((kdata - (2 ^ 31 + 2 ^ 20)) / 4096)) = (kdata - (2 ^ 31 + 2 ^ 20)) / 4096) by dlia.
  rewrite E1, E2. clear E1 E2. set (q := kdata / 4096). assert (Hq : kdata = 4096 * q) by dlia.
  assert (F1 : (2 ^ 31 + 14 * 2 ^ 24 - kdata) / 4096 = 581632 - q) by dlia.
  assert (F2 : (kdata - (2 ^ 31 + 2 ^ 20)) / 4096 = q - 524544) by dlia.
  rewrite F1, F2. rewrite (Z2Nat.id 8192) by lia. change (Z.of_nat 256) with 256.
  repeat case_decide; try lia; try (do 2 f_equal; lia).
Qed.

Lemma all_rows_kernel : kernel_only all_rows.
Proof.
  destruct Hdata as [Hal Hr]. unfold kernel_only, KERNLINK, KERNBASE, EXTMEM, PHYSTOP, DEVSPACE in *. split_and!.
  - intros w Hw. rewrite lookup_all_rows. unfold KERNLINK, KERNBASE, EXTMEM, PHYSTOP, DEVSPACE. repeat case_decide; try lia. done.
  - intros w Hw. rewrite lookup_all_rows. unfold KERNLINK, KERNBASE, EXTMEM, PHYSTOP, DEVSPACE. repeat case_decide; try lia.
    + exists PTE_W. by split; [right|].
    + exists 0. by split; [left|].
    + exists PTE_W. by split; [right|].
  - intros w Hw. rewrite lookup_all_rows. rewrite decide_True; [done|]. unfold DEVSPACE. lia.
Qed.

(** One row of the table; [rest] are the rows that follow. *)
Lemma wp_row pg l0 k0 v (n : nat) virt start end_ pa perm rest tabs ents k l o (Q : option Z → kmem → Prop) E :
  tvm k pg tabs ents l o → grown k0 pg ∅ l0 k tabs l → virt = 4096 * v → u32 (end_ - start) = 4096 * Z.of_nat n → start = pa →
  2 ^ 19 ≤ v → v + Z.of_nat n ≤ 2 ^ 20 → (0 < n)%nat → pa mod 4096 = 0 → 0 ≤ pa → pa + 4096 * Z.of_nat n ≤ 2 ^ 32 → 0 ≤ perm < 4096 →
  (∀ w, v ≤ w < v + Z.of_nat n → ents !! w = None) →
  (∀ k', kmem_ok k' [] → same_outside (pg :: tpages ∅ ++ l0) (memory k0) (memory k') → Q (Some 0) k') →
  (∀ k' tabs' l', tvm k' pg tabs' (map_range n v pa perm ents) l' o → grown k0 pg ∅ l0 k' tabs' l' →
     wp (for_list rest (fun '(virt, phys_start, phys_end, perm) =>
       v ← mappages pg virt (u32 (phys_end - phys_start)) phys_start perm;
       mret (if v <? 0 then Some 0 else None))) Q E k') →
  wp (for_list ((virt, start, end_, perm) :: rest) (fun '(virt, phys_start, phys_end, perm) =>
       v ← mappages pg virt (u32 (phys_end - phys_start)) phys_start perm;
       mret (if v <? 0 then Some 0 else None))) Q E k.
Proof.
  intros T G -> Hsz -> Hv Hvn Hn Hpa Hpa0 Hpab Hperm Hnone HF HS. cbn [for_list]. wp_step. rewrite Hsz. wp_step.
  eapply wp_mappages; [exact T | lia | lia | exact Hn | exact Hpa | exact Hpa0 | exact Hpab | exact Hperm | exact Hnone | |].
  - intros j k' tabs' _ T' G'. wp_step. rewrite (proj2 (Z.ltb_lt (-1) 0)) by lia. wp_step. apply HF; [apply T' | by apply (grown_trans _ _ _ _ _ _ _ _ _ _ G G')].
  - intros k' tabs' l' T' G'. wp_step. rewrite (proj2 (Z.ltb_ge 0 0)) by lia.
    apply (HS k' tabs' l'); [exact T' | by eapply grown_trans].
Qed.

(** What [setupkvm] leaves when it fails: nothing free. *)
Lemma wp_setupkvm k l o (Q : Z → kmem → Prop) E :
  kmem_ok k l → NoDup (l ++ o) → Forall page_ok o →
  (∀ k', kmem_ok k' [] → same_outside l (memory k) (memory k') → Q 0 k') →
  (∀ k' pg l1 tabs l', l = pg :: l1 → tvm k' pg tabs all_rows l' o → l' ++ tpages tabs ≡ₚ l1 →
     same_outside l (memory k) (memory k') → Q pg k') →
  wp (setupkvm kdata) Q E k.
Proof.
  intros Hk Hnd Ho HF HS. unfold setupkvm. wp_step. eapply (wp_kalloc kend); [exact Hk|]. intros k1 Hm1 Hk1.
  destruct l as [|pg l]; cbn [hd tl] in *; [rewrite Z.eqb_refl; wp_step; apply HF; [done | by rewrite Hm1]|].
  assert (Hpg : page_ok pg) by (eapply chain_pages; [apply Hk | left]). pose proof (page_bounds kend pg Hpg) as Hpb.
  rewrite (proj2 (Z.eqb_neq pg 0)) by lia. unfold fill_page. wp_step. wp_step.
  destruct (tvm_fresh k k1 pg l o Hk Hm1 Hk1) as [T Hs]; [by rewrite <-Permutation_middle | by constructor|].
  change (P2V PHYSTOP >? DEVSPACE) with false. cbv iota. wp_step.
  set (k2 := k1 <| memory := fill (memory k1) pg 0 PGSIZE |>) in *. pose proof (grown_refl k2 pg ∅ l) as G.
  assert (Hlong : ∀ m', same_outside (pg :: tpages ∅ ++ l) (memory k2) m' → same_outside (pg :: l) (memory k) m').
  { intros m' Hm'. eapply same_outside_trans; [eapply same_outside_mono; [exact Hs|] | exact Hm'|].
    - intros p ->%list_elem_of_singleton. left.
    - unfold tpages. by rewrite map_to_list_empty. }
  assert (HF' : ∀ k', kmem_ok k' [] → same_outside (pg :: tpages ∅ ++ l) (memory k2) (memory k') → wp (mret (default pg (Some 0))) Q E k').
  { intros k' H Hm'. wp_step. apply HF; [done | by apply Hlong]. }
  pose proof Hdata as [Hal Hr]. unfold kmap.
  assert (HV : V2P KERNLINK = EXTMEM ∧ V2P kdata = kdata - KERNBASE).
  { unfold V2P, KERNLINK, KERNBASE, EXTMEM, PHYSTOP in *. rewrite (u32_id kdata), (u32_id (kdata - 2 ^ 31)) by lia. done. }
  destruct HV as [HV1 HV2]. rewrite HV1, HV2. unfold KERNLINK, KERNBASE, EXTMEM, PHYSTOP in Hr.
  eapply (wp_row pg l k2 (2 ^ 19) 256); [exact T | exact G | by vm_compute | by vm_compute | reflexivity | lia | lia | lia | done | lia | lia | unfold PTE_W; lia | intros; apply lookup_empty | exact HF' |].
  intros k3 tabs3 l3 T3 G3.
  eapply (wp_row pg l k2 (2 ^ 19 + 256) (Z.to_nat ((kdata - KERNLINK) / 4096)));
    [exact T3 | exact G3 | done | | reflexivity | lia | unfold KERNLINK, KERNBASE, EXTMEM; dlia | unfold KERNLINK, KERNBASE, EXTMEM; dlia
    | done | unfold EXTMEM; lia | unfold KERNLINK, KERNBASE, EXTMEM; dlia | lia | | exact HF' |].
  { unfold KERNLINK, KERNBASE, EXTMEM. rewrite u32_id by lia. dlia. }
  { intros w Hw. rewrite lookup_map_range, decide_False by lia. apply lookup_empty. }
  intros k4 tabs4 l4 T4 G4.
  eapply (wp_row pg l k2 (kdata / 4096) (Z.to_nat ((KERNBASE + PHYSTOP - kdata) / 4096)));
    [exact T4 | exact G4 | dlia | | reflexivity | dlia | unfold KERNBASE, PHYSTOP; dlia | unfold KERNBASE, PHYSTOP; dlia
    | unfold KERNBASE; dlia | unfold KERNBASE; lia | unfold KERNBASE, PHYSTOP; dlia | unfold PTE_W; lia | | exact HF' |].
  { unfold KERNBASE, PHYSTOP. rewrite u32_id by lia. dlia. }
  { intros w Hw. rewrite !lookup_map_range, lookup_empty. unfold KERNLINK, KERNBASE, EXTMEM, PHYSTOP in *. repeat case_decide; try done; dlia. }
  intros k5 tabs5 l5 T5 G5.
  eapply (wp_row pg l k2 (DEVSPACE / 4096) (Z.to_nat 8192)); rewrite ?(Z2Nat.id 8192) by lia; [exact T5 | exact G5 | by vm_compute | by vm_compute | reflexivity | by vm_compute | by vm_compute | lia | done
    | by vm_compute | by vm_compute | unfold PTE_W; lia | | exact HF' |].
  { intros w Hw. rewrite !lookup_map_range, lookup_empty. unfold DEVSPACE, KERNLINK, KERNBASE, EXTMEM, PHYSTOP in *.
    change (254 * 2 ^ 24 / 4096) with 1040384 in Hw. repeat case_decide; try done; dlia. }
  intros k6 tabs6 l6 T6 [G1 G2 G3']. cbn [for_list]. wp_step. wp_step. cbn [default].
  eapply (HS k6 pg l tabs6 l6); [done | rewrite all_rows_eq; exact T6 | | by apply Hlong].
  rewrite G2. unfold tpages. by rewrite map_to_list_empty, app_nil_r.
Qed.

#[local] Opaque all_rows.

(** ** Mapping one user page that is filled already *)
Lemma wp_map_user k pg tabs ents q l o v perm (Q : Z → kmem → Prop) E :
  tvm k pg tabs ents l (q :: upages ents ++ o) → 0 ≤ v < 2 ^ 19 → ents !! v = None → 0 ≤ perm < 4096 →
  (∀ k' tabs', tvm k' pg tabs' ents [] (q :: upages ents ++ o) → grown k pg tabs l k' tabs' [] → Q (-1) k') →
  (∀ k' tabs' l', uvm k' pg tabs' (<[v := entry_of (q - KERNBASE) perm]> ents) l' o → grown k pg tabs l k' tabs' l' → Q 0 k') →
  wp (mappages pg (4096 * v) PGSIZE (V2P q) perm) Q E k.
Proof.
  intros T Hv Hnone Hperm HF HS.
  assert (Hq : page_ok q) by (pose proof (tv_pages _ _ _ _ _ _ _ T) as H; rewrite Forall_forall in H; apply H; set_solver).
  destruct (page_phys kend q Hq) as (-> & E1 & E2 & E3 & _). change PGSIZE with (4096 * Z.of_nat 1).
  eapply (wp_mappages kend _ pg tabs ents l _ v 1 (q - KERNBASE) perm); [exact T | lia | lia | lia | done | done | lia | done | | |].
  - intros w Hw. by replace w with v by lia.
  - intros j k' tabs' Hj T' G. assert (j = 0%nat) as -> by lia. cbn [map_range] in T'. by eapply HF.
  - intros k' tabs' l' T' G. cbn [map_range] in T'. eapply HS; [|exact G]. eapply tvm_perm; [|exact T'].
    rewrite upages_insert by (done || lia). by rewrite (upage_entry kend) by done.
Qed.

(** ** copyuvm *)
Section copying.
Context (k0 : kmem) (pg : Z) (tabs ents : gmap Z Z) (l0 o : list Z).

(** The pages of the parent. *)
Definition owned : list Z := pg :: tpages tabs ++ upages ents.

Record copying (v : Z) (k : kmem) (d : Z) (dtabs dents : gmap Z Z) (l : list Z) : Prop := {
  cp_uvm : uvm k d dtabs dents l (owned ++ o);
  cp_tab : tables (memory k) pg tabs ents;
  cp_same : same_outside l0 (memory k0) (memory k);
  cp_kern : ∀ w, 2 ^ 19 ≤ w → dents !! w = all_rows !! w;
  cp_none : ∀ w, ¬ (0 ≤ w < v) → w < 2 ^ 19 → dents !! w = None;
  cp_copy : ∀ w, 0 ≤ w < v → ∃ e q, ents !! w = Some e ∧ dents !! w = Some (entry_of (q - KERNBASE) (PTE_FLAGS e)) ∧ q ∈ l0 ∧
    ∀ i, 0 ≤ i < 4096 → memory k (q + i) = memory k0 (upage e + i);
  cp_sub : ∀ p, p ∈ l ++ d :: tpages dtabs ++ upages dents → p ∈ l0
}.

(** The same memory seen from the parent. *)
Lemma parent_view k d dtabs dents l o1 o2 :
  tvm k d dtabs dents l o1 → o1 ≡ₚ pg :: tpages tabs ++ o2 → tables (memory k) pg tabs ents →
  tvm k pg tabs ents l (d :: tpages dtabs ++ o2).
Proof.
  intros [H1 H2 H3 H4] Hp Ht.
  assert (Hperm : l ++ pg :: tpages tabs ++ d :: tpages dtabs ++ o2 ≡ₚ l ++ d :: tpages dtabs ++ o1).
  { f_equiv. rewrite Hp, <-!Permutation_middle. rewrite (perm_swap d pg). do 2 f_equiv.
    rewrite !(assoc_L (++)). f_equiv. apply Permutation_app_comm. }
  split; [done | done | by rewrite Hperm | by rewrite Hperm].
Qed.

Lemma cp_parent v k d dtabs dents l :
  copying v k d dtabs dents l → tvm k pg tabs ents l (d :: tpages dtabs ++ upages ents ++ upages dents ++ o).
Proof.
  intros C. eapply parent_view; [apply C | | apply C]. unfold owned. rewrite (Permutation_app_comm (upages dents)). cbn [app].
  f_equiv. rewrite <-!app_assoc. f_equiv. f_equiv. apply Permutation_app_comm.
Qed.

Lemma flags_present e : present e = true → Z.lor (PTE_FLAGS e) 1 = PTE_FLAGS e ∧ 0 ≤ PTE_FLAGS e < 4096.
Proof.
  intros Hp. rewrite PTE_FLAGS_eq. split; [|apply Z.mod_pos_bound; lia]. rewrite present_eq in Hp.
  apply Z.bits_inj'. intros i Hi. rewrite Z.lor_spec. change 4096 with (2 ^ 12). destruct (decide (i = 0)) as [->|Hne].
  - rewrite Z.mod_pow2_bits_low by lia. by rewrite Z.bit0_odd, Hp.
  - change 1 with (2 ^ 0). rewrite Z.pow2_bits_false by lia. by rewrite orb_false_r.
Qed.

Lemma moved_in m dst src n x : dst ≤ x < dst + n → moved m dst src n x = m (src + (x - dst)).
Proof. intros H. unfold moved. by rewrite (proj2 (Z.leb_le dst x)), (proj2 (Z.ltb_lt x (dst + n))) by lia. Qed.

Lemma same_moved m dst src : same_outside [dst] m (moved m dst src PGSIZE).
Proof.
  intros x Hx. unfold moved. destruct (Z.leb_spec dst x), (Z.ltb_spec x (dst + PGSIZE)); cbn [andb]; try done.
  destruct (Hx dst); [left | done].
Qed.

Context (U0 : uvm k0 pg tabs ents l0 o).

Lemma initial_pages : Forall page_ok l0 ∧ NoDup l0.
Proof.
  pose proof (tv_pages _ _ _ _ _ _ _ U0) as Hp. pose proof (tv_nodup _ _ _ _ _ _ _ U0) as Hn.
  apply Forall_app in Hp as [? _]. by apply NoDup_app in Hn as [? _].
Qed.

(** Pages of the parent are not touched by writes to pages that were free. *)
Lemma parent_same m m' p x :
  same_outside l0 m m' → p ∈ upages ents → in_page p x → m' x = m x.
Proof.
  intros Hs Hp Hx. destruct (uvm_pages kend Hkend _ _ _ _ _ _ _ U0 Hp) as (Hpo & Hpl & _). destruct initial_pages.
  by apply (page_same kend l0 m m' p x).
Qed.

Lemma parent_tables m m' : tables m pg tabs ents → same_outside l0 m m' → tables m' pg tabs ents.
Proof.
  intros Ht Hs. destruct (tvm_pg _ _ _ _ _ _ _ U0) as (Hpg & Hpl & _). destruct initial_pages as [Hl0 _].
  apply (tables_frame kend l0 m); [done | done | done | done | | done |].
  - apply Forall_forall. intros p [d Hd]%elem_of_tpages. by apply (tvm_table _ _ _ _ _ _ _ _ _ U0 Hd).
  - intros p [d Hd]%elem_of_tpages. by apply (tvm_table _ _ _ _ _ _ _ _ _ U0 Hd).
Qed.

(** After a page was filled and mapped. *)
Lemma copying_step v k d dtabs dents q l e k2 k3 dtabs' l' :
  copying v k d dtabs dents (q :: l) → 0 ≤ v < 2 ^ 19 → ents !! v = Some e → page_ok q → q ∉ d :: tpages dtabs ++ l →
  memory k2 = moved (memory k) q (upage e) PGSIZE → grown k2 d dtabs l k3 dtabs' l' → PTE_FLAGS e < 4096 ∧ 0 ≤ PTE_FLAGS e →
  uvm k3 d dtabs' (<[v := entry_of (q - KERNBASE) (PTE_FLAGS e)]> dents) l' (owned ++ o) →
  copying (v + 1) k3 d dtabs' (<[v := entry_of (q - KERNBASE) (PTE_FLAGS e)]> dents) l'.
Proof.
  intros C Hv He Hq Hqn Hm2 [G1 G2 G3] Hfl U3. pose proof C as [C1 C2 C3 C4 C5 C6 C7].
  assert (Hql0 : q ∈ l0) by (apply C7; in_list).
  assert (Hs : same_outside (d :: tpages dtabs ++ q :: l) (memory k) (memory k3)).
  { eapply same_outside_trans; [|exact G3 | in_list]. rewrite Hm2. eapply same_outside_mono; [apply same_moved|].
    intros p ->%list_elem_of_singleton. in_list. }
  assert (Hin : ∀ p, p ∈ d :: tpages dtabs ++ q :: l → p ∈ l0) by (intros p Hp; apply C7; revert Hp; in_list).
  assert (Hs0 : same_outside l0 (memory k) (memory k3)) by (by eapply same_outside_mono).
  assert (Hpgs : Forall page_ok (d :: tpages dtabs ++ q :: l)).
  { apply Forall_forall. intros p Hp. destruct initial_pages as [Hl0 _]. rewrite Forall_forall in Hl0. by apply Hl0, Hin. }
  assert (Hup : upages (<[v := entry_of (q - KERNBASE) (PTE_FLAGS e)]> dents) ≡ₚ q :: upages dents).
  { rewrite upages_insert by (lia || apply C5; lia). by rewrite (upage_entry kend) by (done || lia). }
  split; [exact U3 | by eapply parent_tables | by eapply same_outside_trans | | | |].
  - intros w Hw. rewrite lookup_insert_ne by lia. by apply C4.
  - intros w Hw Hw'. rewrite lookup_insert_ne by lia. apply C5; lia.
  - intros w Hw. destruct (decide (w = v)) as [->|Hne].
    + exists e, q. split; [done|]. split; [by rewrite lookup_insert_eq|]. split; [done|]. intros i Hi.
      assert (Hx : in_page q (q + i)) by (unfold in_page, PGSIZE; lia).
      rewrite (page_same kend _ _ _ q _ G3 Hq); [| |done|done].
      * rewrite Hm2, moved_in by (unfold PGSIZE; lia). replace (upage e + (q + i - q)) with (upage e + i) by lia.
        apply (parent_same _ _ (upage e)); [done | apply elem_of_upages; exists v, e; split_and!; [done | lia | done] | unfold in_page, PGSIZE; lia].
      * rewrite Forall_forall in Hpgs |- *. intros p Hp. apply Hpgs. revert Hp. in_list.
    + destruct (C6 w ltac:(lia)) as (e' & q' & E1 & E2 & E3 & E4). exists e', q'. split; [done|]. split; [by rewrite lookup_insert_ne|].
      split; [done|]. intros i Hi. rewrite <-E4 by done.
      assert (Hq' : q' ∈ upages dents).
      { apply elem_of_upages. exists w, (entry_of (q' - KERNBASE) (PTE_FLAGS e')). split_and!; [done | lia|]. symmetry.
        apply (upage_entry kend); [destruct initial_pages as [Hl0 _]; by eapply Forall_forall | rewrite PTE_FLAGS_eq; apply Z.mod_pos_bound; lia]. }
      destruct (uvm_pages kend Hkend _ _ _ _ _ _ _ C1 Hq') as (Hq'o & F1 & F2 & F3 & _).
      apply (page_same kend _ _ _ q' _ Hs Hq'o Hpgs); [revert F1 F2 F3; in_list | unfold in_page, PGSIZE; lia].
  - intros p. rewrite Hup. intros Hp. assert (Hp' : p = d ∨ p = q ∨ p ∈ upages dents ∨ p ∈ l' ++ tpages dtabs') by (revert Hp; in_list).
    rewrite G2 in Hp'. apply C7. revert Hp'. in_list.
Qed.

(** What is left when the copy fails: the child's pages, and perhaps one page
    that nobody has. *)
Record failed (k : kmem) (d : Z) : Prop := {
  fl_uvm : ∃ dtabs dents l x, uvm k d dtabs dents l x ∧ ∀ p, p ∈ l ++ d :: tpages dtabs ++ upages dents → p ∈ l0;
  fl_same : same_outside l0 (memory k0) (memory k)
}.

Lemma wp_copyuvm_loop fuel v k d dtabs dents l sz (Q : bool → kmem → Prop) E :
  copying v k d dtabs dents l → 0 ≤ v → 4096 * v ≤ KERNBASE → sz ≤ KERNBASE → sz - 4096 * v ≤ 4096 * Z.of_nat fuel →
  4096 * (v - 1) < sz ∨ v = 0 →
  (∀ k', failed k' d → Q false k') →
  (∀ v' k' dtabs' dents' l', copying v' k' d dtabs' dents' l' → sz ≤ 4096 * v' → 4096 * (v' - 1) < sz ∨ v' = 0 → Q true k') →
  (∀ w k' msg, 0 ≤ w → 4096 * w < sz → ents !! w = None → E (Panic msg) k') →
  wp (copyuvm_loop fuel pg d (4096 * v) sz) Q E k.
Proof.
  revert v k dtabs dents l. induction fuel as [|fuel IH]; intros v k dtabs dents l C Hv Hvk Hsz Hfuel Hlast HF HS HE; cbn [copyuvm_loop].
  { rewrite (proj2 (Z.ltb_ge _ _)) by lia. wp_step. eapply HS; [exact C | lia | done]. }
  destruct (Z.ltb_spec (4096 * v) sz) as [Hlt|Hge]; [|wp_step; by eapply HS]. unfold KERNBASE in Hvk, Hsz.
  pose proof (cp_parent _ _ _ _ _ _ C) as TP. assert (Hdiv : 4096 * v / 4096 = v) by dlia.
  wp_step. eapply wp_walk; [exact TP | lia|]. rewrite Hdiv.
  destruct (Z.eqb_spec (slot tabs v) 0) as [Hs|Hs].
  { wp_step. apply (HE v); [done | done|]. pose proof (proj1 (slot_nonzero _ _ _ _ _ _ _ _ TP) Hs) as Hnone.
    destruct (ents !! v) as [e|] eqn:He; [|done]. destruct (tb_dom _ _ _ _ (tv_tab _ _ _ _ _ _ _ TP) v e He) as [[p Hp] _]. congruence. }
  wp_step. apply wp_load32. rewrite (slot_word _ _ _ _ _ _ _ _ TP Hs). destruct (ents !! v) as [e|] eqn:He; cbn [default from_option id].
  2:{ change (present 0) with false. cbn [negb]. wp_step. by apply (HE v). }
  destruct (tb_dom _ _ _ _ (tv_tab _ _ _ _ _ _ _ TP) v e He) as (_ & Her & Hpr). rewrite Hpr. cbn [negb]. cbv zeta.
  destruct (flags_present e Hpr) as [_ Hfl]. fold (upage e).
  wp_step. pose proof C as [C1 C2 C3 C4 C5 C6 C7]. eapply (wp_kalloc kend); [apply C1|]. intros k1 Hm1 Hk1.
  destruct l as [|q l]; cbn [hd tl] in *.
  { rewrite Z.eqb_refl. wp_step. apply HF. split; [|by rewrite Hm1].
    exists dtabs, dents, [], (owned ++ o). split; [eapply tvm_kmem; [exact C1 | done | done] | exact C7]. }
  assert (Hq : page_ok q) by (pose proof (tv_pages _ _ _ _ _ _ _ C1) as H; by apply Forall_cons in H as [? _]).
  assert (Hqn : q ∉ d :: tpages dtabs ++ l).
  { pose proof (tv_nodup _ _ _ _ _ _ _ C1) as H. apply NoDup_cons in H as [H _]. revert H. in_list. }
  pose proof (page_bounds kend q Hq) as Hqb. rewrite (proj2 (Z.eqb_neq q 0)) by lia. unfold move. wp_step. wp_step.
  pose proof (tvm_take _ _ _ _ _ _ _ _ _ C1 Hm1 Hk1) as T1. rewrite Hm1.
  assert (T2 := tvm_poke kend Hkend k1 d dtabs dents l q _ (moved (memory k) q (upage e) PGSIZE) T1 ltac:(left)
    ltac:(rewrite Hm1; apply same_moved)).
  wp_step. eapply (wp_map_user _ d dtabs dents q l (owned ++ o) v (PTE_FLAGS e)); [exact T2 | lia | apply C5; lia | done | |].
  - intros k' dtabs' T' [G1 G2 G3]. rewrite (proj2 (Z.ltb_lt (-1) 0)) by lia. wp_step. apply HF. split.
    + exists dtabs', dents, [], (q :: owned ++ o). split; [eapply tvm_perm; [|exact T']; by rewrite Permutation_middle|].
      intros p Hp. assert (Hp' : p = d ∨ p ∈ upages dents ∨ p ∈ [] ++ tpages dtabs') by (revert Hp; in_list). rewrite G2 in Hp'. apply C7. revert Hp'. in_list.
    + apply (same_outside_trans _ l0 _ (memory k)); [exact C3 | | done]. eapply (same_outside_trans _ (d :: tpages dtabs ++ l)); [| exact G3 | intros p Hp; apply C7; revert Hp; in_list].
      cbn [memory update_field]. eapply same_outside_mono; [apply same_moved|]. intros p ->%list_elem_of_singleton. apply C7. in_list.
  - intros k' dtabs' l' U' G'. rewrite (proj2 (Z.ltb_ge 0 0)) by lia.
    assert (Hnx : u32 (4096 * v + PGSIZE) = 4096 * (v + 1)) by (unfold PGSIZE; rewrite u32_id by lia; lia). rewrite Hnx.
    eapply IH; [eapply (copying_step _ _ _ _ _ _ _ _ (k1 <| memory := moved (memory k) q (upage e) PGSIZE |>) _ _ _ C); [lia | exact He | exact Hq | exact Hqn | reflexivity | exact G' | lia | exact U'] | lia | unfold KERNBASE; lia | unfold KERNBASE; lia | lia | left; lia | done | done | done].
Qed.

Lemma upages_all_rows : upages all_rows = [].
Proof.
  destruct all_rows_kernel as (Hn & _). unfold upages, uents. replace (filter _ all_rows) with (∅ : gmap Z Z); [by rewrite map_to_list_empty|].
  symmetry. apply map_empty. intros w. rewrite map_lookup_filter. destruct (all_rows !! w) as [e|] eqn:He; cbn; [|done].
  rewrite option_guard_False; [done|]. cbn. intros Hw. rewrite Hn in He by lia. done.
Qed.

Lemma copying_start k1 d l1 dtabs l' :
  l0 = d :: l1 → tvm k1 d dtabs all_rows l' (owned ++ o) → l' ++ tpages dtabs ≡ₚ l1 →
  same_outside l0 (memory k0) (memory k1) → copying 0 k1 d dtabs all_rows l'.
Proof.
  intros El0 T1 Hl' Hs1. pose proof U0 as [_ Ht _ _]. split.
  - unfold uvm. by rewrite upages_all_rows.
  - by eapply parent_tables.
  - done.
  - done.
  - intros w _ Hw. destruct all_rows_kernel as (Hn & _). apply Hn. lia.
  - intros w Hw. lia.
  - intros p. rewrite upages_all_rows, app_nil_r, El0, <-Hl'. in_list.
Qed.

(** [copyuvm] from the state the section describes. *)
Lemma wp_copyuvm sz (Q : Z → kmem → Prop) E :
  0 ≤ sz ≤ KERNBASE →
  (∀ k' l', kmem_ok k' l' → (∀ p, p ∈ l' → p ∈ l0) → same_outside l0 (memory k0) (memory k') → Q 0 k') →
  (∀ v k' d dtabs dents l', d ∈ l0 → copying v k' d dtabs dents l' → sz ≤ 4096 * v → 4096 * (v - 1) < sz ∨ v = 0 → Q d k') →
  (∀ w k' msg, 0 ≤ w → 4096 * w < sz → ents !! w = None → E (Panic msg) k') →
  wp (copyuvm kend kdata pg sz) Q E k0.
Proof.
  intros Hsz HF HS HE. pose proof U0 as [K1 K2 K3 K4].
  assert (Hown : owned ++ o = pg :: tpages tabs ++ upages ents ++ o) by (unfold owned; cbn [app]; by rewrite <-app_assoc).
  unfold copyuvm. wp_step. eapply (wp_setupkvm k0 l0 (owned ++ o)); [exact K1 | by rewrite Hown | rewrite Hown; by apply Forall_app in K4 as [_ ?] | |].
  { intros k' Hk' Hs'. rewrite Z.eqb_refl. wp_step. apply (HF k' []); [done | by intros p Hp%elem_of_nil | done]. }
  intros k1 d l1 dtabs l' El0 T1 Hl' Hs1.
  assert (Hd : page_ok d) by (apply (tvm_pg _ _ _ _ _ _ _ T1)). pose proof (page_bounds kend d Hd) as Hdb.
  assert (Hdl : d ∈ l0) by (rewrite El0; left).
  rewrite (proj2 (Z.eqb_neq d 0)) by lia. wp_step. change 0 with (4096 * 0) at 2.
  unfold KERNBASE in Hsz. eapply (wp_copyuvm_loop _ 0); [by eapply copying_start | lia | unfold KERNBASE; lia | unfold KERNBASE; lia | unfold PGSIZE; dlia | by right | | |].
  - intros k' [(dtabs' & dents & l2 & x & U' & Hsub) Hs']. wp_step.
    destruct (freevm_spec kend Hkend _ _ _ _ _ _ U') as (k2 & l3 & Hrun & Hk2 & Hp & Hs2). eapply wp_eq; [exact Hrun|]. wp_step.
    assert (Hin : ∀ p, p ∈ l3 → p ∈ l0) by (intros p; rewrite Hp; apply Hsub).
    apply (HF k2 l3); [done | done|]. by eapply same_outside_trans.
  - intros v' k' dtabs' dents' l2 C Hv1 Hv2. wp_step. by eapply HS.
  - exact HE.
Qed.
End copying.


End copy.

(** *** Instances; [data] two megabytes into the kernel *)
Definition sample_data : Z := KERNLINK + 2 ^ 20.

Lemma sample_data_ok : sample_data mod 4096 = 0 ∧ KERNLINK < sample_data < KERNBASE + PHYSTOP.
Proof. by vm_compute. Qed.


