(* ===== verification/VmOut.v ===== *)
(** * Copying to user memory (vm.c: uva2ka, copyout)

    [copyout] and [uva2ka] of vm.c, seen through the
    addresses of the process.

    [vbyte m ents x] is the byte a process with the page table entries [ents]
    finds at [x].  [copyout] writes through the kernel's mapping of the pages;
    the theorem says what the process then sees, and that the user flag of
    every page on the way is looked at.  A range without a page table stops
    the kernel: [uva2ka] follows the null pointer of [walkpgdir]. *)
From stdpp Require Import base gmap list.
From S2P Require Import Prelude Bytes Kalloc Vm VmTable VmUser.
Local Open Scope Z_scope.

Section out.
Context (kend : Z) (Hkend : KERNBASE < kend).
Abbreviation page_ok := (page_ok kend).
Abbreviation uvm := (uvm kend).

(** The page a user may touch at virtual page [v]. *)
Definition user_page (ents : gmap Z Z) (v : Z) : option Z :=
  e ← ents !! v; if Z.land e PTE_U =? 0 then None else Some (upage e).

Definition vbyte (m : bytemem) (ents : gmap Z Z) (x : Z) : option Z :=
  e ← ents !! (x / 4096); Some (m (upage e + x mod 4096)).

Lemma upage_inj k pg tabs ents l o v w e e' :
  uvm k pg tabs ents l o → ents !! v = Some e → ents !! w = Some e' → v < 2 ^ 19 → w < 2 ^ 19 → upage e = upage e' → v = w.
Proof.
  intros [_ _ Hnd _] He He' Hv Hw Heq. destruct (decide (v = w)) as [|Hne]; [done|]. exfalso.
  apply NoDup_app in Hnd as (_ & _ & Hnd). apply NoDup_cons in Hnd as [_ Hnd]. apply NoDup_app in Hnd as (_ & _ & Hnd).
  apply NoDup_app in Hnd as [Hnd _]. rewrite (upages_delete _ v e) in Hnd by done. apply NoDup_cons in Hnd as [Hnd _].
  apply Hnd. rewrite Heq. apply elem_of_upages. exists w, e'. split_and!; [by rewrite lookup_delete_ne | done | done].
Qed.

Lemma upage_ok k pg tabs ents l o v e : uvm k pg tabs ents l o → ents !! v = Some e → v < 2 ^ 19 → page_ok (upage e).
Proof.
  intros U He Hv. assert (Hin : upage e ∈ upages ents) by (apply elem_of_upages; by exists v, e).
  apply (uvm_pages kend Hkend _ _ _ _ _ _ _ U Hin).
Qed.

Lemma wp_uva2ka k pg tabs ents l o va (Q : Z → kmem → Prop) E :
  uvm k pg tabs ents l o → 0 ≤ va < 2 ^ 32 →
  (tabs !! (va / 4096 / 1024) = None → E Fault k) →
  (is_Some (tabs !! (va / 4096 / 1024)) → Q (default 0 (user_page ents (va / 4096))) k) →
  wp (uva2ka pg va) Q E k.
Proof.
  intros U Hva HE HQ. unfold uva2ka, deref_word. wp_step. eapply wp_walk; [exact U | done|].
  pose proof (slot_nonzero _ _ _ _ _ _ _ (va / 4096) U) as Hs. wp_step.
  destruct (Z.eqb_spec (slot tabs (va / 4096)) 0) as [H0|H0]; [by apply HE, Hs|].
  assert (Ht : is_Some (tabs !! (va / 4096 / 1024))) by (apply not_eq_None_Some; tauto). apply HQ in Ht as HQ'.
  apply wp_load32. rewrite (slot_word _ _ _ _ _ _ _ _ U H0). unfold user_page in HQ'.
  destruct (ents !! (va / 4096)) as [e|] eqn:He; cbn [default from_option id mbind option_bind] in *.
  2:{ change (Z.land 0 PTE_P =? 0) with true. cbv iota. by wp_step. }
  destruct (tb_dom _ _ _ _ (tv_tab _ _ _ _ _ _ _ U) _ _ He) as (_ & _ & Hp). unfold present in Hp.
  destruct (Z.land e PTE_P =? 0); [done|]. destruct (Z.land e PTE_U =? 0); cbn in HQ'; by wp_step.
Qed.

Lemma user_page_some ents v p : user_page ents v = Some p → ∃ e, ents !! v = Some e ∧ p = upage e.
Proof.
  unfold user_page. destruct (ents !! v) as [e|] eqn:He; [|done]. cbn.
  destruct (Z.land e PTE_U =? 0); [done|]. intros [= <-]. by exists e.
Qed.

(** A page of user memory written at offset [j]. *)
Lemma vbyte_poked k pg tabs ents l o v e j bs x :
  uvm k pg tabs ents l o → ents !! v = Some e → 0 ≤ v < 2 ^ 19 → 0 ≤ j → j + Z.of_nat (length bs) ≤ 4096 → 0 ≤ x < KERNBASE →
  vbyte (poked (memory k) (upage e + j) bs) ents x =
  if decide (4096 * v + j ≤ x < 4096 * v + j + Z.of_nat (length bs))
  then bs !! Z.to_nat (x - (4096 * v + j)) else vbyte (memory k) ents x.
Proof.
  intros U He Hv Hj Hl Hx. unfold vbyte. unfold KERNBASE in Hx.
  destruct (ents !! (x / 4096)) as [e'|] eqn:He'; cbn [mbind option_bind].
  2:{ rewrite decide_False; [done|]. intros H. assert (Hxv : x / 4096 = v) by dlia. rewrite Hxv in He'. congruence. }
  destruct (decide (x / 4096 = v)) as [Hxv|Hne].
  - rewrite Hxv in He'. simplify_eq. unfold poked. case_decide as Hd.
    + rewrite (proj2 (Z.leb_le _ _)), (proj2 (Z.ltb_lt _ _)) by dlia. cbn [andb].
      replace (upage e + x mod 4096 - (upage e + j)) with (x - (4096 * (x / 4096) + j)) by dlia.
      destruct (lookup_lt_is_Some_2 bs (Z.to_nat (x - (4096 * (x / 4096) + j)))) as [b Hb]; [lia|]. by rewrite Hb.
    + destruct (Z.leb_spec (upage e + j) (upage e + x mod 4096)), (Z.ltb_spec (upage e + x mod 4096) (upage e + j + Z.of_nat (length bs)));
        cbn [andb]; try done. dlia.
  - rewrite decide_False by dlia. unfold poked. do 2 f_equal.
    pose proof (upage_ok _ _ _ _ _ _ _ _ U He ltac:(lia)) as P1. pose proof (upage_ok _ _ _ _ _ _ _ _ U He' ltac:(dlia)) as P2.
    destruct (andb _ _) eqn:Hb; [|done]. apply andb_prop in Hb as [B1%Z.leb_le B2%Z.ltb_lt].
    exfalso. apply Hne. symmetry. eapply upage_inj; [exact U | done | done | lia | dlia|].
    apply (pages_apart kend _ _ (upage e' + x mod 4096)); [done | done | unfold in_page, PGSIZE; lia | unfold in_page, PGSIZE; dlia].
Qed.

Record wrote (pg : Z) (tabs ents : gmap Z Z) (l o : list Z) (va : Z) (buf : list Z) (k k' : kmem) : Prop := {
  wr_uvm : uvm k' pg tabs ents l o;
  wr_same : same_outside (upages ents) (memory k) (memory k');
  wr_bytes : ∀ x, 0 ≤ x < KERNBASE → vbyte (memory k') ents x =
    if decide (va ≤ x < va + Z.of_nat (length buf)) then buf !! Z.to_nat (x - va) else vbyte (memory k) ents x
}.

Lemma wrote_both pg tabs ents l o va b1 b2 k k1 k2 :
  wrote pg tabs ents l o va b1 k k1 → wrote pg tabs ents l o (va + Z.of_nat (length b1)) b2 k1 k2 →
  0 ≤ va → wrote pg tabs ents l o va (b1 ++ b2) k k2.
Proof.
  intros [A1 A2 A3] [B1 B2 B3] Hva. split; [done | by eapply same_outside_trans|]. intros x Hx. rewrite B3, A3 by done.
  rewrite length_app. repeat case_decide; try lia; [| | done].
  - rewrite lookup_app_r by lia. f_equal. lia.
  - by rewrite lookup_app_l by lia.
Qed.

(** One turn of the loop. *)
Lemma wrote_page k pg tabs ents l o va e bs :
  uvm k pg tabs ents l o → ents !! (va / 4096) = Some e → 0 ≤ va < KERNBASE → va mod 4096 + Z.of_nat (length bs) ≤ 4096 →
  wrote pg tabs ents l o va bs k (k <| memory := poked (memory k) (upage e + va mod 4096) bs |>).
Proof.
  intros U He Hva Hl. unfold KERNBASE in Hva. assert (Hin : upage e ∈ upages ents) by (apply elem_of_upages; exists (va / 4096), e; split_and!; [done | dlia | done]).
  assert (Hs : same_outside [upage e] (memory k) (poked (memory k) (upage e + va mod 4096) bs)).
  { intros x Hx. unfold poked. destruct (andb _ _) eqn:Hb; [|done]. apply andb_prop in Hb as [B1%Z.leb_le B2%Z.ltb_lt].
    destruct (Hx (upage e)); [left|]. unfold in_page, PGSIZE. dlia. }
  split.
  - eapply (tvm_poke kend Hkend); [exact U | apply elem_of_app; left; exact Hin | done].
  - eapply same_outside_mono; [exact Hs|]. by intros p ->%list_elem_of_singleton.
  - intros x Hx. cbn [memory update_field]. rewrite (vbyte_poked k pg tabs ents l o (va / 4096) e); [|done | done | dlia | dlia | dlia | done].
    replace (4096 * (va / 4096) + va mod 4096) with va by dlia. done.
Qed.

Lemma wp_copyout_loop fuel k pg tabs ents l o va buf (Q : Z → kmem → Prop) E :
  uvm k pg tabs ents l o → 0 ≤ va → va + Z.of_nat (length buf) ≤ KERNBASE →
  va mod 4096 + Z.of_nat (length buf) ≤ 4096 * Z.of_nat fuel →
  (∀ k', wrote pg tabs ents l o va buf k k' → (∀ x, va ≤ x < va + Z.of_nat (length buf) → is_Some (user_page ents (x / 4096))) → Q 0 k') →
  (∀ x k', va ≤ x < va + Z.of_nat (length buf) → user_page ents (x / 4096) = None → is_Some (tabs !! (x / 4096 / 1024)) →
    uvm k' pg tabs ents l o → same_outside (upages ents) (memory k) (memory k') → Q (-1) k') →
  (∀ x k', va ≤ x < va + Z.of_nat (length buf) → tabs !! (x / 4096 / 1024) = None → E Fault k') →
  wp (copyout_loop fuel pg va buf (Z.of_nat (length buf))) Q E k.
Proof.
  revert k va buf. induction fuel as [|fuel IH]; intros k va buf U Hva Hb Hfuel HS HF HE; cbn [copyout_loop].
  { destruct (Z.gtb_spec (Z.of_nat (length buf)) 0); [dlia|]. wp_step. apply HS; [|intros; dlia]. split; [done | apply same_outside_refl|]. intros x Hx. by rewrite decide_False by dlia. }
  destruct (Z.gtb_spec (Z.of_nat (length buf)) 0) as [Hpos|Hz].
  2:{ wp_step. apply HS; [|intros; lia]. split; [done | apply same_outside_refl|]. intros x Hx. by rewrite decide_False by lia. }
  cbv zeta. unfold KERNBASE in Hb. rewrite PGROUNDDOWN_eq by lia. assert (Hdiv : 4096 * (va / 4096) / 4096 = va / 4096) by dlia.
  wp_step. eapply wp_uva2ka; [exact U | dlia | rewrite Hdiv; intros Ht; apply (HE va); [lia | done] | rewrite Hdiv; intros Ht].
  destruct (user_page ents (va / 4096)) as [p|] eqn:Hp; cbn [default from_option id].
  2:{ rewrite Z.eqb_refl. wp_step. apply (HF va); [lia | done | done | done | apply same_outside_refl]. }
  destruct (user_page_some _ _ _ Hp) as (e & He & ->). pose proof (upage_ok _ _ _ _ _ _ _ _ U He ltac:(dlia)) as Hpo.
  pose proof (page_bounds kend _ Hpo) as Hpb. rewrite (proj2 (Z.eqb_neq _ 0)) by lia.
  assert (Hmod : va - 4096 * (va / 4096) = va mod 4096) by dlia. rewrite Hmod. unfold PGSIZE. rewrite (u32_id (4096 - va mod 4096)) by dlia.
  set (n := if _ >? _ then _ else _). assert (Hn : 0 < n ≤ Z.of_nat (length buf) ∧ va mod 4096 + n ≤ 4096 ∧ (n = Z.of_nat (length buf) ∨ va mod 4096 + n = 4096)).
  { unfold n. destruct (Z.gtb_spec (4096 - va mod 4096) (Z.of_nat (length buf))); dlia. }
  clearbody n. destruct Hn as (Hn1 & Hn2 & Hn3).
  assert (Hl1 : Z.of_nat (length (take (Z.to_nat n) buf)) = n) by (rewrite length_take; lia).
  assert (Hl2 : Z.of_nat (length (drop (Z.to_nat n) buf)) = Z.of_nat (length buf) - n) by (rewrite length_drop; lia).
  pose proof (wrote_page k pg tabs ents l o va e (take (Z.to_nat n) buf) U He ltac:(unfold KERNBASE; lia) ltac:(lia)) as W1.
  unfold poke. wp_step. wp_step. rewrite <-Hl2. set (k1 := k <| memory := _ |>) in *.
  pose proof (take_drop (Z.to_nat n) buf) as Hcat. destruct Hn3 as [Hall|Hend].
  - assert (Hdrop : drop (Z.to_nat n) buf = []) by (apply drop_ge; lia). rewrite Hdrop in Hcat |- *. rewrite app_nil_r in Hcat. rewrite Hcat in W1.
    destruct fuel; cbn [copyout_loop length]; change (Z.of_nat 0 >? 0) with false; cbv iota; wp_step;
      (apply HS; [done|]; intros x Hx; assert (Hxv : x / 4096 = va / 4096) by dlia; rewrite Hxv, Hp; done).
  - replace (u32 (4096 * (va / 4096) + 4096)) with (va + n) by (rewrite u32_id; dlia).
    eapply IH; [apply W1 | lia | rewrite Hl2; unfold KERNBASE; lia | rewrite Hl2; dlia | | |]; rewrite Hl2.
    + intros k' W2 Hall. apply HS.
      * rewrite <-Hcat. eapply wrote_both; [exact W1 | by rewrite Hl1 | done].
      * intros x Hx. destruct (decide (x < va + n)); [|apply Hall; lia]. assert (Hxv : x / 4096 = va / 4096) by dlia. by rewrite Hxv, Hp.
    + intros x k' Hx H1 H2 H3 H4. apply (HF x k'); [lia | done | done | done|]. eapply same_outside_trans; [apply W1 | exact H4 | done].
    + intros x k' Hx H1. apply (HE x k'); [lia | done].
Qed.

(** C25: [copyout] of [buf] to the user address [va], in an address space that
    has page tables for the whole range: when the user may touch every page of
    the range it returns 0, the process reads [buf] at [va] and reads what it
    read before everywhere else; otherwise it returns -1.  The page tables and
    everything but the user pages are as they were. *)
Theorem copyout_correct k pg tabs ents l o va buf :
  uvm k pg tabs ents l o → 0 ≤ va → va + Z.of_nat (length buf) ≤ KERNBASE →
  (∀ x, va ≤ x < va + Z.of_nat (length buf) → is_Some (tabs !! (x / 4096 / 1024))) →
  ∃ r k', copyout pg va buf (Z.of_nat (length buf)) k = Ok r k' ∧ uvm k' pg tabs ents l o ∧
    same_outside (upages ents) (memory k) (memory k') ∧
    (r = 0 ∧ (∀ x, va ≤ x < va + Z.of_nat (length buf) → is_Some (user_page ents (x / 4096))) ∧
       (∀ x, 0 ≤ x < KERNBASE → vbyte (memory k') ents x =
          if decide (va ≤ x < va + Z.of_nat (length buf)) then buf !! Z.to_nat (x - va) else vbyte (memory k) ents x) ∨
     r = -1 ∧ ∃ x, va ≤ x < va + Z.of_nat (length buf) ∧ user_page ents (x / 4096) = None).
Proof.
  intros U Hva Hb Ht. apply wpt_ok. unfold copyout. eapply wp_copyout_loop; [exact U | done | done | unfold PGSIZE; dlia | | |].
  - intros k' [W1 W2 W3] Hall. split; [done|]. split; [done|]. by left.
  - intros x k' Hx H1 _ H3 H4. split; [done|]. split; [done|]. right. split; [done|]. by exists x.
  - intros x k' Hx H1. destruct (Ht x Hx) as [t H2]. congruence.
Qed.

(** [uva2ka] of an address whose page directory entry is empty follows the
    null pointer [walkpgdir] returns; with a page table there it returns the
    kernel address of the page, or 0 when the user may not touch it. *)
Theorem uva2ka_correct k pg tabs ents l o va :
  uvm k pg tabs ents l o → 0 ≤ va < 2 ^ 32 →
  uva2ka pg va k = if tabs !! (va / 4096 / 1024) then Ok (default 0 (user_page ents (va / 4096))) k else Stop Fault k.
Proof.
  intros U Hva. assert (H : wp (uva2ka pg va)
    (fun r k' => is_Some (tabs !! (va / 4096 / 1024)) ∧ r = default 0 (user_page ents (va / 4096)) ∧ k' = k)
    (fun x k' => tabs !! (va / 4096 / 1024) = None ∧ x = Fault ∧ k' = k) k).
  { eapply wp_uva2ka; [exact U | done | by auto | by auto]. }
  unfold wp in H. destruct (uva2ka pg va k) as [r k'|x k']; destruct H as (H & -> & ->).
  - by destruct H as [p ->].
  - by rewrite H.
Qed.
End out.

Lemma copyout_correct_witness :
  ∃ r k', copyout (space_page 2) 100 [104; 105] (Z.of_nat 2) space = Ok r k' ∧
    uvm sample_end k' (space_page 2) space_tabs space_ents [space_page 0; space_page 1] [] ∧
    same_outside (upages space_ents) (memory space) (memory k') ∧
    (r = 0 ∧ (∀ x, 100 ≤ x < 100 + Z.of_nat 2 → is_Some (user_page space_ents (x / 4096))) ∧
       (∀ x, 0 ≤ x < KERNBASE → vbyte (memory k') space_ents x =
          if decide (100 ≤ x < 100 + Z.of_nat 2) then [104; 105] !! Z.to_nat (x - 100) else vbyte (memory space) space_ents x) ∨
     r = -1 ∧ ∃ x, 100 ≤ x < 100 + Z.of_nat 2 ∧ user_page space_ents (x / 4096) = None).
Proof.
  apply (copyout_correct sample_end sample_above space (space_page 2) space_tabs space_ents [space_page 0; space_page 1] [] 100 [104; 105] space_uvm);
    [lia | by vm_compute|].
  intros x Hx. cbn in Hx. replace (x / 4096 / 1024) with 0 by dlia. by eexists.
Defined.

Lemma uva2ka_correct_witness : uva2ka (space_page 2) (2 ^ 22) space = Stop Fault space.
Proof.
  apply (uva2ka_correct sample_end space (space_page 2) space_tabs space_ents [space_page 0; space_page 1] [] (2 ^ 22) space_uvm). lia.
Defined.
