(* ===== verification/Kernel.v ===== *)
(** * The kernel as a whole

    The routines of proc.c that create and destroy processes work on the
    process table, on physical memory and on open files at once.  [sys] is
    that state: the variables of proc.c, the page allocator with the memory
    it manages, and whatever the file layer keeps.  [onk] and [onm] run a
    routine of one component on its part.

    [FileOps] names the operations proc.c calls of file.c, fs.c and log.c,
    and [FileLaws] what it relies on. *)
From S2P Require Import Prelude Spinlock Proc Kalloc.

Record sys (F : Type) := mksys { kern : kstate; pages : kmem; rest : F }.
Arguments mksys {F} _ _ _.
Arguments kern {F} _.
Arguments pages {F} _.
Arguments rest {F} _.
#[export] Instance sys_eta F : EtaRecord (sys F) := fun s => mksys (kern s) (pages s) (rest s).

Definition onk {F A} (m : K A) : M (sys F) A := zoom kern (fun k s => s <| kern := k |>) m.
Definition onm {F A} (m : M kmem A) : M (sys F) A := zoom pages (fun p s => s <| pages := p |>) m.

Section rules.
Context {F : Type}.
Implicit Types s : sys F.

Lemma wp_onk {A} (m : K A) Q E s :
  wp m (fun a k => Q a (s <| kern := k |>)) (fun w k => E w (s <| kern := k |>)) (kern s) → wp (onk m) Q E s.
Proof. apply (wp_zoom kern (fun k s => s <| kern := k |>)). Qed.

Lemma wp_onm {A} (m : M kmem A) Q E s :
  wp m (fun a p => Q a (s <| pages := p |>)) (fun w p => E w (s <| pages := p |>)) (pages s) → wp (onm m) Q E s.
Proof. apply (wp_zoom pages (fun p s => s <| pages := p |>)). Qed.

(** The same on a state given by its parts. *)
Lemma wp_onk_mk {A} (m : K A) (Q : A → sys F → Prop) E k p r :
  wp m (fun a k' => Q a (mksys k' p r)) (fun w k' => E w (mksys k' p r)) k → wp (onk m) Q E (mksys k p r).
Proof. intros Hm. by apply wp_onk. Qed.

Lemma wp_onm_mk {A} (m : M kmem A) (Q : A → sys F → Prop) E k p r :
  wp m (fun a p' => Q a (mksys k p' r)) (fun w p' => E w (mksys k p' r)) p → wp (onm m) Q E (mksys k p r).
Proof. intros Hm. by apply wp_onm. Qed.

Lemma wp_onk_eq {A} (m : K A) (Q : A → sys F → Prop) E s a k :
  m (kern s) = Ok a k → Q a (s <| kern := k |>) → wp (onk m) Q E s.
Proof. intros Hm HQ. apply wp_onk. by eapply wp_eq. Qed.

Lemma wp_onm_eq {A} (m : M kmem A) (Q : A → sys F → Prop) E s a p :
  m (pages s) = Ok a p → Q a (s <| pages := p |>) → wp (onm m) Q E s.
Proof. intros Hm HQ. apply wp_onm. by eapply wp_eq. Qed.
End rules.

(** ** Files

    A [struct file *] and a [struct inode *] are numbers, as in [proc]. *)
Class FileOps (F : Type) := {
  filedup : nat → M (sys F) nat;
  fileclose : nat → M (sys F) unit;
  idup : nat → M (sys F) nat;
  iput : nat → M (sys F) unit;
  begin_op : M (sys F) unit;
  end_op : M (sys F) unit
}.

(** How many references to an open file and to an inode exist.  Counting a
    reference up or down takes one spin lock of the file layer and leaves the
    rest of the kernel alone; dropping the last one may sleep. *)
Class FileLaws (F : Type) `{FileOps F} := {
  file_refs : F → nat → nat;
  inode_refs : F → nat → nat;
  files_ok : F → Prop;
  log_idle : F → Prop;            (* the log has room and nobody waits for it *)
  in_op : F → Prop;               (* the caller is between begin_op and end_op *)
  filedup_ok s f : files_ok (rest s) → calm (this_cpu (kern s)) → 0 < ncli (this_cpu (kern s)) → (0 < file_refs (rest s) f)%nat →
    ∃ r, filedup f s = Ok f (s <| rest := r |>) ∧ files_ok r ∧ inode_refs r = inode_refs (rest s) ∧
      ∀ g, file_refs r g = (file_refs (rest s) g + if decide (g = f) then 1 else 0)%nat;
  idup_ok s i : files_ok (rest s) → calm (this_cpu (kern s)) → 0 < ncli (this_cpu (kern s)) → (0 < inode_refs (rest s) i)%nat →
    ∃ r, idup i s = Ok i (s <| rest := r |>) ∧ files_ok r ∧ file_refs r = file_refs (rest s) ∧
      ∀ j, inode_refs r j = (inode_refs (rest s) j + if decide (j = i) then 1 else 0)%nat;
  fileclose_ok s f : files_ok (rest s) → calm (this_cpu (kern s)) → 0 < ncli (this_cpu (kern s)) → (1 < file_refs (rest s) f)%nat →
    ∃ r, fileclose f s = Ok tt (s <| rest := r |>) ∧ files_ok r ∧ inode_refs r = inode_refs (rest s) ∧
      log_idle r = log_idle (rest s) ∧ ∀ g, file_refs r g = (file_refs (rest s) g - if decide (g = f) then 1 else 0)%nat;
  begin_op_ok s : files_ok (rest s) → log_idle (rest s) → calm (this_cpu (kern s)) → ncli (this_cpu (kern s)) = 0 →
    ∃ r, begin_op s = Ok tt (s <| kern ::= bracketed |> <| rest := r |>) ∧ files_ok r ∧ in_op r ∧
      file_refs r = file_refs (rest s) ∧ inode_refs r = inode_refs (rest s);
  iput_ok s i : files_ok (rest s) → in_op (rest s) → calm (this_cpu (kern s)) → ncli (this_cpu (kern s)) = 0 → (1 < inode_refs (rest s) i)%nat →
    ∃ r, iput i s = Ok tt (s <| kern ::= bracketed |> <| rest := r |>) ∧ files_ok r ∧ in_op r ∧ file_refs r = file_refs (rest s) ∧
      ∀ j, inode_refs r j = (inode_refs (rest s) j - if decide (j = i) then 1 else 0)%nat;
  end_op_ok s : files_ok (rest s) → in_op (rest s) → calm (this_cpu (kern s)) → ncli (this_cpu (kern s)) = 0 → free (ptable_lock (kern s)) →
    ∃ r, end_op s = Ok tt (s <| kern ::= bracketed |> <| rest := r |>) ∧ files_ok r ∧ log_idle r ∧
      file_refs r = file_refs (rest s) ∧ inode_refs r = inode_refs (rest s)
}.

(** ** Files as bare counters

    The simplest layer that keeps the laws. *)
Module RefFiles.
Record files := mkfiles { frefs : nat → nat; irefs : nat → nat }.
Definition bump (g : nat → nat) (n : nat) : nat → nat := fun m => (g m + if decide (m = n) then 1 else 0)%nat.
Definition drop (g : nat → nat) (n : nat) : nat → nat := fun m => (g m - if decide (m = n) then 1 else 0)%nat.

Definition up (get : files → nat → nat) (put : (nat → nat) → files → files) (msg : string) (n : nat) : M (sys files) nat :=
  s ← gets rest;
  if (get s n =? 0)%nat then panic msg else
  modify (fun t => t <| rest := put (bump (get (rest t)) n) (rest t) |>);; mret n.
Definition down (get : files → nat → nat) (put : (nat → nat) → files → files) (msg : string) (n : nat) : M (sys files) unit :=
  s ← gets rest;
  if (get s n =? 0)%nat then panic msg else
  modify (fun t => t <| rest := put (drop (get (rest t)) n) (rest t) |>).

Definition put_frefs g f := mkfiles g (irefs f).
Definition put_irefs g f := mkfiles (frefs f) g.

(** Every operation takes and releases a lock of the layer. *)
Definition bracket : M (sys files) unit := modify (fun s => s <| kern ::= bracketed |>).

#[global] Instance ops : FileOps files := {
  filedup := up frefs put_frefs "filedup";
  fileclose := down frefs put_frefs "fileclose";
  idup := up irefs put_irefs "idup";
  iput i := bracket;; down irefs put_irefs "iput" i;
  begin_op := bracket;
  end_op := bracket
}.

#[global] Instance laws : FileLaws files.
Proof.
  refine {| file_refs := frefs; inode_refs := irefs; files_ok := fun _ => True; log_idle := fun _ => True; in_op := fun _ => True |}.
  - intros s f _ _ _ Hf. exists (put_frefs (bump (frefs (rest s)) f) (rest s)). split; [|done].
    cbn [filedup ops]. unfold up. m_unfold. destruct (Nat.eqb_spec (frefs (rest s) f) 0); [lia | done].
  - intros s f _ _ _ Hf. exists (put_irefs (bump (irefs (rest s)) f) (rest s)). split; [|done].
    cbn [idup ops]. unfold up. m_unfold. destruct (Nat.eqb_spec (irefs (rest s) f) 0); [lia | done].
  - intros s f _ _ _ Hf. exists (put_frefs (drop (frefs (rest s)) f) (rest s)). split; [|done].
    cbn [fileclose ops]. unfold down. m_unfold. destruct (Nat.eqb_spec (frefs (rest s) f) 0); [lia | done].
  - intros s _ _ _ _. exists (rest s). split; [|done]. by destruct s.
  - intros s i _ _ _ _ Hi. exists (put_irefs (drop (irefs (rest s)) i) (rest s)). split; [|done].
    cbn [iput ops]. unfold bracket, down. m_unfold. cbn [rest]. destruct s as [k m r]. cbn in *.
    destruct (Nat.eqb_spec (irefs r i) 0); [lia | done].
  - intros s _ _ _ _ _. exists (rest s). split; [|done]. by destruct s.
Defined.
End RefFiles.
