(* ===== verification/ProcAlloc.v ===== *)
(** * Allocation in the process table (proc.c)

    [allocproc] and the reference counters of page directories, which tell
    how many threads share an address space. *)
From S2P Require Import Prelude Spinlock Proc Bytes Kalloc Vm Kernel.

(** ** Reference counters of page directories *)
Definition refget (i : Z) : K Z := r ← gets pgdir_ref; deref (array_get r i).
Definition refset (i v : Z) : K unit :=
  r ← gets pgdir_ref;
  r' ← deref (array_set r i (i8 v));
  modify (fun k => k <| pgdir_ref := r' |>).

(** The part on the counter; the answer is whether the directory goes. *)
Definition drop_counter (x : proc) : K bool :=
  if pgdir_ref_idx x =? -1 then mret true else
  c ← refget (pgdir_ref_idx x);
  if c <=? 1 then
    acquire_thread;;
    refset (pgdir_ref_idx x) 0;;
    release_thread;;
    mret true
  else
    acquire_thread;;
    c ← refget (pgdir_ref_idx x);
    refset (pgdir_ref_idx x) (c - 1);;
    release_thread;;
    mret false.

Definition check_pgdir_counter_and_call_freevm {F} (kend : Z) (p : nat) : M (sys F) unit :=
  x ← onk (pget p);
  last ← onk (drop_counter x);
  when last (onm (freevm kend (pgdir x))).

(** The search for a free counter. *)
Definition find_counter (p : nat) : K (option unit) :=
  for_list all_procs (fun _ =>
    next ← gets pgdir_ref_next_idx;
    c ← refget next;
    if c =? 0 then
      pupd p (fun x => x <| pgdir_ref_idx := next |>);;
      modify (fun k => k <| pgdir_ref_next_idx := Z.rem (i32 (next + 1)) NPROC |>);;
      x ← pget p;
      refset (pgdir_ref_idx x) 1;;
      mret (Some tt)
    else
      modify (fun k => k <| pgdir_ref_next_idx := Z.rem (i32 (next + 1)) NPROC |>);;
      mret None).

Definition allocate_new_pgdir_idx (p : nat) : K unit :=
  acquire_thread;;
  found ← find_counter p;
  match found with
  | None => panic "(allocate_new_pgdir_idx): pgdir referencing counter allocation is failed."
  | Some _ => mret tt
  end;;
  release_thread.

(** ** allocproc

    The trap frame of the new process is whatever the page of the kernel
    stack held there; the two code addresses are fixed by the linker. *)
Definition SIZEOF_TRAPFRAME : Z := 76.
Definition SIZEOF_CONTEXT : Z := 20.

(** The words of a [struct trapframe] (x86.h) at an address. *)
Definition tf_at (m : bytemem) (a : Z) : trapframe :=
  mktf (word_at m (a + 28)) (word_at m (a + 56)) (word_at m (a + 68)) (u16 (word_at m (a + 60)))
    (u16 (word_at m (a + 44))) (u16 (word_at m (a + 40))) (u16 (word_at m (a + 72)))
    (word_at m (a + 64)) (word_at m (a + 48)) (word_at m (a + 52)).

Definition init_proc (newpid : Z) (p : proc) : proc :=
  p <| pstate := EMBRYO |> <| pid := newpid |>
    <| tick_used := 0 |> <| level_of_MLFQ := 0 |> <| time_quantum_used := 0 |>
    <| cpu_share := 0 |> <| stride := 0 |> <| stride_count := 0 |>
    <| tid := 0 |> <| pgdir_ref_idx := -1 |> <| thread_return := 0 |>
    <| num_of_threads := 0 |> <| proc_forked_in_thread := None |> <| original_cpu_share := 0 |>.

(** The part under [ptable.lock]. *)
Definition find_slot : K pptr :=
  acquire_ptable;;
  found ← for_list all_procs (fun i =>
    x ← pget i;
    mret (if decide (pstate x = UNUSED) then Some i else None));
  match found with
  | None => release_ptable;; mret None
  | Some p =>
      newpid ← gets nextpid;
      modify (fun k => k <| nextpid := i32 (newpid + 1) |>);;
      pupd p (init_proc newpid);;
      release_ptable;;
      mret (Some p)
  end.

Section allocproc.
Context {F : Type} (forkret_addr trapret_addr : Z).

(** From the answer of [kalloc] on; [m] is the memory. *)
Definition set_stack (p : nat) (page : Z) (m : bytemem) : K pptr :=
  pupd p (fun x => x <| kstack := page |>);;
  if page =? 0 then
    pupd p (fun x => x <| pstate := UNUSED |>);;
    mret None
  else
    let sp := u32 (page + KSTACKSIZE) in
    let sp := u32 (sp - SIZEOF_TRAPFRAME) in
    pupd p (fun x => x <| tf_addr := sp |> <| tf := tf_at m sp |>);;
    let sp := u32 (sp - 4) in
    pupd p (fun x => x <| ctx_ret := trapret_addr |>);;
    let sp := u32 (sp - SIZEOF_CONTEXT) in
    pupd p (fun x => x <| context := sp |> <| ctx_eip := 0 |>);;
    pupd p (fun x => x <| ctx_eip := forkret_addr |>);;
    mret (Some p).

Definition allocproc : M (sys F) pptr :=
  found ← onk find_slot;
  match found with
  | None => mret None
  | Some p =>
      page ← onm kalloc;
      m ← onm (gets memory);
      onk (set_stack p page m)
  end.
End allocproc.

(** ** Page-directory counters *)

Lemma wp_refget i c (Q : Z → kstate → Prop) E k :
  array_get (pgdir_ref k) i = Some c → Q c k → wp (refget i) Q E k.
Proof. intros Hc HQ. unfold refget. wp_run. by eapply wp_deref. Qed.

Lemma wp_refset i v (Q : unit → kstate → Prop) E k :
  0 ≤ i < Z.of_nat (length (pgdir_ref k)) →
  Q tt (k <| pgdir_ref := <[Z.to_nat i := i8 v]> (pgdir_ref k) |>) → wp (refset i v) Q E k.
Proof.
  intros Hi HQ. unfold refset. wp_run. eapply wp_deref; [by apply array_set_in|]. by wp_run.
Qed.

Record refs_ok (k : kstate) : Prop := {
  ro_len : length (pgdir_ref k) = 64%nat;
  ro_next : 0 ≤ pgdir_ref_next_idx k < 64
}.

(** The state after [j] counters were found in use. *)
Definition skipped (k : kstate) (j : nat) : kstate :=
  k <| pgdir_ref_next_idx := (pgdir_ref_next_idx k + Z.of_nat j) mod 64 |>.

(** The counter looked at in iteration [j]. *)
Definition candidate (k : kstate) (j : nat) : Z := (pgdir_ref_next_idx k + Z.of_nat j) mod 64.

Definition took (k k' : kstate) (p : nat) (x : proc) : Prop :=
  ∃ i, 0 ≤ i < 64 ∧ array_get (pgdir_ref k) i = Some 0 ∧
    k' = k <| procs := <[p := x <| pgdir_ref_idx := i |>]> (procs k) |>
           <| pgdir_ref := <[Z.to_nat i := 1]> (pgdir_ref k) |>
           <| pgdir_ref_next_idx := (i + 1) mod 64 |>.

Lemma next_eq i : 0 ≤ i < 64 → Z.rem (i32 (i + 1)) NPROC = (i + 1) mod 64.
Proof.
  intros Hi. rewrite i32_id by (unfold INT_MIN, INT_MAX; lia). by apply Z.rem_mod_nonneg; [lia | done].
Qed.

Lemma find_counter_spec (p : nat) (x : proc) (k : kstate) :
  refs_ok k → procs k !! p = Some x →
  wpt (find_counter p) (fun r k' =>
    match r with
    | Some _ => took k k' p x
    | None => ∀ j, (j < 64)%nat → array_get (pgdir_ref k) (candidate k j) ≠ Some 0
    end) k.
Proof.
  intros [Hlen Hnext] Hx. unfold find_counter.
  apply (for_list_wp (fun l s => ∃ j, (j ≤ 64)%nat ∧ length l = (64 - j)%nat ∧ s = skipped k j ∧
    ∀ i, (i < j)%nat → array_get (pgdir_ref k) (candidate k i) ≠ Some 0)).
  - exists 0%nat. split; [lia|]. split; [done|]. split; [|lia]. unfold skipped.
    rewrite Z.add_0_r, Z.mod_small by lia. by destruct k.
  - intros s (j & Hj & Hl & _ & Hnone). cbn in Hl. by replace j with 64%nat in Hnone by lia.
  - intros i0 l s (j & Hj & Hl & -> & Hnone). cbn in Hl.
    do 2 wp_step. set (i := pgdir_ref_next_idx (skipped k j)).
    assert (Hi : 0 ≤ i < 64) by (apply Z.mod_pos_bound; lia).
    destruct (array_get_in (pgdir_ref k) i) as [c Hc]; [lia|].
    wp_step. eapply wp_refget; [exact Hc|]. destruct (Z.eqb_spec c 0) as [->|Hne].
    + wp_step. eapply wp_pupd; [exact Hx|]. do 3 wp_step. eapply wp_pget.
      { cbn. rewrite list_lookup_insert_eq; [done | by eapply lookup_lt_Some]. }
      wp_step. apply wp_refset; [change (0 ≤ i < Z.of_nat (length (pgdir_ref k))); lia|]. wp_step. exists i. split; [lia|]. split; [done|].
      cbn. rewrite next_eq by done. by destruct k.
    + do 3 wp_step. exists (S j). split; [lia|]. split; [lia|]. split.
      * unfold skipped. cbn. rewrite next_eq by done. unfold i. cbn.
        rewrite Zplus_mod_idemp_l. replace (pgdir_ref_next_idx k + Z.of_nat j + 1)
          with (pgdir_ref_next_idx k + Z.of_nat (S j)) by lia. by destruct k.
      * intros i' Hi'. destruct (decide (i' = j)) as [->|]; [|apply Hnone; lia].
        unfold i in Hc. cbn in Hc. unfold candidate. rewrite Hc. congruence.
Qed.

(** Going once round the counters looks at every one of them. *)
Lemma candidate_onto k i :
  0 ≤ pgdir_ref_next_idx k < 64 → 0 ≤ i < 64 → ∃ j, (j < 64)%nat ∧ candidate k j = i.
Proof.
  intros Hn Hi. exists (Z.to_nat ((i - pgdir_ref_next_idx k) mod 64)).
  pose proof (Z.mod_pos_bound (i - pgdir_ref_next_idx k) 64 ltac:(lia)). split; [lia|].
  unfold candidate. rewrite Z2Nat.id by lia. rewrite Zplus_mod_idemp_r.
  rewrite Z.add_sub_assoc, Z.add_simpl_l. apply Z.mod_small. lia.
Qed.

Definition counters_exhausted : stop :=
  Panic "(allocate_new_pgdir_idx): pgdir referencing counter allocation is failed.".

(** [allocate_new_pgdir_idx] gives the process a counter that was free,
    sets it to one and touches no other counter; it panics exactly when all
    64 counters are in use, and always returns with [thread_lock] free. *)
Theorem allocate_new_pgdir_idx_correct (p : nat) (x : proc) (k : kstate) :
  refs_ok k → procs k !! p = Some x →
  cli_ok (this_cpu k) → ncli (this_cpu k) + 1 < INT_MAX → free (thread_lock k) →
  wp (allocate_new_pgdir_idx p)
    (fun _ k' => took (bracketed k) k' p x ∧ refs_ok k')
    (fun w _ => w = counters_exhausted ∧
       ∀ i, 0 ≤ i < 64 → array_get (pgdir_ref k) i ≠ Some 0) k.
Proof.
  intros Hrefs Hx Hc Hn Hf. unfold allocate_new_pgdir_idx.
  wp_step. apply wp_acquire_thread; [done..|].
  set (k1 := _ <| thread_lock := _ |>). assert (Hrefs1 : refs_ok k1) by (destruct Hrefs; by split).
  wp_step. eapply wp_mono; [apply (find_counter_spec p x k1); [done | exact Hx]| |done].
  intros [[]|] k2 Hpost; wp_step.
  - wp_step. destruct Hpost as (i & Hi & Hget & ->).
    apply wp_release_thread; [by apply cli_ok_pushed | destruct Hc; cbn; lia | by apply holding_locked_by |].
    split.
    + exists i. split; [done|]. split; [done|]. cbn. rewrite unlocked_locked_by by done. by destruct k.
    + split; cbn; [rewrite length_insert; apply Hrefs | apply Z.mod_pos_bound; lia].
  - wp_step. split; [done|]. intros i Hi. destruct (candidate_onto k1 i) as (j & Hj & <-); [apply Hrefs | done|].
    by apply Hpost.
Qed.

Lemma allocate_new_pgdir_idx_correct_witness :
  ∃ k', allocate_new_pgdir_idx 3 boot_state = Ok tt k' ∧ took (bracketed boot_state) k' 3 proc0.
Proof.
  assert (Hrefs : refs_ok boot_state) by (split; cbn; [done | lia]).
  assert (Hc : cli_ok (this_cpu boot_state)) by (unfold cli_ok, INT_MAX; cbn; intuition lia).
  assert (Hn : ncli (this_cpu boot_state) + 1 < INT_MAX) by (unfold INT_MAX; cbn; lia).
  destruct (wp_inv _ _ _ _ (allocate_new_pgdir_idx_correct 3 proc0 boot_state Hrefs eq_refl Hc Hn
    (conj eq_refl eq_refl))) as [([] & k' & Hr & Ht & _)|(w & k' & _ & _ & Hno)].
  - exists k'. split; [exact Hr | exact Ht].
  - exfalso. apply (Hno 0); [lia | vm_compute; reflexivity].
Defined.

(** ** allocproc *)
Definition unused_before (i : nat) (k : kstate) : Prop :=
  ∀ j y, (j < i)%nat → procs k !! j = Some y → pstate y ≠ UNUSED.

(** The search for a free slot. *)
Lemma alloc_scan (k : kstate) (Q : option nat → kstate → Prop) E :
  length (procs k) = 64%nat →
  (∀ i x, procs k !! i = Some x → pstate x = UNUSED → unused_before i k → Q (Some i) k) →
  (unused_before 64 k → Q None k) →
  wp (for_list all_procs (fun i =>
        x ← pget i; mret (if decide (pstate x = UNUSED) then Some i else None))) Q E k.
Proof.
  intros Hl HS HN. apply (for_list_wp (fun l s => ∃ j, (j ≤ 64)%nat ∧ l = seq j (64 - j) ∧ s = k ∧ unused_before j k)).
  - exists 0%nat. split; [lia|]. split; [done|]. split; [done|]. intros j y Hj. lia.
  - intros s (j & Hj & Hseq & -> & Hb). apply HN. destruct (64 - j)%nat eqn:?; [|done].
    by replace j with 64%nat in Hb by lia.
  - intros i l s (j & Hj & Hseq & -> & Hb). destruct (64 - j)%nat as [|n] eqn:Hn; [done|].
    injection Hseq as -> ->. destruct (lookup_lt_is_Some_2 (procs k) j) as [x Hx]; [lia|].
    wp_step. eapply wp_pget; [done|]. wp_step. case_decide; [by eapply HS|].
    exists (S j). split; [lia|]. split; [f_equal; lia|]. split; [done|].
    intros m y Hm Hy. destruct (decide (m = j)) as [->|]; [congruence | apply (Hb m y); [lia | done]].
Qed.

(** The table with process [i] replaced. *)
Definition with_proc (i : nat) (y : proc) (k : kstate) : kstate := k <| procs := <[i := y]> (procs k) |>.

Lemma with_proc_twice i y z k : with_proc i z (with_proc i y k) = with_proc i z k.
Proof. unfold with_proc. cbn. by rewrite list_insert_insert_eq. Qed.

Lemma lookup_with_proc i y k : (i < length (procs k))%nat → procs (with_proc i y k) !! i = Some y.
Proof. intros Hi. cbn. by rewrite list_lookup_insert_eq. Qed.

Lemma lookup_with_proc_ne i j y k : i ≠ j → procs (with_proc i y k) !! j = procs k !! j.
Proof. intros Hi. cbn. by rewrite list_lookup_insert_ne. Qed.

(** Successive updates of one entry. *)
Lemma wp_pupd_with i f y (Q : unit → kstate → Prop) E k :
  (i < length (procs k))%nat → Q tt (with_proc i (f y) k) → wp (pupd i f) Q E (with_proc i y k).
Proof.
  intros Hi HQ. eapply wp_pupd; [by apply lookup_with_proc|]. fold (with_proc i (f y) (with_proc i y k)).
  by rewrite with_proc_twice.
Qed.

Lemma stack_offsets page :
  0 < page → page + KSTACKSIZE < 2 ^ 32 →
  u32 (u32 (page + KSTACKSIZE) - SIZEOF_TRAPFRAME) = page + 4020 ∧
  u32 (u32 (page + 4020 - 4) - SIZEOF_CONTEXT) = page + 3996.
Proof.
  unfold KSTACKSIZE, SIZEOF_TRAPFRAME, SIZEOF_CONTEXT. intros H1 H2.
  rewrite (u32_id (page + 4096)), (u32_id (page + 4020 - 4)) by lia. rewrite !u32_id by lia. lia.
Qed.

Section allocproc_proof.
Context {F : Type} (kend forkret_addr trapret_addr : Z).
Implicit Types s : sys F.

(** The stack a new process starts on: trap frame, the return address
    [trapret] and the context that enters [forkret], from the top down. *)
Definition on_stack (page : Z) (m : bytemem) (x : proc) : proc :=
  x <| kstack := page |>
    <| tf_addr := page + 4020 |> <| tf := tf_at m (page + 4020) |>
    <| ctx_ret := trapret_addr |> <| context := page + 3996 |> <| ctx_eip := forkret_addr |>.

Lemma wp_find_slot k (Q : pptr → kstate → Prop) E :
  length (procs k) = 64%nat → calm (this_cpu k) → free (ptable_lock k) →
  (unused_before 64 k → Q None (bracketed k)) →
  (∀ i x, procs k !! i = Some x → pstate x = UNUSED → unused_before i k →
     Q (Some i) (with_proc i (init_proc (nextpid k) x) ((bracketed k) <| nextpid := i32 (nextpid k + 1) |>))) →
  wp find_slot Q E k.
Proof.
  intros Hl [Hc Hn] Hf HN HS. unfold find_slot. wp_step. apply wp_acquire_ptable; [done..|].
  set (k1 := _ <| ptable_lock := _ |>). wp_step. apply (alloc_scan k1); [done | |].
  - intros i x Hx Hst Hb. do 5 wp_step. eapply wp_pupd; [exact Hx|]. wp_step.
    apply (wp_leave_ptable k); [done | done | reflexivity | reflexivity |]. wp_step.
    rewrite unlocked_free by done. specialize (HS i x Hx Hst Hb). unfold with_proc, bracketed in HS. by destruct k.
  - intros Hnone. wp_step. apply (wp_leave_ptable k); [done..|]. wp_step. rewrite unlocked_free by done.
    specialize (HN Hnone). unfold bracketed in HN. by destruct k.
Qed.

Lemma wp_set_stack k i y page m (Q : pptr → kstate → Prop) E :
  (i < length (procs k))%nat → page = 0 ∨ 0 < page ∧ page + KSTACKSIZE < 2 ^ 32 →
  (page = 0 → Q None (with_proc i (y <| kstack := 0 |> <| pstate := UNUSED |>) k)) →
  (page ≠ 0 → Q (Some i) (with_proc i (on_stack page m y) k)) →
  wp (set_stack forkret_addr trapret_addr i page m) Q E (with_proc i y k).
Proof.
  intros Hi Hpage HN HS. unfold set_stack. wp_step. apply wp_pupd_with; [done|].
  destruct (Z.eqb_spec page 0) as [->|Hne]; [wp_step; apply wp_pupd_with; [done|]; wp_step; by apply HN|].
  destruct Hpage as [?|[Hpos Hlt]]; [done|]. cbv zeta. destruct (stack_offsets page Hpos Hlt) as [-> ->].
  do 4 (wp_step; apply wp_pupd_with; [done|]). wp_step. by apply HS.
Qed.

(** What [allocproc] does from [k] when the free pages are [l]. *)
Definition allocated (s : sys F) (l : list Z) (r : pptr) (s' : sys F) : Prop :=
  let k := bracketed (kern s) in
  let k1 := k <| nextpid := i32 (nextpid k + 1) |> in
  rest s' = rest s ∧ memory (pages s') = memory (pages s) ∧
  match r with
  | Some i => ∃ x page l', l = page :: l' ∧ kmem_ok kend (pages s') l' ∧
      procs k !! i = Some x ∧ pstate x = UNUSED ∧ unused_before i k ∧
      kern s' = with_proc i (on_stack page (memory (pages s)) (init_proc (nextpid k) x)) k1
  | None =>
      kmem_ok kend (pages s') l ∧
      ((unused_before 64 k ∧ kern s' = k) ∨
       (l = [] ∧ ∃ i x, procs k !! i = Some x ∧ pstate x = UNUSED ∧
         kern s' = with_proc i ((init_proc (nextpid k) x) <| kstack := 0 |> <| pstate := UNUSED |>) k1))
  end.

Lemma wp_allocproc s l (Q : pptr → sys F → Prop) E :
  length (procs (kern s)) = 64%nat → calm (this_cpu (kern s)) → free (ptable_lock (kern s)) → kmem_ok kend (pages s) l →
  (∀ r s', allocated s l r s' → Q r s') → wp (allocproc forkret_addr trapret_addr) Q E s.
Proof.
  intros Hl Hc Hf Hk HQ. unfold allocproc. wp_step. apply wp_onk. apply wp_find_slot; [done..| |].
  { intros Hnone. wp_step. apply HQ. do 2 (split; [done|]). split; [done|]. by left. }
  intros i x Hx Hst Hb. wp_step. apply wp_onm. eapply (wp_kalloc kend); [exact Hk|].
  intros m' Hm' Hk'. wp_step. apply wp_onm. wp_step. apply wp_onk.
  assert (Hi : (i < length (procs (kern s)))%nat) by by eapply lookup_lt_Some.
  assert (Hpage : hd 0 l = 0 ∧ l = [] ∨ ∃ p l', l = p :: l' ∧ 0 < p ∧ p + KSTACKSIZE < 2 ^ 32).
  { destruct l as [|p l']; [by left|]. right. exists p, l'. split; [done|].
    assert (Hp : page_ok kend p) by (eapply chain_pages; [apply Hk | left]). destruct Hp as [_ _ Hr].
    unfold KERNBASE, PHYSTOP, KSTACKSIZE in *. lia. }
  apply wp_set_stack; [done | destruct Hpage as [[-> _]|(p & l' & -> & Hp)]; [by left | by right]| |].
  - intros Hz. destruct Hpage as [[_ ->]|(p & l' & -> & Hp)]; [|cbn in Hz; lia]. apply HQ.
    do 2 (split; [done|]). split; [exact Hk'|]. right. split; [done|]. by exists i, x.
  - intros Hz. destruct Hpage as [[? _]|(p & l' & -> & Hp)]; [done|]. cbn [hd tl] in *. apply HQ.
    do 2 (split; [done|]). exists x, p, l'. do 5 (split; [done|]). cbn. by rewrite Hm'.
Qed.

End allocproc_proof.

