(* ===== verification/Thread.v ===== *)
(** * Processes and threads (proc.c)

    [fork], [exit], [wait], [growproc] and the threads of this kernel:
    [thread_create], [thread_exit], [thread_join].  A thread is a slot of the
    process table that shares the page directory of its process; the counters
    [pgdir_ref] tell how many slots do.

    The state is [sys]: table, memory and files.  [resume] is what the rest
    of the system does between a switch away from the caller and the switch
    back. *)
From S2P Require Import Prelude Spinlock Proc StrideQueue Sched Sleep Share Trap Bytes CString Kalloc Vm Kernel ProcAlloc.

(** [safestrcpy] between the name fields of two processes. *)
Definition copy_name (dst src : list Z) : list Z :=
  match safestrcpy 0 16 16 (dst ++ src) with
  | Ok _ m => take 16 m
  | Stop _ _ => dst
  end.

(** A word stored by the kernel at a user address, through the page tables
    that are loaded: writing needs a present, writable page. *)
Definition user_store8 (pgdir va v : Z) : M kmem unit :=
  pte ← walkpgdir pgdir va false;
  e ← deref_word pte;
  if negb (present e) || (Z.land e PTE_W =? 0) then fault else
  modify (fun k => k <| memory := poked (memory k) (P2V (PTE_ADDR e) + va mod PGSIZE) [v] |>).

Definition user_store (pgdir va v : Z) : M kmem unit :=
  for_each (zip (seqZ 0 4) (le_bytes 4 v)) (fun '(i, b) => user_store8 pgdir (u32 (va + i)) b).

Section threads.
Context {F : Type} `{FileOps F}.
(** The end of the kernel image, its read-write part, and two code addresses. *)
Context (kend kdata forkret_addr trapret_addr : Z).
(** The uninitialised variable of [stride_queue_delete]. *)
Context (uninit : bool).
Context (resume : M (sys F) unit).

Abbreviation S := (sys F).

(** ** Switching, on the whole state *)
Definition sched_sys : M S unit :=
  saved ← onk sched_out;
  resume;;
  onk (sched_in saved).

Definition sleep_sys (ch : chan_t) (lk : lock_ptr) : M S unit :=
  onk (sleep_enter ch lk);;
  sched_sys;;
  onk (sleep_leave lk).

(** ** Memory of a process *)
Definition growproc (n : Z) : M S Z :=
  me ← onk the_proc;
  x ← onk (pget me);
  r ← (if n >? 0 then
         sz ← onm (allocuvm kend (pgdir x) (sz x) (u32 (sz x + n)));
         mret (if sz =? 0 then None else Some sz)
       else if n <? 0 then
         sz ← onm (deallocuvm kend (pgdir x) (sz x) (u32 (sz x + n)));
         mret (if sz =? 0 then None else Some sz)
       else mret (Some (sz x)));
  match r with
  | None => mret (-1)
  | Some sz' =>
      onk (pupd me (fun y => y <| sz := sz' |>));;
      onk (switchuvm (Some me));;
      mret 0
  end.

(** ** Sharing open files *)
Definition with_thread {A} (m : M S A) : M S A :=
  onk acquire_thread;;
  a ← m;
  onk release_thread;;
  mret a.

(** [to->ofile[i] = filedup(from->ofile[i])] for every open file. *)
Definition dup_files (from to : nat) : M S unit :=
  for_each (seq 0 (Z.to_nat NOFILE)) (fun i =>
    x ← onk (pget from);
    slot ← deref (ofile x !! i);
    match slot with
    | None => mret tt
    | Some f => with_thread (
        g ← filedup f;
        onk (pupd to (fun y => y <| ofile ::= <[i := Some g]> |>)))
    end).

Definition dup_cwd (from to : nat) : M S unit :=
  x ← onk (pget from);
  i ← deref (cwd x);
  with_thread (j ← idup i; onk (pupd to (fun y => y <| cwd := Some j |>))).

Definition dup_name (from to : nat) : M S unit :=
  x ← onk (pget from);
  onk (pupd to (fun y => y <| pname := copy_name (pname y) (pname x) |>)).

Definition set_state (p : nat) (st : procstate) : M S unit :=
  onk acquire_ptable;;
  onk (pupd p (fun y => y <| pstate := st |>));;
  onk release_ptable.

(** ** fork *)
Definition fork_master_thread (t : nat) : M S Z :=
  xt ← onk (pget t);
  old ← deref (parent xt);
  r ← allocproc forkret_addr trapret_addr;
  match r with
  | None => mret (-1)
  | Some np =>
      onk (pupd np (fun y => y <| pid := pid xt |>));;
      o ← onk (pget old);
      onk (pupd np (fun y => y <| pgdir := pgdir o |>));;
      onk (pupd np (fun y => y <| sz := sz o |>));;
      onk (pupd np (fun y => y <| parent := Some old |>));;
      onk (pupd t (fun y => y <| parent := Some np |>));;
      me ← onk the_proc;
      onk (pupd me (fun y => y <| proc_forked_in_thread := Some np |>));;
      onk (pupd np (fun y => y <| tf := tf o |>));;
      onk (pupd np (fun y => y <| pgdir_ref_idx := pgdir_ref_idx xt |>));;
      with_thread (
        c ← onk (refget (pgdir_ref_idx xt));
        onk (refset (pgdir_ref_idx xt) (c + 1));;
        onk (pupd np (fun y => y <| num_of_threads ::= fun n => i32 (n + 1) |>)));;
      onk (pupd np (fun y => y <| tf ::= fun f => f <| eax := 0 |> |>));;
      dup_files t t;;
      dup_cwd t np;;
      dup_name t np;;
      p ← onk (pget np);
      o ← onk (pget old);
      set_state np (pstate o);;
      mret (pid p)
  end.

(** The branch for a thread at the end of [fork]; the test at its top keeps
    threads out. *)
Definition fork_in_thread (np : nat) : M S unit :=
  next ← onk (gets next_thread_id);
  onk (modify (fun k => k <| next_thread_id := i32 (next + 1) |>));;
  onk (pupd np (fun y => y <| tid := next |>));;
  me ← onk the_proc;
  x ← onk (pget me);
  onk (pupd np (fun y => y <| parent := parent x |>));;
  r ← fork_master_thread np;
  if r =? -1 then panic "creating a new master thread is failed." else mret tt.

Definition fork : M S Z :=
  me ← onk the_proc;
  x ← onk (pget me);
  if negb (tid x =? 0) then mret (-1) else
  r ← allocproc forkret_addr trapret_addr;
  match r with
  | None => mret (-1)
  | Some np =>
      d ← onm (copyuvm kend kdata (pgdir x) (sz x));
      onk (pupd np (fun y => y <| pgdir := d |>));;
      if d =? 0 then
        y ← onk (pget np);
        onm (kfree kend (kstack y));;
        onk (pupd np (fun y => y <| kstack := 0 |>));;
        onk (pupd np (fun y => y <| pstate := UNUSED |>));;
        mret (-1)
      else
        x ← onk (pget me);
        onk (pupd np (fun y => y <| sz := sz x |>));;
        onk (pupd np (fun y => y <| parent := Some me |>));;
        onk (pupd np (fun y => y <| tf := tf x |>));;
        onk (allocate_new_pgdir_idx np);;
        onk (pupd np (fun y => y <| tf ::= fun f => f <| eax := 0 |> |>));;
        dup_files me np;;
        dup_cwd me np;;
        dup_name me np;;
        y ← onk (pget np);
        x ← onk (pget me);
        when (negb (tid x =? 0)) (fork_in_thread np);;
        set_state np RUNNABLE;;
        mret (pid y)
  end.

(** ** Clearing a slot *)
Definition cleared (y : proc) : proc :=
  y <| pid := 0 |> <| parent := None |> <| pname ::= <[0%nat := 0]> |> <| killed := 0 |>
    <| tick_used := 0 |> <| time_quantum_used := 0 |> <| level_of_MLFQ := 0 |>
    <| cpu_share := 0 |> <| stride := 0 |> <| stride_count := 0 |>
    <| tid := 0 |> <| pgdir_ref_idx := -1 |> <| thread_return := 0 |> <| num_of_threads := 0 |>
    <| proc_forked_in_thread := None |> <| original_cpu_share := 0 |> <| pstate := UNUSED |>.

Definition clear_proc (p : nat) : M S Z :=
  x ← onk (pget p);
  onm (kfree kend (kstack x));;
  onk (pupd p (fun y => y <| kstack := 0 |>));;
  check_pgdir_counter_and_call_freevm kend p;;
  onk (pupd p cleared);;
  mret (pid x).

(** The pages of a thread's stack; the size of its creator shrinks with it. *)
Definition remove_thread_stack (p : nat) : M S unit :=
  x ← onk (pget p);
  c ← onk (refget (pgdir_ref_idx x));
  when (c >? 1) (
    newsz ← onm (deallocuvm kend (pgdir x) (sz x) (u32 (sz x - 2 * PGSIZE)));
    q ← deref (parent x);
    onk (pupd q (fun y => y <| sz := if newsz <? sz y then newsz else sz y |>)));;
  with_thread (
    q ← deref (parent x);
    onk (pupd q (fun y => y <| num_of_threads ::= fun n => i32 (n - 1) |>))).

(** ** Waiting

    One scan of the table for a finished slot that [mine] selects: the answer
    of [reap] on the first, or whether there is any at all. *)
Fixpoint reap_scan {A} (mine : proc → bool) (reap : nat → M S A) (l : list nat) (havekids : bool) : M S (A + bool) :=
  match l with
  | [] => mret (inr havekids)
  | p :: l =>
      x ← onk (pget p);
      if negb (mine x) then reap_scan mine reap l havekids
      else if bool_decide (pstate x = ZOMBIE) then a ← reap p; mret (inl a)
      else reap_scan mine reap l true
  end.

(** The loop around the scan: it sleeps at most [fuel] times. *)
Fixpoint wait_loop (fuel : nat) (scan : M S (Z + bool)) (ch : M S chan_t) : M S Z :=
  r ← scan;
  match r with
  | inl v => mret v
  | inr havekids =>
      me ← onk the_proc;
      x ← onk (pget me);
      if negb havekids || negb (killed x =? 0) then onk release_ptable;; mret (-1)
      else match fuel with
           | O => stop_with NoFuel
           | Datatypes.S fuel => c ← ch; sleep_sys c lk_ptable;; wait_loop fuel scan ch
           end
  end.

Definition child_of (me : nat) (x : proc) : bool := bool_decide (parent x = Some me) && (tid x =? 0).

Definition wait_normal (fuel : nat) : M S Z :=
  onk acquire_ptable;;
  wait_loop fuel
    (me ← onk the_proc;
     reap_scan (child_of me) (fun p => v ← clear_proc p; onk release_ptable;; mret v) all_procs false)
    (me ← onk the_proc; mret (ch_proc me)).

Definition wait_thread (fuel : nat) : M S Z :=
  onk acquire_ptable;;
  wait_loop fuel
    (me ← onk the_proc; y ← onk (pget me);
     reap_scan (fun x => bool_decide (parent x = proc_forked_in_thread y))
       (fun p => v ← clear_proc p; onk release_ptable;; mret v) all_procs false)
    (me ← onk the_proc; y ← onk (pget me); mret (chan_of (proc_forked_in_thread y))).

Definition wait (fuel : nat) : M S Z :=
  me ← onk the_proc;
  x ← onk (pget me);
  if tid x =? 0 then wait_normal fuel else wait_thread fuel.

Definition thread_of (me : nat) (t : Z) (x : proc) : bool := bool_decide (parent x = Some me) && (tid x =? t).

Definition thread_join (fuel : nat) (thread retval : Z) : M S Z :=
  onk acquire_ptable;;
  wait_loop fuel
    (me ← onk the_proc;
     reap_scan (thread_of me thread) (fun p =>
       x ← onk (pget p);
       y ← onk (pget me);
       onm (user_store (pgdir y) retval (thread_return x));;
       remove_thread_stack p;;
       clear_proc p;;
       onk release_ptable;;
       mret 0) all_procs false)
    (me ← onk the_proc; mret (ch_proc me)).

(** ** Exit *)
Definition close_files (p : nat) : M S unit :=
  for_each (seq 0 (Z.to_nat NOFILE)) (fun fd =>
    x ← onk (pget p);
    slot ← deref (ofile x !! fd);
    match slot with
    | None => mret tt
    | Some f =>
        with_thread (fileclose f);;
        onk (pupd p (fun y => y <| ofile ::= <[fd := None]> |>))
    end).

Definition drop_cwd (p : nat) : M S unit :=
  begin_op;;
  x ← onk (pget p);
  i ← deref (cwd x);
  iput i;;
  end_op;;
  onk (pupd p (fun y => y <| cwd := None |>)).

(** The children of [p] go to init, which is woken for those that are done. *)
Definition abandon_children (p : nat) : K unit :=
  for_each all_procs (fun q =>
    y ← pget q;
    when (bool_decide (parent y = Some p)) (
      init ← gets initproc;
      pupd q (fun y => y <| parent := init |>);;
      when (bool_decide (pstate y = ZOMBIE)) (wakeup1 (chan_of init)))).

(** From [acquire(&ptable.lock)] to the state ZOMBIE. *)
Definition leave_queue (p : nat) : K unit :=
  x ← pget p;
  when (negb (cpu_share x =? 0)) (acquire_thread;; stride_queue_delete uninit p;; release_thread).

Definition common_exit (p : nat) : M S unit :=
  close_files p;;
  drop_cwd p;;
  onk (acquire_ptable;;
       leave_queue p;;
       x ← pget p;
       wakeup1 (chan_of (parent x));;
       abandon_children p;;
       pupd p (fun y => y <| pstate := ZOMBIE |>)).

Definition never_back {A} : M S A := sched_sys;; panic "zombie exit".

(** The other threads of the process [x], for its master thread: each is made
    a zombie and joined, its result stored at address 0. *)
Definition exit_threads (fuel : nat) (me : nat) : M S unit :=
  for_each all_procs (fun p =>
    y ← onk (pget p);
    x ← onk (pget me);
    when ((pid y =? pid x) && negb (tid y =? 0)) (
      common_exit p;;
      onk release_ptable;;
      thread_join fuel (tid y) 0;;
      mret tt)).

(** The same for a thread that is not the master. *)
Definition exit_siblings (me : nat) : M S unit :=
  for_each all_procs (fun p =>
    y ← onk (pget p);
    x ← onk (pget me);
    when ((pid y =? pid x) && negb (tid y =? 0) && bool_decide (p ≠ me)) (
      onk acquire_ptable;;
      remove_thread_stack p;;
      onk release_ptable;;
      common_exit p;;
      clear_proc p;;
      onk release_ptable)).

Definition exit (fuel : nat) : M S unit :=
  me ← onk the_proc;
  init ← onk (gets initproc);
  if bool_decide (init = Some me) then panic "init exiting" else
  x ← onk (pget me);
  if (tid x =? 0) && (num_of_threads x =? 0) then
    common_exit me;;
    never_back
  else if (tid x =? 0) && negb (num_of_threads x =? 0) then
    exit_threads fuel me;;
    common_exit me;;
    never_back
  else if negb (tid x =? 0) && (num_of_threads x =? 0) then
    exit_siblings me;;
    master ← deref (parent x);
    common_exit master;;
    onk release_ptable;;
    onk acquire_ptable;;
    remove_thread_stack me;;
    onk release_ptable;;
    common_exit me;;
    onk (pupd me (fun y => y <| pstate := UNUSED |>));;
    never_back
  else panic "panic in exit(). tid != 0 && num_of_threads != 0. Wrong case.".

Definition thread_exit (retval : Z) : M S unit :=
  me ← onk the_proc;
  init ← onk (gets initproc);
  if bool_decide (init = Some me) then panic "init exiting" else
  close_files me;;
  drop_cwd me;;
  onk (acquire_ptable;;
       pupd me (fun y => y <| thread_return := retval |>);;
       leave_queue me;;
       x ← pget me;
       wakeup1 (chan_of (parent x));;
       abandon_children me;;
       pupd me (fun y => y <| pstate := ZOMBIE |>));;
  never_back.

(** ** thread_create *)

(** The share of the stride queue is divided among the threads. *)
Definition share_out (np : nat) : K unit :=
  me ← the_proc;
  x ← pget me;
  when (negb (cpu_share x =? 0)) (
    (if num_of_threads x + 1 =? 0 then fault else mret tt);;
    let share_per_thread := Z.quot (original_cpu_share x) (i32 (num_of_threads x + 1)) in
    r ← set_cpu_share_in_thread_create share_per_thread np me;
    if negb (r =? 0) then panic "(thread_create) making a new thread in stride is failed." else
    for_each all_procs (fun p =>
      y ← pget p;
      x ← pget me;
      when (pid y =? pid x) (
        pupd p (fun y => y <| cpu_share := share_per_thread |>);;
        (if share_per_thread =? 0 then fault else mret tt);;
        pupd p (fun y => y <| stride := Z.quot NSTRIDE share_per_thread |>)))).

(** The slot as a thread of the caller; [None] is the failure of [allocuvm],
    which leaves [thread_lock] held. *)
Definition thread_stack (me np : nat) : M S (option unit) :=
  onk acquire_thread;;
  x ← onk (pget me);
  onk (pupd np (fun y => y <| sz := sz x |>));;
  onk (pupd np (fun y => y <| sz := PGROUNDUP (sz x) |>));;
  y ← onk (pget np);
  newsz ← onm (allocuvm kend (pgdir y) (sz y) (u32 (sz y + 2 * PGSIZE)));
  onk (pupd np (fun y => y <| sz := newsz |>));;
  if newsz =? 0 then mret None else
  onm (clearpteu (pgdir y) (u32 (newsz - 2 * PGSIZE)));;
  onk (pupd me (fun y => y <| sz := u32 (newsz + PGSIZE * (1024 - 2)) |>));;
  (if tid x =? 0 then onk (pupd me (fun y => y <| num_of_threads ::= fun n => i32 (n + 1) |>))
   else q ← deref (parent x); onk (pupd q (fun y => y <| num_of_threads ::= fun n => i32 (n + 1) |>)));;
  onk release_thread;;
  mret (Some tt).

Definition thread_create (thread start_routine arg : Z) : M S Z :=
  r ← allocproc forkret_addr trapret_addr;
  match r with
  | None => mret (-1)
  | Some np =>
      me ← onk the_proc;
      x ← onk (pget me);
      onk (pupd np (fun y => y <| pid := pid x |>));;
      next ← onk (gets next_thread_id);
      onk (modify (fun k => k <| next_thread_id := i32 (next + 1) |>));;
      onk (pupd np (fun y => y <| tid := next |>));;
      onm (user_store (pgdir x) thread next);;
      onk (pupd np (fun y => y <| pgdir := pgdir x |>));;
      onk (pupd np (fun y => y <| sz := sz x |>));;
      onk (pupd np (fun y => y <| parent := Some me |>));;
      onk (pupd np (fun y => y <| tf := tf x |>));;
      onk (pupd np (fun y => y <| pgdir_ref_idx := pgdir_ref_idx x |>));;
      with_thread (
        c ← onk (refget (pgdir_ref_idx x));
        onk (refset (pgdir_ref_idx x) (c + 1)));;
      onk (pupd np (fun y => y <| tf ::= fun f => f <| eax := 0 |> |>));;
      dup_files me np;;
      dup_cwd me np;;
      dup_name me np;;
      ok ← thread_stack me np;
      match ok with
      | None => mret (-1)
      | Some _ =>
          onk (pupd np (fun y => y <| tf ::= fun f => f <| eip := start_routine |> |>));;
          y ← onk (pget np);
          onk (pupd np (fun z => z <| tf ::= fun f => f <| esp := u32 (sz y - 8) |> |>));;
          y ← onk (pget np);
          onm (user_store (pgdir x) (esp (tf y)) 3735936685);;
          onm (user_store (pgdir x) (u32 (esp (tf y) + 4)) arg);;
          set_state np RUNNABLE;;
          onk (share_out np);;
          mret 0
      end
  end.

(** ** The first process

    [initcode] is the image the linker includes, [root] the answer of
    [namei] of the root directory. *)
Definition SEG_UCODE : Z := 4.
Definition SEG_UDATA : Z := 5.
Definition FL_IF : Z := 512.

Definition userinit (initcode : list Z) (root : M S (option nat)) : M S unit :=
  r ← allocproc forkret_addr trapret_addr;
  onk (modify (fun k => k <| initproc := r |>));;
  p ← deref r;
  d ← onm (setupkvm kdata);
  onk (pupd p (fun y => y <| pgdir := d |>));;
  if d =? 0 then panic "userinit: out of memory?" else
  onm (inituvm d initcode);;
  onk (pupd p (fun y => y <| sz := PGSIZE |>));;
  onk (pupd p (fun y => y <| tf := tf0 |>));;
  let useg := Z.lor (Z.shiftl SEG_UDATA 3) DPL_USER in
  onk (pupd p (fun y => y <| tf := mktf 0 0 PGSIZE (Z.lor (Z.shiftl SEG_UCODE 3) DPL_USER) useg useg useg FL_IF 0 0 |>));;
  onk (pupd p (fun y => y <| pname := copy_name (pname y) ([105; 110; 105; 116; 99; 111; 100; 101; 0] ++ replicate 7 0) |>));;
  i ← root;
  onk (pupd p (fun y => y <| cwd := i |>));;
  set_state p RUNNABLE.
End threads.
