(* ===== verification/ThreadLib.v ===== *)
(** * Processes and threads: the tools of the proofs

    The kernel in a critical section as a function of the kernel outside it,
    one table entry changed at a time, and the meaning of the counters of page
    directories: [counted] says that each is the number of slots in use that
    refer to it. *)
From S2P Require Import Prelude Spinlock Proc StrideQueue Sched Sleep Bytes Kalloc Vm Kernel ProcAlloc Thread.

(** ** Critical sections *)

(** A CPU on which entering and leaving a critical section changes nothing. *)
Definition settled (c : cpu) : Prop := calm c ∧ popped (pushed c) = c.

Lemma settled_bracket c : calm c → settled (popped (pushed c)).
Proof.
  intros Hc. split; [by apply calm_bracket|]. pose proof Hc as [Hok _]. rewrite !popped_pushed by (done || apply calm_bracket, Hc).
  destruct c as [i n e f]. cbn. by destruct (n =? 0).
Qed.

Lemma settled_nested c : calm c → 0 < ncli c → settled c.
Proof. intros Hc Hn. split; [done|]. apply popped_pushed_nested; [apply Hc | done]. Qed.

Lemma bracketed_settled k : settled (this_cpu k) → bracketed k = k.
Proof.
  intros [_ Hs]. transitivity (k <| this_cpu := popped (pushed (this_cpu k)) |>); [done|]. rewrite Hs. by destruct k.
Qed.

Definition lockT (k : kstate) : kstate :=
  k <| this_cpu := pushed (this_cpu k) |> <| thread_lock := locked_by (this_cpu k) (thread_lock k) |>.
Definition lockP (k : kstate) : kstate :=
  k <| this_cpu := pushed (this_cpu k) |> <| ptable_lock := locked_by (this_cpu k) (ptable_lock k) |>.

Lemma wp_lockT k (Q : unit → kstate → Prop) E :
  calm (this_cpu k) → free (thread_lock k) → Q tt (lockT k) → wp acquire_thread Q E k.
Proof. intros [Hc _] Hf HQ. by apply wp_acquire_thread. Qed.

Lemma wp_unlockT k (Q : unit → kstate → Prop) E :
  settled (this_cpu k) → free (thread_lock k) → Q tt k → wp release_thread Q E (lockT k).
Proof.
  intros [[Hc Hn] Hs] Hf HQ. apply wp_release_thread; [by apply cli_ok_pushed | destruct Hc; cbn; lia | by apply holding_locked_by|].
  cbn. rewrite Hs, unlocked_locked_by by done. by destruct k.
Qed.

Lemma wp_lockP k (Q : unit → kstate → Prop) E :
  calm (this_cpu k) → free (ptable_lock k) → Q tt (lockP k) → wp acquire_ptable Q E k.
Proof. intros [Hc _] Hf HQ. by apply wp_acquire_ptable. Qed.

Lemma wp_unlockP k (Q : unit → kstate → Prop) E :
  settled (this_cpu k) → free (ptable_lock k) → Q tt k → wp release_ptable Q E (lockP k).
Proof.
  intros [[Hc Hn] Hs] Hf HQ. apply wp_release_ptable; [by apply cli_ok_pushed | destruct Hc; cbn; lia | by apply holding_locked_by|].
  cbn. rewrite Hs, unlocked_locked_by by done. by destruct k.
Qed.

Lemma pushed_popped_pushed c : calm c → pushed (popped (pushed c)) = pushed c.
Proof. intros [Hc _]. rewrite popped_pushed by done. destruct c as [i n e f]. unfold pushed. cbn. by destruct (n =? 0). Qed.

Lemma lockT_bracketed k : calm (this_cpu k) → lockT (bracketed k) = lockT k.
Proof.
  intros Hp%pushed_popped_pushed.
  transitivity (k <| this_cpu := pushed (popped (pushed (this_cpu k))) |> <| thread_lock := locked_by (this_cpu k) (thread_lock k) |>); [|by rewrite Hp].
  done.
Qed.

Lemma lockP_bracketed k : calm (this_cpu k) → lockP (bracketed k) = lockP k.
Proof.
  intros Hp%pushed_popped_pushed.
  transitivity (k <| this_cpu := pushed (popped (pushed (this_cpu k))) |> <| ptable_lock := locked_by (this_cpu k) (ptable_lock k) |>); [|by rewrite Hp].
  done.
Qed.

Lemma calm_lockP k : calm (this_cpu k) → ncli (this_cpu k) + 2 < INT_MAX → settled (this_cpu (lockP k)).
Proof.
  intros [Hc Hn] Hn2. apply settled_nested; [|destruct Hc; cbn; lia]. split; [by apply cli_ok_pushed | cbn; lia].
Qed.

(** ** The users of a page directory *)
Definition uses (i : Z) (x : proc) : bool := bool_decide (pstate x ≠ UNUSED) && (pgdir_ref_idx x =? i).
Definition users (i : Z) (ps : list proc) : nat := length (filter (fun x => uses i x = true) ps).
#[global] Arguments users : simpl never.
#[global] Arguments uses : simpl never.

Record counted (k : kstate) : Prop := {
  ct_refs : refs_ok k;
  ct_len : length (procs k) = 64%nat;
  ct_count : ∀ i, 0 ≤ i < 64 → pgdir_ref k !! Z.to_nat i = Some (Z.of_nat (users i (procs k)));
  ct_idx : ∀ p x, procs k !! p = Some x → pstate x ≠ UNUSED → -1 ≤ pgdir_ref_idx x < 64
}.

(** For states given by a term. *)
Lemma counted_check k :
  refs_ok k → length (procs k) = 64%nat →
  bool_decide (Forall (fun i => pgdir_ref k !! i = Some (Z.of_nat (users (Z.of_nat i) (procs k)))) (seq 0 64)) = true →
  (∀ p x, procs k !! p = Some x → pstate x ≠ UNUSED → -1 ≤ pgdir_ref_idx x < 64) → counted k.
Proof.
  intros Hr Hl Hall%bool_decide_eq_true Hx. split; [done | done | | done]. rewrite Forall_forall in Hall.
  intros i Hi. specialize (Hall (Z.to_nat i) ltac:(apply elem_of_seq; lia)). by rewrite Z2Nat.id in Hall by lia.
Qed.

Lemma users_insert i ps p x y :
  ps !! p = Some x →
  (users i (<[p := y]> ps) + Nat.b2n (uses i x) = users i ps + Nat.b2n (uses i y))%nat.
Proof.
  intros Hp. assert (Hl : (p < length ps)%nat) by by eapply lookup_lt_Some.
  rewrite <-(take_drop_middle _ _ _ Hp) at 2. rewrite (insert_take_drop _ _ _ Hl). unfold users.
  rewrite !filter_app, !length_app, !filter_cons.
  destruct (uses i x) eqn:Ex, (uses i y) eqn:Ey; cbn; repeat case_decide; cbn; try congruence; lia.
Qed.

Lemma users_ge i ps p x : ps !! p = Some x → uses i x = true → (0 < users i ps)%nat.
Proof.
  intros Hp Hu. unfold users. assert (Hin : x ∈ filter (fun x => uses i x = true) ps).
  { apply list_elem_of_filter. split; [done|]. by eapply list_elem_of_lookup_2. }
  destruct (filter _ ps); [by apply elem_of_nil in Hin | cbn; lia].
Qed.

Lemma users_pos i ps : (0 < users i ps)%nat → ∃ p x, ps !! p = Some x ∧ uses i x = true.
Proof.
  unfold users. destruct (filter _ ps) as [|x l] eqn:E; [cbn; lia|]. intros _.
  assert (Hin : x ∈ filter (fun x => uses i x = true) ps) by (rewrite E; left).
  apply list_elem_of_filter in Hin as [Hu Hin]. apply list_elem_of_lookup_1 in Hin as [p Hp]. by exists p, x.
Qed.

Lemma uses_true i x : uses i x = true ↔ pstate x ≠ UNUSED ∧ pgdir_ref_idx x = i.
Proof. unfold uses. rewrite andb_true_iff, bool_decide_eq_true, Z.eqb_eq. done. Qed.

Lemma users_cons i x ps : users i (x :: ps) = (Nat.b2n (uses i x) + users i ps)%nat.
Proof. unfold users. rewrite filter_cons. destruct (uses i x); cbn; by case_decide. Qed.

(** As many slots as directories in use. *)
Lemma users_pigeons n ps : (∀ i, 0 ≤ i < Z.of_nat n → (0 < users i ps)%nat) → (n ≤ length ps)%nat.
Proof.
  revert ps. induction n as [|n IH]; intros ps Hall; [lia|].
  set (other := fun x => uses (Z.of_nat n) x = false).
  assert (Hrest : ∀ i, i ≠ Z.of_nat n → users i (filter other ps) = users i ps).
  { intros i Hi. clear Hall. induction ps as [|x ps IHps]; [done|]. rewrite filter_cons. unfold other at 1. case_decide as Hx.
    - by rewrite !users_cons, IHps.
    - rewrite users_cons, IHps. apply not_false_is_true, uses_true in Hx as [_ Hx]. unfold uses.
      rewrite Hx, (proj2 (Z.eqb_neq _ _)), andb_false_r by lia. done. }
  assert (Hlen : (length (filter other ps) + users (Z.of_nat n) ps = length ps)%nat).
  { clear. induction ps as [|x ps IHps]; [done|]. rewrite filter_cons, users_cons. unfold other at 1.
    case_decide as Hx; [rewrite Hx | apply not_false_is_true in Hx; rewrite Hx]; cbn; lia. }
  specialize (IH (filter other ps)). specialize (Hall (Z.of_nat n) ltac:(lia)) as Hn.
  assert (n ≤ length (filter other ps))%nat; [|lia]. apply IH. intros i Hi. rewrite Hrest by lia. apply Hall. lia.
Qed.

(** One of the counters is free when a slot in use has none. *)
Lemma counter_left k np x :
  counted k → procs k !! np = Some x → pgdir_ref_idx x = -1 →
  ∃ i, 0 ≤ i < 64 ∧ array_get (pgdir_ref k) i = Some 0.
Proof.
  intros [_ Hlen Hcount _] Hnp Hx.
  destruct (decide (Exists (fun i => users (Z.of_nat i) (procs k) = 0%nat) (seq 0 64))) as [He|Hno].
  { apply Exists_exists in He as (i & Hi%elem_of_seq & Hz).
    exists (Z.of_nat i). split; [lia|]. rewrite array_get_Some. split; [lia|]. rewrite Hcount by lia. by rewrite Hz. }
  exfalso. assert (Hl : (64 ≤ length (delete np (procs k)))%nat).
  { apply users_pigeons. intros i Hi.
    assert (Hp : users i (procs k) ≠ 0%nat).
    { intros Hz. apply Hno, Exists_exists. exists (Z.to_nat i). split; [apply elem_of_seq; lia|]. by rewrite Z2Nat.id by lia. }
    rewrite <-(take_drop_middle _ _ _ Hnp) in Hp. rewrite delete_take_drop. unfold users in *.
    rewrite filter_app, length_app in Hp |- *. rewrite filter_cons in Hp.
    case_decide as Hu; [apply uses_true in Hu; lia | lia]. }
  rewrite length_delete in Hl by (by eexists). lia.
Qed.

(** ** Loops over small indices *)
Lemma for_seq_wp {S} (I : nat → S → Prop) (n : nat) (body : nat → M S unit) (Q : unit → S → Prop) E s :
  I 0%nat s → (∀ j s, (j < n)%nat → I j s → wp (body j) (fun _ s' => I (Datatypes.S j) s') E s) →
  (∀ s, I n s → Q tt s) → wp (for_each (seq 0 n) body) Q E s.
Proof.
  intros H0 Hstep Hend. eapply wp_weaken; [apply (for_each_wp (fun l s => ∃ j, (j ≤ n)%nat ∧ l = seq j (n - j) ∧ I j s))|].
  - exists 0%nat. rewrite Nat.sub_0_r. split; [lia | done].
  - intros i l s' (j & Hj & Hl & HI). destruct (n - j)%nat as [|m] eqn:Hm; [done|]. injection Hl as -> ->.
    eapply wp_weaken; [apply Hstep; [lia | done]|]. intros [] s2 HI2. exists (Datatypes.S j). split; [lia|]. split; [f_equal; lia | done].
  - intros [] s' (j & Hj & Hl & HI). apply Hend. destruct (n - j)%nat eqn:Hm; [|done]. by replace n with j by lia.
Qed.

(** ** Duplicating files *)
Definition dup_fds (a b : list (option nat)) : list (option nat) :=
  zip_with (fun f g => match f with Some _ => f | None => g end) a b.
Definition fd_count (g : nat) (l : list (option nat)) : nat := length (filter (fun f => f = Some g) l).

Lemma fd_count_snoc g l f : fd_count g (l ++ [f]) = (fd_count g l + if decide (f = Some g) then 1 else 0)%nat.
Proof. unfold fd_count. rewrite filter_app, length_app, filter_cons. by case_decide. Qed.

Definition dup_upto (j : nat) (a b : list (option nat)) : list (option nat) := dup_fds (take j a) (take j b) ++ drop j b.

Lemma length_dup_fds a b : length a = length b → length (dup_fds a b) = length b.
Proof. intros Hl. unfold dup_fds. rewrite length_zip_with. lia. Qed.

Lemma dup_upto_next j a b f g :
  length a = length b → a !! j = Some f → b !! j = Some g →
  dup_upto (S j) a b = match f with Some _ => <[j := f]> (dup_upto j a b) | None => dup_upto j a b end.
Proof.
  intros Hl Ha Hb. pose proof (lookup_lt_Some _ _ _ Ha) as Hj. unfold dup_upto, dup_fds.
  rewrite (take_S_r _ _ f), (take_S_r _ _ g), zip_with_app, (drop_S _ g j) by (done || rewrite !length_take; lia).
  assert (Hlen : length (zip_with (fun f g => match f with Some _ => f | None => g end) (take j a) (take j b)) = j)
    by (rewrite length_zip_with, !length_take; lia).
  destruct f as [f|]; cbn; rewrite <-app_assoc; [|done].
  rewrite insert_app_r_alt by lia. by rewrite Hlen, Nat.sub_diag.
Qed.

Section dup.
Context {F : Type} `{FileLaws F}.
Context (me np : nat) (x : proc) (k : kstate) (p : kmem).
Context (Hs : settled (this_cpu k)) (Hn : ncli (this_cpu k) + 2 < INT_MAX) (Ht : free (thread_lock k)).
Context (Hme : procs k !! me = Some x) (Hne : me ≠ np) (Hnp : (np < length (procs k))%nat).

Lemma wp_me (y : proc) r (Q : proc → sys F → Prop) E :
  Q x (mksys (with_proc np y k) p r) → wp (onk (pget me)) Q E (mksys (with_proc np y k) p r).
Proof. intros HQ. apply wp_onk_mk. eapply wp_pget; [|exact HQ]. cbn. by rewrite list_lookup_insert_ne by done. Qed.

Lemma wp_np (y : proc) r (Q : proc → sys F → Prop) E :
  Q y (mksys (with_proc np y k) p r) → wp (onk (pget np)) Q E (mksys (with_proc np y k) p r).
Proof. intros HQ. apply wp_onk_mk. eapply wp_pget; [|exact HQ]. by apply lookup_with_proc. Qed.

Lemma wp_np_upd f (y : proc) r (Q : unit → sys F → Prop) E :
  Q tt (mksys (with_proc np (f y) k) p r) → wp (onk (pupd np f)) Q E (mksys (with_proc np y k) p r).
Proof. intros HQ. apply wp_onk_mk. by apply wp_pupd_with. Qed.

Lemma locked_calm : calm (pushed (this_cpu k)) ∧ 0 < ncli (pushed (this_cpu k)).
Proof. destruct Hs as [[Hc Hc2] _]. split; [split; [by apply cli_ok_pushed | cbn; lia]|]. destruct Hc. cbn. lia. Qed.

(** A critical section of [thread_lock] that ends with an update of the new
    process. *)
Lemma wp_dup_one {A} (op : M (sys F) A) (f : A → proc → proc) a r r' y (Q : unit → sys F → Prop) E :
  op (mksys (lockT (with_proc np y k)) p r) = Ok a (mksys (lockT (with_proc np y k)) p r') →
  Q tt (mksys (with_proc np (f a y) k) p r') →
  wp (with_thread (b ← op; onk (pupd np (f b)))) Q E (mksys (with_proc np y k) p r).
Proof.
  intros Hop HQ. unfold with_thread. wp_step. apply wp_onk_mk, wp_lockT; [apply Hs | done|]. wp_step. wp_step.
  eapply wp_eq; [exact Hop|].
  change (lockT (with_proc np y k)) with (with_proc np y (lockT k)). apply wp_onk_mk, wp_pupd_with; [done|]. wp_step. apply wp_onk_mk.
  change (with_proc np (f a y) (lockT k)) with (lockT (with_proc np (f a y) k)). apply wp_unlockT; [done | done|]. wp_step. done.
Qed.

Lemma wp_dup_files y r (Q : unit → sys F → Prop) E :
  files_ok r → length (ofile x) = 16%nat → length (ofile y) = 16%nat →
  (∀ f, Some f ∈ ofile x → (0 < file_refs r f)%nat) →
  (∀ r', files_ok r' → inode_refs r' = inode_refs r → (∀ g, file_refs r' g = file_refs r g + fd_count g (ofile x))%nat →
     Q tt (mksys (with_proc np (y <| ofile := dup_fds (ofile x) (ofile y) |>) k) p r')) →
  wp (dup_files me np) Q E (mksys (with_proc np y k) p r).
Proof.
  intros Hr Hlx Hly Hopen HQ. unfold dup_files. change (Z.to_nat NOFILE) with 16%nat.
  apply (for_seq_wp (fun j s => ∃ r', s = mksys (with_proc np (y <| ofile := dup_upto j (ofile x) (ofile y) |>) k) p r' ∧
    files_ok r' ∧ inode_refs r' = inode_refs r ∧ ∀ g, file_refs r' g = (file_refs r g + fd_count g (take j (ofile x)))%nat)).
  - exists r. split_and!; [|done|done|]; [by destruct y | intros g; change (fd_count g (take 0 (ofile x))) with 0%nat; lia].
  - intros j s Hj (r' & -> & Hr' & Hi & Hc).
    destruct (lookup_lt_is_Some_2 (ofile x) j) as [fx Hfx]; [lia|]. destruct (lookup_lt_is_Some_2 (ofile y) j) as [fy Hfy]; [lia|].
    pose proof (dup_upto_next j (ofile x) (ofile y) fx fy ltac:(lia) Hfx Hfy) as Hnext.
    wp_step. apply wp_me. wp_step. eapply wp_deref; [exact Hfx|].
    assert (Hcnt : ∀ g, fd_count g (take (Datatypes.S j) (ofile x)) = (fd_count g (take j (ofile x)) + if decide (fx = Some g) then 1 else 0)%nat).
    { intros g. by rewrite (take_S_r _ _ fx), fd_count_snoc. }
    destruct fx as [f|].
    + destruct locked_calm as [L1 L2].
      destruct (filedup_ok (mksys (lockT (with_proc np (y <| ofile := dup_upto j (ofile x) (ofile y) |>) k)) p r') f)
        as (r2 & Hrun & Hr2 & Hi2 & Hc2); [done..| |].
      { rewrite Hc. specialize (Hopen f ltac:(by eapply list_elem_of_lookup_2)). lia. }
      eapply (wp_dup_one _ (fun g y => y <| ofile ::= <[j := Some g]> |>)); [exact Hrun|].
      exists r2. cbn. rewrite Hnext. split_and!; [done | done | by etrans|].
      intros g. rewrite Hc2, Hcnt. cbn [rest]. rewrite Hc. repeat case_decide; simplify_eq; lia.
    + wp_step. exists r'. rewrite Hnext. split_and!; [done..|]. intros g. rewrite Hc, Hcnt. case_decide; [done | lia].
  - intros s (r' & -> & Hr' & Hi & Hc). unfold dup_upto in *.
    rewrite !take_ge, drop_ge, app_nil_r in * by lia. by apply HQ.
Qed.

Lemma wp_dup_cwd y i r (Q : unit → sys F → Prop) E :
  files_ok r → cwd x = Some i → (0 < inode_refs r i)%nat →
  (∀ r', files_ok r' → file_refs r' = file_refs r →
     (∀ j, inode_refs r' j = inode_refs r j + if decide (j = i) then 1 else 0)%nat →
     Q tt (mksys (with_proc np (y <| cwd := Some i |>) k) p r')) →
  wp (dup_cwd me np) Q E (mksys (with_proc np y k) p r).
Proof.
  intros Hr Hcwd Hi HQ. unfold dup_cwd. wp_step. apply wp_me. wp_step. eapply wp_deref; [exact Hcwd|].
  destruct locked_calm as [L1 L2]. destruct (idup_ok (mksys (lockT (with_proc np y k)) p r) i) as (r2 & Hrun & Hr2 & Hf2 & Hc2); [done..|].
  eapply (wp_dup_one _ (fun j y => y <| cwd := Some j |>)); [exact Hrun|]. by apply HQ.
Qed.

Lemma wp_dup_name y r (Q : unit → sys F → Prop) E :
  Q tt (mksys (with_proc np (y <| pname := copy_name (pname y) (pname x) |>) k) p r) →
  wp (dup_name me np) Q E (mksys (with_proc np y k) p r).
Proof. intros HQ. unfold dup_name. wp_step. apply wp_me, wp_np_upd. exact HQ. Qed.

Lemma wp_set_state y st r (Q : unit → sys F → Prop) E :
  free (ptable_lock k) → Q tt (mksys (with_proc np (y <| pstate := st |>) k) p r) →
  wp (set_state np st) Q E (mksys (with_proc np y k) p r).
Proof.
  intros Hf HQ. unfold set_state. wp_step. apply wp_onk_mk, wp_lockP; [apply Hs | done|].
  change (lockP (with_proc np y k)) with (with_proc np y (lockP k)). wp_step. apply wp_onk_mk, wp_pupd_with; [done|]. apply wp_onk_mk.
  change (with_proc np (y <| pstate := st |>) (lockP k)) with (lockP (with_proc np (y <| pstate := st |>) k)). by apply wp_unlockP.
Qed.
End dup.
