(* ===== verification/ThreadFork.v ===== *)
(** * fork (proc.c)

    What a successful [fork] leaves in the table, in memory and among the
    files, and what a failed one does; that it never runs out of counters. *)
From stdpp Require Import gmap.
From S2P Require Import Prelude Spinlock Proc StrideQueue Sched Sleep Bytes Kalloc Vm VmTable VmUser VmCopy Kernel ProcAlloc Thread ThreadLib.

(** ** The kernel during a system call of process [me] *)
Record in_process (k : kstate) (me : nat) (x : proc) : Prop := {
  ip_cpu : calm (this_cpu k);
  ip_ncli : ncli (this_cpu k) = 0;
  ip_pt : free (ptable_lock k);
  ip_tl : free (thread_lock k);
  ip_counted : counted k;
  ip_cur : curproc k = Some me;
  ip_me : procs k !! me = Some x;
  ip_run : pstate x = RUNNING;
  ip_files : ∀ p y, procs k !! p = Some y → length (ofile y) = 16%nat
}.

Lemma counted_frame k k' :
  counted k → procs k' = procs k → pgdir_ref k' = pgdir_ref k → pgdir_ref_next_idx k' = pgdir_ref_next_idx k → counted k'.
Proof.
  intros [[H1 H2] H3 H4 H5] E1 E2 E3. split; [split|..]; rewrite ?E1, ?E2, ?E3; done.
Qed.

(** A slot changes without changing whose directory it uses. *)
Lemma counted_upd k p x y :
  counted k → procs k !! p = Some x → (∀ i, 0 ≤ i < 64 → uses i y = uses i x) →
  (pstate y ≠ UNUSED → -1 ≤ pgdir_ref_idx y < 64) → counted (with_proc p y k).
Proof.
  intros [[H1 H2] H3 H4 H5] Hp Hu Hy. split; [by split | cbn; by rewrite length_insert | |].
  - intros i Hi. cbn. rewrite H4 by done. do 2 f_equal. pose proof (users_insert i _ _ _ y Hp) as E. rewrite Hu in E by done. lia.
  - intros q z. cbn. destruct (decide (q = p)) as [->|Hne].
    + rewrite list_lookup_insert_eq by (by eapply lookup_lt_Some). by intros [= <-].
    + rewrite list_lookup_insert_ne by done. apply H5.
Qed.

(** A slot takes a counter that was free. *)
Lemma counted_took k p x i :
  counted k → procs k !! p = Some x → pstate x ≠ UNUSED → pgdir_ref_idx x = -1 → 0 ≤ i < 64 → array_get (pgdir_ref k) i = Some 0 →
  counted (k <| procs := <[p := x <| pgdir_ref_idx := i |>]> (procs k) |>
             <| pgdir_ref := <[Z.to_nat i := 1]> (pgdir_ref k) |> <| pgdir_ref_next_idx := (i + 1) mod 64 |>) ∧
  users i (<[p := x <| pgdir_ref_idx := i |>]> (procs k)) = 1%nat.
Proof.
  intros [[H1 H2] H3 H4 H5] Hp Hst Hx Hi [_ Hr]%array_get_Some.
  assert (Hz : users i (procs k) = 0%nat) by (rewrite H4 in Hr by done; injection Hr; lia).
  assert (Hux : ∀ j, 0 ≤ j < 64 → uses j x = false).
  { intros j Hj. apply not_true_is_false. intros [_ E]%uses_true. lia. }
  assert (Huy : ∀ j, uses j (x <| pgdir_ref_idx := i |>) = (i =? j)).
  { intros j. unfold uses. cbn. by rewrite bool_decide_eq_true_2. }
  assert (Hone : users i (<[p := x <| pgdir_ref_idx := i |>]> (procs k)) = 1%nat).
  { pose proof (users_insert i _ _ _ (x <| pgdir_ref_idx := i |>) Hp) as E. rewrite Hux, Huy, Z.eqb_refl in E by done. cbn in E. lia. }
  split; [|done]. split; cbn; [|by rewrite length_insert| |].
  - split; cbn; [by rewrite length_insert | apply Z.mod_pos_bound; lia].
  - intros j Hj. destruct (decide (j = i)) as [->|Hne].
    + rewrite list_lookup_insert_eq by lia. by rewrite Hone.
    + rewrite list_lookup_insert_ne by lia. rewrite H4 by done. do 2 f_equal.
      pose proof (users_insert j _ _ _ (x <| pgdir_ref_idx := i |>) Hp) as E. rewrite Hux, Huy, (proj2 (Z.eqb_neq i j)) in E by done. cbn in E. lia.
  - intros q z. destruct (decide (q = p)) as [->|Hne].
    + rewrite list_lookup_insert_eq by (by eapply lookup_lt_Some). intros [= <-] _. cbn. lia.
    + rewrite list_lookup_insert_ne by done. apply H5.
Qed.

Section fork.
Context {F : Type} `{FileLaws F}.
Context (kend kdata forkret_addr trapret_addr : Z) (Hkend : KERNBASE < kend).
Context (Hdata : kdata mod 4096 = 0 ∧ KERNLINK < kdata < KERNBASE + PHYSTOP).

(** The slot of the child, made of the slot [y] that [allocproc] returned. *)
Definition child_of_fork (me : nat) (x y : proc) (d i : Z) : proc :=
  y <| pgdir := d |> <| sz := sz x |> <| parent := Some me |> <| tf := (tf x) <| eax := 0 |> |>
    <| pgdir_ref_idx := i |> <| ofile := dup_fds (ofile x) (ofile y) |> <| cwd := cwd x |>
    <| pname := copy_name (pname y) (pname x) |> <| pstate := RUNNABLE |>.

Lemma ofile_child me x y d i : ofile (child_of_fork me x y d i) = dup_fds (ofile x) (ofile y).
Proof. reflexivity. Qed.

Lemma child_pgdir me x y d i : child_of_fork me x (y <| pgdir := d |>) d i = child_of_fork me x y d i.
Proof. destruct y. reflexivity. Qed.

(** Files and current directory have one more reference for the child. *)
Record shared_files (x : proc) (r r' : F) : Prop := {
  sf_ok : files_ok r';
  sf_files : ∀ g, file_refs r' g = (file_refs r g + fd_count g (ofile x))%nat;
  sf_inodes : ∀ j, inode_refs r' j = (inode_refs r j + if decide (cwd x = Some j) then 1 else 0)%nat
}.

(** The caller has its files open. *)
Record has_files (x : proc) (r : F) : Prop := {
  hf_ok : files_ok r;
  hf_files : ∀ f, Some f ∈ ofile x → (0 < file_refs r f)%nat;
  hf_cwd : ∃ i, cwd x = Some i ∧ (0 < inode_refs r i)%nat
}.

(** The part of [fork] after the copy of the address space. *)
Definition fork_tail (me np : nat) : M (sys F) Z :=
  x ← onk (pget me);
  onk (pupd np (fun y => y <| sz := sz x |>));;
  onk (pupd np (fun y => y <| parent := Some me |>));;
  onk (pupd np (fun y => y <| tf := tf x |>));;
  onk (allocate_new_pgdir_idx np);;
  onk (pupd np (fun y => y <| tf ::= fun f => f <| eax := 0 |> |>));;
  dup_files me np;;
  dup_cwd me np;;
  dup_name me np;;
  y ← onk (pget np);
  x ← onk (pget me);
  when (negb (tid x =? 0)) (fork_in_thread forkret_addr trapret_addr np);;
  set_state np RUNNABLE;;
  mret (pid y).

Lemma took_with_proc k np y i :
  (np < length (procs k))%nat →
  (with_proc np y k) <| procs := <[np := y <| pgdir_ref_idx := i |>]> (procs (with_proc np y k)) |>
    <| pgdir_ref := <[Z.to_nat i := 1]> (pgdir_ref (with_proc np y k)) |> <| pgdir_ref_next_idx := (i + 1) mod 64 |> =
  with_proc np (y <| pgdir_ref_idx := i |>) (k <| pgdir_ref := <[Z.to_nat i := 1]> (pgdir_ref k) |> <| pgdir_ref_next_idx := (i + 1) mod 64 |>).
Proof. intros Hi. unfold with_proc. cbn. by rewrite list_insert_insert_eq. Qed.

Lemma wp_fork_tail me np x y k p r d (Q : Z → sys F → Prop) E :
  settled (this_cpu k) → ncli (this_cpu k) = 0 → free (ptable_lock k) → free (thread_lock k) →
  procs k !! me = Some x → tid x = 0 → me ≠ np → (np < length (procs k))%nat → counted (with_proc np y k) →
  pstate y ≠ UNUSED → pgdir_ref_idx y = -1 → pgdir y = d → length (ofile x) = 16%nat → length (ofile y) = 16%nat → has_files x r →
  (∀ i k1 r', 0 ≤ i < 64 → k1 = k <| pgdir_ref := <[Z.to_nat i := 1]> (pgdir_ref k) |> <| pgdir_ref_next_idx := (i + 1) mod 64 |> →
     counted (with_proc np (child_of_fork me x y d i) k1) → users i (procs (with_proc np (child_of_fork me x y d i) k1)) = 1%nat →
     shared_files x r r' → Q (pid y) (mksys (with_proc np (child_of_fork me x y d i) k1) p r')) →
  wp (fork_tail me np) Q E (mksys (with_proc np y k) p r).
Proof.
  intros Hs Hn Hpt Htl Hme Htid Hne Hnp Hct Hst Hidx Hd Hfx Hfy [Hf1 Hf2 (ci & Hf3 & Hf4)] HQ. unfold fork_tail.
  assert (Hn2 : ncli (this_cpu k) + 2 < INT_MAX) by (unfold INT_MAX; lia).
  wp_step. eapply wp_me; [done..|]. do 3 (wp_step; apply wp_np_upd; [done|]). wp_step. apply wp_onk_mk.
  set (y1 := y <| sz := sz x |> <| parent := Some me |> <| tf := tf x |>).
  assert (Hct1 : counted (with_proc np y1 k)).
  { rewrite <-(with_proc_twice np y). eapply counted_upd; [exact Hct | by apply lookup_with_proc | done | cbn; lia]. }
  assert (Hl1 : procs (with_proc np y1 k) !! np = Some y1) by by apply lookup_with_proc.
  eapply wp_mono; [apply (allocate_new_pgdir_idx_correct np y1); [apply Hct1 | done | apply Hs | cbn; lia | done] | |].
  2:{ intros w k' [_ Hall]. exfalso. destruct (counter_left _ _ _ Hct1 Hl1 Hidx) as (i & Hi & Hz). by apply (Hall i Hi). }
  intros [] k2 [(i & Hi & Hz & ->) _].
  rewrite (bracketed_settled (with_proc np y1 k)) in * by done. destruct (counted_took _ _ _ i Hct1 Hl1 Hst Hidx Hi Hz) as [Hct2 Hu2]. rewrite took_with_proc in Hct2 |- * by done.
  set (k1 := k <| pgdir_ref := _ |> <| pgdir_ref_next_idx := _ |>) in *.
  assert (Hs1 : settled (this_cpu k1)) by done. assert (Hme1 : procs k1 !! me = Some x) by done.
  wp_step. apply wp_np_upd; [done|]. wp_step.
  eapply (wp_dup_files me np x k1); [done..|]. intros r1 Hr1 Hi1 Hc1. wp_step.
  eapply (wp_dup_cwd me np x k1); [done..| by rewrite Hi1 |]. intros r2 Hr2 Hi2 Hc2. wp_step.
  eapply (wp_dup_name me np x k1); [done..|]. wp_step. apply wp_np; [done|]. wp_step. eapply (wp_me me np x k1); [done..|].
  rewrite Htid. cbn [negb Z.eqb when]. wp_step. wp_step. wp_step. eapply (wp_set_state np k1); [done..|]. wp_step.
  match goal with |- Q _ (mksys (with_proc np ?Y k1) p r2) => assert (HY : Y = child_of_fork me x y d i) end.
  { unfold child_of_fork, y1. rewrite Hf3, <-Hd. by destruct y. }
  rewrite HY. apply (HQ i k1 r2 Hi eq_refl).
  - rewrite <-(with_proc_twice np (y1 <| pgdir_ref_idx := i |>)). eapply counted_upd; [exact Hct2 | by apply lookup_with_proc | | cbn; lia].
    intros j Hj. unfold uses. cbn. by rewrite !bool_decide_eq_true_2.
  - rewrite <-Hu2. cbn. pose proof (users_insert i (<[np := y1 <| pgdir_ref_idx := i |>]> (procs k)) np _ (child_of_fork me x y d i)
      (list_lookup_insert_eq _ _ _ Hnp)) as E1. rewrite list_insert_insert_eq in *. unfold uses in E1. cbn in E1.
    rewrite !bool_decide_eq_true_2 in E1 by done. lia.
  - split; [done | intros g; by rewrite Hi2, Hc1 | intros j; rewrite Hc2, Hi1, Hf3]. repeat case_decide; simplify_eq; done.
Qed.

(** ** The theorem *)

(** Nothing but a free slot may have changed, and it is free still. *)
Definition slots_kept (k k' : kstate) : Prop :=
  ∀ p, procs k' !! p = procs k !! p ∨
    ∃ y y', procs k !! p = Some y ∧ pstate y = UNUSED ∧ procs k' !! p = Some y' ∧ pstate y' = UNUSED.

(** [d] is an address space of its own with the contents of the caller's. *)
Definition space_copied (s s' : sys F) (x : proc) (tabs ents : gmap Z Z) (l o : list Z) (d : Z) : Prop :=
  ∃ dtabs dents l', uvm kend (pages s') d dtabs dents l' (pgdir x :: tpages tabs ++ upages ents ++ o) ∧
    tables (memory (pages s')) (pgdir x) tabs ents ∧
    (∀ w, 0 ≤ w → 4096 * w < sz x → ∃ e q, ents !! w = Some e ∧ dents !! w = Some (entry_of (q - KERNBASE) (PTE_FLAGS e)) ∧ q ∈ l ∧
       ∀ i, 0 ≤ i < 4096 → memory (pages s') (q + i) = memory (pages s) (upage e + i)) ∧
    ∀ w, sz x ≤ 4096 * w < KERNBASE → dents !! w = None.

Definition forked (s : sys F) (me : nat) (x : proc) (tabs ents : gmap Z Z) (l o : list Z) (s' : sys F) : Prop :=
  ∃ np z page i d, procs (kern s) !! np = Some z ∧ pstate z = UNUSED ∧ page ∈ l ∧
    procs (kern s') = <[np := child_of_fork me x
      (on_stack forkret_addr trapret_addr page (memory (pages s)) (init_proc (nextpid (kern s)) z)) d i]> (procs (kern s)) ∧
    users i (procs (kern s')) = 1%nat ∧ shared_files x (rest s) (rest s') ∧
    space_copied s s' x tabs ents l (page :: o) d.

Lemma in_process_kept k k' me x np y :
  in_process k me x → me ≠ np → (np < length (procs k))%nat → procs k' = <[np := y]> (procs k) → length (ofile y) = 16%nat → counted k' →
  this_cpu k' = popped (pushed (this_cpu k)) → ptable_lock k' = ptable_lock k → thread_lock k' = thread_lock k → curproc k' = curproc k →
  in_process k' me x.
Proof.
  intros [H1 H2 H3 H4 H5 H6 H7 H8 H9] Hne Hnp Hp Hy Hct Hc Hpt Htl Hcur. destruct H1 as [Hok Hn].
  split; rewrite ?Hc, ?Hpt, ?Htl, ?Hcur; try done; [by apply calm_bracket | rewrite popped_pushed by done; by cbn | |].
  - by rewrite Hp, list_lookup_insert_ne.
  - intros p z. rewrite Hp. destruct (decide (p = np)) as [->|]; [|rewrite list_lookup_insert_ne by done; apply H9].
    rewrite list_lookup_insert_eq by done. by intros [= <-].
Qed.

Lemma in_process_bracketed k me x : in_process k me x → in_process (bracketed k) me x.
Proof.
  intros [H1 H2 H3 H4 H5 H6 H7 H8 H9]. pose proof H1 as [Hok _]. split; try done; [by apply calm_bracket | | by eapply counted_frame].
  change (ncli (popped (pushed (this_cpu k))) = 0). rewrite popped_pushed by done. done.
Qed.

Lemma slots_kept_one k k' np z y :
  procs k !! np = Some z → pstate z = UNUSED → procs k' = <[np := y]> (procs k) → pstate y = UNUSED → slots_kept k k'.
Proof.
  intros Hz Hst Hp Hy p. rewrite Hp. destruct (decide (p = np)) as [->|]; [right | left; by rewrite list_lookup_insert_ne].
  exists z, y. split; [done|]. split; [done|]. split; [|done]. by rewrite list_lookup_insert_eq by (by eapply lookup_lt_Some).
Qed.

Section run.
Context (s : sys F) (me : nat) (x : proc) (tabs ents : gmap Z Z) (l o : list Z).
Context (HP : in_process (kern s) me x) (Htid : tid x = 0).
Context (HU : uvm kend (pages s) (pgdir x) tabs ents l o) (Hsz : 0 ≤ sz x ≤ KERNBASE).

Definition fork_failed (s' : sys F) : Prop :=
  in_process (kern s') me x ∧ same_outside l (memory (pages s)) (memory (pages s')) ∧ rest s' = rest s ∧ slots_kept (kern s) (kern s') ∧
  ∃ l', kmem_ok kend (pages s') l' ∧ ∀ p, p ∈ l' → p ∈ l.

Lemma counted_boot k' np z y :
  procs (kern s) !! np = Some z → pstate z = UNUSED → procs k' = <[np := y]> (procs (kern s)) → pgdir_ref_idx y = -1 →
  pgdir_ref k' = pgdir_ref (kern s) → pgdir_ref_next_idx k' = pgdir_ref_next_idx (kern s) → counted k'.
Proof.
  intros Hz Hst Hp Hy E1 E2. eapply (counted_frame (with_proc np y (kern s))); [|done..].
  eapply counted_upd; [apply HP | exact Hz | | lia]. intros i Hi. unfold uses. rewrite Hy, Hst, (proj2 (Z.eqb_neq (-1) i)), andb_false_r by lia. done.
Qed.

Lemma alloc_failed s1 : allocated kend forkret_addr trapret_addr s l None s1 → fork_failed s1.
Proof.
  intros (Hr & Hm & Hk & Hcase). unfold fork_failed. rewrite Hm, Hr.
  assert (Hpages : ∃ l', kmem_ok kend (pages s1) l' ∧ ∀ p, p ∈ l' → p ∈ l) by by exists l.
  destruct Hcase as [[_ ->]|(-> & np & z & Hz & Hst & ->)]; (split; [|split; [apply same_outside_refl|split; [done|split; [|done]]]]).
  - by apply in_process_bracketed.
  - by left.
  - assert (Hne : me ≠ np) by (intros ->; destruct HP as [_ _ _ _ _ _ E1 E2 _]; cbn in Hz; congruence).
    eapply in_process_kept; [exact HP | exact Hne | by eapply lookup_lt_Some | done | | | done..].
    + cbn. by apply (ip_files _ _ _ HP np).
    + by eapply (counted_boot _ np z).
  - eapply slots_kept_one; [exact Hz | done | done | done].
Qed.

(** The undoing of [allocproc] when the address space cannot be copied. *)
Lemma copy_failed np z page l1 p1 l2 (Q : Z → sys F → Prop) E :
  procs (kern s) !! np = Some z → pstate z = UNUSED → l = page :: l1 →
  kmem_ok kend p1 l2 → (∀ p, p ∈ l2 → p ∈ l1) → same_outside l1 (memory (pages s)) (memory p1) →
  (∀ s', fork_failed s' → Q (-1) s') →
  wp (y ← onk (pget np);
      onm (kfree kend (kstack y));;
      onk (pupd np (fun y => y <| kstack := 0 |>));;
      onk (pupd np (fun y => y <| pstate := UNUSED |>));;
      mret (-1)) Q E
    (mksys (with_proc np ((on_stack forkret_addr trapret_addr page (memory (pages s)) (init_proc (nextpid (kern s)) z)) <| pgdir := 0 |>)
      ((bracketed (kern s)) <| nextpid := i32 (nextpid (kern s) + 1) |>)) p1 (rest s)).
Proof.
  intros Hz Hst El Hp1 Hsub Hsame HQ.
  assert (Hnp : (np < length (procs (kern s)))%nat) by by eapply lookup_lt_Some.
  wp_step. apply wp_np; [done|]. wp_step. apply wp_onm_mk. cbn [kstack on_stack update_field].
  pose proof HU as [Hk0 _ _ _]. rewrite El in Hk0.
  assert (Hpg : page_ok kend page) by (eapply chain_pages; [apply Hk0 | left]).
  assert (Hn1 : page ∉ l1) by (pose proof (ko_nodup _ _ _ Hk0) as Hnd; by apply NoDup_cons in Hnd as [? _]).
  eapply wp_mono; [apply (kfree_spec kend p1 l2 page Hp1 Hpg); by intros Hin%Hsub | | done].
  intros [] p2 (Hk2 & _ & Hmem). wp_step. apply wp_np_upd; [done|]. wp_step. apply wp_np_upd; [done|]. wp_step.
  apply HQ. assert (Hne : me ≠ np) by (intros ->; destruct HP as [_ _ _ _ _ _ E1 E2 _]; congruence).
  split; [|split; [|split; [|split]]].
  - eapply in_process_kept; [exact HP | exact Hne | done | done | | | done..]; [cbn; by apply (ip_files _ _ _ HP np)|].
    by eapply (counted_boot _ np z).
  - intros a Ha. cbn [pages]. rewrite Hmem by (apply Ha; rewrite El; left). apply Hsame. intros q Hq. apply Ha. rewrite El. by right.
  - done.
  - by eapply slots_kept_one.
  - exists (page :: l2). split; [done|]. rewrite El. intros q [->|Hq]%elem_of_cons; [left | right; by apply Hsub].
Qed.
End run.

End fork.

(** *** A process with one page, one open file and a directory *)
Definition forker : proc :=
  proc0 <| pstate := RUNNING |> <| pid := 7 |> <| pgdir := space_page 2 |> <| sz := 4096 |> <| pgdir_ref_idx := 0 |>
    <| ofile := Some 3%nat :: replicate 15 None |> <| cwd := Some 1%nat |>.
Definition forking : sys RefFiles.files :=
  mksys (boot_state <| procs := forker :: replicate 63 proc0 |> <| curproc := Some 0%nat |> <| pgdir_ref := 1 :: replicate 63 0 |>)
    space (RefFiles.mkfiles (fun f => if decide (f = 3) then 1 else 0)%nat (fun i => if decide (i = 1) then 1 else 0)%nat).

Lemma forking_counted : counted (kern forking).
Proof.
  apply counted_check; [by split | done | by vm_compute|].
  intros [|p] x Hx Hst; [by injection Hx as <-|]. cbn in Hx. by apply (lookup_replicate 63) in Hx as [-> _].
Qed.

Lemma forking_process : in_process (kern forking) 0 forker.
Proof.
  split; [unfold calm, cli_ok, INT_MAX; cbn; intuition lia | done | done | done | exact forking_counted | done | done | done|].
  intros [|p] x Hx; [by injection Hx as <-|]. cbn in Hx. by apply (lookup_replicate 63) in Hx as [-> _].
Qed.

Lemma forking_files : has_files forker (rest forking).
Proof.
  split; [done | | exists 1%nat; split; [done | apply Nat.lt_0_1]]. intros f Hf. cbn in Hf. apply elem_of_cons in Hf as [[= ->]|Hf]; [apply Nat.lt_0_1|].
  by apply (elem_of_replicate 15 None) in Hf as [? _].
Qed.

