(* ===== verification/ThreadWait.v ===== *)
(** * Clearing and waiting (proc.c: clear_proc, wait, thread_join)

    When the slot of a finished process or thread is cleared its address space
    is freed exactly if no other slot uses it; [wait] and [thread_join] take
    the first slot that qualifies. *)
From stdpp Require Import gmap.
From S2P Require Import Prelude Spinlock Proc StrideQueue Sched Sleep Bytes Kalloc Vm VmTable VmUser VmOut Kernel ProcAlloc Thread ThreadLib ThreadFork.

(** ** One user fewer *)
Definition last_user (x : proc) (k : kstate) : bool :=
  bool_decide (pgdir_ref_idx x = -1) || bool_decide (users (pgdir_ref_idx x) (procs k) = 1%nat).

Definition uncounted (x : proc) (k : kstate) : kstate :=
  if pgdir_ref_idx x =? -1 then k
  else k <| pgdir_ref ::= <[Z.to_nat (pgdir_ref_idx x) := Z.of_nat (users (pgdir_ref_idx x) (procs k)) - 1]> |>.

Lemma users_le i ps : (users i ps ≤ length ps)%nat.
Proof. unfold users. apply length_filter. Qed.

Lemma other_user i ps p x :
  ps !! p = Some x → pstate x ≠ UNUSED → pgdir_ref_idx x = i →
  users i ps ≠ 1%nat ↔ ∃ q y, q ≠ p ∧ ps !! q = Some y ∧ pstate y ≠ UNUSED ∧ pgdir_ref_idx y = i.
Proof.
  intros Hp Hst Hi. pose proof (users_insert i _ _ _ (x <| pstate := UNUSED |>) Hp) as E.
  assert (H1 : uses i x = true) by by apply uses_true. assert (H2 : uses i (x <| pstate := UNUSED |>) = false) by done.
  rewrite H1, H2 in E. cbn in E. assert (Hlen : (p < length ps)%nat) by by eapply lookup_lt_Some. split.
  - intros Hne. destruct (users_pos i (<[p := x <| pstate := UNUSED |>]> ps)) as (q & y & Hq & [Hy1 Hy2]%uses_true); [lia|].
    destruct (decide (q = p)) as [->|Hne']; [rewrite list_lookup_insert_eq in Hq by done; by injection Hq as <-|].
    rewrite list_lookup_insert_ne in Hq by done. by exists q, y.
  - intros (q & y & Hne & Hq & Hy1 & Hy2).
    pose proof (users_ge i (<[p := x <| pstate := UNUSED |>]> ps) q y) as Hg. rewrite list_lookup_insert_ne in Hg by done.
    specialize (Hg Hq ltac:(by apply uses_true)). lia.
Qed.

Lemma i8_small z : 0 ≤ z < 128 → i8 z = z.
Proof. intros Hz. unfold i8. rewrite Z.mod_small by lia. lia. Qed.

Lemma wp_drop_counter k p x x' (Q : bool → kstate → Prop) E :
  settled (this_cpu k) → free (thread_lock k) → counted k → procs k !! p = Some x → pstate x ≠ UNUSED →
  pgdir_ref_idx x' = pgdir_ref_idx x → Q (last_user x k) (uncounted x k) → wp (drop_counter x') Q E k.
Proof.
  intros Hs Ht [[Hl Hnx] Hlen Hc Hidx] Hp Hst Hx' HQ. unfold drop_counter. rewrite Hx'. unfold last_user, uncounted in HQ.
  specialize (Hidx p x Hp Hst). set (i := pgdir_ref_idx x) in *. destruct (Z.eqb_spec i (-1)) as [->|Hne].
  { wp_step. by rewrite bool_decide_eq_true_2 in HQ. }
  rewrite bool_decide_eq_false_2 in HQ by done. cbn [orb] in HQ. specialize (Hc i ltac:(lia)).
  assert (Hg : array_get (pgdir_ref k) i = Some (Z.of_nat (users i (procs k)))) by (apply array_get_Some; split; [lia | done]).
  assert (Hpos : (0 < users i (procs k))%nat) by (eapply users_ge; [exact Hp|]; by apply uses_true).
  pose proof (users_le i (procs k)) as Hle. rewrite Hlen in Hle.
  wp_step. eapply wp_refget; [exact Hg|]. destruct (Z.leb_spec (Z.of_nat (users i (procs k))) 1) as [H1|H1].
  - assert (Hu1 : users i (procs k) = 1%nat) by lia. rewrite Hu1 in HQ. rewrite bool_decide_eq_true_2 in HQ by done.
    wp_step. apply wp_lockT; [apply Hs | done|]. wp_step. apply wp_refset; [cbn; lia|]. wp_step.
    change ((lockT k) <| pgdir_ref := _ |>) with (lockT (k <| pgdir_ref := <[Z.to_nat i := i8 0]> (pgdir_ref k) |>)).
    apply wp_unlockT; [done | done|]. wp_step. exact HQ.
  - rewrite bool_decide_eq_false_2 in HQ by lia.
    wp_step. apply wp_lockT; [apply Hs | done|]. wp_step. eapply wp_refget; [exact Hg|]. wp_step. apply wp_refset; [cbn; lia|]. wp_step.
    rewrite i8_small by lia.
    change ((lockT k) <| pgdir_ref := _ |>) with (lockT (k <| pgdir_ref ::= <[Z.to_nat i := Z.of_nat (users i (procs k)) - 1]> |>)).
    apply wp_unlockT; [done | done|]. wp_step. exact HQ.
Qed.

(** The counters still count after the slot is free. *)
Lemma counted_cleared k p x y :
  counted k → procs k !! p = Some x → pstate x ≠ UNUSED → pstate y = UNUSED → counted (with_proc p y (uncounted x k)).
Proof.
  intros [[Hl Hnx] Hlen Hc Hidx] Hp Hst Hy. specialize (Hidx p x Hp Hst) as Hx.
  assert (Huy : ∀ i, uses i y = false) by (intros i; apply not_true_is_false; intros [? _]%uses_true; done).
  assert (Hprocs : procs (uncounted x k) = procs k) by (unfold uncounted; by destruct (_ =? _)).
  assert (Hrl : length (pgdir_ref (uncounted x k)) = 64%nat) by (unfold uncounted; destruct (_ =? _); cbn; by rewrite ?length_insert).
  split; cbn; rewrite ?Hprocs; [split; [done | unfold uncounted; by destruct (_ =? _)] | by rewrite length_insert | |].
  - intros i Hi. pose proof (users_insert i _ _ _ y Hp) as E. rewrite Huy in E. cbn in E.
    unfold uncounted. destruct (Z.eqb_spec (pgdir_ref_idx x) (-1)) as [Hm|Hm]; cbn.
    + rewrite Hc by done. assert (Hux : uses i x = false) by (apply not_true_is_false; intros [_ ?]%uses_true; lia).
      rewrite Hux in E. cbn in E. do 2 f_equal. lia.
    + destruct (decide (i = pgdir_ref_idx x)) as [->|Hne].
      * rewrite list_lookup_insert_eq by lia. assert (Hux : uses (pgdir_ref_idx x) x = true) by by apply uses_true.
        rewrite Hux in E. cbn in E. f_equal. lia.
      * rewrite list_lookup_insert_ne by lia. rewrite Hc by done.
        assert (Hux : uses i x = false) by (apply not_true_is_false; intros [_ ?]%uses_true; lia).
        rewrite Hux in E. cbn in E. do 2 f_equal. lia.
  - intros q z Hq Hz. destruct (decide (q = p)) as [->|Hne].
    + rewrite list_lookup_insert_eq in Hq by (by eapply lookup_lt_Some). congruence.
    + rewrite list_lookup_insert_ne in Hq by done. by eapply Hidx.
Qed.

Section wait.
Context {F : Type} `{FileOps F}.
Context (kend : Z) (Hkend : KERNBASE < kend).

(** Where the pages of the slot [x] are when it is cleared: the kernel stack is
    free, and so is the address space if this was its last user. *)
Definition reclaimed (x : proc) (tabs ents : gmap Z Z) (l o : list Z) (last : bool) (p p' : kmem) : Prop :=
  if last then ∃ l', kmem_ok kend p' l' ∧ l' ≡ₚ (kstack x :: l) ++ pgdir x :: tpages tabs ++ upages ents ∧ same_outside l' (memory p) (memory p')
  else uvm kend p' (pgdir x) tabs ents (kstack x :: l) o ∧ same_outside [kstack x] (memory p) (memory p').

(** The kernel after the slot is cleared. *)
Definition after_clear (p : nat) (x : proc) (k : kstate) : kstate := with_proc p (cleared (x <| kstack := 0 |>)) (uncounted x k).

Lemma procs_uncounted x k : procs (uncounted x k) = procs k.
Proof. unfold uncounted. by destruct (_ =? _). Qed.

Lemma uncounted_with_proc p y x k : pgdir_ref_idx x ≠ -1 → users (pgdir_ref_idx x) (procs (with_proc p y k)) = users (pgdir_ref_idx x) (procs k) →
  uncounted x (with_proc p y k) = with_proc p y (uncounted x k).
Proof. intros Hx Hu. unfold uncounted. rewrite (proj2 (Z.eqb_neq _ _)) by done. rewrite Hu. reflexivity. Qed.

Lemma wp_clear_proc k m (r : F) p x tabs ents l o (Q : Z → sys F → Prop) E :
  settled (this_cpu k) → free (thread_lock k) → counted k → procs k !! p = Some x → pstate x ≠ UNUSED →
  uvm kend m (pgdir x) tabs ents l (kstack x :: o) →
  (∀ m', reclaimed x tabs ents l o (last_user x k) m m' → counted (after_clear p x k) → Q (pid x) (mksys (after_clear p x k) m' r)) →
  wp (clear_proc kend p) Q E (mksys k m r).
Proof.
  intros Hs Ht Hct Hp Hst HU HQ. assert (Hlp : (p < length (procs k))%nat) by by eapply lookup_lt_Some.
  unfold clear_proc. wp_step. apply wp_onk_mk. eapply wp_pget; [exact Hp|]. wp_step. apply wp_onm_mk.
  eapply (wp_kfree kend Hkend m (pgdir x) tabs ents l (kstack x) (upages ents ++ o)); [eapply tvm_perm; [|exact HU]; by rewrite Permutation_middle|].
  intros m1 HU1 Hm1. wp_step. apply wp_onk_mk. eapply wp_pupd; [exact Hp|]. fold (with_proc p (x <| kstack := 0 |>) k).
  set (x1 := x <| kstack := 0 |>). unfold check_pgdir_counter_and_call_freevm. wp_step. wp_step. apply wp_onk_mk.
  eapply wp_pget; [by apply lookup_with_proc|]. wp_step. apply wp_onk_mk.
  assert (Hus : ∀ i, uses i x1 = uses i x) by done.
  assert (Hct1 : counted (with_proc p x1 k)) by (eapply counted_upd; [exact Hct | exact Hp | done | intros _; exact (ct_idx _ Hct p x Hp Hst)]).
  assert (Hu1 : ∀ i, users i (procs (with_proc p x1 k)) = users i (procs k)).
  { intros i. pose proof (users_insert i _ _ _ x1 Hp) as E1. rewrite Hus in E1. cbn. lia. }
  assert (Hlast : last_user x1 (with_proc p x1 k) = last_user x k) by (unfold last_user; cbn; by rewrite Hu1).
  assert (Hun : uncounted x1 (with_proc p x1 k) = with_proc p x1 (uncounted x k)).
  { unfold uncounted. change (pgdir_ref_idx x1) with (pgdir_ref_idx x). rewrite Hu1. by destruct (_ =? _). }
  eapply (wp_drop_counter _ p x1 x1); [exact Hs | exact Ht | exact Hct1 | by apply lookup_with_proc | exact Hst | done|].
  rewrite Hlast, Hun. assert (Hlu : (p < length (procs (uncounted x k)))%nat) by by rewrite procs_uncounted.
  assert (Hdone : ∀ m', reclaimed x tabs ents l o (last_user x k) m m' →
    wp (onk (pupd p cleared) ≫= (fun _ => mret (pid x))) Q E (mksys (with_proc p x1 (uncounted x k)) m' r)).
  { intros m' Hm'. wp_step. apply wp_np_upd; [done|]. wp_step. apply HQ; [done|]. by apply counted_cleared. }
  unfold reclaimed in Hdone. destruct (last_user x k); cbn [when].
  - apply wp_onm_mk. destruct (freevm_spec kend Hkend _ _ _ _ _ _ HU1) as (m2 & l2 & Hrun & Hk2 & Hl2 & Hm2). eapply wp_eq; [exact Hrun|].
    apply Hdone. exists l2. split_and!; [done | done|]. eapply same_outside_trans; [|exact Hm2 | done].
    eapply same_outside_mono; [exact Hm1|]. intros q ->%list_elem_of_singleton. rewrite Hl2. left.
  - wp_step. apply Hdone. by split.
Qed.


(** ** Scanning the table *)
Definition done_and (mine : proc → bool) (x : proc) : bool := mine x && bool_decide (pstate x = ZOMBIE).

(** [p] is the first slot selected. *)
Definition first_slot (sel : proc → bool) (k : kstate) (p : nat) (x : proc) : Prop :=
  procs k !! p = Some x ∧ sel x = true ∧ ∀ q y, (q < p)%nat → procs k !! q = Some y → sel y = false.

Definition none_slot (sel : proc → bool) (k : kstate) : Prop := ∀ q y, procs k !! q = Some y → sel y = false.

Lemma first_slot_unique sel k p x q y : first_slot sel k p x → first_slot sel k q y → p = q ∧ x = y.
Proof.
  intros (Hp & Hx & Hpre) (Hq & Hy & Hqre). assert (p = q) as ->; [|by simplify_eq].
  destruct (Nat.lt_trichotomy p q) as [Hlt|[->|Hlt]]; [|done|].
  - by rewrite (Hqre p x) in Hx.
  - by rewrite (Hpre q y) in Hy.
Qed.

Lemma first_not_none sel k p x : first_slot sel k p x → ¬ none_slot sel k.
Proof. intros (Hp & Hx & _) Hno. by rewrite (Hno p x) in Hx. Qed.

Lemma wp_reap_scan {A} mine (reap : nat → M (sys F) A) j h (s : sys F) (Q : A + bool → sys F → Prop) E :
  length (procs (kern s)) = 64%nat → (j ≤ 64)%nat →
  (∀ q y, (q < j)%nat → procs (kern s) !! q = Some y → done_and mine y = false) →
  (h = true ↔ ∃ q y, (q < j)%nat ∧ procs (kern s) !! q = Some y ∧ mine y = true) →
  (∀ p x, first_slot (done_and mine) (kern s) p x → wp (reap p) (fun a s' => Q (inl a) s') E s) →
  (none_slot (done_and mine) (kern s) → ∀ b, (b = false ↔ none_slot mine (kern s)) → Q (inr b) s) →
  wp (reap_scan mine reap (seq j (64 - j)) h) Q E s.
Proof.
  intros Hlen. remember (64 - j)%nat as n eqn:Hn. revert j h Hn. induction n as [|n IH]; intros j h Hn Hj Hbefore Hh HS HN; cbn [seq reap_scan].
  - wp_step. assert (Hall : ∀ q y, procs (kern s) !! q = Some y → (q < j)%nat) by (intros q y Hq%lookup_lt_Some; lia).
    apply HN; [intros q y Hq; by eapply Hbefore; [eapply Hall|]|].
    split.
    + intros -> q y Hq. apply not_true_is_false. intros Hm. assert (false = true) by (apply Hh; exists q, y; eauto). done.
    + intros Hno. apply not_true_is_false. intros (q & y & _ & Hq & Hm)%Hh. by rewrite (Hno q y) in Hm.
  - destruct (lookup_lt_is_Some_2 (procs (kern s)) j) as [x Hx]; [lia|]. wp_step. apply wp_onk. eapply wp_pget; [exact Hx|].
    replace (s <| kern := kern s |>) with s by by destruct s.
    assert (Hnext : done_and mine x = false → ∀ q y, (q < S j)%nat → procs (kern s) !! q = Some y → done_and mine y = false).
    { intros Hd q y Hq Hy. destruct (decide (q = j)) as [->|]; [congruence | apply (Hbefore q y); [lia | done]]. }
    unfold done_and in *. destruct (mine x) eqn:Hm; cbn [negb andb] in *.
    + destruct (bool_decide_reflect (pstate x = ZOMBIE)) as [Hz|Hz].
      * wp_step. eapply wp_mono; [apply (HS j x) | |done].
        -- split; [done|]. unfold done_and. rewrite Hm, bool_decide_eq_true_2 by done. done.
        -- intros a s' HQ. by wp_step.
      * apply IH; [lia | lia | by apply Hnext | | done | done]. split; [|done]. intros _. exists j, x. split; [lia | done].
    + apply IH; [lia | lia | by apply Hnext | | done | done]. rewrite Hh. split; intros (q & y & Hq & Hy & Hmy); exists q, y; (split; [|done]); [lia|].
      destruct (decide (q = j)) as [->|]; [congruence | lia].
Qed.

Lemma wp_reap_all {A} mine (reap : nat → M (sys F) A) (s : sys F) (Q : A + bool → sys F → Prop) E :
  length (procs (kern s)) = 64%nat →
  (∀ p x, first_slot (done_and mine) (kern s) p x → wp (reap p) (fun a s' => Q (inl a) s') E s) →
  (none_slot (done_and mine) (kern s) → ∀ b, (b = false ↔ none_slot mine (kern s)) → Q (inr b) s) →
  wp (reap_scan mine reap all_procs false) Q E s.
Proof.
  intros Hlen HS HN. change all_procs with (seq 0 (64 - 0)). apply wp_reap_scan; [done | lia | lia | | done | done].
  split; [done|]. intros (q & y & Hq & _). lia.
Qed.

(** ** Under [ptable.lock] *)
Lemma after_clear_lockP p x k : after_clear p x (lockP k) = lockP (after_clear p x k).
Proof. unfold after_clear, uncounted. by destruct (_ =? _). Qed.

Lemma settled_after_clear p x k : this_cpu (after_clear p x k) = this_cpu k ∧ ptable_lock (after_clear p x k) = ptable_lock k ∧
  thread_lock (after_clear p x k) = thread_lock k ∧ curproc (after_clear p x k) = curproc k ∧ pgdir_ref_next_idx (after_clear p x k) = pgdir_ref_next_idx k.
Proof. unfold after_clear, uncounted. by destruct (_ =? _). Qed.

Lemma counted_lockP k : counted (lockP k) ↔ counted k.
Proof. split; intros Hc; [apply (counted_frame (lockP k)) | apply (counted_frame k)]; done. Qed.

Lemma in_process_cleared k me x p y :
  in_process k me x → settled (this_cpu k) → p ≠ me → procs k !! p = Some y → counted (after_clear p y k) → in_process (after_clear p y k) me x.
Proof.
  intros [H1 H2 H3 H4 H5 H6 H7 H8 H9] [_ Hset] Hne Hp Hct. destruct (settled_after_clear p y k) as (E1 & E2 & E3 & E4 & _).
  assert (Hps : procs (after_clear p y k) = <[p := cleared (y <| kstack := 0 |>)]> (procs k)) by (unfold after_clear; cbn; by rewrite procs_uncounted).
  split; rewrite ?E1, ?E2, ?E3, ?E4; try done; [by rewrite Hps, list_lookup_insert_ne|].
  intros q z. rewrite Hps. destruct (decide (q = p)) as [->|]; [|rewrite list_lookup_insert_ne by done; apply H9].
  rewrite list_lookup_insert_eq by (by eapply lookup_lt_Some). intros [= <-]. cbn. by apply (H9 p).
Qed.

(** The reaping of [wait]: a zombie is cleared and the lock released. *)
Lemma wp_reap k m (r : F) me x p y tabs ents l o (Q : Z → sys F → Prop) E :
  in_process k me x → settled (this_cpu k) → procs k !! p = Some y → pstate y = ZOMBIE → uvm kend m (pgdir y) tabs ents l (kstack y :: o) →
  (∀ m', reclaimed y tabs ents l o (last_user y k) m m' → in_process (after_clear p y k) me x → Q (pid y) (mksys (after_clear p y k) m' r)) →
  wp (v ← clear_proc kend p; onk release_ptable;; mret v) Q E (mksys (lockP k) m r).
Proof.
  intros HP Hset Hp Hz HU HQ. pose proof HP as [H1 H2 H3 H4 H5 H6 H7 H8 H9].
  assert (Hne : p ≠ me) by (intros ->; congruence). wp_step.
  eapply (wp_clear_proc (lockP k)); [apply calm_lockP; [done | unfold INT_MAX; lia] | done | by apply counted_lockP | done | by rewrite Hz | exact HU|].
  intros m' Hm' Hct. change (last_user y (lockP k)) with (last_user y k) in Hm'. rewrite after_clear_lockP in Hct |- *. apply (proj1 (counted_lockP _)) in Hct.
  destruct (settled_after_clear p y k) as (E1 & E2 & _). wp_step. apply wp_onk_mk. apply wp_unlockP; [by rewrite E1 | by rewrite E2|]. wp_step.
  apply HQ; [done|]. by apply in_process_cleared.
Qed.

(** The first half of a wait: the scan under the lock. *)
Section waiting.
Context (s : sys F) (me : nat) (x : proc) (HP : in_process (kern s) me x).
Let k := bracketed (kern s).

Lemma waiting_process : in_process k me x ∧ settled (this_cpu k).
Proof. split; [by apply in_process_bracketed | apply settled_bracket, HP]. Qed.

Lemma wp_enter_wait (rest_ : M (sys F) Z) (Q : Z → sys F → Prop) E :
  wp rest_ Q E (mksys (lockP k) (pages s) (rest s)) → wp (onk acquire_ptable;; rest_) Q E s.
Proof.
  intros Hr. destruct s as [k0 m r]. pose proof HP as [H1 _ H3 _ _ _ _ _ _]. cbn [kern pages rest] in *.
  wp_step. apply wp_onk_mk, wp_lockP; [done | done|]. by rewrite <-lockP_bracketed.
Qed.

(** The end of [wait_loop] without a sleep. *)
Lemma wp_give_up (Q : Z → sys F → Prop) E :
  Q (-1) (mksys k (pages s) (rest s)) → wp (onk release_ptable;; mret (-1)) Q E (mksys (lockP k) (pages s) (rest s)).
Proof.
  intros HQ. destruct waiting_process as [[H1 H2 H3 H4 H5 H6 H7 H8 H9] Hset]. wp_step. apply wp_onk_mk, wp_unlockP; [done | done|]. by wp_step.
Qed.

(** The process as it is when it goes to sleep. *)
Definition sleeping_on (ch : chan_t) : sys F :=
  mksys (lockP (with_proc me (x <| chan := ch |> <| pstate := SLEEPING |>) k)) (pages s) (rest s).

Lemma wp_wait_sleep ch (next : M (sys F) Z) :
  (sleep_sys (stop_with Switched) ch lk_ptable;; next) (mksys (lockP k) (pages s) (rest s)) = Stop Switched (sleeping_on ch).
Proof.
  destruct waiting_process as [[H1 H2 H3 H4 H5 H6 H7 H8 H9] Hset].
  assert (Hw : wp (sleep_sys (stop_with Switched) ch lk_ptable;; next) (fun _ _ => False) (fun w s' => w = Switched ∧ s' = sleeping_on ch)
    (mksys (lockP k) (pages s) (rest s))).
  { unfold sleep_sys, sched_sys. wp_step. wp_step. apply wp_onk_mk. unfold sleep_enter. do 2 wp_step.
    change (curproc (lockP k)) with (curproc k). rewrite H6. rewrite decide_False by done. rewrite bool_decide_eq_false_2 by (intros Hn; by apply Hn).
    cbn [when]. wp_step. wp_step. wp_step. eapply wp_pupd; [exact H7|].
    fold (with_proc me (x <| chan := ch |>) (lockP k)). apply wp_pupd_with; [by eapply lookup_lt_Some|].
    change (with_proc me (x <| chan := ch |> <| pstate := SLEEPING |>) (lockP k))
      with (lockP (with_proc me (x <| chan := ch |> <| pstate := SLEEPING |>) k)).
    do 2 wp_step. apply wp_onk_mk. unfold sched_out. do 2 wp_step.
    change (holding _ _) with (holding (pushed (this_cpu k)) (locked_by (this_cpu k) (ptable_lock k))).
    rewrite holding_locked_by by done. cbn [negb]. do 2 wp_step.
    change (ncli _) with (ncli (this_cpu k) + 1). rewrite H2. change (negb (0 + 1 =? 1)) with false. cbv iota. wp_step. eapply wp_the_proc; [exact H6|].
    wp_step. eapply wp_pget; [apply (lookup_with_proc me _ (lockP k)); by eapply lookup_lt_Some|].
    cbn [pstate update_field]. rewrite bool_decide_eq_false_2 by done. do 2 wp_step. change (eflags_IF _) with false. cbv iota. wp_step. wp_step. done. }
  apply wp_inv in Hw as [(? & ? & _ & [])|(w & s' & Hr & -> & ->)]. exact Hr.
Qed.

(** One turn of [wait_loop]; its first argument is the number of sleeps left. *)
Lemma wp_wait_loop resume n mine reap scan chm ch (Q : Z → sys F → Prop) E :
  let st := mksys (lockP k) (pages s) (rest s) in
  (∀ Q' E', wp (reap_scan mine reap all_procs false) Q' E' st → wp scan Q' E' st) → chm st = Ok ch st →
  (∀ p y, first_slot (done_and mine) k p y → wp (reap p) Q E st) →
  (none_slot (done_and mine) k → none_slot mine k ∨ killed x ≠ 0 → Q (-1) (mksys k (pages s) (rest s))) →
  (none_slot (done_and mine) k → ¬ none_slot mine k → killed x = 0 →
     match n with
     | O => E NoFuel st
     | S n' => wp (sleep_sys resume ch lk_ptable;; wait_loop resume n' scan chm) Q E st
     end) →
  wp (wait_loop resume n scan chm) Q E st.
Proof.
  intros st Hscan Hch HS HN HW. destruct waiting_process as [[H1 H2 H3 H4 H5 H6 H7 H8 H9] Hset].
  assert (Hend : ∀ b next, none_slot (done_and mine) k → (b = false ↔ none_slot mine k) →
    (¬ none_slot mine k → killed x = 0 → wp next Q E st) →
    wp (me' ← onk the_proc; x' ← onk (pget me'); if negb b || negb (killed x' =? 0) then onk release_ptable;; mret (-1) else next) Q E st).
  { intros b next Hd Hb Hnext. wp_step. apply wp_onk_mk. eapply wp_the_proc; [exact H6|]. wp_step. apply wp_onk_mk. eapply wp_pget; [exact H7|].
    destruct b; cbn [negb orb].
    - destruct (Z.eqb_spec (killed x) 0) as [Hk|Hk]; cbn [negb].
      + apply Hnext; [|done]. intros Hno%Hb. done.
      + apply wp_give_up, HN; [done | by right].
    - apply wp_give_up, HN; [done|]. left. by apply Hb. }
  destruct n as [|n]; cbn [wait_loop]; wp_step; apply Hscan; (apply wp_reap_all; [apply H5 | |]).
  - intros p y Hf. eapply wp_mono; [by apply (HS p y) | |done]. intros a s' Ha. by wp_step.
  - intros Hd b Hb. apply Hend; [done | done|]. intros Hn1 Hk1. by apply HW.
  - intros p y Hf. eapply wp_mono; [by apply (HS p y) | |done]. intros a s' Ha. by wp_step.
  - intros Hd b Hb. apply Hend; [done | done|]. intros Hn1 Hk1. wp_step. eapply wp_eq; [exact Hch|]. by apply HW.
Qed.
End waiting.

(** C10: [wait] of a process.  When some child, not a thread, is a zombie the
    first of them in the table is cleared and its pid returned; when there is
    no child, or none is done and the caller was killed, the answer is -1 and
    nothing changes; otherwise the caller is switched away from SLEEPING on
    its own slot, the channel the exit of a child wakes, with [ptable.lock]
    held from the scan to the switch, so that no exit can come between.  On
    every return no lock is held. *)
Theorem wait_correct (s : sys F) (me : nat) (x : proc) (fuel : nat) :
  in_process (kern s) me x → tid x = 0 →
  let k := bracketed (kern s) in
  (∀ resume p y tabs ents l o, first_slot (done_and (child_of me)) k p y → uvm kend (pages s) (pgdir y) tabs ents l (kstack y :: o) →
     ∃ m', wait kend resume fuel s = Ok (pid y) (mksys (after_clear p y k) m' (rest s)) ∧
       reclaimed y tabs ents l o (last_user y k) (pages s) m' ∧ in_process (after_clear p y k) me x) ∧
  (∀ resume, none_slot (done_and (child_of me)) k → none_slot (child_of me) k ∨ killed x ≠ 0 →
     wait kend resume fuel s = Ok (-1) (mksys k (pages s) (rest s))) ∧
  (none_slot (done_and (child_of me)) k → ¬ none_slot (child_of me) k → killed x = 0 →
     wait kend (stop_with Switched) (S fuel) s = Stop Switched (sleeping_on s me x (ch_proc me))).
Proof.
  intros HP Htid k. pose proof (waiting_process s me x HP) as [HPk Hset]. fold k in HPk, Hset. pose proof HPk as [H1 H2 H3 H4 H5 H6 H7 H8 H9].
  assert (Hlen : length (procs k) = 64%nat) by apply H5.
  assert (Hstart : ∀ resume n (Q : Z → sys F → Prop) E, wp (wait_normal kend resume n) Q E s → wp (wait kend resume n) Q E s).
  { intros resume n Q E Hw. unfold wait. destruct s as [k0 m r]. wp_step. apply wp_onk_mk. eapply wp_the_proc; [apply HP|].
    wp_step. apply wp_onk_mk. eapply wp_pget; [apply HP|]. rewrite Htid. exact Hw. }
  assert (Hgo : ∀ resume n (Q : Z → sys F → Prop) E,
    (∀ p y, first_slot (done_and (child_of me)) k p y →
      wp (v ← clear_proc kend p; onk release_ptable;; mret v) Q E (mksys (lockP k) (pages s) (rest s))) →
    (none_slot (done_and (child_of me)) k → none_slot (child_of me) k ∨ killed x ≠ 0 → Q (-1) (mksys k (pages s) (rest s))) →
    (none_slot (done_and (child_of me)) k → ¬ none_slot (child_of me) k → killed x = 0 →
      match n with
      | O => E NoFuel (mksys (lockP k) (pages s) (rest s))
      | S _ => ∀ next, wp (sleep_sys resume (ch_proc me) lk_ptable;; next) Q E (mksys (lockP k) (pages s) (rest s))
      end) → wp (wait kend resume n) Q E s).
  { intros resume n Q E HS HN HW. apply Hstart. unfold wait_normal. apply (wp_enter_wait s me x HP).
    eapply (wp_wait_loop s me x HP); [| | exact HS | exact HN | destruct n; [exact HW | intros ???; by apply HW]].
    - intros Q' E' Hr. wp_step. apply wp_onk_mk. eapply wp_the_proc; [exact H6|]. exact Hr.
    - unfold onk. m_unfold. cbn [kern]. rewrite (the_proc_eq me) by exact H6. reflexivity. }
  split; [|split].
  - intros resume p y tabs ents l o Hf HU. pose proof Hf as (Hp & [_ Hz%bool_decide_eq_true]%andb_prop & _).
    assert (Hw : wpt (wait kend resume fuel) (fun v s' => ∃ m', v = pid y ∧ s' = mksys (after_clear p y k) m' (rest s) ∧
      reclaimed y tabs ents l o (last_user y k) (pages s) m' ∧ in_process (after_clear p y k) me x) s).
    { apply Hgo; [|intros Hno; by destruct (first_not_none _ _ _ _ Hf) | intros Hno; by destruct (first_not_none _ _ _ _ Hf)].
      intros q z Hf2. destruct (first_slot_unique _ _ _ _ _ _ Hf Hf2) as [<- <-]. eapply wp_reap; [done..|]. intros m' Hm' HP'. by exists m'. }
    apply wpt_ok in Hw as (v & s' & Hrun & m' & -> & -> & Hm' & HP'). by exists m'.
  - intros resume Hno Hgive. assert (Hw : wpt (wait kend resume fuel) (fun v s' => v = -1 ∧ s' = mksys k (pages s) (rest s)) s).
    { apply Hgo; [intros p y Hf; by destruct (first_not_none _ _ _ _ Hf) | done | intros _ Hm Hk; destruct Hgive; done]. }
    by apply wpt_eq.
  - intros Hno Hm Hk. assert (Hw : wp (wait kend (stop_with Switched) (S fuel)) (fun _ _ => False)
      (fun w s' => w = Switched ∧ s' = sleeping_on s me x (ch_proc me)) s).
    { apply Hgo; [intros p y Hf; by destruct (first_not_none _ _ _ _ Hf) | intros _ [?|?]; done|].
      intros _ _ _ next. unfold wp. by rewrite (wp_wait_sleep s me x HP). }
    apply wp_inv in Hw as [(? & ? & _ & [])|(w & s' & Hr & -> & ->)]. exact Hr.
Qed.

(** [wait] called in a thread that forked nothing.  It looks for slots whose
    parent is the null pointer, finds those that are free, and sleeps on the
    null pointer instead of returning -1. *)
Theorem wait_in_thread_sleeps (s : sys F) (me : nat) (x : proc) (fuel : nat) (q : nat) (y : proc) :
  in_process (kern s) me x → tid x ≠ 0 → proc_forked_in_thread x = None → killed x = 0 →
  procs (kern s) !! q = Some y → parent y = None →
  (∀ p z, procs (kern s) !! p = Some z → parent z = None → pstate z ≠ ZOMBIE) →
  wait kend (stop_with Switched) (S fuel) s = Stop Switched (sleeping_on s me x ch_null).
Proof.
  intros HP Htid Hnone Hk Hq Hy Hz. pose proof (waiting_process s me x HP) as [[H1 H2 H3 H4 H5 H6 H7 H8 H9] Hset].
  assert (Hw : wp (wait kend (stop_with Switched) (S fuel)) (fun _ _ => False) (fun w s' => w = Switched ∧ s' = sleeping_on s me x ch_null) s).
  { unfold wait, wait_thread. destruct s as [k0 m r] eqn:Es. wp_step. apply wp_onk_mk. eapply wp_the_proc; [apply HP|].
    wp_step. apply wp_onk_mk. eapply wp_pget; [apply HP|]. rewrite (proj2 (Z.eqb_neq _ _)) by done.
    apply (wp_enter_wait (mksys k0 m r) me x HP).
    eapply (wp_wait_loop (mksys k0 m r) me x HP _ (S fuel) (fun z => bool_decide (parent z = proc_forked_in_thread x)) _ _ _ ch_null).
    - intros Q' E' Hr. wp_step. apply wp_onk_mk. eapply wp_the_proc; [exact H6|]. wp_step. apply wp_onk_mk. eapply wp_pget; [exact H7|]. exact Hr.
    - unfold onk. m_unfold. cbn [kern pages rest update_field]. rewrite (the_proc_eq me) by exact H6. cbn [kern pages rest update_field].
      rewrite (pget_eq me x) by exact H7. rewrite Hnone. reflexivity.
    - intros p z (Hp & [Hm%bool_decide_eq_true Hzz%bool_decide_eq_true]%andb_prop & _). rewrite Hnone in Hm. by destruct (Hz p z).
    - intros Hno [Hnm|Hkk]; [|done]. specialize (Hnm q y Hq). cbn in Hnm. rewrite Hnone, Hy in Hnm. done.
    - intros _ _ _. unfold wp. by rewrite (wp_wait_sleep (mksys k0 m r) me x HP). }
  apply wp_inv in Hw as [(? & ? & _ & [])|(w & s' & Hr & -> & ->)]. exact Hr.
Qed.
End wait.

(** *** A parent with a finished child *)
Definition stack_page : Z := space_page 9.

Lemma space_uvm_stack : uvm sample_end space (space_page 2) space_tabs space_ents [space_page 0; space_page 1] [stack_page].
Proof.
  pose proof space_tvm as [T1 T2 _ _]. assert (Hl : [space_page 0; space_page 1] ++ space_page 2 :: tpages space_tabs ++ upages space_ents ++ [stack_page] =
    [space_page 0; space_page 1; space_page 2; space_page 3; space_page 4; stack_page]) by by vm_compute.
  split; [exact T1 | exact T2 | rewrite Hl; by apply (bool_decide_unpack _); vm_compute|]. rewrite Hl, !Forall_cons.
  split_and!; [apply space_page_ok; lia.. | by vm_compute | constructor].
Qed.

Definition zombie_child : proc :=
  proc0 <| pstate := ZOMBIE |> <| pid := 8 |> <| parent := Some 0%nat |> <| pgdir := space_page 2 |> <| kstack := stack_page |> <| pgdir_ref_idx := 1 |>.
Definition parenting : sys RefFiles.files :=
  mksys ((kern forking) <| procs := forker :: zombie_child :: replicate 62 proc0 |> <| pgdir_ref := 1 :: 1 :: replicate 62 0 |>) space (rest forking).

Lemma parenting_slot p y : procs (kern parenting) !! p = Some y → y = forker ∨ y = zombie_child ∨ y = proc0.
Proof. destruct p as [|[|p]]; cbn; [by intros [= <-]; left | by intros [= <-]; right; left|]. intros [-> _]%(lookup_replicate 62). by right; right. Qed.

Lemma parenting_process : in_process (kern parenting) 0 forker.
Proof.
  split; [unfold calm, cli_ok, INT_MAX; cbn; intuition lia | done | done | done | | done | done | done|].
  - apply counted_check; [by split | done | by vm_compute|]. by intros p y [-> | [-> | ->]]%parenting_slot Hst.
  - by intros p y [-> | [-> | ->]]%parenting_slot.
Qed.

Lemma wait_correct_witness :
  ∃ m', wait sample_end (stop_with Switched) 0 parenting = Ok 8 (mksys (after_clear 1 zombie_child (bracketed (kern parenting))) m' (rest parenting)) ∧
    reclaimed sample_end zombie_child space_tabs space_ents [space_page 0; space_page 1] [] true space m'.
Proof.
  destruct (proj1 (wait_correct sample_end sample_above parenting 0 forker 0 parenting_process eq_refl) (stop_with Switched) 1%nat zombie_child
    space_tabs space_ents [space_page 0; space_page 1] []) as (m' & Hrun & Hm' & _).
  - split; [done|]. split; [done|]. intros q y Hq. assert (q = 0%nat) as -> by lia. by intros [= <-].
  - exact space_uvm_stack.
  - exists m'. split; [exact Hrun | exact Hm'].
Defined.


Lemma wait_in_thread_sleeps_witness :
  let x := forker <| tid := 5 |> in
  let s := mksys ((kern forking) <| procs := x :: replicate 63 proc0 |>) space (rest forking) in
  wait sample_end (stop_with Switched) 1 s = Stop Switched (sleeping_on s 0 x ch_null).
Proof.
  intros x s. assert (Hslot : ∀ p y, procs (kern s) !! p = Some y → y = x ∨ y = proc0).
  { intros [|p] y; cbn; [by intros [= <-]; left|]. intros [-> _]%(lookup_replicate 63). by right. }
  apply (wait_in_thread_sleeps sample_end s 0 x 0 1 proc0); try done.
  - split; [unfold calm, cli_ok, INT_MAX; cbn; intuition lia | done | done | done | | done | done | done|].
    + apply counted_check; [by split | done | by vm_compute|]. by intros p y [-> | ->]%Hslot Hst.
    + by intros p y [-> | ->]%Hslot.
  - by intros p y [-> | ->]%Hslot.
Defined.
