(* ===== verification/ThreadExit.v ===== *)
(** * Leaving (proc.c: common_exit, exit, thread_exit)

    What a process that exits leaves behind: itself a zombie without files,
    its children with init, and whoever waits for it awake. *)
From stdpp Require Import gmap.
From S2P Require Import Prelude Spinlock Proc StrideQueue Sched Sleep Bytes Kalloc Vm Kernel ProcAlloc Thread ThreadLib ThreadFork ThreadWait.

(** ** Children go to init *)
Definition adopt (me : nat) (init : pptr) (y : proc) : proc :=
  if decide (parent y = Some me) then y <| parent := init |> else y.
Definition is_zombie_child (me : nat) (y : proc) : bool := bool_decide (parent y = Some me) && bool_decide (pstate y = ZOMBIE).

(** Init is woken for the children that are done. *)
Definition abandoned (me : nat) (init : pptr) (ps : list proc) : list proc :=
  (if existsb (is_zombie_child me) ps then fmap (woken (chan_of init)) else id) (adopt me init <$> ps).

Lemma woken_idem ch y : woken ch (woken ch y) = woken ch y.
Proof.
  unfold woken. destruct (bool_decide (pstate y = SLEEPING) && bool_decide (chan y = ch)) eqn:E; cbn; [done | by rewrite E].
Qed.

Lemma woken_adopt ch me init y : woken ch (adopt me init y) = adopt me init (woken ch y).
Proof.
  unfold adopt. assert (Hp : parent (woken ch y) = parent y) by (unfold woken; by destruct (_ && _)). rewrite Hp.
  case_decide; [|done]. unfold woken. cbn. by destruct (bool_decide _ && bool_decide _).
Qed.

Lemma zombie_woken ch me y : is_zombie_child me (woken ch y) = is_zombie_child me y.
Proof.
  unfold is_zombie_child, woken. destruct (bool_decide_reflect (pstate y = SLEEPING)) as [E|]; [|done].
  destruct (bool_decide (chan y = ch)); cbn; by rewrite ?E.
Qed.

(** The loop after [j] slots. *)
Definition abandoned_upto (me : nat) (init : pptr) (j : nat) (ps : list proc) : list proc :=
  (if existsb (is_zombie_child me) (take j ps) then fmap (woken (chan_of init)) else id) ((adopt me init <$> take j ps) ++ drop j ps).

Lemma lookup_abandoned_upto me init j ps y :
  ps !! j = Some y →
  abandoned_upto me init j ps !! j = Some (if existsb (is_zombie_child me) (take j ps) then woken (chan_of init) y else y).
Proof.
  intros Hy. pose proof (lookup_lt_Some _ _ _ Hy) as Hj. unfold abandoned_upto.
  assert (Hl : length (adopt me init <$> take j ps) = j) by (rewrite length_fmap, length_take; lia).
  assert (Hm : ((adopt me init <$> take j ps) ++ drop j ps) !! j = Some y).
  { rewrite lookup_app_r by lia. by rewrite Hl, Nat.sub_diag, lookup_drop, Nat.add_0_r. }
  destruct (existsb _ _); cbn; [|done]. by rewrite list_lookup_fmap, Hm.
Qed.

Lemma abandoned_upto_next me init j ps y :
  ps !! j = Some y →
  abandoned_upto me init (S j) ps =
  (if is_zombie_child me y then fmap (woken (chan_of init)) else id)
    (<[j := adopt me init (if existsb (is_zombie_child me) (take j ps) then woken (chan_of init) y else y)]> (abandoned_upto me init j ps)).
Proof.
  intros Hy. pose proof (lookup_lt_Some _ _ _ Hy) as Hj. unfold abandoned_upto.
  assert (Hl : length (adopt me init <$> take j ps) = j) by (rewrite length_fmap, length_take; lia).
  rewrite (take_S_r _ _ y) by done. rewrite existsb_app. cbn [existsb]. rewrite orb_false_r.
  assert (Hins : ∀ z, <[j := z]> ((adopt me init <$> take j ps) ++ drop j ps) = ((adopt me init <$> take j ps) ++ z :: drop (S j) ps)).
  { intros z. rewrite insert_app_r_alt by lia. rewrite Hl, Nat.sub_diag, (drop_S _ y j) by done. done. }
  rewrite fmap_app, <-app_assoc. cbn [fmap list_fmap app].
  assert (Hcomp : ∀ l : list proc, woken (chan_of init) <$> (woken (chan_of init) <$> l) = woken (chan_of init) <$> l).
  { intros l. rewrite <-list_fmap_compose. apply list_fmap_ext. intros i z _. apply woken_idem. }
  destruct (existsb _ _); cbn [orb].
  - rewrite <-woken_adopt, <-list_fmap_insert, Hins. destruct (is_zombie_child me y); cbn [id]; [|done]. by rewrite Hcomp.
  - unfold id at 2. rewrite Hins. by destruct (is_zombie_child me y).
Qed.

Lemma wp_abandon_children me k (Q : unit → kstate → Prop) E :
  length (procs k) = 64%nat → Q tt (k <| procs := abandoned me (initproc k) (procs k) |>) → wp (abandon_children me) Q E k.
Proof.
  intros Hlen HQ. unfold abandon_children. change all_procs with (seq 0 64).
  apply (for_seq_wp (fun j s => s = k <| procs := abandoned_upto me (initproc k) j (procs k) |>)).
  - unfold abandoned_upto. cbn. by destruct k.
  - intros j s Hj ->. destruct (lookup_lt_is_Some_2 (procs k) j) as [y Hy]; [lia|].
    pose proof (lookup_abandoned_upto me (initproc k) j _ _ Hy) as Hl. pose proof (abandoned_upto_next me (initproc k) j _ _ Hy) as Hn.
    set (z := if existsb _ _ then _ else _) in *. wp_step. eapply wp_pget; [exact Hl|].
    assert (Hz1 : parent z = parent y) by (unfold z, woken; destruct (existsb _ _); [by destruct (_ && _) | done]).
    assert (Hz2 : is_zombie_child me z = is_zombie_child me y) by (unfold z; destruct (existsb _ _); [apply zombie_woken | done]).
    unfold is_zombie_child in Hz2 at 1. rewrite Hn, <-Hz2. unfold adopt. apply wp_when; intros Hp.
    + rewrite Hp in *. apply bool_decide_eq_true in Hp. rewrite decide_True by done. cbn [andb].
      do 3 wp_step. eapply wp_pupd; [exact Hl|]. cbn [procs update_field]. apply wp_when; intros Hz; rewrite Hz.
      * eapply wp_eq; [apply wakeup1_eq; cbn; rewrite length_insert|]; [|done].
        unfold abandoned_upto. destruct (existsb _ _); cbn; rewrite ?length_fmap, length_app, length_fmap, length_take, length_drop; lia.
      * done.
    + rewrite Hp. apply bool_decide_eq_false in Hp. rewrite decide_False by done. cbn [andb id]. by rewrite list_insert_id.
  - intros s ->. unfold abandoned_upto in *. rewrite take_ge, drop_ge, app_nil_r by lia. exact HQ.
Qed.

(** ** Files are given up *)
Lemma closed_next (j : nat) (l : list (option nat)) f :
  l !! j = Some f → <[j := None]> (replicate j None ++ drop j l) = replicate (S j) None ++ drop (S j) l.
Proof.
  intros Hf. rewrite insert_app_r_alt by (rewrite length_replicate; lia). rewrite length_replicate, Nat.sub_diag, (drop_S _ f j) by done.
  rewrite replicate_S_end, <-app_assoc. done.
Qed.

(** ** The stride queue is left *)

(** A process with a share can leave the queue: it is in it, and not where
    [stride_queue_delete] reads beyond the last entry. *)
Definition may_leave (uninit : bool) (me : nat) (x : proc) (k : kstate) : Prop :=
  cpu_share x ≠ 0 → wf_queue k ∧ ∃ i, slot (stride_queue k) i = Some me ∧
    (i < stride_queue_size k ∨ uninit = true ∨ stride_queue_size k ≤ 2).

Definition left_queue (me : nat) (x : proc) (k k' : kstate) : Prop :=
  (cpu_share x = 0 ∧ k' = k) ∨
  (cpu_share x ≠ 0 ∧ wf_queue k' ∧ queued k ≡ₚ me :: queued k' ∧
   ∃ q, k' = k <| sum_cpu_share := i32 (sum_cpu_share k - cpu_share x) |>
               <| stride_queue_size := stride_queue_size k - 1 |> <| stride_queue := q |>).

Lemma wp_leave_queue uninit me x k (Q : unit → kstate → Prop) E :
  settled (this_cpu k) → free (thread_lock k) → curproc k = Some me → procs k !! me = Some x → may_leave uninit me x k →
  (∀ k', left_queue me x k k' → Q tt k') → wp (leave_queue uninit me) Q E k.
Proof.
  intros Hs Hf Hcur Hx Hmay HQ. unfold leave_queue. wp_step. eapply wp_pget; [exact Hx|]. apply wp_when; intros Hsh.
  - apply negb_true_iff, Z.eqb_neq in Hsh. destruct (Hmay Hsh) as (Hwf & i & Hi & Hcase).
    wp_step. apply wp_lockT; [apply Hs | done|]. wp_step.
    destruct (proj1 (wpt_ok _ _ _) (stride_queue_delete_spec uninit me me i (lockT k) x
      ltac:(by apply (wf_queue_frame k); try done; apply Hwf) Hcur Hx Hi Hcase)) as ([] & k' & Hr & [q ->] & Hw & Hq).
    eapply wp_eq; [exact Hr|]. set (k2 := k <| sum_cpu_share := i32 (sum_cpu_share k - cpu_share x) |>
               <| stride_queue_size := stride_queue_size k - 1 |> <| stride_queue := q |>).
    change (wp release_thread Q E (lockT k2)). apply wp_unlockT; [done | done|]. apply HQ. right.
    split; [done|]. split; [apply (wf_queue_frame _ k2) in Hw; [done | apply Hwf | done | done]|]. split; [exact Hq | by exists q].
  - apply negb_false_iff, Z.eqb_eq in Hsh. apply HQ. by left.
Qed.

(** ** What is left of the process *)
Definition exited_procs (me : nat) (y : proc) (init : pptr) (ps : list proc) : list proc :=
  alter (fun z => z <| pstate := ZOMBIE |>) me (abandoned me init (woken (chan_of (parent y)) <$> <[me := y]> ps)).

Lemma alter_at (f : proc → proc) (l : list proc) (i : nat) (z : proc) : l !! i = Some z → alter f i l = <[i := f z]> l.
Proof.
  intros Hz. apply list_eq. intros j. destruct (decide (i = j)) as [<-|Hij].
  - rewrite list_lookup_alter_eq, Hz, list_lookup_insert_eq by by eapply lookup_lt_Some. done.
  - by rewrite list_lookup_alter_ne, list_lookup_insert_ne.
Qed.

Lemma abandoned_lookup me init ps q z :
  abandoned me init ps !! q = Some z → ∃ w, ps !! q = Some w ∧ parent z = (if decide (parent w = Some me) then init else parent w) ∧
    ofile z = ofile w ∧ cwd z = cwd w ∧ thread_return z = thread_return w ∧ chan z = chan w ∧ (pstate z = pstate w ∨ (pstate w = SLEEPING ∧ pstate z = RUNNABLE)).
Proof.
  assert (Hw : ∀ ch u, parent (woken ch u) = parent u ∧ ofile (woken ch u) = ofile u ∧ cwd (woken ch u) = cwd u ∧
    thread_return (woken ch u) = thread_return u ∧ chan (woken ch u) = chan u ∧
    (pstate (woken ch u) = pstate u ∨ (pstate u = SLEEPING ∧ pstate (woken ch u) = RUNNABLE))).
  { intros ch u. unfold woken. destruct (bool_decide_reflect (pstate u = SLEEPING)); [|by auto 10]. destruct (bool_decide (chan u = ch)); cbn; auto 10. }
  assert (Ha : ∀ u, parent (adopt me init u) = (if decide (parent u = Some me) then init else parent u) ∧ ofile (adopt me init u) = ofile u ∧
    cwd (adopt me init u) = cwd u ∧ thread_return (adopt me init u) = thread_return u ∧ chan (adopt me init u) = chan u ∧ pstate (adopt me init u) = pstate u).
  { intros u. unfold adopt. case_decide; done. }
  unfold abandoned. destruct (existsb _ _); unfold id; rewrite !list_lookup_fmap; destruct (ps !! q) as [w|]; cbn; intros [= <-]; exists w.
  - destruct (Hw (chan_of init) (adopt me init w)) as (-> & -> & -> & -> & -> & H5). destruct (Ha w) as (-> & -> & -> & -> & -> & E5).
    rewrite E5 in H5. done.
  - destruct (Ha w) as (-> & -> & -> & -> & -> & ->). auto 10.
Qed.

Section exit.
Context {F : Type} `{FileLaws F}.
Context (me : nat) (x : proc) (k : kstate) (m : kmem).
Context (Hc : calm (this_cpu k)) (Hn : ncli (this_cpu k) = 0) (Ht : free (thread_lock k)) (Hpt : free (ptable_lock k)).
Context (Hme : procs k !! me = Some x) (Hlx : length (ofile x) = 16%nat).

(** A critical section may have come and gone. *)
Definition maybe_bracketed (k' : kstate) : Prop := k' = k ∨ k' = bracketed k.

Lemma maybe_calm k' : maybe_bracketed k' → calm (this_cpu k') ∧ ncli (this_cpu k') = 0 ∧ bracketed k' = bracketed k ∧ procs k' = procs k.
Proof.
  intros [->| ->]; [done|]. split; [by apply calm_bracket|]. split.
  - change (ncli (popped (pushed (this_cpu k))) = 0). rewrite popped_pushed by apply Hc. done.
  - split; [|done]. apply bracketed_settled. by apply settled_bracket.
Qed.

Lemma with_proc_bracketed p y k' : with_proc p y (bracketed k') = bracketed (with_proc p y k').
Proof. done. Qed.

Lemma wp_close_files r (Q : unit → sys F → Prop) E :
  files_ok r → (∀ f, fd_count f (ofile x) < file_refs r f)%nat →
  (∀ k' r', maybe_bracketed k' → files_ok r' → log_idle r' = log_idle r → inode_refs r' = inode_refs r →
     (∀ g, file_refs r' g + fd_count g (ofile x) = file_refs r g)%nat →
     Q tt (mksys (with_proc me (x <| ofile := replicate 16 None |>) k') m r')) →
  wp (close_files me) Q E (mksys k m r).
Proof.
  intros Hr Hrefs HQ. unfold close_files. change (Z.to_nat NOFILE) with 16%nat.
  apply (for_seq_wp (fun j s => ∃ k' r', s = mksys (with_proc me (x <| ofile := replicate j None ++ drop j (ofile x) |>) k') m r' ∧
    maybe_bracketed k' ∧ files_ok r' ∧ log_idle r' = log_idle r ∧ inode_refs r' = inode_refs r ∧
    ∀ g, (file_refs r' g + fd_count g (take j (ofile x)))%nat = file_refs r g)).
  - exists k, r. split_and!; [|by left|done|done|done|intros g; change (fd_count g (take 0 (ofile x))) with 0%nat; lia].
    assert (E1 : x <| ofile := replicate 0 None ++ drop 0 (ofile x) |> = x) by by destruct x. rewrite E1.
    unfold with_proc. rewrite list_insert_id by done. by destruct k.
  - intros j s Hj (k' & r' & -> & Hk' & Hr' & Hli & Hi & Hcnt). destruct (maybe_calm k' Hk') as (C1 & C2 & C3 & C4).
    destruct (lookup_lt_is_Some_2 (ofile x) j) as [f Hf]; [lia|].
    assert (Hlm : (me < length (procs k'))%nat) by (rewrite C4; by eapply lookup_lt_Some).
    set (x1 := x <| ofile := replicate j None ++ drop j (ofile x) |>) in *.
    assert (Hx1 : ofile x1 !! j = Some f).
    { cbn. rewrite lookup_app_r, length_replicate, Nat.sub_diag, lookup_drop, Nat.add_0_r by (rewrite length_replicate; lia). done. }
    assert (Hnext : x1 <| ofile ::= <[j := None]> |> = x <| ofile := replicate (S j) None ++ drop (S j) (ofile x) |>).
    { unfold x1. rewrite <-(closed_next j _ f) by done. by destruct x. }
    assert (Hcs : ∀ g, fd_count g (take (S j) (ofile x)) = (fd_count g (take j (ofile x)) + if decide (f = Some g) then 1 else 0)%nat).
    { intros g. by rewrite (take_S_r _ _ f), fd_count_snoc. }
    wp_step. apply wp_np; [done|]. wp_step. eapply wp_deref; [exact Hx1|]. destruct f as [f|].
    + assert (Hopen : (1 < file_refs r' f)%nat).
      { specialize (Hrefs f). specialize (Hcnt f). rewrite <-(take_drop j (ofile x)), (drop_S _ (Some f) j Hf) in Hrefs.
        unfold fd_count in Hrefs, Hcnt. rewrite filter_app, length_app, filter_cons, decide_True in Hrefs by done. cbn [length] in Hrefs. lia. }
      set (kb := bracketed k'). assert (Hset : settled (this_cpu kb)) by by apply settled_bracket.
      assert (Hcal : calm (pushed (this_cpu k')) ∧ 0 < ncli (pushed (this_cpu k'))).
      { destruct C1 as [D1 D2]. split; [split; [by apply cli_ok_pushed | cbn; unfold INT_MAX; lia] | cbn; lia]. }
      destruct (fileclose_ok (mksys (lockT (with_proc me x1 k')) m r') f) as (r2 & Hrun & Hr2 & Hi2 & Hl2 & Hc2); [done | apply Hcal | apply Hcal | done|].
      unfold with_thread. do 2 wp_step. apply wp_onk_mk, wp_lockT; [done | destruct Hk' as [->| ->]; done|]. wp_step. eapply wp_eq; [exact Hrun|].
      wp_step. apply wp_onk_mk. cbn [kern pages rest update_field]. rewrite <-lockT_bracketed by done. apply wp_unlockT; [done | destruct Hk' as [->| ->]; done|].
      wp_step. rewrite <-with_proc_bracketed. apply wp_np_upd; [done|]. exists kb, r2. rewrite Hnext.
      split_and!; [done | right; unfold kb; by rewrite C3 | done | by etrans | by etrans|].
      intros g. rewrite Hc2, Hcs. cbn [rest]. specialize (Hcnt g). repeat case_decide; simplify_eq; lia.
    + wp_step. exists k', r'. split_and!; [|done|done|done|done|intros g; rewrite Hcs; case_decide; [done | rewrite <-(Hcnt g); lia]].
      assert (Hsame : x1 <| ofile ::= <[j := None]> |> = x1).
      { transitivity (x1 <| ofile := <[j := None]> (ofile x1) |>); [done|]. rewrite list_insert_id by done. by destruct x1. }
      by rewrite <-Hnext, Hsame.
  - intros s (k' & r' & -> & Hk' & Hr' & Hli & Hi & Hcnt). rewrite drop_ge, app_nil_r in * by lia.
    apply HQ; [done..|]. intros g. rewrite <-(Hcnt g). by rewrite take_ge by lia.
Qed.

Lemma wp_drop_cwd k' y i r (Q : unit → sys F → Prop) E :
  maybe_bracketed k' → cwd y = Some i → files_ok r → log_idle r → (1 < inode_refs r i)%nat →
  (∀ r', files_ok r' → log_idle r' → file_refs r' = file_refs r →
     (∀ j, inode_refs r' j = inode_refs r j - if decide (j = i) then 1 else 0)%nat →
     Q tt (mksys (with_proc me (y <| cwd := None |>) (bracketed k)) m r')) →
  wp (drop_cwd me) Q E (mksys (with_proc me y k') m r).
Proof.
  intros Hk' Hi Hr Hl Hrefs HQ. destruct (maybe_calm k' Hk') as (C1 & C2 & C3 & C4).
  assert (Hlm : (me < length (procs k))%nat) by by eapply lookup_lt_Some.
  set (kb := with_proc me y (bracketed k)).
  assert (Hb : bracketed (with_proc me y k') = kb) by (unfold kb; by rewrite <-with_proc_bracketed, C3).
  assert (Hset : settled (this_cpu kb)) by by apply settled_bracket.
  assert (Hbb : bracketed kb = kb) by by apply bracketed_settled.
  assert (Hnb : ncli (this_cpu kb) = 0) by (change (ncli (popped (pushed (this_cpu k))) = 0); by rewrite popped_pushed by apply Hc).
  destruct (begin_op_ok (mksys (with_proc me y k') m r)) as (r1 & R1 & O1 & I1 & F1 & N1); [done..|].
  destruct (iput_ok (mksys kb m r1) i) as (r2 & R2 & O2 & I2 & F2 & N2); [done | done | apply Hset | done | cbn in *; by rewrite N1|].
  destruct (end_op_ok (mksys kb m r2)) as (r3 & R3 & O3 & I3 & F3 & N3); [done | done | apply Hset | done | done|].
  assert (Hput : ∀ kk (rr rx : F), (mksys kk m rr) <| kern ::= bracketed |> <| rest := rx |> = mksys (bracketed kk) m rx) by done.
  rewrite Hput, Hb in R1. rewrite Hput, Hbb in R2, R3.
  unfold drop_cwd. wp_step. eapply wp_eq; [exact R1|]. wp_step. apply wp_np; [done|]. wp_step. eapply wp_deref; [exact Hi|].
  wp_step. eapply wp_eq; [exact R2|]. wp_step. eapply wp_eq; [exact R3|]. apply wp_np_upd; [done|].
  cbn [rest] in *. apply HQ; [done | done | congruence|]. intros j. by rewrite N3, N2, N1.
Qed.

Lemma never_back_eq A kk z (r : F) :
  holding (this_cpu kk) (ptable_lock kk) = true → ncli (this_cpu kk) = 1 → curproc kk = Some me → procs kk !! me = Some z →
  pstate z = ZOMBIE → eflags_IF (this_cpu kk) = false →
  never_back (A:=A) (stop_with Switched) (mksys kk m r) = Stop Switched (mksys kk m r).
Proof.
  intros Hh Hn1 Hcur Hz Hst Hif.
  assert (Hw : wp (never_back (A:=A) (stop_with Switched)) (fun _ _ => False) (fun w s' => w = Switched ∧ s' = mksys kk m r) (mksys kk m r)).
  { unfold never_back, sched_sys. do 2 wp_step. apply wp_onk_mk. unfold sched_out. do 2 wp_step. rewrite Hh. cbn [negb].
    do 2 wp_step. rewrite Hn1. change (negb (1 =? 1)) with false. cbv iota. wp_step. eapply wp_the_proc; [exact Hcur|].
    wp_step. eapply wp_pget; [exact Hz|]. rewrite Hst, bool_decide_eq_false_2 by done. do 2 wp_step. rewrite Hif. by do 2 wp_step. }
  apply wp_inv in Hw as [(? & ? & _ & [])|(w & s' & Hr & -> & ->)]. exact Hr.
Qed.

(** From the queue to ZOMBIE, in the critical section of [ptable.lock]. *)
Lemma wp_retire uninit y (Q : unit → kstate → Prop) E :
  let k1 := with_proc me y (bracketed k) in
  curproc k = Some me → length (procs k) = 64%nat → may_leave uninit me y k →
  (∀ k2, left_queue me y k1 k2 →
     Q tt (lockP (k2 <| procs := exited_procs me y (initproc k) (procs k) |>))) →
  wp (leave_queue uninit me;; x ← pget me; wakeup1 (chan_of (parent x));; abandon_children me;; pupd me (fun y => y <| pstate := ZOMBIE |>))
    Q E (lockP k1).
Proof.
  intros k1 Hcur Hlen Hmay HQ. assert (Hlm : (me < length (procs k))%nat) by by eapply lookup_lt_Some.
  assert (Hset : settled (this_cpu (lockP k1))).
  { apply calm_lockP; [by apply calm_bracket|]. change (ncli (popped (pushed (this_cpu k))) + 2 < INT_MAX).
    rewrite popped_pushed by apply Hc. destruct Hc as [_ Hb]. cbn. rewrite Hn. done. }
  assert (Hy : procs (lockP k1) !! me = Some y) by by apply (lookup_with_proc me y (bracketed k)).
  wp_step. apply (wp_leave_queue uninit me y); [done | done | done | done | |].
  { intros Hsh. destruct (Hmay Hsh) as (Hwf & i & Hi & Hcase). split; [|by exists i].
    apply (wf_queue_frame k); [done | cbn; by rewrite length_insert | done | done]. }
  intros k' Hk'. assert (Hk2 : ∃ k2, k' = lockP k2 ∧ left_queue me y k1 k2 ∧ procs k2 = <[me := y]> (procs k) ∧ initproc k2 = initproc k).
  { destruct Hk' as [[Hsh ->]|(Hsh & Hwf & Hq & q & ->)]; [exists k1; split_and!; [done | by left | done | done]|].
    eexists (k1 <| sum_cpu_share := i32 (sum_cpu_share k - cpu_share y) |> <| stride_queue_size := stride_queue_size k - 1 |> <| stride_queue := q |>).
    split_and!; [done | | done | done]. right. split; [done|]. split; [|split; [exact Hq | by exists q]].
    apply (wf_queue_frame _ _ Hwf); [cbn; by rewrite length_insert | done | done]. }
  destruct Hk2 as (k2 & -> & Hleft & Hp2 & Hi2). specialize (HQ k2 Hleft).
  assert (Hy2 : procs (lockP k2) !! me = Some y) by (change (procs (lockP k2)) with (procs k2); rewrite Hp2; by apply list_lookup_insert_eq).
  wp_step. eapply wp_pget; [exact Hy2|].
  wp_step. eapply wp_eq; [apply wakeup1_eq; change (length (procs k2) = 64%nat); by rewrite Hp2, length_insert|].
  wp_step. apply wp_abandon_children; [change (length (woken (chan_of (parent y)) <$> procs k2) = 64%nat); by rewrite length_fmap, Hp2, length_insert|].
  set (ps := abandoned _ _ _). assert (Hps : ps = abandoned me (initproc k) (woken (chan_of (parent y)) <$> <[me := y]> (procs k))) by (unfold ps; cbn; by rewrite Hi2, Hp2).
  destruct (lookup_lt_is_Some_2 ps me) as [z Hz].
  { rewrite Hps. unfold abandoned. destruct (existsb _ _); cbn; by rewrite !length_fmap, length_insert. }
  eapply wp_pupd; [exact Hz|]. unfold exited_procs in HQ. rewrite <-Hps in HQ. rewrite (alter_at _ _ _ _ Hz) in HQ. exact HQ.
Qed.
End exit.

(** ** exit and thread_exit *)
Section leaving.
Context {F : Type} `{FileLaws F}.
Context (uninit : bool) (s : sys F) (me : nat) (x : proc) (i : nat).

(** The process may leave: it is not init, its files and its directory are
    shared with somebody (so that closing does not write to the disk), and it
    can be taken out of the stride queue. *)
Record leaving : Prop := {
  lv_proc : in_process (kern s) me x;
  lv_init : initproc (kern s) ≠ Some me;
  lv_ok : files_ok (rest s);
  lv_log : log_idle (rest s);
  lv_files : ∀ f, (fd_count f (ofile x) < file_refs (rest s) f)%nat;
  lv_cwd : cwd x = Some i;
  lv_cwd_refs : (1 < inode_refs (rest s) i)%nat;
  lv_queue : may_leave uninit me x (kern s)
}.

(** The slot of the process without files; a thread also has a result. *)
Definition gone (ret : option Z) : proc :=
  let y := x <| ofile := replicate 16 None |> <| cwd := None |> in
  match ret with Some v => y <| thread_return := v |> | None => y end.

Record exited (ret : option Z) (s' : sys F) : Prop := {
  ex_kern : ∃ k2, left_queue me (gone ret) (with_proc me (gone ret) (bracketed (kern s))) k2 ∧
    kern s' = lockP (k2 <| procs := exited_procs me (gone ret) (initproc (kern s)) (procs (kern s)) |>);
  ex_pages : pages s' = pages s;
  ex_ok : files_ok (rest s') ∧ log_idle (rest s');
  ex_files : ∀ f, (file_refs (rest s') f + fd_count f (ofile x))%nat = file_refs (rest s) f;
  ex_cwd : ∀ j, (inode_refs (rest s') j + if decide (j = i) then 1 else 0)%nat = inode_refs (rest s) j;
  ex_zombie : ∃ z, procs (kern s') !! me = Some z ∧ pstate z = ZOMBIE ∧ ofile z = replicate 16 None ∧ cwd z = None ∧
    ∀ v, ret = Some v → thread_return z = v;
  ex_orphans : ∀ q z, procs (kern s') !! q = Some z → parent z ≠ Some me;
  ex_woken : ∀ q z, parent x = Some q → procs (kern s') !! q = Some z → pstate z ≠ SLEEPING ∨ chan z ≠ ch_proc q
}.

Lemma gone_facts ret : cpu_share (gone ret) = cpu_share x ∧ parent (gone ret) = parent x ∧ ofile (gone ret) = replicate 16 None ∧ cwd (gone ret) = None.
Proof. by destruct ret. Qed.

Context (HL : leaving).

Lemma exited_slots ret q z :
  exited_procs me (gone ret) (initproc (kern s)) (procs (kern s)) !! q = Some z →
  (q = me → pstate z = ZOMBIE ∧ ofile z = replicate 16 None ∧ cwd z = None ∧ ∀ v, ret = Some v → thread_return z = v) ∧ parent z ≠ Some me ∧
  (parent x = Some q → pstate z ≠ SLEEPING ∨ chan z ≠ ch_proc q).
Proof.
  destruct (gone_facts ret) as (G1 & G2 & G3 & G4). set (y := gone ret) in *. unfold exited_procs. rewrite G2.
  assert (Hw : ∀ ch u, ofile (woken ch u) = ofile u ∧ cwd (woken ch u) = cwd u ∧ thread_return (woken ch u) = thread_return u) by (intros ch u; unfold woken; by destruct (_ && _)).
  intros Hq. assert (Hz : ∃ u, abandoned me (initproc (kern s)) (woken (chan_of (parent x)) <$> <[me := y]> (procs (kern s))) !! q = Some u ∧
    z = if decide (q = me) then u <| pstate := ZOMBIE |> else u).
  { case_decide as Hqm; [subst q; rewrite list_lookup_alter_eq in Hq | rewrite list_lookup_alter_ne in Hq by done; by exists z].
    apply fmap_Some in Hq as (u & Hu & ->). by exists u. }
  destruct Hz as (u & Hu & Hz). apply abandoned_lookup in Hu as (w & Hw1 & P & O & C & R & Ch & St).
  assert (Hpar : parent u ≠ Some me). { rewrite P. destruct (decide (parent w = Some me)); [apply HL | done]. }
  rewrite list_lookup_fmap in Hw1. apply fmap_Some in Hw1 as (v & Hv & ->).
  split; [|split].
  - intros ->. rewrite decide_True in Hz by done. subst z. rewrite list_lookup_insert_eq in Hv by (eapply lookup_lt_Some, HL). injection Hv as <-.
    change (ZOMBIE = ZOMBIE ∧ ofile u = replicate 16 None ∧ cwd u = None ∧ ∀ v, ret = Some v → thread_return u = v).
    rewrite O, C, R. destruct (Hw (chan_of (parent x)) y) as (-> & -> & ->). split_and!; [done | done | done|]. intros v Hv. unfold y. by rewrite Hv.
  - subst z. by destruct (decide (q = me)).
  - intros Hp. rewrite Hp in *. subst z. destruct (decide (q = me)); [by left|]. rewrite Ch.
    unfold woken in St |- *. destruct (bool_decide_reflect (pstate v = SLEEPING)) as [Hs1|Hs1]; cbn [andb] in *.
    + destruct (bool_decide_reflect (chan v = chan_of (Some q))) as [Hc1|Hc1]; [|by right]. left. cbn in St. by destruct St as [-> | [? ?]].
    + left. destruct St as [-> | [? ?]]; done.
Qed.

(** Files, directory, queue and children, from the start to the switch. *)
Lemma wp_exited ret (body : K unit) E :
  (∀ k Q' E', wp (leave_queue uninit me;; y ← pget me; wakeup1 (chan_of (parent y));; abandon_children me;;
      pupd me (fun y => y <| pstate := ZOMBIE |>)) Q' E' (with_proc me (gone ret) k) → (me < length (procs k))%nat →
    wp body Q' E' (with_proc me (gone None) k)) →
  wp (close_files me;; drop_cwd me;; onk (acquire_ptable;; body))
    (fun _ s' => exited ret s' ∧ ∀ A, never_back (A:=A) (stop_with Switched) s' = Stop Switched s') E (mksys (kern s) (pages s) (rest s)).
Proof.
  intros Hbody. pose proof HL as [[H1 H2 H3 H4 H5 H6 H7 H8 H9] L2 L3 L4 L5 L6 L7 L8]. set (k := kern s) in *.
  destruct (gone_facts ret) as (G1 & G2 & G3 & G4). set (y := gone ret) in *.
  wp_step. apply (wp_close_files me x k (pages s)); [done | done | done | done | done | by eapply H9 | done | done|]. intros k' r1 Hk' O1 I1 N1 F1.
  wp_step. apply (wp_drop_cwd me x k (pages s)) with (i := i); [done | done | done | done | done | done | done | by rewrite I1 | by rewrite N1|].
  intros r2 O2 I2 F2 N2. change (x <| ofile := replicate 16 None |> <| cwd := None |>) with (gone None).
  apply wp_onk_mk. wp_step. apply wp_lockP; [by apply calm_bracket | done|].
  change (lockP (with_proc me (gone None) (bracketed k))) with (with_proc me (gone None) (lockP (bracketed k))).
  apply Hbody; [|by eapply lookup_lt_Some].
  change (with_proc me (gone ret) (lockP (bracketed k))) with (lockP (with_proc me y (bracketed k))).
  eapply (wp_retire me x k); [done | done | done | done | done | apply H5 | unfold may_leave; rewrite G1; exact L8|].
  intros k2 Hleft. set (kf := lockP _).
  assert (Hcpu : this_cpu k2 = popped (pushed (this_cpu k)) ∧ curproc k2 = Some me ∧ ptable_lock k2 = ptable_lock k)
    by (destruct Hleft as [[_ ->]|(_ & _ & _ & q & ->)]; done).
  destruct Hcpu as (Q1 & Q2 & Q3).
  destruct (lookup_lt_is_Some_2 (exited_procs me y (initproc k) (procs k)) me) as [z Hz].
  { unfold exited_procs, abandoned. rewrite length_alter. destruct (existsb _ _); unfold id; rewrite !length_fmap, length_insert; by eapply lookup_lt_Some. }
  destruct (exited_slots ret me z Hz) as [Hzz _]. destruct (Hzz eq_refl) as (Z1 & Z2 & Z3 & Z4). split; [|intros A].
  - split; cbn [kern pages rest]; [by exists k2 | done | done | | | by exists z | |].
    + intros f. rewrite F2. apply F1.
    + intros j. rewrite N2, N1. case_decide; [subst j; lia | lia].
    + intros q w Hq. by destruct (exited_slots ret q w Hq) as (_ & ? & _).
    + intros q w Hp Hq. destruct (exited_slots ret q w Hq) as (_ & _ & Hs). by apply Hs.
  - apply (never_back_eq me (pages s) A kf z); [|change (ncli (this_cpu k2) + 1 = 1) | exact Q2 | exact Hz | exact Z1 | done].
    + change (holding (pushed (this_cpu k2)) (locked_by (this_cpu k2) (ptable_lock k2)) = true). by apply holding_locked_by.
    + rewrite Q1, popped_pushed by apply H1. cbn. lia.
Qed.
End leaving.

Section exits.
Context {F : Type} `{FileLaws F}.


(** [thread_exit].  The same for a thread, which also leaves its result in
    its slot, where [thread_join] finds it. *)
Theorem thread_exit_correct uninit (s : sys F) (me : nat) (x : proc) (i : nat) (retval : Z) :
  leaving uninit s me x i →
  ∃ s', thread_exit uninit (stop_with Switched) retval s = Stop Switched s' ∧ exited s me x i (Some retval) s'.
Proof.
  intros HL. pose proof HL as [HP Hinit _ _ _ _ _ _].
  assert (Hw : wp (thread_exit uninit (stop_with Switched) retval) (fun _ _ => False) (fun w s' => w = Switched ∧ exited s me x i (Some retval) s')
    (mksys (kern s) (pages s) (rest s))).
  { unfold thread_exit. wp_step. apply wp_onk_mk. eapply wp_the_proc; [apply HP|]. wp_step. apply wp_onk_mk. wp_step.
    rewrite bool_decide_eq_false_2 by done.
    assert (Hx := wp_exited uninit s me x i HL (Some retval)
      (pupd me (fun y => y <| thread_return := retval |>);; leave_queue uninit me;; y ← pget me; wakeup1 (chan_of (parent y));;
       abandon_children me;; pupd me (fun y => y <| pstate := ZOMBIE |>)) (fun w s' => w = Switched ∧ exited s me x i (Some retval) s')).
    lapply Hx; [clear Hx; intros Hx%wp_bind_inv | intros k Q' E' Hb Hlm; wp_step; apply wp_pupd_with; [done | exact Hb]].
    wp_step. eapply wp_mono; [exact Hx | |done]. intros [] s1 Hs1%wp_bind_inv. wp_step. eapply wp_mono; [exact Hs1 | |done]. intros [] s2 Hs2.
    wp_step. eapply wp_mono; [exact Hs2 | |done]. intros _ s' [Hex Hnb]. unfold wp. by rewrite Hnb. }
  apply wp_inv in Hw as [(? & ? & _ & [])|(w & s' & Hr & -> & Hex)]. exists s'. split; [by destruct s | done].
Qed.
End exits.

(** *** A child with a share leaves *)
Definition leaver : proc := forker <| parent := Some 1%nat |> <| cpu_share := 20 |> <| cwd := Some 3%nat |>.
Definition waiting_parent : proc := proc0 <| pstate := SLEEPING |> <| pid := 1 |> <| chan := ch_proc 1 |> <| pgdir_ref_idx := 1 |>.
Definition leaving_state : sys RefFiles.files :=
  mksys ((kern forking) <| procs := leaver :: waiting_parent :: replicate 62 proc0 |> <| pgdir_ref := 1 :: 1 :: replicate 62 0 |>
    <| initproc := Some 1%nat |> <| stride_queue := None :: Some 0%nat :: replicate 63 None |> <| stride_queue_size := 1 |> <| sum_cpu_share := 20 |>)
    (pages forking) (RefFiles.mkfiles (fun _ => 17%nat) (fun _ => 2%nat)).

Lemma leaving_slot p y : procs (kern leaving_state) !! p = Some y → y = leaver ∨ y = waiting_parent ∨ y = proc0.
Proof. destruct p as [|[|p]]; cbn; [by intros [= <-]; left | by intros [= <-]; right; left|]. intros [-> _]%(lookup_replicate 62). by right; right. Qed.

Lemma leaving_state_ok : leaving false leaving_state 0 leaver 3.
Proof.
  split; [| done | done | done | | done | cbn; lia|].
  - split; [unfold calm, cli_ok, INT_MAX; cbn; intuition lia | done | done | done | | done | done | done|].
    + apply counted_check; [by split | done | by vm_compute|]. by intros p y [-> | [-> | ->]]%leaving_slot Hst.
    + by intros p y [-> | [-> | ->]]%leaving_slot.
  - intros f. unfold fd_count. change (file_refs (rest leaving_state) f) with 17%nat. pose proof (length_filter (fun o => o = Some f) (ofile leaver)).
    change (length (ofile leaver)) with 16%nat in *. lia.
  - intros _. split; [|exists 1; split; [done | right; right; done]].
    apply (wf_queue_frame (scenario [(RUNNING, 20, 0)])); [by apply scenario_wf; cbn; lia | done | done | done].
Qed.


Lemma thread_exit_correct_witness :
  ∃ s', thread_exit false (stop_with Switched) 42 leaving_state = Stop Switched s' ∧ exited leaving_state 0 leaver 3 (Some 42) s'.
Proof. apply (thread_exit_correct false leaving_state 0 leaver 3 42 leaving_state_ok). Defined.
