(* ===== verification/Syscall.v ===== *)
(** * System calls (syscall.c, sysproc.c, prac_syscall.c, prac_getppid.c, prac_getlev.c)

    A system call finds its arguments on the user stack: [fetchint],
    [fetchstr], [argint], [argptr] and [argstr] read user memory through the
    page tables that are loaded, after they have compared the address with
    the size of the process.  The handlers of sysproc.c and of proc.c are the
    calls of the kernel with such arguments; [syscall] selects one by number.

    Shown here: what the fetch functions accept is what lies in the process,
    the pointer that [argptr] hands to the kernel never leaves it, and a call
    by number runs its handler and returns its result. *)
From stdpp Require Import gmap.
From S2P Require Import Prelude Spinlock Proc StrideQueue Sched Sleep Share Trap Bytes Kalloc Vm VmTable VmUser VmOut Kernel ProcAlloc Thread ThreadLib ThreadFork.

(** ** User memory read by the kernel *)
Definition user_load8 (pgdir va : Z) : M kmem Z :=
  pte ← walkpgdir pgdir va false;
  e ← deref_word pte;
  if negb (present e) then fault else
  gets (fun k => memory k (P2V (PTE_ADDR e) + va mod PGSIZE)).

Definition user_load32 (pgdir va : Z) : M kmem Z :=
  b0 ← user_load8 pgdir va;
  b1 ← user_load8 pgdir (u32 (va + 1));
  b2 ← user_load8 pgdir (u32 (va + 2));
  b3 ← user_load8 pgdir (u32 (va + 3));
  mret (le_val [b0; b1; b2; b3]).

(** [ticks] of trap.c, among the variables of the kernel that the model does
    not name. *)
Class Clock (F : Type) := ticks_of : F → Z.

Section syscalls.
Context {F : Type} `{FileOps F} `{Clock F}.
Context (kend kdata forkret_addr trapret_addr : Z) (uninit : bool) (resume : M (sys F) unit).
Abbreviation S := (sys F).

Definition myproc : M S proc := me ← onk the_proc; onk (pget me).

(** ** Arguments: [None] is the result -1. *)
Definition fetchint (addr : Z) : M S (option Z) :=
  x ← myproc;
  if (addr >=? sz x) || (u32 (addr + 4) >? sz x) then mret None else
  v ← onm (user_load32 (pgdir x) addr);
  mret (Some (i32 v)).

(** The loop of [fetchstr]: the length of the string that starts at [pp]. *)
Fixpoint fetchstr_loop (fuel : nat) (pgdir pp s ep : Z) : M S (option Z) :=
  if s <? ep then
    match fuel with
    | O => stop_with NoFuel
    | Datatypes.S fuel =>
        c ← onm (user_load8 pgdir s);
        if c =? 0 then mret (Some (s - pp)) else fetchstr_loop fuel pgdir pp (u32 (s + 1)) ep
    end
  else mret None.

(** The address and the length. *)
Definition fetchstr (addr : Z) : M S (option (Z * Z)) :=
  x ← myproc;
  if addr >=? sz x then mret None else
  r ← fetchstr_loop (Z.to_nat (sz x - addr)) (pgdir x) addr addr (sz x);
  mret (n ← r; Some (addr, n)).

Definition argint (n : Z) : M S (option Z) :=
  x ← myproc;
  fetchint (u32 (esp (tf x) + 4 + 4 * n)).

Definition argptr (n size : Z) : M S (option Z) :=
  r ← argint n;
  match r with
  | None => mret None
  | Some i =>
      x ← myproc;
      if (size <? 0) || (u32 i >=? sz x) || (u32 (u32 i + size) >? sz x) then mret None else
      mret (Some (u32 i))
  end.

Definition argstr (n : Z) : M S (option (Z * Z)) :=
  r ← argint n;
  match r with
  | None => mret None
  | Some addr => fetchstr (u32 addr)
  end.

(** ** Handlers *)
Definition with_arg {A} (m : M S (option A)) (f : A → M S Z) : M S Z :=
  r ← m;
  match r with None => mret (-1) | Some a => f a end.

Definition sys_fork : M S Z := fork kend kdata forkret_addr trapret_addr.
Definition sys_exit (fuel : nat) : M S Z := exit kend uninit resume fuel;; mret 0.
Definition sys_wait (fuel : nat) : M S Z := wait kend resume fuel.
Definition sys_kill : M S Z := with_arg (argint 0) (fun pid => onk (kill pid)).
Definition sys_getpid : M S Z := x ← myproc; mret (pid x).
Definition sys_gettid : M S Z := x ← myproc; mret (tid x).
Definition getlev : M S Z := x ← myproc; mret (level_of_MLFQ x).
Definition sys_getlev : M S Z := getlev.
Definition getppid : M S Z := x ← myproc; p ← deref (parent x); y ← onk (pget p); mret (pid y).
Definition sys_getppid : M S Z := getppid.

Definition sys_sbrk : M S Z :=
  with_arg (argint 0) (fun n =>
    x ← myproc;
    let addr := i32 (sz x) in
    r ← growproc kend n;
    if r <? 0 then mret (-1) else mret addr).

(** [sys_sleep] sleeps at most [fuel] times; the difference of the ticks and
    the argument are compared as unsigned numbers. *)
Fixpoint sleep_loop (fuel : nat) (ticks0 n : Z) : M S Z :=
  r ← gets rest;
  if u32 (ticks_of r - ticks0) <? u32 n then
    x ← myproc;
    if negb (killed x =? 0) then onk (with_lock tickslock release);; mret (-1) else
    match fuel with
    | O => stop_with NoFuel
    | Datatypes.S fuel => sleep_sys resume ticks_chan tickslock;; sleep_loop fuel ticks0 n
    end
  else onk (with_lock tickslock release);; mret 0.

Definition sys_sleep (fuel : nat) : M S Z :=
  with_arg (argint 0) (fun n =>
    onk (with_lock tickslock acquire);;
    r ← gets rest;
    sleep_loop fuel (ticks_of r) n).

Definition sys_uptime : M S Z :=
  onk (with_lock tickslock acquire);;
  r ← gets rest;
  onk (with_lock tickslock release);;
  mret (i32 (ticks_of r)).

(** The string is printed; the result is a constant. *)
Definition my_syscall (str : Z * Z) : M S Z := mret (i32 0xABCDABCD).
Definition sys_my_syscall : M S Z := with_arg (argstr 0) my_syscall.

Definition sys_yield : M S Z :=
  onk acquire_ptable;;
  me ← onk the_proc;
  onk (pupd me (fun x => x <| pstate := RUNNABLE |>));;
  sched_sys resume;;
  onk release_ptable;;
  mret 0.

Definition sys_set_cpu_share : M S Z :=
  r ← argint 0;
  onk (Share.sys_set_cpu_share (mret r)).

(** The three pointers must lie in the process. *)
Definition sys_thread_create : M S Z :=
  with_arg (argptr 0 4) (fun thread =>
  with_arg (argptr 1 4) (fun start_routine =>
  with_arg (argptr 2 4) (fun arg =>
  thread_create kend forkret_addr trapret_addr thread start_routine arg))).

Definition sys_thread_exit : M S Z :=
  with_arg (argptr 0 4) (fun retval => thread_exit uninit resume retval;; mret 0).

Definition sys_thread_join (fuel : nat) : M S Z :=
  with_arg (argint 0) (fun thread =>
  with_arg (argptr 1 4) (fun retval =>
  thread_join kend resume fuel (u32 thread) retval)).

(** ** Dispatch

    [file_call] are the handlers of sysfile.c by number; [fuel] bounds how
    often a call that waits goes back to sleep. *)
Context (file_call : Z → option (M S Z)) (fuel : nat).

Definition syscalls (num : Z) : option (M S Z) :=
  if num =? 1 then Some sys_fork
  else if num =? 2 then Some (sys_exit fuel)
  else if num =? 3 then Some (sys_wait fuel)
  else if num =? 6 then Some sys_kill
  else if num =? 11 then Some sys_getpid
  else if num =? 12 then Some sys_sbrk
  else if num =? 13 then Some (sys_sleep fuel)
  else if num =? 14 then Some sys_uptime
  else if num =? 22 then Some sys_my_syscall
  else if num =? 23 then Some sys_getppid
  else if num =? 24 then Some sys_yield
  else if num =? 25 then Some sys_getlev
  else if num =? 26 then Some sys_set_cpu_share
  else if num =? 27 then Some sys_thread_create
  else if num =? 28 then Some sys_thread_exit
  else if num =? 29 then Some (sys_thread_join fuel)
  else if num =? 30 then Some sys_gettid
  else file_call num.

Definition syscall : M S unit :=
  me ← onk the_proc;
  x ← onk (pget me);
  let num := i32 (eax (tf x)) in
  match (if (num >? 0) && (num <? 31) then syscalls num else None) with
  | Some h =>
      v ← h;
      me ← onk the_proc;
      onk (pupd me (fun y => y <| tf ::= fun f => f <| eax := u32 v |> |>))
  | None =>
      onk (pupd me (fun y => y <| tf ::= fun f => f <| eax := u32 (-1) |> |>))
  end.
End syscalls.

(** ** What the process sees *)
Section loads.
Context (kend : Z).

Definition vword (m : bytemem) (ents : gmap Z Z) (a : Z) : Z :=
  le_val [default 0 (vbyte m ents a); default 0 (vbyte m ents (a + 1)); default 0 (vbyte m ents (a + 2)); default 0 (vbyte m ents (a + 3))].

Lemma wp_user_load8 k pg tabs ents l o va (Q : Z → kmem → Prop) E :
  uvm kend k pg tabs ents l o → 0 ≤ va < 2 ^ 32 →
  match vbyte (memory k) ents va with Some b => Q b k | None => E Fault k end → wp (user_load8 pg va) Q E k.
Proof.
  intros U Hva HQ. unfold user_load8, deref_word, vbyte in *. wp_step. eapply wp_walk; [exact U | done|].
  pose proof (slot_nonzero _ _ _ _ _ _ _ (va / 4096) U) as Hs. wp_step. destruct (ents !! (va / 4096)) as [e|] eqn:He; cbn [mbind option_bind] in HQ.
  - destruct (tb_dom _ _ _ _ (tv_tab _ _ _ _ _ _ _ U) _ _ He) as ([p Hp] & _ & Hpr).
    destruct (Z.eqb_spec (slot tabs (va / 4096)) 0) as [H0|H0]; [apply Hs in H0; congruence|].
    apply wp_load32. rewrite (slot_word _ _ _ _ _ _ _ _ U H0), He. cbn [default from_option id]. rewrite Hpr. cbn [negb]. wp_step. exact HQ.
  - destruct (Z.eqb_spec (slot tabs (va / 4096)) 0) as [H0|H0]; [exact HQ|].
    apply wp_load32. rewrite (slot_word _ _ _ _ _ _ _ _ U H0), He. exact HQ.
Qed.

(** All of the word, or nothing of it, is there. *)
Lemma wp_user_load32 k pg tabs ents l o va (Q : Z → kmem → Prop) E :
  uvm kend k pg tabs ents l o → 0 ≤ va < 2 ^ 32 - 4 →
  ((∀ i, 0 ≤ i < 4 → is_Some (vbyte (memory k) ents (va + i))) → Q (vword (memory k) ents va) k) →
  (∀ i, 0 ≤ i < 4 → vbyte (memory k) ents (va + i) = None → E Fault k) → wp (user_load32 pg va) Q E k.
Proof.
  intros U Hva HQ HE. unfold user_load32. rewrite !u32_id by lia.
  pose proof (HE 0 ltac:(lia)) as E0. pose proof (HE 1 ltac:(lia)) as E1. pose proof (HE 2 ltac:(lia)) as E2. pose proof (HE 3 ltac:(lia)) as E3.
  rewrite Z.add_0_r in E0. unfold vword in HQ.
  wp_step. eapply wp_user_load8; [exact U | lia|]. destruct (vbyte _ _ va) as [b0|] eqn:B0; [|by apply E0].
  wp_step. eapply wp_user_load8; [exact U | lia|]. destruct (vbyte _ _ (va + 1)) as [b1|] eqn:B1; [|by apply E1].
  wp_step. eapply wp_user_load8; [exact U | lia|]. destruct (vbyte _ _ (va + 2)) as [b2|] eqn:B2; [|by apply E2].
  wp_step. eapply wp_user_load8; [exact U | lia|]. destruct (vbyte _ _ (va + 3)) as [b3|] eqn:B3; [|by apply E3].
  wp_step. apply HQ. intros i Hi.
  assert (i = 0 ∨ i = 1 ∨ i = 2 ∨ i = 3) as [-> | [-> | [-> | ->]]] by lia; rewrite ?Z.add_0_r, ?B0, ?B1, ?B2, ?B3; by eexists.
Qed.
End loads.

(** ** Arguments *)
Section args.
Context {F : Type} `{FileOps F}.
Context (kend : Z).
Context (k : kstate) (m : kmem) (r : F) (me : nat) (x : proc) (tabs ents : gmap Z Z) (l o : list Z).

(** The caller with its address space. *)
Record caller : Prop := {
  ca_cur : curproc k = Some me;
  ca_me : procs k !! me = Some x;
  ca_uvm : uvm kend m (pgdir x) tabs ents l o;
  ca_sz : 0 ≤ sz x ≤ KERNBASE
}.

(** The pages the process has at [a], ..., [a + n - 1]. *)
Definition there (a n : Z) : Prop := ∀ i, 0 ≤ i < n → is_Some (vbyte (memory m) ents (a + i)).

Context (HC : caller).
Abbreviation s := (mksys k m r).

Lemma wp_myproc (Q : proc → sys F → Prop) E : Q x s → wp myproc Q E s.
Proof. intros HQ. unfold myproc. wp_step. apply wp_onk_mk. eapply wp_the_proc; [apply HC|]. apply wp_onk_mk. by eapply wp_pget; [apply HC|]. Qed.

Lemma wp_fetchint addr (Q : option Z → sys F → Prop) E :
  0 ≤ addr < 2 ^ 32 →
  (sz x < addr + 4 → Q None s) →
  (addr + 4 ≤ sz x → there addr 4 → Q (Some (i32 (vword (memory m) ents addr))) s) →
  (addr + 4 ≤ sz x → ¬ there addr 4 → E Fault s) → wp (fetchint addr) Q E s.
Proof.
  intros Ha HN HS HE. destruct HC as [C1 C2 C3 C4]. unfold KERNBASE in C4. unfold fetchint. wp_step. apply wp_myproc.
  destruct (Z.geb_spec addr (sz x)) as [H1|H1]; cbn [orb]; [wp_step; apply HN; lia|].
  rewrite (u32_id (addr + 4)) by lia. destruct (Z.gtb_spec (addr + 4) (sz x)) as [H2|H2]; [wp_step; apply HN; lia|].
  wp_step. apply wp_onm_mk. eapply wp_user_load32; [exact C3 | lia | |].
  - intros Ht. wp_step. apply HS; [lia | exact Ht].
  - intros i Hi Hv. apply HE; [lia|]. intros Ht. destruct (Ht i Hi) as [b Hb]. congruence.
Qed.

(** [fetchint] at an address: -1 when the word is not below the size of the
    process, otherwise the word the process sees there.  Where the process
    has no page below its size, as between the stacks of threads, the kernel
    faults. *)
Theorem fetchint_correct addr :
  0 ≤ addr < 2 ^ 32 →
  (sz x < addr + 4 → fetchint addr s = Ok None s) ∧
  (addr + 4 ≤ sz x → there addr 4 → fetchint addr s = Ok (Some (i32 (vword (memory m) ents addr))) s) ∧
  (addr + 4 ≤ sz x → ¬ there addr 4 → fetchint addr s = Stop Fault s).
Proof.
  intros Ha. assert (Hw : wp (fetchint addr)
    (fun v s' => s' = s ∧ (sz x < addr + 4 ∧ v = None ∨ addr + 4 ≤ sz x ∧ there addr 4 ∧ v = Some (i32 (vword (memory m) ents addr))))
    (fun w s' => w = Fault ∧ s' = s ∧ addr + 4 ≤ sz x ∧ ¬ there addr 4) s).
  { apply wp_fetchint; [done | auto | auto 10 | auto]. }
  apply wp_inv in Hw as [(v & s' & -> & -> & [(H1 & ->)|(H1 & H2 & ->)])|(w & s' & -> & -> & -> & H1 & H2)];
    split_and!; intros; done || lia.
Qed.

Lemma wp_argint n (Q : option Z → sys F → Prop) E :
  let a := u32 (esp (tf x) + 4 + 4 * n) in
  (sz x < a + 4 → Q None s) →
  (a + 4 ≤ sz x → there a 4 → Q (Some (i32 (vword (memory m) ents a))) s) →
  (a + 4 ≤ sz x → ¬ there a 4 → E Fault s) → wp (argint n) Q E s.
Proof. intros a HN HS HE. unfold argint. wp_step. apply wp_myproc. apply wp_fetchint; [apply u32_range | done..]. Qed.

Lemma u32_i32 z : u32 (i32 z) = u32 z.
Proof. unfold u32, i32. rewrite Zminus_mod, Zmod_mod, <-Zminus_mod. f_equal. lia. Qed.

(** [argptr]: a pointer is handed to the kernel exactly when the argument
    and the [size] bytes it points to lie in the process, so that no range
    reaches the kernel's half of the address space, whatever the two numbers
    are; nothing is written. *)
Theorem argptr_correct n size :
  let a := u32 (esp (tf x) + 4 + 4 * n) in
  let p := u32 (vword (memory m) ents a) in
  size ≤ INT_MAX → (a + 4 ≤ sz x → there a 4) →
  ∃ v, argptr n size s = Ok v s ∧
    (v = Some p ∧ a + 4 ≤ sz x ∧ 0 ≤ size ∧ p < sz x ∧ p + size ≤ sz x ∨
     v = None ∧ ¬ (a + 4 ≤ sz x ∧ 0 ≤ size ∧ p < sz x ∧ p + size ≤ sz x)).
Proof.
  intros a p Hmax Hth. assert (Hw : wpt (argptr n size) (fun v s' => s' = s ∧
    (v = Some p ∧ a + 4 ≤ sz x ∧ 0 ≤ size ∧ p < sz x ∧ p + size ≤ sz x ∨
     v = None ∧ ¬ (a + 4 ≤ sz x ∧ 0 ≤ size ∧ p < sz x ∧ p + size ≤ sz x))) s).
  { unfold argptr. wp_step. apply wp_argint.
    - intros H1. fold a in H1. wp_step. split; [done|]. right. split; [done|]. lia.
    - intros H1 _. fold a in H1 |- *. wp_step. apply wp_myproc. rewrite u32_i32. fold p.
      pose proof (u32_range (vword (memory m) ents a)) as Hp. fold p in Hp. destruct HC as [_ _ _ C4]. unfold KERNBASE in C4. unfold INT_MAX in Hmax.
      destruct (Z.ltb_spec size 0); cbn [orb]; [wp_step; split; [done|]; right; split; [done | lia]|].
      destruct (Z.geb_spec p (sz x)); cbn [orb]; [wp_step; split; [done|]; right; split; [done | lia]|].
      rewrite u32_id by lia. destruct (Z.gtb_spec (p + size) (sz x)); wp_step; (split; [done|]); [right | left]; (split; [done | lia]).
    - intros H1 H2. fold a in H1, H2. by apply Hth in H1. }
  apply wpt_ok in Hw as (v & s' & Hr & -> & Hv). by exists v.
Qed.

Lemma wp_fetchstr_loop fuel a i (Q : option Z → sys F → Prop) E :
  0 ≤ a → 0 ≤ i → a + i ≤ sz x → sz x - (a + i) ≤ Z.of_nat fuel → there a (sz x - a) →
  (∀ j, 0 ≤ j < i → vbyte (memory m) ents (a + j) ≠ Some 0) →
  (∀ n, 0 ≤ n → a + n < sz x → vbyte (memory m) ents (a + n) = Some 0 → (∀ j, 0 ≤ j < n → vbyte (memory m) ents (a + j) ≠ Some 0) → Q (Some n) s) →
  ((∀ j, 0 ≤ j → a + j < sz x → vbyte (memory m) ents (a + j) ≠ Some 0) → Q None s) →
  wp (fetchstr_loop fuel (pgdir x) a (a + i) (sz x)) Q E s.
Proof.
  pose proof HC as [_ _ C3 C4]. unfold KERNBASE in C4. revert i. induction fuel as [|fuel IH]; intros i Ha Hi Hle Hf Hth Hz HS HN.
  - cbn [fetchstr_loop]. rewrite (proj2 (Z.ltb_ge _ _)) by lia. wp_step. apply HN. intros j Hj Hj'. apply Hz. lia.
  - cbn [fetchstr_loop]. destruct (Z.ltb_spec (a + i) (sz x)) as [Hlt|Hge].
    2:{ wp_step. apply HN. intros j Hj Hj'. apply Hz. lia. }
    wp_step. apply wp_onm_mk. eapply wp_user_load8; [exact C3 | lia|]. destruct (Hth i ltac:(lia)) as [b Hb]. rewrite Hb.
    destruct (Z.eqb_spec b 0) as [->|Hb0]; [wp_step; replace (a + i - a) with i by lia; by apply HS|].
    rewrite u32_id by lia. rewrite <-Z.add_assoc. apply IH; [lia | lia | lia | lia | done | | done | done].
    intros j Hj. destruct (decide (j = i)) as [->|]; [congruence | apply Hz; lia].
Qed.

(** [fetchstr] finds the string that starts at an address of the process:
    its length up to the first zero byte, when there is one below the size of
    the process, and -1 otherwise. *)
Theorem fetchstr_correct a :
  0 ≤ a < 2 ^ 32 → there a (sz x - a) →
  ∃ v, fetchstr a s = Ok v s ∧
    ((∃ n, v = Some (a, n) ∧ 0 ≤ n ∧ a + n < sz x ∧ vbyte (memory m) ents (a + n) = Some 0 ∧
       ∀ j, 0 ≤ j < n → vbyte (memory m) ents (a + j) ≠ Some 0) ∨
     (v = None ∧ ∀ j, 0 ≤ j → a + j < sz x → vbyte (memory m) ents (a + j) ≠ Some 0)).
Proof.
  intros Ha Hth. assert (Hw : wpt (fetchstr a) (fun v s' => s' = s ∧
    ((∃ n, v = Some (a, n) ∧ 0 ≤ n ∧ a + n < sz x ∧ vbyte (memory m) ents (a + n) = Some 0 ∧
       ∀ j, 0 ≤ j < n → vbyte (memory m) ents (a + j) ≠ Some 0) ∨
     (v = None ∧ ∀ j, 0 ≤ j → a + j < sz x → vbyte (memory m) ents (a + j) ≠ Some 0))) s).
  { unfold fetchstr. wp_step. apply wp_myproc. destruct (Z.geb_spec a (sz x)) as [Hge|Hlt].
    - wp_step. split; [done|]. right. split; [done|]. intros j Hj Hj'. lia.
    - wp_step. pose proof (wp_fetchstr_loop (Z.to_nat (sz x - a)) a 0) as Hloop. rewrite Z.add_0_r in Hloop.
      apply Hloop; [lia | lia | lia | lia | done | intros j Hj; lia | |].
      + intros n H1 H2 H3 H4. wp_step. split; [done|]. left. by exists n.
      + intros Hn. wp_step. split; [done|]. by right. }
  apply wpt_ok in Hw as (v & s' & Hr & -> & Hv). by exists v.
Qed.
End args.

(** ** sbrk *)

(** To the end of a call that knows its result. *)
Ltac wp_finish :=
  repeat (cbv beta iota; lazymatch goal with |- wp (onk (pupd _ _);; _) _ _ _ => fail | _ => idtac end; first [progress change (-1 <? 0) with true | progress change (0 <? 0) with false | progress change (0 =? 0) with true | wp_step]).

Section sbrk.
Context {F : Type} `{FileOps F}.
Context (kend : Z) (Hkend : KERNBASE < kend).
Context (k : kstate) (m : kmem) (r : F) (me : nat) (x : proc) (tabs ents : gmap Z Z) (l o : list Z).
Context (HC : caller kend k m me x tabs ents l o) (Hcalm : calm (this_cpu k)) (Hks : kstack x ≠ 0).
Context (Hnone : ∀ w, rup (sz x) ≤ w < 2 ^ 19 → ents !! w = None).
Abbreviation s := (mksys k m r).

(** The caller with size [z], its address space loaded again. *)
Definition resized (z : Z) : kstate :=
  (bracketed (with_proc me (x <| sz := z |>) k)) <| ts_esp0 := u32 (kstack x + KSTACKSIZE) |> <| cr3 := Some (pgdir x) |>.

Lemma wp_set_size z (Q : Z → sys F → Prop) E m' :
  Q 0 (mksys (resized z) m' r) →
  wp (onk (pupd me (fun y => y <| sz := z |>));; onk (switchuvm (Some me));; mret 0) Q E (mksys k m' r).
Proof.
  intros HQ. destruct HC as [C1 C2 C3 C4]. assert (Hpg : pgdir x ≠ 0).
  { pose proof (tv_pages _ _ _ _ _ _ _ C3) as Hp. apply Forall_app in Hp as [_ Hp]. apply Forall_cons in Hp as [Hp _]. apply page_bounds in Hp. lia. }
  wp_step. apply wp_onk_mk. eapply wp_pupd; [exact C2|]. wp_step. apply wp_onk_mk. unfold switchuvm, on_this_cpu.
  wp_step. eapply wp_pget; [by apply list_lookup_insert_eq; eapply lookup_lt_Some|]. cbn [kstack pgdir update_field].
  change (kstack (x <| sz := z |>)) with (kstack x). change (pgdir (x <| sz := z |>)) with (pgdir x).
  rewrite (proj2 (Z.eqb_neq _ _)) by done. rewrite (proj2 (Z.eqb_neq _ _)) by done. destruct Hcalm as [Hcli Hroom].
  wp_step. apply wp_zoom. eapply wp_eq; [by apply pushcli_eq|]. do 4 wp_step.
  apply wp_zoom. eapply wp_eq; [apply popcli_eq; [by apply cli_ok_pushed | destruct Hcli; cbn; lia]|]. wp_step. exact HQ.
Qed.

(** The memory after the pages from [newsz] on went back to the free list. *)
Definition cut (newsz : Z) (m' : kmem) : Prop := ∃ ents' l',
  uvm kend m' (pgdir x) tabs ents' l' o ∧ l' ++ upages ents' ≡ₚ l ++ upages ents ∧
  same_outside (tpages tabs ++ l') (memory m) (memory m') ∧
  ∀ w, ents' !! w = if decide (newsz ≤ 4096 * w < sz x) then None else ents !! w.

Definition sbrk_result (n v : Z) (s' : sys F) : Prop :=
  let z := sz x + n in
  let enlarged := enlarged kend m (pgdir x) tabs ents l o (sz x) z in
  (0 < n ∧ KERNBASE ≤ z ∧ v = -1 ∧ s' = s) ∨
  (0 < n ∧ z < KERNBASE ∧ ∃ m', (v = -1 ∧ s' = mksys k m' r ∧ enlarged 0 m') ∨ (v = i32 (sz x) ∧ s' = mksys (resized z) m' r ∧ enlarged z m')) ∨
  (n = 0 ∧ v = i32 (sz x) ∧ s' = mksys (resized (sz x)) m r) ∨
  (n < 0 ∧ 0 < z ∧ v = i32 (sz x) ∧ ∃ m', s' = mksys (resized z) m' r ∧ cut z m') ∨
  (n < 0 ∧ z = 0 ∧ v = -1 ∧ ∃ m', s' = mksys k m' r ∧ cut 0 m') ∨
  (n < 0 ∧ z < 0 ∧ sz x = 0 ∧ v = -1 ∧ s' = s) ∨
  (n < 0 ∧ z < 0 ∧ 0 < sz x ∧ v = i32 (sz x) ∧ s' = mksys (resized (sz x)) m r).

(** [sbrk] of [n] bytes.  Growth within the user half returns the old size
    and adds fresh zeroed pages, or returns -1 with the address space as it
    was; growth beyond it returns -1.  Shrinking gives the pages back.  Two
    corners of the shrinking: cut to nothing it returns -1 although the pages
    are gone and the size still says they are there, and cut below nothing it
    reports success and does nothing. *)
Theorem sys_sbrk_correct :
  let a := u32 (esp (tf x) + 4 + 4 * 0) in
  let n := i32 (vword (memory m) ents a) in
  a + 4 ≤ sz x → there m ents a 4 →
  ∃ v s', sys_sbrk kend s = Ok v s' ∧ sbrk_result n v s'.
Proof.
  intros a n Ha Hth. apply wpt_ok. unfold sys_sbrk, with_arg. wp_step. eapply wp_argint; [exact HC | fold a; intros; lia | | fold a; intros; done].
  intros _ _. fold a. fold n. pose proof (i32_range (vword (memory m) ents a)) as Hn. fold n in Hn.
  wp_step. eapply wp_myproc; [exact HC|]. cbv zeta. unfold growproc. wp_step. wp_step. apply wp_onk_mk. eapply wp_the_proc; [apply HC|].
  wp_step. apply wp_onk_mk. eapply wp_pget; [apply HC|]. pose proof HC as [C1 C2 C3 C4]. unfold sbrk_result. cbv zeta.
  unfold INT_MIN, INT_MAX in Hn. unfold KERNBASE in C4.
  destruct (Z.gtb_spec n 0) as [Hpos|Hneg]; [|destruct (Z.ltb_spec n 0) as [Hlt|Hge]].
  - rewrite u32_id by lia. wp_step. wp_step. apply wp_onm_mk. destruct (decide (KERNBASE ≤ sz x + n)) as [Hbig|Hsmall].
    + unfold allocuvm. rewrite geb_true by lia. wp_finish. left. auto.
    + eapply wp_weaken; [apply (wp_allocuvm kend Hkend m (pgdir x) tabs ents l o (sz x) (sz x + n)); [done | lia | lia|]|].
      { intros w Hw1 Hw2. apply Hnone. unfold KERNBASE in Hsmall. lia. }
      intros z m' Hz. wp_step. assert (Hz2 : z = 0 ∨ z = sz x + n) by (destruct Hz as (? & ? & ? & _ & _ & _ & [[-> _]|[-> _]]); auto).
      destruct (Z.eqb_spec z 0) as [->|Hz0]; [wp_finish; right; left; split_and!; [lia | lia|]; exists m'; by left|].
      destruct Hz2 as [->| ->]; [done|]. wp_finish. apply wp_set_size. wp_finish. right. left. split_and!; [lia | lia|]. exists m'. by right.
  - wp_step. wp_step. apply wp_onm_mk. destruct (decide (sz x + n < 0)) as [Hz|Hz].
    + assert (Hu : u32 (sz x + n) = sz x + n + 2 ^ 32) by (unfold u32; rewrite <-(Z_mod_plus_full _ 1); apply Z.mod_small; lia).
      unfold deallocuvm. rewrite Hu, geb_true by lia. wp_finish. destruct (Z.eqb_spec (sz x) 0) as [H0|H0].
      * wp_finish. do 5 right. left. auto.
      * wp_finish. apply wp_set_size. wp_finish. do 6 right. split_and!; [done | done | lia | done | done].
    + rewrite u32_id by lia.
      destruct (deallocuvm_correct kend Hkend m (pgdir x) tabs ents l o (sz x) (sz x + n) C3) as (m' & ents' & l' & Hrun & Hcut);
        [lia | unfold KERNBASE; lia|].
      eapply wp_eq; [exact Hrun|]. rewrite Z.min_r by lia. wp_finish. destruct (Z.eqb_spec (sz x + n) 0) as [H0|H0].
      * wp_finish. do 4 right. left. split_and!; [done | done | done|]. exists m'. split; [done|]. exists ents', l'. by rewrite <-H0.
      * wp_finish. apply wp_set_size. wp_finish. do 3 right. left. split_and!; [done | lia | done|]. exists m'. split; [done|]. by exists ents', l'.
  - assert (n = 0) as Hn0 by lia. wp_finish. apply wp_set_size. wp_finish. right. right. left. auto.
Qed.
End sbrk.

(** ** Dispatch *)
Section dispatch.
Context {F : Type} `{FileOps F} `{Clock F}.
Context (kend kdata forkret_addr trapret_addr : Z) (uninit : bool) (resume : M (sys F) unit) (file_call : Z → option (M (sys F) Z)) (fuel : nat).
Abbreviation table := (syscalls kend kdata forkret_addr trapret_addr uninit resume file_call fuel).
Abbreviation call := (syscall kend kdata forkret_addr trapret_addr uninit resume file_call fuel).

(** The caller with a result in [eax]. *)
Definition answered (me : nat) (y : proc) (v : Z) (s : sys F) : sys F :=
  mksys (with_proc me (y <| tf ::= fun f => f <| eax := u32 v |> |>) (kern s)) (pages s) (rest s).

(** [syscall] runs the handler the number in [eax] selects, and no other,
    and puts its result into the caller's [eax] as it is when the handler
    returns; a stop of the handler is a stop of the call.  A number without a
    handler gives -1 and changes nothing else. *)
Theorem syscall_correct (s : sys F) (me : nat) (x : proc) :
  curproc (kern s) = Some me → procs (kern s) !! me = Some x →
  let num := i32 (eax (tf x)) in
  (∀ h v s' y, 0 < num < 31 → table num = Some h → h s = Ok v s' → curproc (kern s') = Some me → procs (kern s') !! me = Some y →
     call s = Ok tt (answered me y v s')) ∧
  (∀ h w s', 0 < num < 31 → table num = Some h → h s = Stop w s' → call s = Stop w s') ∧
  (¬ (0 < num < 31) ∨ table num = None → call s = Ok tt (answered me x (-1) s)).
Proof.
  intros Hcur Hx num. destruct s as [k m r]. cbn [kern] in *.
  assert (Hgo : ∀ (Q : unit → sys F → Prop) E, wp (match (if (num >? 0) && (num <? 31) then table num else None) with
    | Some h => v ← h; me ← onk the_proc; onk (pupd me (fun y => y <| tf ::= fun f => f <| eax := u32 v |> |>))
    | None => onk (pupd me (fun y => y <| tf ::= fun f => f <| eax := u32 (-1) |> |>))
    end) Q E (mksys k m r) → wp call Q E (mksys k m r)).
  { intros Q E Hw. unfold syscall. wp_step. apply wp_onk_mk. eapply wp_the_proc; [exact Hcur|]. wp_step. apply wp_onk_mk.
    eapply wp_pget; [exact Hx|]. exact Hw. }
  assert (Hin : 0 < num < 31 → (num >? 0) && (num <? 31) = true) by (intros; apply andb_true_iff; rewrite Z.gtb_lt, Z.ltb_lt; lia).
  split_and!.
  - intros h v s' y Hr Ht Hh Hc Hy. apply wpt_eq, Hgo. rewrite Hin, Ht by done. wp_step. eapply wp_eq; [exact Hh|]. destruct s' as [k' m' r'].
    wp_step. apply wp_onk_mk. eapply wp_the_proc; [exact Hc|]. apply wp_onk_mk. by eapply wp_pupd; [exact Hy|].
  - intros h w s' Hr Ht Hh. assert (Hw : wp call (fun _ _ => False) (fun w' s2 => w' = w ∧ s2 = s') (mksys k m r)).
    { apply Hgo. rewrite Hin, Ht by done. wp_step. unfold wp. by rewrite Hh. }
    apply wp_inv in Hw as [(? & ? & _ & [])|(w' & s2 & -> & -> & ->)]. done.
  - intros Hno. apply wpt_eq, Hgo. assert (Hb : (if (num >? 0) && (num <? 31) then table num else None) = None).
    { destruct (Z.gtb_spec num 0), (Z.ltb_spec num 31); cbn; try done. destruct Hno; [lia | done]. }
    rewrite Hb. apply wp_onk_mk. by eapply wp_pupd; [exact Hx|].
Qed.
End dispatch.

(** ** Calls of a process with one page *)
Lemma forking_caller : caller sample_end (kern forking) (pages forking) 0 forker space_tabs space_ents [space_page 0; space_page 1] [].
Proof. split; [reflexivity | reflexivity | exact space_uvm | by vm_compute]. Qed.

Lemma forking_there a n : 0 ≤ a → a + n ≤ 4096 → there (pages forking) space_ents a n.
Proof. intros Ha Hn i Hi. unfold vbyte. replace ((a + i) / 4096) with 0 by dlia. by eexists. Qed.

Lemma fetchint_correct_witness :
  (4096 < 4093 + 4 → fetchint 4093 forking = Ok None forking) ∧
  fetchint 4 forking = Ok (Some (i32 (vword (memory space) space_ents 4))) forking.
Proof.
  split; [apply (fetchint_correct sample_end _ _ (rest forking) 0 forker _ _ _ _ forking_caller 4093); lia|].
  apply (fetchint_correct sample_end _ _ (rest forking) 0 forker _ _ _ _ forking_caller 4); [lia | by vm_compute | apply forking_there; lia].
Defined.

Lemma argptr_correct_witness :
  let p := u32 (vword (memory space) space_ents 4) in
  ∃ v, argptr 0 100 forking = Ok v forking ∧
    (v = Some p ∧ 4 + 4 ≤ 4096 ∧ 0 ≤ 100 ∧ p < 4096 ∧ p + 100 ≤ 4096 ∨
     v = None ∧ ¬ (4 + 4 ≤ 4096 ∧ 0 ≤ 100 ∧ p < 4096 ∧ p + 100 ≤ 4096)).
Proof.
  apply (argptr_correct sample_end _ _ (rest forking) 0 forker _ _ _ _ forking_caller 0 100); [unfold INT_MAX; lia|].
  intros _. apply forking_there; by vm_compute.
Defined.

Lemma fetchstr_correct_witness :
  ∃ v, fetchstr 4000 forking = Ok v forking ∧
    ((∃ n, v = Some (4000, n) ∧ 0 ≤ n ∧ 4000 + n < 4096 ∧ vbyte (memory space) space_ents (4000 + n) = Some 0 ∧
       ∀ j, 0 ≤ j < n → vbyte (memory space) space_ents (4000 + j) ≠ Some 0) ∨
     (v = None ∧ ∀ j, 0 ≤ j → 4000 + j < 4096 → vbyte (memory space) space_ents (4000 + j) ≠ Some 0)).
Proof.
  apply (fetchstr_correct sample_end _ _ (rest forking) 0 forker _ _ _ _ forking_caller 4000); [lia|].
  apply forking_there; [lia | by vm_compute].
Defined.

(** The same process with a kernel stack, asking for its pid. *)
#[global] Instance ref_clock : Clock RefFiles.files := fun _ => 0.
Definition asker : proc := forker <| kstack := space_page 9 |> <| tf ::= fun f => f <| eax := 11 |> |>.
Definition asking : sys RefFiles.files := mksys (with_proc 0 asker (kern forking)) space (rest forking).

Lemma asking_caller : caller sample_end (kern asking) (pages asking) 0 asker space_tabs space_ents [space_page 0; space_page 1] [].
Proof. split; [reflexivity | reflexivity | exact space_uvm | by vm_compute]. Qed.

Lemma sys_sbrk_correct_witness :
  ∃ v s', sys_sbrk sample_end asking = Ok v s' ∧
    sbrk_result sample_end (kern asking) space (rest asking) 0 asker space_tabs space_ents [space_page 0; space_page 1] []
      (i32 (vword (memory space) space_ents 4)) v s'.
Proof.
  apply (sys_sbrk_correct sample_end sample_above (kern asking) space (rest asking) 0 asker space_tabs space_ents [space_page 0; space_page 1] [] asking_caller).
  - unfold calm, cli_ok, INT_MAX. cbn. intuition lia.
  - discriminate.
  - intros w Hw. change (rup (sz asker)) with 1 in Hw. unfold space_ents. rewrite lookup_singleton_ne by lia. reflexivity.
  - by vm_compute.
  - apply forking_there; by vm_compute.
Defined.

Lemma asking_getpid : sys_getpid asking = Ok 7 asking.
Proof. apply wpt_eq. unfold sys_getpid. wp_step. eapply wp_myproc; [exact asking_caller|]. by wp_step. Qed.

Lemma asking_number : i32 (eax (tf asker)) = 11.
Proof. reflexivity. Qed.

Lemma syscall_correct_witness :
  syscall sample_end 0 0 0 false (stop_with Switched) (fun _ => None) 0 asking = Ok tt (answered 0 asker 7 asking).
Proof.
  destruct (syscall_correct sample_end 0 0 0 false (stop_with Switched) (fun _ => None) 0 asking 0 asker (ca_cur _ _ _ _ _ _ _ _ _ asking_caller)
    (ca_me _ _ _ _ _ _ _ _ _ asking_caller)) as [Hcall _]. rewrite asking_number in Hcall.
  apply (Hcall sys_getpid 7 asking asker); [lia | reflexivity | exact asking_getpid | apply asking_caller | apply asking_caller].
Defined.
