(* ===== verification/Sleeplock.v ===== *)
(** * Long-term locks (sleeplock.c)

    The operations run on the kernel and one sleep lock.  [sleep_on] stands
    for [sleep(lk, &lk->lk)]: other threads run, and may change the lock. *)
From S2P Require Import Prelude Spinlock Proc Sleep.

Record sleeplock := mksleeplock {
  sl_locked : Z;
  sl_lk : spinlock;
  sl_name : string;
  sl_pid : Z
}.
#[export] Instance sleeplock_eta : EtaRecord sleeplock := fun l =>
  mksleeplock (sl_locked l) (sl_lk l) (sl_name l) (sl_pid l).

Definition initsleeplock (name : string) : sleeplock := mksleeplock 0 (initlock "sleep lock") name 0.

Abbreviation SL := (M (kstate * sleeplock)).
Definition on_kern {A} (m : K A) : SL A := zoom fst (fun k s => (k, s.2)) m.
Definition on_sl (f : sleeplock → sleeplock) : SL unit := modify (fun s => (s.1, f s.2)).
Definition with_slk {A} (m : M (cpu * spinlock) A) : SL A :=
  zoom (fun s => (this_cpu s.1, sl_lk s.2))
       (fun p s => (s.1 <| this_cpu := p.1 |>, s.2 <| sl_lk := p.2 |>)) m.

Fixpoint acquiresleep_loop (sleep_on : SL unit) (fuel : nat) : SL unit :=
  l ← gets (fun s => sl_locked s.2);
  if l =? 0 then mret tt
  else match fuel with
       | O => stop_with NoFuel
       | S fuel => sleep_on;; acquiresleep_loop sleep_on fuel
       end.

(** [fuel] bounds how often the caller sleeps. *)
Definition acquiresleep (sleep_on : SL unit) (fuel : nat) : SL unit :=
  with_slk acquire;;
  acquiresleep_loop sleep_on fuel;;
  on_sl (fun l => l <| sl_locked := 1 |>);;
  me ← on_kern the_proc; x ← on_kern (pget me);
  on_sl (fun l => l <| sl_pid := pid x |>);;
  with_slk release.

(** [ch] is the address of the lock. *)
Definition releasesleep (ch : chan_t) : SL unit :=
  with_slk acquire;;
  on_sl (fun l => l <| sl_locked := 0 |>);;
  on_sl (fun l => l <| sl_pid := 0 |>);;
  on_kern (wakeup ch);;
  with_slk release.

Definition holdingsleep : SL Z :=
  with_slk acquire;;
  r ← gets (fun s => sl_locked s.2);
  with_slk release;;
  mret r.

(** ** Behaviour *)

(** A thread with no spin lock taken that may nest two. *)
Definition kready (k : kstate) : Prop := kern_ok k ∧ ncli (this_cpu k) + 2 < INT_MAX.

(** The spin lock inside is free whenever no thread is in an operation. *)
Definition sl_idle (l : sleeplock) : Prop := free (sl_lk l).

Lemma wp_slk_acquire (Q : unit → kstate * sleeplock → Prop) E k l :
  kready k → sl_idle l →
  (∀ k', kern_ok k' → this_cpu k' = pushed (this_cpu k) → other_locks k' = other_locks k →
     Q tt (k', l <| sl_lk := locked_by (this_cpu k) (sl_lk l) |>)) →
  wp (with_slk acquire) Q E (k, l).
Proof.
  intros [[Hl [Hc Hn] Hp Hcur] Hn2] Hf HQ. eapply wp_zoom_acquire; [exact Hc | exact Hf|].
  apply HQ; [|done..]. split; [done | | done | done].
  split; [by apply cli_ok_pushed | cbn -[INT_MAX]; lia].
Qed.

Lemma wp_slk_release c lk (Q : unit → kstate * sleeplock → Prop) E k l :
  calm c → ncli c + 2 < INT_MAX → kern_ok k → this_cpu k = pushed c → sl_lk l = locked_by c lk → free lk →
  (∀ k', kready k' → other_locks k' = other_locks k → Q tt (k', l <| sl_lk := lk |>)) →
  wp (with_slk release) Q E (k, l).
Proof.
  intros Hc Hn2 [Hl Hcc Hp Hcur] Hcpu Hlk Hf HQ.
  eapply (wp_zoom_release _ _ c lk); [done | cbn; by rewrite Hcpu, Hlk|].
  rewrite unlocked_free by done. apply HQ; [|done]. split; [|cbn -[INT_MAX]; lia].
  split; [done | by apply calm_bracket | done | done].
Qed.

(** [acquiresleep] of a free lock takes it in the name of this process. *)
Lemma acquiresleep_free sleep_on fuel k l (Q : unit → kstate * sleeplock → Prop) E :
  kready k → sl_idle l → sl_locked l = 0 →
  (∀ k' p, kready k' → other_locks k' = other_locks k → Q tt (k', mksleeplock 1 (sl_lk l) (sl_name l) p)) →
  wp (acquiresleep sleep_on fuel) Q E (k, l).
Proof.
  intros Hk Hf H0 HQ. pose proof Hk as [[_ Hc _ _] Hn2]. unfold acquiresleep, on_sl. wp_step.
  apply wp_slk_acquire; [done..|]. intros k1 Hk1 Hcpu Ho. wp_step.
  assert (Hloop : acquiresleep_loop sleep_on fuel (k1, l <| sl_lk := locked_by (this_cpu k) (sl_lk l) |>)
    = Ok tt (k1, l <| sl_lk := locked_by (this_cpu k) (sl_lk l) |>)).
  { destruct fuel; cbn [acquiresleep_loop]; m_unfold; cbn; by rewrite H0. }
  eapply wp_eq; [exact Hloop|]. destruct Hk1 as [Hl1 Hc1 Hp1 (me & x & Hcur & Hx)] eqn:E1. clear E1.
  do 3 wp_step. apply wp_zoom. eapply wp_the_proc; [done|]. wp_step. apply wp_zoom. eapply wp_pget; [done|].
  do 2 wp_step. eapply (wp_slk_release (this_cpu k) (sl_lk l)); [done | done | by split; eauto | done | done | done|].
  intros k2 Hk2 Ho2. cbn. apply HQ; [done|]. by rewrite Ho2.
Qed.

Lemma releasesleep_held ch k l (Q : unit → kstate * sleeplock → Prop) E :
  kready k → sl_idle l →
  (∀ k', kready k' → other_locks k' = other_locks k → Q tt (k', mksleeplock 0 (sl_lk l) (sl_name l) 0)) →
  wp (releasesleep ch) Q E (k, l).
Proof.
  intros Hk Hf HQ. pose proof Hk as [[_ Hc _ _] Hn2]. unfold releasesleep, on_sl. wp_step.
  apply wp_slk_acquire; [done..|]. intros k1 Hk1 Hcpu Ho. do 5 wp_step. apply wp_zoom.
  apply wakeup_kern; [done|]. intros k2 Hk2 Ho2 Hcpu2. cbn [fst snd] in *.
  eapply (wp_slk_release (this_cpu k) (sl_lk l)); [done | done | done | | done | done|].
  - rewrite Hcpu2, Hcpu. destruct Hc as [Hcc Hn].
    apply popped_pushed_nested; [by apply cli_ok_pushed|]. destruct Hcc. cbn. lia.
  - intros k3 Hk3 Ho3. cbn. apply HQ; [done|]. congruence.
Qed.

Lemma holdingsleep_spec k l (Q : Z → kstate * sleeplock → Prop) E :
  kready k → sl_idle l →
  (∀ k', kready k' → other_locks k' = other_locks k → Q (sl_locked l) (k', l)) →
  wp holdingsleep Q E (k, l).
Proof.
  intros Hk Hf HQ. pose proof Hk as [[_ Hc _ _] Hn2]. unfold holdingsleep. wp_step.
  apply wp_slk_acquire; [done..|]. intros k1 Hk1 Hcpu Ho. do 3 wp_step.
  eapply (wp_slk_release (this_cpu k) (sl_lk l)); [done | done | done | done | done | done|].
  intros k2 Hk2 Ho2. wp_step. replace (_ <| sl_lk := sl_lk l |>) with l by by destruct l.
  apply HQ; [done | congruence].
Qed.
