(* ===== verification/Pipe.v ===== *)
(** * Pipes (pipe.c)

    A pipe is a ring of 512 bytes with two free-running 32-bit counters.  The
    parts of [pipewrite] and [piperead] that run with the lock held are
    [write_loop] and [read_copy]; [sleep_nread] and [sleep_nwrite] stand for
    the calls of [sleep], during which other threads use the pipe.  The
    theorems say that the ring is a first-in first-out queue for any
    interleaving of readers and writers, across the wrap of the counters. *)
From S2P Require Import Prelude Spinlock Proc Sleep Bytes.

Definition PIPESIZE : Z := 512.

Record pipe := mkpipe {
  data : list Z;
  nread : Z;          (* uint *)
  nwrite : Z;         (* uint *)
  readopen : Z;
  writeopen : Z
}.
#[export] Instance pipe_eta : EtaRecord pipe := fun p =>
  mkpipe (data p) (nread p) (nwrite p) (readopen p) (writeopen p).

(** The kernel and one pipe; [p->lock] is one of its other locks. *)
Record pst := mkpst { pk : kstate; pp : pipe }.
#[export] Instance pst_eta : EtaRecord pst := fun s => mkpst (pk s) (pp s).

Abbreviation PM := (M pst).
Definition inPK {A} (m : K A) : PM A := zoom pk (fun k s => s <| pk := k |>) m.
Definition on_pipe (f : pipe → pipe) : PM unit := modify (fun s => s <| pp ::= f |>).

(** Where a critical section of [pipewrite] ends: all bytes stored, the error
    return, or the call of [sleep]; with the bytes still to write. *)
Inductive wres := WDone | WFail (rest : list Z) | WBlock (rest : list Z).
Inductive rres := RReady | RFail | RBlock.

Section code.
(** [p->lock], [&p->nread] and [&p->nwrite]. *)
Context (plock : nat) (ch_nread ch_nwrite : chan_t).

(** [proc->killed] *)
Definition proc_killed : PM bool :=
  me ← inPK the_proc; x ← inPK (pget me); mret (negb (killed x =? 0)).

Definition put_byte (b : Z) : PM unit :=
  p ← gets pp;
  d ← deref (array_set (data p) (nwrite p mod PIPESIZE) b);
  on_pipe (fun p => p <| nwrite := u32 (nwrite p + 1) |> <| data := d |>).

Fixpoint write_loop (l : list Z) : PM wres :=
  match l with
  | [] => mret WDone
  | b :: l' =>
      p ← gets pp;
      if nwrite p =? u32 (nread p + PIPESIZE) then
        dead ← (if readopen p =? 0 then mret true else proc_killed);
        if (dead : bool) then mret (WFail l)
        else inPK (wakeup ch_nread);; mret (WBlock l)
      else put_byte b;; write_loop l'
  end.

Definition read_wait : PM rres :=
  p ← gets pp;
  if (nread p =? nwrite p) && negb (writeopen p =? 0) then
    dead ← proc_killed;
    if (dead : bool) then mret RFail else mret RBlock
  else mret RReady.

Definition get_byte : PM Z :=
  p ← gets pp;
  b ← deref (array_get (data p) (nread p mod PIPESIZE));
  on_pipe (fun p => p <| nread := u32 (nread p + 1) |>);;
  mret b.

Fixpoint read_copy (n : nat) : PM (list Z) :=
  match n with
  | O => mret []
  | S n =>
      p ← gets pp;
      if nread p =? nwrite p then mret []
      else b ← get_byte; l ← read_copy n; mret (b :: l)
  end.

Definition acquire_pipe : PM unit := inPK (with_lock (lk_other plock) acquire).
Definition release_pipe : PM unit := inPK (with_lock (lk_other plock) release).

Context (sleep_nread sleep_nwrite : PM unit).

(** [fuel] bounds the number of times the caller sleeps. *)
Fixpoint pipewrite_loop (fuel : nat) (n : Z) (l : list Z) : PM Z :=
  r ← write_loop l;
  match r, fuel with
  | WDone, _ => inPK (wakeup ch_nread);; release_pipe;; mret n
  | WFail _, _ => release_pipe;; mret (-1)
  | WBlock rest, S fuel => sleep_nwrite;; pipewrite_loop fuel n rest
  | WBlock _, O => stop_with NoFuel
  end.
Definition pipewrite (fuel : nat) (addr : list Z) : PM Z :=
  acquire_pipe;; pipewrite_loop fuel (Z.of_nat (length addr)) addr.

(** The result is the return value and the bytes stored at [addr]. *)
Fixpoint piperead_loop (fuel : nat) (n : Z) : PM (Z * list Z) :=
  r ← read_wait;
  match r, fuel with
  | RFail, _ => release_pipe;; mret (-1, [])
  | RBlock, S fuel => sleep_nread;; piperead_loop fuel n
  | RBlock, O => stop_with NoFuel
  | RReady, _ =>
      l ← read_copy (Z.to_nat n);
      inPK (wakeup ch_nwrite);; release_pipe;; mret (Z.of_nat (length l), l)
  end.
Definition piperead (fuel : nat) (n : Z) : PM (Z * list Z) :=
  acquire_pipe;; piperead_loop fuel n.

(** [kfree_pipe] is [kfree((char* )p)]. *)
Definition pipeclose (kfree_pipe : PM unit) (writable : bool) : PM unit :=
  acquire_pipe;;
  (if writable then
     on_pipe (fun p => p <| writeopen := 0 |>);; inPK (wakeup ch_nread)
   else
     on_pipe (fun p => p <| readopen := 0 |>);; inPK (wakeup ch_nwrite));;
  p ← gets pp;
  if (readopen p =? 0) && (writeopen p =? 0) then release_pipe;; kfree_pipe
  else release_pipe.
End code.

(** ** The ring as a queue *)
Definition count (p : pipe) : Z := u32 (nwrite p - nread p).
Definition ring_at (p : pipe) (i : Z) : Z := default 0 (array_get (data p) ((nread p + i) mod PIPESIZE)).
Definition contents (p : pipe) : list Z := ring_at p <$> seqZ 0 (count p).

Record wf_pipe (p : pipe) : Prop := {
  pw_data : length (data p) = 512%nat;
  pw_nread : 0 ≤ nread p < 2 ^ 32;
  pw_nwrite : 0 ≤ nwrite p < 2 ^ 32;
  pw_count : count p ≤ 512
}.

Lemma count_nonneg p : 0 ≤ count p.
Proof. apply u32_range. Qed.

Lemma length_contents p : Z.of_nat (length (contents p)) = count p.
Proof. unfold contents. rewrite length_fmap, length_seqZ. pose proof (count_nonneg p). lia. Qed.

Lemma full_test p : wf_pipe p → (nwrite p =? u32 (nread p + PIPESIZE)) = (count p =? 512).
Proof.
  intros [_ Hr Hw Hc]. unfold count, u32, PIPESIZE in *.
  destruct (Z.eqb_spec (nwrite p) ((nread p + 512) mod 2 ^ 32)),
    (Z.eqb_spec ((nwrite p - nread p) mod 2 ^ 32) 512); try done; exfalso; dlia.
Qed.

Lemma empty_test p : wf_pipe p → (nread p =? nwrite p) = (count p =? 0).
Proof.
  intros [_ Hr Hw Hc]. unfold count, u32 in *.
  destruct (Z.eqb_spec (nread p) (nwrite p)), (Z.eqb_spec ((nwrite p - nread p) mod 2 ^ 32) 0);
    try done; exfalso; dlia.
Qed.

(** The position of the next byte, whether or not the counters have wrapped:
    512 divides their range. *)
Lemma mod_u32 z : u32 z mod 512 = z mod 512.
Proof.
  unfold u32. change (2 ^ 32) with (512 * 2 ^ 23). rewrite Z.rem_mul_r by lia.
  by rewrite Z.add_mod, Z.mul_comm, Z.mod_mul, Z.add_0_r, !Z.mod_mod by lia.
Qed.

Lemma nwrite_slot p : wf_pipe p → nwrite p mod 512 = (nread p + count p) mod 512.
Proof.
  intros [_ Hr Hw Hc]. rewrite <-(mod_u32 (nread p + count p)). f_equal. unfold count, u32.
  rewrite Z.add_mod_idemp_r by lia. replace (nread p + (nwrite p - nread p)) with (nwrite p) by lia.
  by rewrite Z.mod_small.
Qed.

Definition pushed_byte (p : pipe) (b : Z) : pipe :=
  p <| nwrite := u32 (nwrite p + 1) |> <| data := <[Z.to_nat (nwrite p mod 512) := b]> (data p) |>.
Definition popped_byte (p : pipe) : pipe := p <| nread := u32 (nread p + 1) |>.

Lemma count_pushed p b : wf_pipe p → count p < 512 → count (pushed_byte p b) = count p + 1.
Proof. intros [_ Hr Hw Hc] Hlt. unfold count, pushed_byte, u32 in *. cbn. dlia. Qed.

Lemma count_popped p : wf_pipe p → 0 < count p → count (popped_byte p) = count p - 1.
Proof. intros [_ Hr Hw Hc] Hlt. unfold count, popped_byte, u32 in *. cbn. dlia. Qed.

Lemma wf_pushed p b : wf_pipe p → count p < 512 → wf_pipe (pushed_byte p b).
Proof.
  intros Hwf Hlt. pose proof (count_pushed p b Hwf Hlt). destruct Hwf as [Hd Hr Hw Hc].
  split; [cbn; by rewrite length_insert | done | apply u32_range | lia].
Qed.

Lemma wf_popped p : wf_pipe p → 0 < count p → wf_pipe (popped_byte p).
Proof.
  intros Hwf Hlt. pose proof (count_popped p Hwf Hlt). destruct Hwf as [Hd Hr Hw Hc].
  split; [done | apply u32_range | done | lia].
Qed.

Lemma contents_pushed p b :
  wf_pipe p → count p < 512 → contents (pushed_byte p b) = contents p ++ [b].
Proof.
  intros Hwf Hlt. pose proof (count_nonneg p) as H0. unfold contents.
  rewrite count_pushed, seqZ_snoc, fmap_app by done. cbn [fmap list_fmap]. f_equal.
  - apply list_fmap_ext. intros _ i Hi%list_elem_of_lookup_2%elem_of_seqZ.
    unfold ring_at, pushed_byte, array_get, PIPESIZE. cbn. rewrite nwrite_slot by done.
    destruct (Z.leb_spec 0 ((nread p + i) mod 512)); [|done].
    rewrite list_lookup_insert_ne; [done|]. intros Heq. apply Z2Nat.inj in Heq; dlia.
  - unfold ring_at, pushed_byte, array_get, PIPESIZE. cbn. rewrite nwrite_slot by done.
    replace (nread p + (0 + count p)) with (nread p + count p) by lia.
    destruct (Z.leb_spec 0 ((nread p + count p) mod 512)); [|dlia].
    rewrite list_lookup_insert_eq; [done|]. rewrite (pw_data _ Hwf). dlia.
Qed.

Lemma contents_popped p :
  wf_pipe p → 0 < count p → contents p = ring_at p 0 :: contents (popped_byte p).
Proof.
  intros Hwf Hlt. unfold contents. rewrite count_popped, (seqZ_cons 0) by done. cbn [fmap list_fmap].
  f_equal. replace (Z.pred (count p)) with (count p - 1) by lia.
  rewrite <-(fmap_add_seqZ 1 0), <-list_fmap_compose. apply list_fmap_ext. intros _ i _.
  unfold ring_at, popped_byte, PIPESIZE. cbn. do 2 f_equal.
  rewrite <-(Z.add_mod_idemp_l (u32 _)), mod_u32, Z.add_mod_idemp_l by lia. f_equal. lia.
Qed.

(** ** Critical sections *)
Section sections.
Context (plock : nat) (ch_nread ch_nwrite : chan_t).

Lemma wp_wakeup ch (Q : unit → pst → Prop) E s :
  kern_ok (pk s) →
  (∀ k', kern_ok k' → other_locks k' = other_locks (pk s) →
     this_cpu k' = popped (pushed (this_cpu (pk s))) → Q tt (s <| pk := k' |>)) →
  wp (inPK (wakeup ch)) Q E s.
Proof. intros Hk HQ. apply wp_zoom. by apply wakeup_kern. Qed.

Lemma wp_killed (Q : bool → pst → Prop) E s :
  kern_ok (pk s) → (∀ b, Q b s) → wp proc_killed Q E s.
Proof.
  intros [_ _ _ (me & x & Hcur & Hx)] HQ. unfold proc_killed.
  wp_step. apply wp_zoom. eapply wp_the_proc; [done|]. wp_step. apply wp_zoom.
  eapply wp_pget; [done|]. wp_step. destruct s. apply HQ.
Qed.

Lemma put_byte_eq b s :
  wf_pipe (pp s) → put_byte b s = Ok tt (s <| pp ::= fun p => pushed_byte p b |>).
Proof.
  intros Hwf. apply wpt_eq. unfold put_byte, on_pipe. do 3 wp_step. eapply wp_deref.
  - apply array_set_in. rewrite (pw_data _ Hwf). unfold PIPESIZE. dlia.
  - by wp_step.
Qed.

Lemma get_byte_eq s :
  wf_pipe (pp s) → get_byte s = Ok (ring_at (pp s) 0) (s <| pp ::= popped_byte |>).
Proof.
  intros Hwf. apply wpt_eq. unfold get_byte, on_pipe. do 3 wp_step.
  destruct (array_get_in (data (pp s)) (nread (pp s) mod PIPESIZE)) as [b Hb].
  { rewrite (pw_data _ Hwf). unfold PIPESIZE. dlia. }
  eapply wp_deref; [done|]. do 2 wp_step. wp_step. split; [|done].
  unfold ring_at. by rewrite Z.add_0_r, Hb.
Qed.

Definition unwritten (r : wres) : list Z :=
  match r with WDone => [] | WFail l | WBlock l => l end.

Definition wrote (l : list Z) (s : pst) (r : wres) (s' : pst) : Prop :=
  ∃ acc, l = acc ++ unwritten r ∧
    contents (pp s') = contents (pp s) ++ acc ∧ wf_pipe (pp s') ∧ kern_ok (pk s') ∧
    other_locks (pk s') = other_locks (pk s) ∧
    (this_cpu (pk s') = this_cpu (pk s) ∨ this_cpu (pk s') = popped (pushed (this_cpu (pk s)))) ∧
    (r = WDone → pk s' = pk s) ∧ (r ≠ WDone → count (pp s') = 512).

(** A section of a writer appends a prefix of its bytes, and leaves the rest
    only when the ring is full. *)
Lemma write_loop_spec l s :
  wf_pipe (pp s) → kern_ok (pk s) →
  wpt (write_loop ch_nread l) (wrote l s) s.
Proof.
  revert s. induction l as [|b l IH]; intros s Hwf Hk; cbn [write_loop].
  { wp_step. exists []. split_and!; auto; by rewrite app_nil_r || congruence. }
  do 2 wp_step. rewrite full_test by done. destruct (Z.eqb_spec (count (pp s)) 512) as [Hf|Hf].
  - wp_step.
    assert (Hend : ∀ dead : bool, wpt (if dead then mret (WFail (b :: l))
        else inPK (wakeup ch_nread);; mret (WBlock (b :: l))) (wrote (b :: l) s) s).
    { intros [].
      - wp_step. exists []. split_and!; auto; by rewrite app_nil_r || congruence.
      - wp_step. apply wp_wakeup; [done|]. intros k' Hk' Ho Hcpu. wp_step. exists [].
        split_and!; auto; by rewrite app_nil_r || congruence. }
    destruct (readopen (pp s) =? 0); [apply wp_ret, (Hend true) | apply wp_killed; [done | exact Hend]].
  - assert (Hlt : count (pp s) < 512) by (pose proof (pw_count _ Hwf); lia).
    wp_step. eapply wp_eq; [by apply put_byte_eq|].
    eapply wp_weaken; [apply IH; [by apply wf_pushed | done]|].
    intros r s' (acc & -> & Hc & H). exists (b :: acc). split; [done|]. split; [|exact H].
    rewrite Hc. cbn. rewrite contents_pushed by done. by rewrite <-app_assoc.
Qed.

(** A section of a reader removes the oldest bytes. *)
Lemma read_copy_spec n s :
  wf_pipe (pp s) →
  wpt (read_copy n) (fun l s' => l = take n (contents (pp s)) ∧
    contents (pp s') = drop n (contents (pp s)) ∧ wf_pipe (pp s') ∧ pk s' = pk s) s.
Proof.
  revert s. induction n as [|n IH]; intros s Hwf; cbn [read_copy]; [by wp_step|].
  do 2 wp_step. rewrite empty_test by done. pose proof (length_contents (pp s)) as Hl.
  destruct (Z.eqb_spec (count (pp s)) 0) as [He|He].
  - wp_step. rewrite (nil_length_inv (contents (pp s))) by lia. by rewrite take_nil, drop_nil.
  - assert (Hp : 0 < count (pp s)) by (pose proof (count_nonneg (pp s)); lia).
    wp_step. eapply wp_eq; [by apply get_byte_eq|]. wp_step.
    eapply wp_weaken; [apply IH; by apply wf_popped|].
    intros l s' (-> & Hc & Hwf' & Hk). wp_step. cbn in Hc.
    rewrite (contents_popped (pp s)) by done. done.
Qed.
End sections.

(** ** Any interleaving

    A system state is a pipe with the bytes its writers have stored and its
    readers have fetched so far.  Each step is a critical section of some
    thread, the closing of an end, or anything else the kernel does. *)
Inductive pipe_step (ch_nread : chan_t) : pst * list Z * list Z → pst * list Z * list Z → Prop :=
  | ps_write s s' l acc r sent recv :
      write_loop ch_nread l s = Ok r s' → l = acc ++ unwritten r →
      pipe_step ch_nread (s, sent, recv) (s', sent ++ acc, recv)
  | ps_read s s' n l sent recv :
      read_copy n s = Ok l s' →
      pipe_step ch_nread (s, sent, recv) (s', sent, recv ++ l)
  | ps_close s (writable : bool) sent recv :
      pipe_step ch_nread (s, sent, recv)
        (s <| pp ::= fun p => if writable then p <| writeopen := 0 |> else p <| readopen := 0 |> |>, sent, recv)
  | ps_kernel s k' sent recv :
      kern_ok k' → pipe_step ch_nread (s, sent, recv) (s <| pk := k' |>, sent, recv).

Definition fifo (x : pst * list Z * list Z) : Prop :=
  let '(s, sent, recv) := x in
  wf_pipe (pp s) ∧ kern_ok (pk s) ∧ sent = recv ++ contents (pp s).

Lemma fifo_step ch x y : fifo x → pipe_step ch x y → fifo y.
Proof.
  intros Hx Hs. destruct Hs as [s s' l acc r sent recv Hr Hl|s s' n l sent recv Hr|s w sent recv|s k' sent recv Hk'];
    destruct Hx as (Hwf & Hk & ->).
  - pose proof (wp_ok _ _ _ _ _ _ Hr (write_loop_spec ch l s Hwf Hk)) as (acc' & Hl' & Hc & Hwf' & Hk' & _).
    rewrite Hl in Hl'. apply app_inv_tail in Hl' as <-. split; [done|]. split; [done|].
    by rewrite Hc, app_assoc.
  - pose proof (wp_ok _ _ _ _ _ _ Hr (read_copy_spec n s Hwf)) as (-> & Hc & Hwf' & Hk').
    split; [done|]. split; [by rewrite Hk'|]. by rewrite Hc, <-app_assoc, take_drop.
  - split; [|split; [done|]]; destruct w; try done; destruct Hwf; by split.
  - done.
Qed.

(** C27: A pipe is a bounded FIFO queue under every interleaving: in every
    reachable state the bytes stored by all writers, in order, are the bytes
    fetched by all readers followed by at most 512 bytes still in the ring,
    although both counters wrap around at 2^32; every further section of a
    writer or a reader returns; and a writer leaves bytes unwritten only when
    the ring is full. *)
Theorem pipe_fifo (ch : chan_t) (s0 s : pst) (sent recv : list Z) :
  wf_pipe (pp s0) → nread (pp s0) = nwrite (pp s0) → kern_ok (pk s0) →
  rtc (pipe_step ch) (s0, [], []) (s, sent, recv) →
  sent = recv ++ contents (pp s) ∧ (length (contents (pp s)) ≤ 512)%nat ∧
  (∀ n, ∃ s', read_copy n s = Ok (take n (contents (pp s))) s') ∧
  (∀ l, ∃ r s', write_loop ch l s = Ok r s' ∧
     (r ≠ WDone → length (contents (pp s')) = 512%nat)).
Proof.
  intros Hwf0 He Hk0 Hr.
  assert (fifo (s, sent, recv)) as (Hwf & Hk & Hs).
  { eapply (rtc_invariant (pipe_step ch) fifo); [intros x y; apply fifo_step | exact Hr|].
    split; [done|]. split; [done|]. pose proof (length_contents (pp s0)) as Hl.
    assert (count (pp s0) = 0) by (apply Z.eqb_eq; rewrite <-empty_test by done; by apply Z.eqb_eq).
    by rewrite (nil_length_inv (contents (pp s0))) by lia. }
  split; [done|]. pose proof (length_contents (pp s)) as Hl. pose proof (pw_count _ Hwf).
  split; [lia|]. split.
  - intros n. destruct (proj1 (wpt_ok _ _ _) (read_copy_spec n s Hwf)) as (l & s' & Hl' & -> & _). eauto.
  - intros l. destruct (proj1 (wpt_ok _ _ _) (write_loop_spec ch l s Hwf Hk))
      as (r & s' & Hw & acc & _ & _ & _ & _ & _ & _ & _ & Hfull).
    exists r, s'. split; [done|]. intros Hn. pose proof (length_contents (pp s')). specialize (Hfull Hn). lia.
Qed.

(** *** A pipe whose counters are about to wrap *)
Definition sample_pipe : pst :=
  mkpst (boot_state <| curproc := Some 0%nat |> <| other_locks := [initlock "pipe"] |>)
    (mkpipe (replicate 512 0) (2 ^ 32 - 1) (2 ^ 32 - 1) 1 1).

Lemma sample_pipe_ok : wf_pipe (pp sample_pipe) ∧ kern_ok (pk sample_pipe).
Proof.
  split.
  - split; [done | cbn; lia | cbn; lia|]. unfold count, u32. cbn. done.
  - split; [done | unfold calm, cli_ok, INT_MAX; cbn; intuition lia | done|].
    exists 0%nat, proc0. done.
Qed.

Lemma pipe_fifo_witness :
  ∃ s sent recv, rtc (pipe_step (ch_addr 1)) (sample_pipe, [], []) (s, sent, recv) ∧
    sent = [10; 20; 30] ∧ recv = [10; 20] ∧ sent = recv ++ contents (pp s).
Proof.
  destruct sample_pipe_ok as [Hwf Hk].
  assert (Hsteps : ∃ s, rtc (pipe_step (ch_addr 1)) (sample_pipe, [], []) (s, [10; 20; 30], [10; 20])).
  { eexists. eapply rtc_l; [eapply (ps_write _ _ _ [10; 20; 30] [10; 20; 30] WDone);
      [vm_compute; reflexivity | reflexivity]|].
    eapply rtc_l; [eapply (ps_read _ _ _ 2 [10; 20]); vm_compute; reflexivity|]. apply rtc_refl. }
  destruct Hsteps as [s Hs]. exists s, [10; 20; 30], [10; 20]. split; [exact Hs|].
  split; [reflexivity|]. split; [reflexivity|].
  apply (pipe_fifo (ch_addr 1) sample_pipe s [10; 20; 30] [10; 20] Hwf eq_refl Hk Hs).
Defined.

(** ** Whole calls *)
Section calls.
Context (plock : nat) (ch_nread ch_nwrite : chan_t) (sleep_nread sleep_nwrite : PM unit).

(** The caller holds no lock of this pipe and may nest two brackets. *)
Record idle (s : pst) : Prop := {
  id_wf : wf_pipe (pp s);
  id_kern : kern_ok (pk s);
  id_nest : ncli (this_cpu (pk s)) + 2 < INT_MAX;
  id_lock : lock_free (lk_other plock) (pk s)
}.

(** In the critical section entered from [s]. *)
Record inside (s s' : pst) : Prop := {
  in_kern : kern_ok (pk s');
  in_cpu : this_cpu (pk s') = pushed (this_cpu (pk s));
  in_lk : ∃ lk, lock_of (lk_other plock) (pk s') = Some (locked_by (this_cpu (pk s)) lk)
}.

Lemma wp_acquire_pipe (Q : unit → pst → Prop) E s :
  idle s → (∀ s', inside s s' → pp s' = pp s → Q tt s') → wp (acquire_pipe plock) Q E s.
Proof.
  intros [Hwf [Hl [Hc Hn] Hp Hcur] Hn2 (lk & Hlk & Hf)] HQ. apply wp_zoom.
  eapply wp_with_lock; [exact Hlk | by apply acquire_free|]. fold (locked_by (this_cpu (pk s)) lk).
  apply HQ; [|done]. split; [|done|].
  - split; [done | | done | done]. split; [by apply cli_ok_pushed|]. cbn -[INT_MAX]. lia.
  - exists lk. by eapply (lock_of_put (lk_other plock)).
Qed.

Lemma wp_release_pipe s0 (Q : unit → pst → Prop) E s :
  idle s0 → inside s0 s → wf_pipe (pp s) → (∀ s', idle s' → pp s' = pp s → Q tt s') →
  wp (release_pipe plock) Q E s.
Proof.
  intros [_ [_ [Hc Hn] _ _] Hn2 _] [[Hl Hcc Hp Hcur] Hcpu (lk & Hlk)] Hwf HQ. apply wp_zoom.
  eapply wp_with_lock; [exact Hlk | rewrite Hcpu; apply release_held|].
  - by apply cli_ok_pushed.
  - destruct Hc. cbn. lia.
  - by apply holding_locked_by.
  - apply HQ; [|done]. split; [done | | |].
    + split; [done | by apply calm_bracket | done | done].
    + cbn -[INT_MAX]. lia.
    + eexists. split; [by eapply (lock_of_put (lk_other plock)) | done].
Qed.

Lemma wp_wakeup_inside ch s0 (Q : unit → pst → Prop) E s :
  idle s0 → inside s0 s → (∀ s', inside s0 s' → pp s' = pp s → Q tt s') →
  wp (inPK (wakeup ch)) Q E s.
Proof.
  intros Hi [Hk Hcpu Hlk] HQ. apply wp_wakeup; [done|]. intros k' Hk' Ho Hc. apply HQ; [|done].
  split; [done | |].
  - cbn. rewrite Hc, Hcpu. destruct Hi as [_ [_ [Hcc Hn] _ _] _ _].
    apply popped_pushed_nested; [by apply cli_ok_pushed|]. destruct Hcc. cbn. lia.
  - cbn. rewrite Ho. exact Hlk.
Qed.

(** A write for which there is room never sleeps. *)
Lemma pipewrite_room fuel addr s :
  idle s → (length (contents (pp s)) + length addr ≤ 512)%nat →
  wpt (pipewrite plock ch_nread sleep_nwrite fuel addr) (fun v s' => v = Z.of_nat (length addr) ∧
    idle s' ∧ contents (pp s') = contents (pp s) ++ addr) s.
Proof.
  intros Hi Hroom. unfold pipewrite. wp_step. apply wp_acquire_pipe; [done|]. intros s1 Hin Hp1.
  pose proof (id_wf _ Hi) as Hwf. rewrite <-Hp1 in Hwf, Hroom.
  assert (Hloop : wpt (write_loop ch_nread addr) (fun r s' => r = WDone ∧ inside s s' ∧
    wf_pipe (pp s') ∧ contents (pp s') = contents (pp s1) ++ addr) s1).
  { pose proof Hwf as Hwf1. clear Hp1. revert s1 Hin Hroom Hwf Hwf1.
    induction addr as [|b l IH]; intros s1 Hin Hroom Hwf _; cbn [write_loop].
    { wp_step. by rewrite app_nil_r. }
    pose proof (length_contents (pp s1)) as Hlc. cbn in Hroom.
    do 2 wp_step. rewrite full_test by done. rewrite (proj2 (Z.eqb_neq _ _)) by lia.
    wp_step. eapply wp_eq; [by apply put_byte_eq|].
    assert (Hlt : count (pp s1) < 512) by lia.
    eapply wp_weaken; [apply IH; [by destruct Hin; split | | by apply wf_pushed..]|].
    - cbn. rewrite contents_pushed, length_app by done. cbn. lia.
    - intros r s' (-> & Hin' & Hwf' & Hc). split; [done|]. split; [done|]. split; [done|].
      rewrite Hc. cbn. rewrite contents_pushed by done. by rewrite <-app_assoc. }
  assert (Hrest : wpt (pipewrite_loop plock ch_nread sleep_nwrite fuel (Z.of_nat (length addr)) addr)
    (fun v s' => v = Z.of_nat (length addr) ∧ idle s' ∧ contents (pp s') = contents (pp s) ++ addr) s1);
    [|done].
  destruct fuel; cbn [pipewrite_loop]; wp_step; (eapply wp_weaken; [exact Hloop|]);
    intros r s2 (-> & Hin2 & Hwf2 & Hc2); cbv beta iota; wp_step; (eapply wp_wakeup_inside; [exact Hi | done|]);
    intros s3 Hin3 Hp3; wp_step; (eapply wp_release_pipe; [exact Hi | done | by rewrite Hp3|]);
    intros s4 Hi4 Hp4; wp_step; (split; [done|]; split; [done|]); by rewrite Hp4, Hp3, Hc2, Hp1.
Qed.

(** A read that finds bytes, or the end of the stream, never sleeps. *)
Lemma piperead_ready fuel n s :
  idle s → contents (pp s) ≠ [] ∨ writeopen (pp s) = 0 →
  wpt (piperead plock ch_nwrite sleep_nread fuel n) (fun v s' =>
    v.2 = take (Z.to_nat n) (contents (pp s)) ∧ v.1 = Z.of_nat (length v.2) ∧
    idle s' ∧ contents (pp s') = drop (Z.to_nat n) (contents (pp s))) s.
Proof.
  intros Hi Hrdy. unfold piperead. wp_step. apply wp_acquire_pipe; [done|]. intros s1 Hin Hp1.
  pose proof (id_wf _ Hi) as Hwf. rewrite <-Hp1 in Hwf, Hrdy |- *.
  assert (Hw : read_wait s1 = Ok RReady s1).
  { unfold read_wait. m_unfold. rewrite empty_test by done. pose proof (length_contents (pp s1)) as Hl.
    destruct Hrdy as [Hc| ->]; [|by rewrite andb_false_r].
    rewrite (proj2 (Z.eqb_neq _ _)); [done|]. intros He. apply Hc, nil_length_inv. lia. }
  destruct fuel; cbn [piperead_loop]; wp_step; (eapply wp_eq; [exact Hw|]); cbv beta iota; wp_step;
    (eapply wp_weaken; [by apply read_copy_spec|]); intros l s2 (-> & Hc2 & Hwf2 & Hk2); wp_step;
    (eapply wp_wakeup_inside; [exact Hi | by destruct Hin; split; rewrite Hk2|]);
    intros s3 Hin3 Hp3; wp_step; (eapply wp_release_pipe; [exact Hi | done | by rewrite Hp3|]);
    intros s4 Hi4 Hp4; wp_step; cbn; (split; [done|]; split; [done|]; split; [done|]); by rewrite Hp4, Hp3.
Qed.
End calls.

(** What goes into a pipe comes out: a [pipewrite] of at most 512 bytes
    into an empty pipe followed by a [piperead] returns the number of bytes
    written and the oldest bytes in order, neither call sleeps, and both
    return with the lock free. *)
Theorem pipe_roundtrip (plock : nat) (ch_nread ch_nwrite : chan_t) (sleep_nread sleep_nwrite : PM unit)
    (fuel : nat) (s : pst) (l : list Z) (n : Z) :
  idle plock s → contents (pp s) = [] → l ≠ [] → (length l ≤ 512)%nat → 0 ≤ n →
  ∃ s', (v ← pipewrite plock ch_nread sleep_nwrite fuel l;
         r ← piperead plock ch_nwrite sleep_nread fuel n; mret (v, r)) s
    = Ok (Z.of_nat (length l), (Z.of_nat (length (take (Z.to_nat n) l)), take (Z.to_nat n) l)) s' ∧
    idle plock s' ∧ contents (pp s') = drop (Z.to_nat n) l.
Proof.
  intros Hi He Hl Hlen Hn.
  assert (wpt (v ← pipewrite plock ch_nread sleep_nwrite fuel l;
    r ← piperead plock ch_nwrite sleep_nread fuel n; mret (v, r)) (fun a s' =>
      a = (Z.of_nat (length l), (Z.of_nat (length (take (Z.to_nat n) l)), take (Z.to_nat n) l)) ∧
      idle plock s' ∧ contents (pp s') = drop (Z.to_nat n) l) s) as (a & s' & Hr & -> & HQ)%wpt_ok; [|eauto].
  wp_step. eapply wp_weaken; [apply pipewrite_room; [done | rewrite He; done]|].
  intros v s1 (-> & Hi1 & Hc1). rewrite He in Hc1. cbn [app] in Hc1. wp_step.
  eapply wp_weaken; [apply piperead_ready; [done | left; by rewrite Hc1]|].
  intros [a b] s2 (Hb & Ha & Hi2 & Hc2). cbn in Ha, Hb. subst a b. wp_step. rewrite Hc1 in *. done.
Qed.

Lemma pipe_roundtrip_witness :
  ∃ s', (v ← pipewrite 0 (ch_addr 1) fault 3 [7; 8; 9];
         r ← piperead 0 (ch_addr 2) fault 3 2; mret (v, r)) sample_pipe
    = Ok (3, (2, [7; 8])) s' ∧ idle 0 s' ∧ contents (pp s') = [9].
Proof.
  destruct sample_pipe_ok as [Hwf Hk].
  apply (pipe_roundtrip 0 (ch_addr 1) (ch_addr 2) fault fault 3 sample_pipe [7; 8; 9] 2);
    [|vm_compute; reflexivity | done | cbn; lia | lia].
  split; [exact Hwf | exact Hk | unfold INT_MAX; cbn; lia|]. exists (initlock "pipe"). done.
Defined.
