(* ===== verification/Grep.v ===== *)
(** * grep (grep.c)

    A C string is the list of its bytes before the terminator.  The matcher
    of Kernighan and Pike is proved equivalent to the language its pattern
    denotes, and [grep] to print the matching lines of its input when every
    [read] completes a line. *)
From S2P Require Import Prelude.

Definition NUL : Z := 0.
Definition NEWLINE : Z := 10.
Definition STAR : Z := 42.     (* '*' *)
Definition DOT : Z := 46.      (* '.' *)
Definition DOLLAR : Z := 36.   (* '$' *)
Definition CARET : Z := 94.    (* '^' *)

(** ** The matcher *)

(** [matchstar(c, re, text)], where [here] is [matchhere(re, _)]. *)
Fixpoint matchstar (c : Z) (here : list Z → bool) (text : list Z) : bool :=
  here text ||
  match text with
  | [] => false
  | t :: text' => ((t =? c) || (c =? DOT)) && matchstar c here text'
  end.

Fixpoint matchhere (re : list Z) (text : list Z) : bool :=
  match re with
  | [] => true
  | c :: re1 =>
      match re1 with
      | s :: re2 =>
          if s =? STAR then matchstar c (matchhere re2) text
          else
            match text with
            | t :: text' => ((c =? DOT) || (c =? t)) && matchhere re1 text'
            | [] => false
            end
      | [] =>
          if c =? DOLLAR then match text with [] => true | _ => false end
          else
            match text with
            | t :: text' => ((c =? DOT) || (c =? t)) && matchhere re1 text'
            | [] => false
            end
      end
  end.

(** The [do] loop of [match] over the suffixes of the text. *)
Fixpoint match_from (re text : list Z) : bool :=
  matchhere re text ||
  match text with [] => false | _ :: text' => match_from re text' end.

Definition match_ (re text : list Z) : bool :=
  match re with
  | c :: re' => if c =? CARET then matchhere re' text else match_from re text
  | [] => match_from re text
  end.

(** ** [grep]

    What the next calls of [read] find is a list of chunks; a call returns
    at most what fits and leaves the rest of the chunk. *)
Definition BUFSIZE : Z := 1024.

Definition read (n : Z) (input : list (list Z)) : list Z * list (list Z) :=
  match input with
  | [] => ([], [])
  | chunk :: input' =>
      let got := take (Z.to_nat n) chunk in
      let rest := drop (Z.to_nat n) chunk in
      (got, if decide (rest = []) then input' else rest :: input')
  end.

(** [strchr(p, c)]: the bytes before and after the first [c]. *)
Fixpoint strchr (p : list Z) (c : Z) : option (list Z * list Z) :=
  match p with
  | [] => None
  | x :: p' =>
      if x =? c then Some ([], p')
      else match strchr p' c with
           | Some (before, after) => Some (x :: before, after)
           | None => None
           end
  end.

(** The lines of the buffer from [p] on: what is written, and the final [p]. *)
Fixpoint grep_buffer (fuel : nat) (pattern p : list Z) : list (list Z) * list Z :=
  match fuel with
  | O => ([], p)
  | S fuel =>
      match strchr p NEWLINE with
      | None => ([], p)
      | Some (line, p') =>
          let '(out, last) := grep_buffer fuel pattern p' in
          ((if match_ pattern line then [line ++ [NEWLINE]] else []) ++ out, last)
      end
  end.

(** [buf] is the [m] bytes kept from the last round; the result is the
    sequence of [write]s.  A round consumes input, which bounds their number. *)
Fixpoint grep_loop (fuel : nat) (pattern buf : list Z) (input : list (list Z)) : option (list (list Z)) :=
  let '(got, input') := read (BUFSIZE - Z.of_nat (length buf) - 1) input in
  if decide (got = []) then Some []
  else
    match fuel with
    | O => None
    | S fuel =>
        let b := buf ++ got in
        let '(out, p) := grep_buffer (S (length b)) pattern b in
        let buf' := if decide (length p = length b) then [] else p in
        (out ++.) <$> grep_loop fuel pattern buf' input'
    end.

Definition grep (pattern : list Z) (input : list (list Z)) : option (list (list Z)) :=
  grep_loop (length (concat input)) pattern [] input.

(** ** What a pattern means *)
Inductive atom := Chr (c : Z) | Any.
Inductive item := One (a : atom) | Many (a : atom).

Definition atom_of (c : Z) : atom := if c =? DOT then Any else Chr c.
Definition accepts (a : atom) (t : Z) : bool := match a with Any => true | Chr c => c =? t end.

(** The items of a pattern, and whether it ends in an anchor. *)
Fixpoint parse (re : list Z) : list item * bool :=
  match re with
  | [] => ([], false)
  | c :: re1 =>
      match re1 with
      | s :: re2 =>
          if s =? STAR then let '(its, e) := parse re2 in (Many (atom_of c) :: its, e)
          else let '(its, e) := parse re1 in (One (atom_of c) :: its, e)
      | [] => if c =? DOLLAR then ([], true) else ([One (atom_of c)], false)
      end
  end.

Inductive lang : list item → list Z → Prop :=
  | lang_nil : lang [] []
  | lang_one a t its w : accepts a t = true → lang its w → lang (One a :: its) (t :: w)
  | lang_done a its w : lang its w → lang (Many a :: its) w
  | lang_more a t its w : accepts a t = true → lang (Many a :: its) w → lang (Many a :: its) (t :: w).

#[local] Hint Constructors lang : xv6.

(** The pattern denotes a prefix of the text, all of it when anchored. *)
Definition prefix_match (p : list item * bool) (text : list Z) : Prop :=
  ∃ mid post, text = mid ++ post ∧ lang p.1 mid ∧ (p.2 = true → post = []).

Lemma matchstar_spec c here text :
  matchstar c here text = true ↔
  ∃ pre post, text = pre ++ post ∧ Forall (fun t => accepts (atom_of c) t = true) pre ∧ here post = true.
Proof.
  assert (Ha : ∀ t, (t =? c) || (c =? DOT) = accepts (atom_of c) t).
  { intros t. unfold atom_of. destruct (c =? DOT); cbn; [by rewrite orb_true_r|].
    rewrite orb_false_r. apply Z.eqb_sym. }
  induction text as [|t text IH]; cbn [matchstar].
  - rewrite orb_false_r. split.
    + intros H. by exists [], [].
    + intros (pre & post & Heq & _ & H). symmetry in Heq. apply app_nil in Heq as [-> ->]. done.
  - rewrite Ha, orb_true_iff, andb_true_iff, IH. split.
    + intros [H|[Ht (pre & post & -> & Hp & H)]]; [by exists [], (t :: text)|].
      exists (t :: pre), post. split; [done|]. split; [by constructor | done].
    + intros (pre & post & Heq & Hp & H). destruct Hp as [|x pre Hx Hp]; cbn in Heq; [subst; by left|].
      injection Heq as -> ->. right. split; [done|]. eauto.
Qed.

Lemma lang_many a its w :
  lang (Many a :: its) w ↔ ∃ pre post, w = pre ++ post ∧ Forall (fun t => accepts a t = true) pre ∧ lang its post.
Proof.
  split.
  - intros H. remember (Many a :: its) as l eqn:E. revert E.
    induction H as [| |b its' w H _|b t its' w Ht H IH]; intros [=]; subst.
    + by exists [], w.
    + destruct (IH eq_refl) as (pre & post & -> & Hp & Hl). exists (t :: pre), post.
      split; [done|]. split; [by constructor | done].
  - intros (pre & post & -> & Hp & Hl). induction Hp; cbn; eauto with xv6.
Qed.

(** One character that is not followed by a star. *)
Lemma prefix_match_one c its e text :
  prefix_match (One (atom_of c) :: its, e) text ↔
  match text with
  | t :: text' => (c =? DOT) || (c =? t) = true ∧ prefix_match (its, e) text'
  | [] => False
  end.
Proof.
  assert (Ha : ∀ t, (c =? DOT) || (c =? t) = accepts (atom_of c) t)
    by (intros t; unfold atom_of; by destruct (c =? DOT)).
  unfold prefix_match. cbn [fst snd]. destruct text as [|t text].
  - split; [|done]. intros (mid & post & Heq & Hl & _). symmetry in Heq.
    apply app_nil in Heq as [-> ->]. inversion Hl.
  - rewrite Ha. split.
    + intros (mid & post & Heq & Hl & He). inversion Hl; subst. injection Heq as -> ->. split; [done|]. by exists w, post.
    + intros [Ht (mid & post & -> & Hl & He)]. exists (t :: mid), post. split; [done|]. split; [by constructor | done].
Qed.

(** The two routines on a pattern of at least two characters. *)
Lemma parse_cons c s re :
  parse (c :: s :: re) =
    let '(its, e) := parse (if s =? STAR then re else s :: re) in
    ((if s =? STAR then Many (atom_of c) else One (atom_of c)) :: its, e).
Proof. cbn. by destruct (s =? STAR). Qed.

Lemma matchhere_cons c s re text :
  matchhere (c :: s :: re) text =
    if s =? STAR then matchstar c (matchhere re) text
    else match text with
         | t :: text' => ((c =? DOT) || (c =? t)) && matchhere (s :: re) text'
         | [] => false
         end.
Proof. done. Qed.

Lemma matchhere_correct re text : matchhere re text = true ↔ prefix_match (parse re) text.
Proof.
  revert text. induction re as [re IH] using (induction_ltof1 _ (@length Z)). unfold ltof in IH.
  intros text. destruct re as [|c [|s re]]; [cbn [matchhere parse]..|rewrite parse_cons, matchhere_cons].
  - split; [|done]. intros _. exists [], text. split; [done|]. split; [constructor | done].
  - destruct (c =? DOLLAR) eqn:Hd.
    + split.
      * destruct text; [|done]. intros _. exists [], []. split; [done|]. split; [constructor | done].
      * intros (mid & post & -> & Hl & Hp). inversion Hl. by rewrite Hp.
    + rewrite prefix_match_one. destruct text as [|t text]; [by split|].
      rewrite andb_true_iff. pose proof (IH [] ltac:(cbn; lia) text) as IH0. cbn [parse] in IH0. by rewrite IH0.
  - destruct (s =? STAR).
    + rewrite matchstar_spec. pose proof (IH re ltac:(cbn; lia)) as IHre.
      destruct (parse re) as [its e]. unfold prefix_match. cbn [fst snd]. setoid_rewrite lang_many. split.
      * intros (pre & post & -> & Hp & (mid & post' & -> & Hl & He)%IHre).
        exists (pre ++ mid), post'. split; [by rewrite app_assoc|]. split; [by exists pre, mid | done].
      * intros (w & post & -> & (pre & mid & -> & Hp & Hl) & He). exists pre, (mid ++ post).
        rewrite <-app_assoc. split; [done|]. split; [done|]. apply IHre. by exists mid, post.
    + pose proof (IH (s :: re) ltac:(cbn; lia)) as IHre. destruct (parse (s :: re)) as [its e].
      rewrite prefix_match_one. destruct text as [|t text]; [by split|]. by rewrite andb_true_iff, IHre.
Qed.

(** C33: The matcher decides the language of its pattern: [match] returns 1
    exactly when some part of the text is in the language of the pattern,
    at the start of the text for a pattern that begins with a caret and at
    its end for one that ends in a dollar.  It terminates on all inputs. *)
Theorem match_correct (re text : list Z) :
  let anchored := bool_decide (head re = Some CARET) in
  let p := parse (if anchored then tail re else re) in
  match_ re text = true ↔
  ∃ pre mid post, text = pre ++ mid ++ post ∧ lang p.1 mid ∧
    (anchored = true → pre = []) ∧ (p.2 = true → post = []).
Proof.
  assert (Hfrom : ∀ r, match_from r text = true ↔
    ∃ pre mid post, text = pre ++ mid ++ post ∧ lang (parse r).1 mid ∧ ((parse r).2 = true → post = [])).
  { intros r. induction text as [|t text IH]; cbn [match_from]; rewrite orb_true_iff, matchhere_correct.
    - split; [intros [(mid & post & Heq & H)|]; [by exists [], mid, post | done]|].
      intros (pre & mid & post & Heq & H). left. exists mid, post. symmetry in Heq.
      by apply app_nil in Heq as [-> ->].
    - rewrite IH. split.
      + intros [(mid & post & -> & H)|(pre & mid & post & -> & H)]; [by exists [], mid, post|].
        by exists (t :: pre), mid, post.
      + intros ([|x pre] & mid & post & Heq & H); [left; by exists mid, post|].
        injection Heq as -> ->. right. by exists pre, mid, post. }
  destruct re as [|c re]; cbn [match_ head tail].
  - rewrite Hfrom. naive_solver.
  - destruct (Z.eqb_spec c CARET) as [->|Hn].
    + rewrite bool_decide_eq_true_2, matchhere_correct by done. split.
      * intros (mid & post & -> & H). exists [], mid, post. naive_solver.
      * intros (pre & mid & post & -> & Hl & Ha & He). rewrite Ha by done. by exists mid, post.
    + rewrite bool_decide_eq_false_2, Hfrom by congruence. naive_solver.
Qed.

(** ** Lines *)

(** The complete lines of the input and what follows the last newline. *)
Fixpoint lines (l : list Z) : list (list Z) * list Z :=
  match l with
  | [] => ([], [])
  | x :: l' =>
      let '(ls, last) := lines l' in
      if x =? NEWLINE then ([] :: ls, last)
      else match ls with
           | [] => ([], x :: last)
           | line :: ls' => ((x :: line) :: ls', last)
           end
  end.

Definition printed (pattern : list Z) (ls : list (list Z)) : list (list Z) :=
  (fun line => line ++ [NEWLINE]) <$> filter (fun line => match_ pattern line = true) ls.

Lemma lines_strchr p :
  lines p = match strchr p NEWLINE with
            | None => ([], p)
            | Some (line, p') => (line :: (lines p').1, (lines p').2)
            end.
Proof.
  induction p as [|x p IH]; [done|]. cbn. destruct (x =? NEWLINE); [by destruct (lines p)|].
  rewrite IH. by destruct (strchr p NEWLINE) as [[line p']|].
Qed.

Lemma strchr_length p c line p' : strchr p c = Some (line, p') → length p = (length line + S (length p'))%nat.
Proof.
  revert line. induction p as [|x p IH]; intros line; [done|]. cbn.
  destruct (x =? c); [by intros [= <- <-]|].
  destruct (strchr p c) as [[b a]|]; [|done]. intros [= <- <-]. cbn. by rewrite (IH b).
Qed.

Lemma strchr_None p c : strchr p c = None ↔ c ∉ p.
Proof.
  induction p as [|x p IH]; [split; [intros _ ?%elem_of_nil; done | done]|]. cbn. rewrite not_elem_of_cons.
  destruct (Z.eqb_spec x c) as [->|]; [naive_solver|].
  destruct (strchr p c) as [[b a]|]; naive_solver.
Qed.

Lemma lines_last_length p : (length (lines p).2 ≤ length p)%nat ∧ (NEWLINE ∈ p → length (lines p).2 < length p)%nat.
Proof.
  induction p as [p IH] using (induction_ltof1 _ (@length Z)). unfold ltof in IH.
  rewrite lines_strchr. destruct (strchr p NEWLINE) as [[line p']|] eqn:E; cbn [snd].
  - pose proof (strchr_length _ _ _ _ E). destruct (IH p' ltac:(lia)). lia.
  - split; [done|]. by apply strchr_None in E.
Qed.

Lemma lines_app a b : lines (a ++ b) = ((lines a).1 ++ (lines ((lines a).2 ++ b)).1, (lines ((lines a).2 ++ b)).2).
Proof.
  induction a as [|x a IH]; cbn [app lines fst snd]; [by destruct (lines b)|]. rewrite IH.
  destruct (lines a) as [ls last] eqn:E. cbn [fst snd]. destruct (x =? NEWLINE) eqn:Hx; [done|].
  destruct ls as [|line ls]; [|done]. cbn [app fst snd lines].
  destruct (lines (last ++ b)) as [[|line2 ls2] last2]; cbn; by rewrite Hx.
Qed.

Lemma lines_plain p : NEWLINE ∉ p → lines p = ([], p).
Proof. intros H. rewrite lines_strchr. by rewrite (proj2 (strchr_None p NEWLINE) H). Qed.

Lemma lines_last_plain p : NEWLINE ∉ (lines p).2.
Proof.
  induction p as [|x p IH]; [apply not_elem_of_nil|]. cbn. destruct (lines p) as [ls last]. cbn in IH.
  destruct (Z.eqb_spec x NEWLINE); [done|]. destruct ls; [|done]. cbn. by apply not_elem_of_cons.
Qed.

Lemma lines_some p : NEWLINE ∈ p → (lines p).1 ≠ [].
Proof.
  intros H. rewrite lines_strchr. destruct (strchr p NEWLINE) as [[line p']|] eqn:E; [done|].
  by apply strchr_None in E.
Qed.

(** Once there is a newline, what precedes does not matter for the last line. *)
Lemma lines_last_app a c : NEWLINE ∈ c → (lines (a ++ c)).2 = (lines c).2.
Proof.
  intros Hc. induction a as [|x a IH]; [done|]. cbn.
  assert (Hs : (lines (a ++ c)).1 ≠ []) by (apply lines_some, elem_of_app; by right).
  destruct (lines (a ++ c)) as [[|l ls] last]; [done|]. cbn in IH |- *. by destruct (x =? NEWLINE).
Qed.

Lemma grep_buffer_spec fuel pattern p :
  (length p < fuel)%nat → grep_buffer fuel pattern p = (printed pattern (lines p).1, (lines p).2).
Proof.
  revert p. induction fuel as [|fuel IH]; intros p Hf; [lia|]. cbn [grep_buffer]. rewrite lines_strchr.
  destruct (strchr p NEWLINE) as [[line p']|] eqn:E; [|done].
  pose proof (strchr_length _ _ _ _ E). rewrite IH by lia. cbn [fst snd]. f_equal.
  unfold printed. rewrite filter_cons. case_decide as Hm; [by rewrite Hm|].
  by destruct (match_ pattern line).
Qed.

(** A round that reads takes at least a byte from the input. *)
Lemma read_length n input got input' :
  read n input = (got, input') →
  concat input = got ++ concat input'.
Proof.
  destruct input as [|c input]; cbn; [by intros [= <- <-]|]. intros [= <- <-].
  rewrite <-(take_drop (Z.to_nat n) c) at 1. rewrite <-app_assoc. f_equal.
  case_decide as Hd; [by rewrite Hd | done].
Qed.

Lemma grep_loop_total fuel pattern buf input :
  (length (concat input) ≤ fuel)%nat → ∃ out, grep_loop fuel pattern buf input = Some out.
Proof.
  revert buf input. induction fuel as [|fuel IH]; intros buf input Hf; cbn [grep_loop];
    destruct (read _ input) as [got input'] eqn:Hr; pose proof (f_equal length (read_length _ _ _ _ Hr)) as Hl;
    rewrite length_app in Hl; (case_decide as Hg; [eauto|]); (destruct got as [|g got]; [done|]); cbn in Hl; [lia|].
  rewrite grep_buffer_spec by lia. destruct (IH (if decide (length (lines (buf ++ g :: got)).2 = length (buf ++ g :: got))
    then [] else (lines (buf ++ g :: got)).2) input' ltac:(lia)) as [out ->]. cbn. eauto.
Qed.

(** [grep] always terminates: each turn of its loop either ends it or
    consumes input, whatever the pattern and however the input is cut up. *)
Theorem grep_terminates (pattern : list Z) (input : list (list Z)) :
  ∃ out, grep pattern input = Some out.
Proof. by apply grep_loop_total. Qed.

Lemma grep_loop_lines pattern input fuel buf :
  Forall (fun c => NEWLINE ∈ c ∧ (length c ≤ 512)%nat) input →
  (length buf < 512)%nat → (lines buf).1 = [] → (lines buf).2 = buf → (length (concat input) ≤ fuel)%nat →
  grep_loop fuel pattern buf input = Some (printed pattern (lines (buf ++ concat input)).1).
Proof.
  intros Hin. revert fuel buf. induction Hin as [|c input [Hc Hlen] Hin IH]; intros fuel buf Hb Hb1 Hb2 Hf.
  { rewrite app_nil_r, Hb1. by destruct fuel. }
  assert (Hcn : c ≠ []) by (intros ->; by apply elem_of_nil in Hc).
  assert (Hr : read (BUFSIZE - Z.of_nat (length buf) - 1) (c :: input) = (c, input)).
  { cbn [read]. unfold BUFSIZE. rewrite take_ge, drop_ge by lia. by rewrite decide_True. }
  cbn [concat] in *. rewrite length_app in Hf. destruct fuel as [|fuel]; [destruct c; cbn in *; [done | lia]|].
  cbn [grep_loop]. rewrite Hr, decide_False, grep_buffer_spec by (done || lia).
  destruct (lines_last_length (buf ++ c)) as [_ Hlt].
  specialize (Hlt ltac:(apply elem_of_app; by right)). rewrite decide_False by lia.
  rewrite (IH fuel (lines (buf ++ c)).2); [|..].
  - cbn [fmap option_fmap option_map]. rewrite app_assoc, (lines_app (buf ++ c)). cbn [fst].
    unfold printed. by rewrite filter_app, fmap_app.
  - rewrite lines_last_app by done. destruct (lines_last_length c) as [_ H]. specialize (H Hc). lia.
  - by rewrite lines_plain by apply lines_last_plain.
  - by rewrite lines_plain by apply lines_last_plain.
  - destruct c; cbn in *; [done | lia].
Qed.

(** [grep] prints exactly the lines that match, in order, when every
    [read] returns at most 512 bytes and completes at least one line (as
    when it reads a pipe whose writer writes whole lines). *)
Theorem grep_prints_matching_lines (pattern : list Z) (input : list (list Z)) :
  Forall (fun c => NEWLINE ∈ c ∧ (length c ≤ 512)%nat) input →
  grep pattern input = Some (printed pattern (lines (concat input)).1).
Proof.
  intros H. unfold grep. by rewrite (grep_loop_lines pattern input _ []) by (done || cbn; lia).
Qed.

Lemma grep_prints_matching_lines_witness :
  (* "b$" on "ab\nc" and "b\nba\n" *)
  grep [98; 36] [[97; 98; 10; 99]; [98; 10; 98; 97; 10]] = Some [[97; 98; 10]; [99; 98; 10]].
Proof.
  apply (grep_prints_matching_lines [98; 36] [[97; 98; 10; 99]; [98; 10; 98; 97; 10]]).
  repeat constructor; cbn; try lia; by apply (bool_decide_unpack _); vm_compute.
Defined.

(** A line that arrives in two reads is lost: when the buffer holds no
    newline its contents are dropped, so a reader of a pipe misses the
    beginning of a line that its writer wrote in pieces.  The same input in
    one piece prints the line. *)
Theorem grep_loses_partial_line :
  grep [97] [[97]; [98; 10]] = Some [] ∧ grep [97] [[97; 98; 10]] = Some [[97; 98; 10]].
Proof. by vm_compute. Qed.
