(* ===== verification/Umalloc.v ===== *)
(** * The user allocator (umalloc.c)

    The free blocks form a circular list in address order that starts at the
    static header [base]; [freep] points somewhere into it.  A header is two
    words, the address of the next block and the size in units of eight bytes.

    [heap_ok h bs] says that the list in memory is [bs].  [cells] are the
    units of a list of blocks; both operations are described by what they do
    to the cells: [malloc] takes cells away from the free blocks, or from new
    memory of [sbrk], and [free] puts them back.  The last section lets a
    client call them in any order and write into the blocks it has. *)
From stdpp Require Import gmap.
From S2P Require Import Prelude.

(** The memory of the process as words, the static [freep], and the end of
    the data segment, which [sbrk] moves up to a limit. *)
Record heap := mkheap { hmem : Z → Z; freep : Z; hbrk : Z; hlim : Z }.
#[export] Instance heap_eta : EtaRecord heap := fun h => mkheap (hmem h) (freep h) (hbrk h) (hlim h).

Definition ld (a : Z) : M heap Z := gets (fun h => hmem h a).
Definition upd_mem (m : Z → Z) (a v : Z) : Z → Z := fun x => if x =? a then v else m x.
Definition st (a v : Z) : M heap unit := modify (fun h => h <| hmem := upd_mem (hmem h) a v |>).

(** [p->s.ptr], [p->s.size], and [p + n] of a header pointer. *)
Definition HDR : Z := 8.
Definition ptr (p : Z) : M heap Z := ld p.
Definition size (p : Z) : M heap Z := ld (p + 4).
Definition set_ptr (p v : Z) : M heap unit := st p v.
Definition set_size (p v : Z) : M heap unit := st (p + 4) v.
Definition padd (p n : Z) : Z := u32 (p + n * HDR).

(** The system call: the old end, or -1. *)
Definition sbrk (n : Z) : M heap Z :=
  b ← gets hbrk;
  l ← gets hlim;
  if b + n <=? l then modify (fun h => h <| hbrk := b + n |>);; mret b else mret (u32 (-1)).

Section umalloc.
Context (base : Z).

(** The search of [free] for the block before [bp]. *)
Fixpoint free_search (fuel : nat) (bp p : Z) : M heap Z :=
  q ← ptr p;
  if (bp >? p) && (bp <? q) then mret p
  else if (p >=? q) && ((bp >? p) || (bp <? q)) then mret p
  else match fuel with
       | O => stop_with NoFuel
       | S fuel => free_search fuel bp q
       end.

Definition free (fuel : nat) (ap : Z) : M heap unit :=
  let bp := u32 (ap - HDR) in
  p ← gets freep;
  p ← free_search fuel bp p;
  n ← size bp;
  q ← ptr p;
  (if padd bp n =? q then
     k ← size q;
     set_size bp (u32 (n + k));;
     q' ← ptr q;
     set_ptr bp q'
   else set_ptr bp q);;
  pn ← size p;
  (if padd p pn =? bp then
     n ← size bp;
     set_size p (u32 (pn + n));;
     q ← ptr bp;
     set_ptr p q
   else set_ptr p bp);;
  modify (fun h => h <| freep := p |>).

Definition morecore (fuel : nat) (nu : Z) : M heap Z :=
  let nu := if nu <? 4096 then 4096 else nu in
  p ← sbrk (i32 (u32 (nu * HDR)));
  if p =? u32 (-1) then mret 0 else
  set_size p nu;;
  free fuel (padd p 1);;
  gets freep.

(** The loop of [malloc]; [prevp] is the block before [p]. *)
Fixpoint malloc_loop (fuel : nat) (nunits prevp p : Z) : M heap Z :=
  n ← size p;
  if n >=? nunits then
    p ← (if n =? nunits then q ← ptr p; set_ptr prevp q;; mret p
         else
           set_size p (u32 (n - nunits));;
           let p := padd p (u32 (n - nunits)) in
           set_size p nunits;;
           mret p);
    modify (fun h => h <| freep := prevp |>);;
    mret (padd p 1)
  else
    f ← gets freep;
    r ← (if p =? f then p ← morecore fuel nunits; mret (if p =? 0 then None else Some p)
         else mret (Some p));
    match r, fuel with
    | None, _ => mret 0
    | Some p, O => stop_with NoFuel
    | Some p, S fuel => q ← ptr p; malloc_loop fuel nunits p q
    end.

Definition units (nbytes : Z) : Z := u32 (u32 (nbytes + HDR - 1) / HDR + 1).

Definition malloc (fuel : nat) (nbytes : Z) : M heap Z :=
  let nunits := units nbytes in
  f ← gets freep;
  prevp ← (if f =? 0 then
             modify (fun h => h <| freep := base |>);;
             set_ptr base base;;
             set_size base 0;;
             mret base
           else mret f);
  p ← ptr prevp;
  malloc_loop fuel nunits prevp p.
End umalloc.

(** ** Blocks and cells *)
Definition cells1 (b : Z * Z) : list Z := (fun i => b.1 + 8 * i) <$> seqZ 0 b.2.
Definition cells (bs : list (Z * Z)) : list Z := mjoin (cells1 <$> bs).

(** Where a block ends; the header of size 0 has room for itself only. *)
Definition endof (b : Z * Z) : Z := if b.2 =? 0 then b.1 + 7 else b.1 + 8 * b.2.

(** Blocks in address order between [lo] and [hi], none next to another. *)
Fixpoint chain (lo : Z) (l : list (Z * Z)) (hi : Z) : Prop :=
  match l with
  | [] => lo ≤ hi
  | b :: l => lo < b.1 ∧ 0 ≤ b.2 ∧ chain (endof b) l hi
  end.

(** The headers in memory: each points to the next one, the last to [next]. *)
Definition hd_addr (l : list (Z * Z)) (next : Z) : Z := match l with [] => next | b :: _ => b.1 end.
Fixpoint seg (m : Z → Z) (l : list (Z * Z)) (next : Z) : Prop :=
  match l with
  | [] => True
  | b :: l => m b.1 = hd_addr l next ∧ m (b.1 + 4) = b.2 ∧ seg m l next
  end.

Lemma endof_ge b : 0 ≤ b.2 → b.1 + 7 ≤ endof b ∧ b.1 + 8 * b.2 ≤ endof b.
Proof. unfold endof. destruct (Z.eqb_spec b.2 0); lia. Qed.

Lemma chain_le lo l hi : chain lo l hi → lo ≤ hi.
Proof. revert lo. induction l as [|b l IH]; intros lo; cbn; [done|]. intros (H1 & H2 & H3%IH). pose proof (endof_ge b H2). lia. Qed.

Lemma chain_app lo l1 b l2 hi : chain lo (l1 ++ b :: l2) hi ↔ chain lo l1 (b.1 - 1) ∧ 0 ≤ b.2 ∧ chain (endof b) l2 hi.
Proof.
  revert lo. induction l1 as [|c l1 IH]; intros lo; cbn; [intuition lia|]. rewrite IH. tauto.
Qed.

Lemma chain_in lo l hi b : chain lo l hi → b ∈ l → lo < b.1 ∧ 0 ≤ b.2 ∧ endof b ≤ hi.
Proof.
  revert lo. induction l as [|c l IH]; intros lo; cbn; [intros _ []%elem_of_nil|].
  intros (H1 & H2 & H3) [->|Hin]%elem_of_cons; [split_and!; [done | done | by apply chain_le in H3]|].
  destruct (IH _ H3 Hin) as (H4 & H5 & H6). pose proof (endof_ge c H2). lia.
Qed.

Lemma chain_weaken lo lo' l hi hi' : chain lo l hi → lo' ≤ lo → hi ≤ hi' → chain lo' l hi'.
Proof.
  revert lo lo'. induction l as [|c l IH]; intros lo lo'; cbn; [lia|]. intros (H1 & H2 & H3) Hlo Hhi.
  split_and!; [lia | done | by eapply IH].
Qed.

Lemma seg_app m l1 l2 next : seg m (l1 ++ l2) next ↔ seg m l1 (hd_addr l2 next) ∧ seg m l2 next.
Proof.
  induction l1 as [|b l1 IH]; cbn; [tauto|]. rewrite IH. destruct l1; cbn; tauto.
Qed.

Lemma seg_frame m m' l next : (∀ b, b ∈ l → m' b.1 = m b.1 ∧ m' (b.1 + 4) = m (b.1 + 4)) → seg m l next → seg m' l next.
Proof.
  induction l as [|b l IH]; cbn; [done|]. intros Hf (H1 & H2 & H3). destruct (Hf b ltac:(left)) as [-> ->].
  split_and!; [done | done | apply IH; [|done]]. intros c Hc. apply Hf. by right.
Qed.

Lemma cells_app l1 l2 : cells (l1 ++ l2) = cells l1 ++ cells l2.
Proof. unfold cells. by rewrite fmap_app, join_app. Qed.
Lemma cells_cons b l : cells (b :: l) = cells1 b ++ cells l.
Proof. done. Qed.

Lemma cells1_join a n k : 0 ≤ n → 0 ≤ k → cells1 (a, n + k) = cells1 (a, n) ++ cells1 (a + 8 * n, k).
Proof.
  intros Hn Hk. unfold cells1. cbn [fst snd]. rewrite seqZ_app by lia. rewrite fmap_app. f_equal.
  rewrite Z.add_comm, <-fmap_add_seqZ, <-list_fmap_compose. apply list_fmap_ext. intros i z _. cbn. lia.
Qed.

(** ** The invariant *)
Section proofs.
Context (base : Z).
Abbreviation nodes bs := ((base, 0) :: bs).

Record heap_ok (h : heap) (bs : list (Z * Z)) : Prop := {
  ho_seg : seg (hmem h) (nodes bs) base;
  ho_chain : chain (base - 1) (nodes bs) (hbrk h);
  ho_sizes : Forall (fun b => 1 ≤ b.2) bs;
  ho_lim : 0 < base ∧ base + 8 ≤ hbrk h ≤ hlim h ∧ hlim h ≤ 2 ^ 31;
  ho_free : freep h ∈ (nodes bs).*1
}.

Lemma freep_split h bs : heap_ok h bs → ∃ l1 n l2, nodes bs = l1 ++ (freep h, n) :: l2.
Proof.
  intros [_ _ _ _ Hf]. apply list_elem_of_fmap in Hf as ([p n] & Hp & Hin). cbn in Hp. subst p.
  apply list_elem_of_split in Hin as (l1 & l2 & ->). by exists l1, n, l2.
Qed.

(** A block apart from the free ones. *)
Definition apart (b c : Z * Z) : Prop := b.1 + 8 * b.2 ≤ c.1 ∨ c.1 + 8 * c.2 ≤ b.1.

(** *** The search of free *)
Lemma wp_search_up fuel h bp l1 b l2 lo hi (Q : Z → heap → Prop) E :
  seg (hmem h) (l1 ++ b :: l2) base → chain lo (l1 ++ b :: l2) hi → base ≤ b.1 → b.1 < bp → (∀ c, c ∈ l2 → c.1 ≠ bp) →
  (length l2 ≤ fuel)%nat →
  (∀ l1' b' l2', l1 ++ b :: l2 = l1' ++ b' :: l2' → b'.1 < bp → (l2' = [] ∨ bp < hd_addr l2' base) → Q b'.1 h) →
  wp (free_search fuel bp b.1) Q E h.
Proof.
  revert l1 b l2. induction fuel as [|fuel IH]; intros l1 b l2 Hseg Hch Hb Hlt Hne Hf HQ.
  all: pose proof (proj1 (seg_app _ _ _ _) Hseg) as [_ (Hptr & _ & _)].
  all: cbn [free_search]; unfold ptr, ld; do 2 wp_step; rewrite Hptr.
  - destruct l2 as [|c l2]; [|cbn in Hf; lia]. cbn [hd_addr]. rewrite (proj2 (Z.gtb_lt _ _)) by lia. cbn [andb].
    rewrite (proj2 (Z.ltb_ge _ _)) by lia. rewrite geb_true by lia. cbn [andb orb]. wp_step. eapply HQ; [done | done | by left].
  - rewrite (proj2 (Z.gtb_lt bp b.1)) by lia. cbn [andb orb]. destruct l2 as [|c l2]; cbn [hd_addr].
    + rewrite (proj2 (Z.ltb_ge _ _)) by lia. rewrite geb_true by lia. cbn [andb]. wp_step. eapply HQ; [done | done | by left].
    + destruct (Z.ltb_spec bp c.1) as [Hc|Hc]; [wp_step; eapply HQ; [done | done | by right]|].
      apply chain_app in Hch as Hch'. destruct Hch' as (_ & Hn & Hl2). cbn in Hl2. destruct Hl2 as (Hbc & _ & _).
      pose proof (endof_ge b Hn). rewrite geb_false by lia. cbn [andb]. specialize (Hne c) as Hnc.
      assert (Happ : l1 ++ b :: c :: l2 = (l1 ++ [b]) ++ c :: l2) by (by rewrite <-app_assoc).
      rewrite Happ in Hseg, Hch, HQ. eapply (IH (l1 ++ [b]) c l2); [exact Hseg | exact Hch | lia | | | cbn in Hf; lia | exact HQ].
      * assert (c.1 ≠ bp) by (apply Hnc; left). lia.
      * intros d Hd. apply Hne. by right.
Qed.

Lemma wp_search fuel h bs bp l1 b l2 (Q : Z → heap → Prop) E :
  heap_ok h bs → nodes bs = l1 ++ b :: l2 → base < bp → (∀ c, c ∈ bs → c.1 ≠ bp) → (length l2 + 1 + length bs ≤ fuel)%nat →
  (∀ l1' b' l2', nodes bs = l1' ++ b' :: l2' → b'.1 < bp → (l2' = [] ∨ bp < hd_addr l2' base) → Q b'.1 h) →
  wp (free_search fuel bp b.1) Q E h.
Proof.
  intros [H1 H2 H3 H4 H5]. revert l1 b l2. induction fuel as [|fuel IH]; intros l1 b l2 Hn Hb Hne Hf HQ; [lia|].
  assert (Hle : base ≤ b.1).
  { destruct (chain_in _ _ _ b H2) as (? & _ & _); [rewrite Hn; apply elem_of_app; right; left | lia]. }
  assert (Hnode : ∀ c, c ∈ nodes bs → c.1 ≠ bp) by (intros c [->|Hc]%elem_of_cons; [cbn; lia | by apply Hne]).
  destruct (decide (b.1 < bp)) as [Hlt|Hge].
  - rewrite Hn in H1, H2, HQ, Hnode. eapply wp_search_up; [exact H1 | exact H2 | done | done | | lia | exact HQ].
    intros c Hc. apply Hnode. apply elem_of_app. right. by right.
  - assert (Hgt : bp < b.1).
    { assert (b.1 ≠ bp); [|lia]. apply Hnode. rewrite Hn. apply elem_of_app. right. left. }
    assert (Hptr : hmem h b.1 = hd_addr l2 base) by (rewrite Hn in H1; by apply seg_app in H1 as [_ (Hp & _)]).
    cbn [free_search]; unfold ptr, ld; do 2 wp_step; rewrite Hptr. rewrite Z.gtb_ltb, (proj2 (Z.ltb_ge _ _)) by lia. cbn [andb orb].
    destruct l2 as [|c l2]; cbn [hd_addr].
    + rewrite (proj2 (Z.ltb_ge bp base)) by lia. rewrite andb_false_r.
      eapply (wp_search_up _ _ _ [] (base, 0) bs); [exact H1 | exact H2 | cbn; lia | cbn; lia | done | lia | exact HQ].
    + rewrite Hn in H2. apply chain_app in H2 as H2'. destruct H2' as (_ & Hk & (Hbc & _ & _)). pose proof (endof_ge b Hk).
      rewrite geb_false by lia. cbn [andb]. eapply (IH (l1 ++ [b]) c l2); [by rewrite Hn, <-app_assoc | done | done | cbn in Hf; lia | exact HQ].
Qed.

(** *** Putting a block into the list *)

(** The block merged with the one after it, and with the one before it. *)
Definition join_up (bp n : Z) (l2 : list (Z * Z)) : list (Z * Z) :=
  match l2 with
  | c :: l2 => if bp + 8 * n =? c.1 then (bp, n + c.2) :: l2 else (bp, n) :: c :: l2
  | [] => [(bp, n)]
  end.
Definition join_down (b : Z * Z) (l : list (Z * Z)) : list (Z * Z) :=
  match l with
  | c :: l => if b.1 + 8 * b.2 =? c.1 then (b.1, b.2 + c.2) :: l else b :: c :: l
  | [] => [b]
  end.

Lemma join_up_hd bp n l2 : ∃ k l, join_up bp n l2 = (bp, k) :: l ∧ (k = n ∧ l = l2 ∨ ∃ c, l2 = c :: l ∧ bp + 8 * n = c.1 ∧ k = n + c.2).
Proof.
  destruct l2 as [|c l2]; cbn; [eauto 10|]. destruct (Z.eqb_spec (bp + 8 * n) c.1); eauto 10.
Qed.

Lemma cells_join_up bp n l2 : 0 ≤ n → Forall (fun b => 1 ≤ b.2) l2 → cells (join_up bp n l2) = cells1 (bp, n) ++ cells l2.
Proof.
  intros Hn Hl. destruct l2 as [|c l2]; [done|]. cbn [join_up]. destruct (Z.eqb_spec (bp + 8 * n) c.1) as [E|]; [|done].
  apply Forall_cons in Hl as [Hc _]. rewrite !cells_cons, cells1_join, <-app_assoc, E by lia. by destruct c.
Qed.

Lemma cells_join_down b l : 0 ≤ b.2 → Forall (fun b => 1 ≤ b.2) l → cells (join_down b l) = cells1 b ++ cells l.
Proof.
  intros Hn Hl. destruct l as [|c l]; [done|]. cbn [join_down]. destruct (Z.eqb_spec (b.1 + 8 * b.2) c.1) as [E|]; [|done].
  apply Forall_cons in Hl as [Hc _]. rewrite !cells_cons, cells1_join, <-app_assoc, E by lia. by destruct b, c.
Qed.

Lemma upd_same m a v : upd_mem m a v a = v.
Proof. unfold upd_mem. by rewrite Z.eqb_refl. Qed.
Lemma upd_other m a v x : x ≠ a → upd_mem m a v x = m x.
Proof. intros Hx. unfold upd_mem. by rewrite (proj2 (Z.eqb_neq _ _)). Qed.

(** Memory that differs at most in the header at [p]. *)
Definition only_at (p : Z) (m m' : Z → Z) : Prop := ∀ x, x ≠ p → x ≠ p + 4 → m' x = m x.

Lemma padd_id p n : 0 ≤ p + 8 * n < 2 ^ 32 → padd p n = p + 8 * n.
Proof. intros Hr. unfold padd, HDR. rewrite Z.mul_comm. by apply u32_id. Qed.

Lemma seg_only_at p m m' l next : only_at p m m' → (∀ b, b ∈ l → p + 8 ≤ b.1 ∨ b.1 + 8 ≤ p) → seg m l next → seg m' l next.
Proof. intros Ho Hl. apply seg_frame. intros b Hb. specialize (Hl b Hb). split; apply Ho; lia. Qed.

Lemma wp_size p (Q : Z → heap → Prop) E h : Q (hmem h (p + 4)) h → wp (size p) Q E h.
Proof. done. Qed.
Lemma wp_ptr p (Q : Z → heap → Prop) E h : Q (hmem h p) h → wp (ptr p) Q E h.
Proof. done. Qed.

Lemma wp_join_up h bp n l2 hi (Q : unit → heap → Prop) E :
  hmem h (bp + 4) = n → seg (hmem h) l2 base → 0 < base < bp → 1 ≤ n → chain (bp + 8 * n - 1) l2 hi → bp + 8 * n ≤ hi → hi ≤ 2 ^ 31 →
  (∀ h', only_at bp (hmem h) (hmem h') → seg (hmem h') (join_up bp n l2) base → h' = h <| hmem := hmem h' |> → Q tt h') →
  wp (if padd bp n =? hd_addr l2 base then
        k ← size (hd_addr l2 base);
        set_size bp (u32 (n + k));;
        q' ← ptr (hd_addr l2 base);
        set_ptr bp q'
      else set_ptr bp (hd_addr l2 base)) Q E h.
Proof.
  intros Hsz Hseg Hb Hn Hch Hbh Hhi HQ. unfold size, set_size, ptr, set_ptr, ld, st. rewrite padd_id by lia. destruct l2 as [|c l2]; cbn [hd_addr join_up] in *.
  - rewrite (proj2 (Z.eqb_neq _ _)) by lia. wp_step. apply HQ; cbn; [| |done].
    + intros x H1 H2. by apply upd_other.
    + rewrite upd_same, upd_other by lia. done.
  - destruct Hseg as (Hc1 & Hc2 & Hseg). destruct Hch as (Hlt & Hc & Hch). pose proof (endof_ge c Hc) as He. apply chain_le in Hch as Hle.
    assert (Hin : ∀ d, d ∈ l2 → endof c < d.1) by (intros d Hd; by apply (chain_in _ _ _ _ Hch)).
    destruct (Z.eqb_spec (bp + 8 * n) c.1) as [Heq|Hneq].
    + do 6 wp_step. apply HQ; [| |done]; cbn [hmem update_field].
      * intros x H1 H2. by rewrite !upd_other.
      * change (seg (upd_mem (upd_mem (hmem h) (bp + 4) (u32 (n + hmem h (c.1 + 4)))) bp
          (upd_mem (hmem h) (bp + 4) (u32 (n + hmem h (c.1 + 4))) c.1)) ((bp, n + c.2) :: l2) base). cbn [seg fst snd].
        rewrite upd_same, !(upd_other _ _ _ c.1), (upd_other _ bp _ (bp + 4)), upd_same by lia.
        rewrite Hc2, u32_id by lia. split_and!; [done | done|].
        eapply (seg_only_at bp); [|intros d Hd; left; specialize (Hin d Hd); lia | exact Hseg]. intros x H1 H2. by rewrite !upd_other.
    + wp_step. apply HQ; [| |done]; cbn [hmem update_field].
      * intros x H1 H2. by rewrite !upd_other.
      * change (seg (upd_mem (hmem h) bp c.1) ((bp, n) :: c :: l2) base). cbn [seg fst snd hd_addr].
        rewrite upd_same, !upd_other by lia. split_and!; [done | done | done | done|].
        eapply (seg_only_at bp); [|intros d Hd; left; specialize (Hin d Hd); lia | exact Hseg]. intros x H1 H2. by rewrite !upd_other.
Qed.

Lemma wp_join_down h b bp k l hi (Q : unit → heap → Prop) E :
  hmem h (b.1 + 4) = b.2 → seg (hmem h) ((bp, k) :: l) base → 0 < b.1 → b.1 + 8 ≤ bp → 0 ≤ b.2 → b.1 + 8 * b.2 ≤ bp →
  chain (bp - 1) ((bp, k) :: l) hi → hi ≤ 2 ^ 31 →
  (∀ h', only_at b.1 (hmem h) (hmem h') → seg (hmem h') (join_down b ((bp, k) :: l)) base → h' = h <| hmem := hmem h' |> → Q tt h') →
  wp (if padd b.1 b.2 =? bp then
        n ← size bp;
        set_size b.1 (u32 (b.2 + n));;
        q ← ptr bp;
        set_ptr b.1 q
      else set_ptr b.1 bp) Q E h.
Proof.
  intros Hsz (Hp1 & Hp2 & Hseg) Hb Hbp Hn Hle (_ & Hk & Hch) Hhi HQ. unfold size, set_size, ptr, set_ptr, ld, st. cbn [fst snd] in *.
  pose proof (endof_ge (bp, k) Hk) as He. apply chain_le in Hch as Hle'. cbn [fst snd] in He.
  assert (Hin : ∀ d, d ∈ l → endof (bp, k) < d.1) by (intros d Hd; by apply (chain_in _ _ _ _ Hch)).
  rewrite padd_id by lia. cbn [join_down fst snd] in HQ. destruct (Z.eqb_spec (b.1 + 8 * b.2) bp) as [Heq|Hneq].
  - do 6 wp_step. apply HQ; [| |done]; cbn [hmem update_field].
    + intros x H1 H2. by rewrite !upd_other.
    + change (seg (upd_mem (upd_mem (hmem h) (b.1 + 4) (u32 (b.2 + hmem h (bp + 4)))) b.1
          (upd_mem (hmem h) (b.1 + 4) (u32 (b.2 + hmem h (bp + 4))) bp)) ((b.1, b.2 + k) :: l) base). cbn [seg fst snd].
      rewrite upd_same, !(upd_other _ _ _ bp), (upd_other _ b.1 _ (b.1 + 4)), upd_same by lia.
      rewrite Hp2, u32_id by lia. split_and!; [done | done|].
      eapply (seg_only_at b.1); [|intros d Hd; left; specialize (Hin d Hd); lia | exact Hseg]. intros x H1 H2. by rewrite !upd_other.
  - wp_step. apply HQ; [| |done]; cbn [hmem update_field].
    + intros x H1 H2. by rewrite !upd_other.
    + change (seg (upd_mem (hmem h) b.1 bp) (b :: (bp, k) :: l) base). cbn [seg fst snd hd_addr].
      rewrite upd_same, !upd_other by lia. split_and!; [done | done | done | done|].
      eapply (seg_only_at b.1); [|intros d Hd; left; specialize (Hin d Hd); lia | exact Hseg]. intros x H1 H2. by rewrite !upd_other.
Qed.

Lemma join_up_chain bp n l2 hi :
  1 ≤ n → chain (bp + 8 * n - 1) l2 hi → bp + 8 * n ≤ hi → chain (bp - 1) (join_up bp n l2) hi.
Proof.
  intros Hn Hch Hle. assert (He : endof (bp, n) = bp + 8 * n) by (unfold endof; cbn; rewrite (proj2 (Z.eqb_neq _ _)) by lia; done).
  destruct l2 as [|c l2]; cbn [join_up]; [cbn; rewrite He; lia|]. destruct Hch as (H1 & H2 & H3).
  destruct (Z.eqb_spec (bp + 8 * n) c.1) as [Heq|Hne]; cbn [chain fst snd].
  - split_and!; [lia | lia|]. eapply chain_weaken; [exact H3 | | lia]. unfold endof. cbn [fst snd].
    rewrite (proj2 (Z.eqb_neq (n + c.2) 0)) by lia. destruct (Z.eqb_spec c.2 0); lia.
  - rewrite He. split_and!; [lia | lia | lia | done | done].
Qed.

Lemma join_down_chain lo b bp k l hi :
  lo < b.1 → 0 ≤ b.2 → b.1 + 8 ≤ bp → b.1 + 8 * b.2 ≤ bp → chain (bp - 1) ((bp, k) :: l) hi → chain lo (join_down b ((bp, k) :: l)) hi.
Proof.
  intros Hlo Hb H8 Hle (_ & Hk & Hch). cbn [join_down fst snd] in *. destruct (Z.eqb_spec (b.1 + 8 * b.2) bp) as [Heq|Hne]; cbn [chain fst snd].
  - split_and!; [lia | lia|]. eapply chain_weaken; [exact Hch | | lia]. unfold endof. cbn [fst snd].
    destruct (Z.eqb_spec (b.2 + k) 0), (Z.eqb_spec k 0); lia.
  - split_and!; [lia | lia | | done | done]. unfold endof. destruct (Z.eqb_spec b.2 0); lia.
Qed.

(** A block the allocator must leave alone: apart from the free blocks [bs]
    and above the static header. *)
Definition outside (bs : list (Z * Z)) (c : Z * Z) : Prop := base + 8 ≤ c.1 ∧ 1 ≤ c.2 ∧ ∀ b, b ∈ bs → apart c b.
Definition untouched (bs : list (Z * Z)) (h h' : heap) : Prop :=
  ∀ c x, outside bs c → c.1 ≤ x < c.1 + 8 * c.2 → hmem h' x = hmem h x.

Lemma join_sizes bp n b l2 : 1 ≤ n → 0 ≤ b.2 → Forall (fun b => 1 ≤ b.2) l2 →
  Forall (fun b => 1 ≤ b.2) (join_up bp n l2) ∧ (1 ≤ b.2 → Forall (fun b => 1 ≤ b.2) (join_down b (join_up bp n l2))).
Proof.
  intros Hn Hb Hl. assert (Hu : Forall (fun b => 1 ≤ b.2) (join_up bp n l2)).
  { destruct l2 as [|c l2]; cbn; [by constructor|]. apply Forall_cons in Hl as [Hc Hl]. destruct (_ =? _); repeat (constructor; [cbn; lia|]); done. }
  split; [done|]. intros H1. destruct (join_up_hd bp n l2) as (k & l & Hj & _). rewrite Hj in *. apply Forall_cons in Hu as [Hk Hu'].
  cbn [join_down]. cbn [snd] in Hk. destruct (_ =? _); repeat (constructor; [cbn; lia|]); done.
Qed.

(** Between the two neighbours there is room. *)
Lemma room h bs l1 b l2 bp n :
  heap_ok h bs → nodes bs = l1 ++ b :: l2 → b.1 < bp → (l2 = [] ∨ bp < hd_addr l2 base) → outside bs (bp, n) → bp + 8 * n ≤ hbrk h →
  chain (base - 1) l1 (b.1 - 1) ∧ 0 ≤ b.2 ∧ b.1 + 8 ≤ bp ∧ b.1 + 8 * b.2 ≤ bp ∧ chain (bp + 8 * n - 1) l2 (hbrk h) ∧ 0 < b.1.
Proof.
  intros [H1 H2 H3 H4 H5] Hn Hlt Hnext (O1 & O2 & O3) Hbrk. cbn [fst snd] in *. rewrite Hn in H2. apply chain_app in H2 as (C1 & C2 & C3).
  pose proof (endof_ge b C2) as He. assert (Hb0 : base - 1 < b.1) by (apply chain_le in C1; lia).
  split_and!; [done | done | | | |lia].
  - destruct l1 as [|d l1]; [injection Hn as <- _; cbn in *; lia|]. injection Hn as <- Hn.
    destruct (O3 b) as [Ha|Ha]; [rewrite Hn; apply elem_of_app; right; left | cbn in Ha; lia|].
    assert (1 ≤ b.2) by (rewrite Forall_forall in H3; apply H3; rewrite Hn; apply elem_of_app; right; left). cbn in Ha. lia.
  - destruct l1 as [|d l1]; [injection Hn as <- _; cbn in *; lia|]. injection Hn as <- Hn.
    destruct (O3 b) as [Ha|Ha]; [rewrite Hn; apply elem_of_app; right; left | cbn in Ha; lia | cbn in Ha; lia].
  - destruct l2 as [|c l2]; [cbn; lia|]. destruct Hnext as [|Hnext]; [done|]. cbn [hd_addr] in Hnext. cbn in C3 |- *. destruct C3 as (C3 & C4 & C5).
    split_and!; [|done|done]. destruct (O3 c) as [Ha|Ha]; [|cbn in Ha; lia | cbn in Ha; lia].
    destruct l1 as [|d l1]; injection Hn as <- Hn; rewrite Hn; [left | apply elem_of_app; right; right; left].
Qed.

Lemma apart_join c a n k : 1 ≤ c.2 → 0 ≤ n → 0 ≤ k → apart c (a, n) → apart c (a + 8 * n, k) → apart c (a, n + k).
Proof. unfold apart. cbn [fst snd]. lia. Qed.

(** A block apart from the parts is apart from the whole, and the block that
    came is part of a block of the list. *)
Lemma join_apart c bp n b l2 :
  1 ≤ c.2 → 1 ≤ n → 0 ≤ b.2 → Forall (fun b => 1 ≤ b.2) l2 → apart c (bp, n) → (b.2 = 0 ∨ apart c b) → (∀ d, d ∈ l2 → apart c d) →
  ∀ d, d ∈ join_down b (join_up bp n l2) → d.2 = 0 ∨ apart c d.
Proof.
  intros Hc Hn Hb Hl2 Hbp Hcb Hcl d Hd.
  assert (Hup : ∀ e, e ∈ join_up bp n l2 → apart c e).
  { intros e He. destruct l2 as [|f l2]; cbn in He; [apply list_elem_of_singleton in He as ->; done|]. apply Forall_cons in Hl2 as [Hf _].
    destruct (Z.eqb_spec (bp + 8 * n) f.1) as [Heq|]; [|apply elem_of_cons in He as [->|He]; [done | by apply Hcl]].
    apply elem_of_cons in He as [->|He]; [|apply Hcl; by right]. apply apart_join; [done | lia | lia | done|]. rewrite Heq.
    specialize (Hcl f ltac:(left)). by destruct f. }
  destruct (join_up_hd bp n l2) as (k & l & Hj & Hk). rewrite Hj in Hup, Hd. cbn [join_down fst snd] in Hd.
  assert (Hkn : 0 ≤ k). { destruct Hk as [[-> _]|(f & -> & _ & ->)]; [lia|]. apply Forall_cons in Hl2 as [? _]. lia. }
  destruct (Z.eqb_spec (b.1 + 8 * b.2) bp) as [Heq|]; apply elem_of_cons in Hd as [->|Hd].
  - right. destruct Hcb as [H0|Hcb].
    + rewrite H0 in *. specialize (Hup (bp, k) ltac:(left)). unfold apart in *. cbn in *. lia.
    + apply apart_join; [done | done | done | by destruct b|]. rewrite Heq. apply Hup. left.
  - right. apply Hup. by right.
  - done.
  - right. by apply Hup.
Qed.

Lemma join_big bp n b l2 : 0 ≤ b.2 → Forall (fun b => 1 ≤ b.2) l2 → ∃ d, d ∈ join_down b (join_up bp n l2) ∧ n ≤ d.2.
Proof.
  intros Hb Hl2. destruct (join_up_hd bp n l2) as (k & l & Hj & Hk). rewrite Hj. cbn [join_down fst snd].
  assert (Hkn : n ≤ k). { destruct Hk as [[-> _]|(f & -> & _ & ->)]; [lia|]. apply Forall_cons in Hl2 as [? _]. lia. }
  destruct (_ =? _); [exists (b.1, b.2 + k) | exists (bp, k)]; (split; [|cbn; lia]); [left | right; left].
Qed.

(** The list with the block in it. *)
Lemma freed_list h bs l1 b l2 bp n :
  heap_ok h bs → nodes bs = l1 ++ b :: l2 → outside bs (bp, n) →
  b.1 + 8 ≤ bp → b.1 + 8 * b.2 ≤ bp → chain (bp + 8 * n - 1) l2 (hbrk h) → bp + 8 * n ≤ hbrk h →
  ∃ bs', nodes bs' = l1 ++ join_down b (join_up bp n l2) ∧ Forall (fun b => 1 ≤ b.2) bs' ∧ chain (base - 1) (nodes bs') (hbrk h) ∧
    cells bs' ≡ₚ cells1 (bp, n) ++ cells bs ∧ (length bs' ≤ S (length bs))%nat ∧ b.1 ∈ (nodes bs').*1 ∧
    (∀ c, outside ((bp, n) :: bs) c → outside bs' c) ∧ ∃ d, d ∈ bs' ∧ n ≤ d.2.
Proof.
  intros [H1 H2 H3 H4 H5] Hn (O1 & O2 & O3) R3 R4 R5 Hbrk. cbn [fst snd] in O1, O2. rewrite Hn in H2. apply chain_app in H2 as (R1 & R2 & _).
  assert (Hl2 : Forall (fun b => 1 ≤ b.2) l2).
  { destruct l1; injection Hn as _ Hn; rewrite Hn in H3; [done|]. apply Forall_app in H3 as [_ H3]. by apply Forall_cons in H3 as [_ H3]. }
  destruct (join_sizes bp n b l2 O2 R2 Hl2) as [Hup Hdown]. destruct (join_up_hd bp n l2) as (k & l & Hj & Hjl).
  pose proof (join_up_chain bp n l2 (hbrk h) O2 R5 Hbrk) as Hjc. set (L := join_down b (join_up bp n l2)).
  assert (HLc : chain (base - 1) (l1 ++ L) (hbrk h) ∧ b.1 ∈ L.*1 ∧ (length L ≤ S (S (length l2)))%nat).
  { assert (Hll : (length l ≤ length l2)%nat) by (destruct Hjl as [[_ ->]|(c & -> & _)]; cbn; lia). unfold L. rewrite Hj in Hjc |- *.
    pose proof (join_down_chain (b.1 - 1) b bp k l (hbrk h) ltac:(lia) R2 R3 R4 Hjc) as Hd. cbn [join_down fst snd] in Hd |- *.
    destruct (_ =? _); (split; [apply chain_app; split_and!; [done | apply Hd | apply Hd]|]; split; [left | cbn; lia]). }
  destruct HLc as (HLc & HbL & HLl).
  assert (Hbs : ∃ bs', nodes bs' = l1 ++ L ∧ Forall (fun b => 1 ≤ b.2) bs').
  { destruct l1 as [|d l1]; injection Hn as Hd Hn.
    - subst b. cbn [fst snd] in *. exists (join_up bp n l2). split; [|done]. unfold L. rewrite Hj. cbn [join_down fst snd app].
      rewrite (proj2 (Z.eqb_neq _ _)) by lia. done.
    - exists (l1 ++ L). split; [by rewrite Hd|]. rewrite Hn in H3. apply Forall_app in H3 as [H31 H32].
      apply Forall_cons in H32 as [H32 _]. apply Forall_app. split; [done | by apply Hdown]. }
  destruct Hbs as (bs' & Hn' & Hsz'). exists bs'. assert (Hc : ∀ l, cells (nodes l) = cells l) by done.
  split_and!; [done | done | by rewrite Hn' | | | | |].
  - rewrite <-(Hc bs'), <-(Hc bs), Hn', Hn, !cells_app. unfold L. rewrite cells_join_down, cells_join_up, !cells_cons by (done || lia). solve_Permutation.
  - assert (Hl : length (nodes bs') = length (l1 ++ L)) by (by rewrite Hn'). assert (Hl' : length (nodes bs) = length (l1 ++ b :: l2)) by (by rewrite Hn).
    rewrite length_app in Hl, Hl'. cbn in Hl, Hl'. lia.
  - rewrite Hn', fmap_app. apply elem_of_app. by right.
  - intros c (U1 & U2 & U3). split_and!; [done | done|]. intros d Hd. assert (Hd' : d ∈ l1 ++ L) by (rewrite <-Hn'; by right).
    assert (Hd1 : 1 ≤ d.2) by (rewrite Forall_forall in Hsz'; by apply Hsz').
    assert (Hin : ∀ e, e ∈ l1 ++ b :: l2 → e.2 = 0 ∨ apart c e).
    { intros e He. rewrite <-Hn in He. apply elem_of_cons in He as [->|He]; [by left | right; apply U3; by right]. }
    assert (Hor : d.2 = 0 ∨ apart c d); [|destruct Hor; [lia | done]].
    apply elem_of_app in Hd' as [Hd'|Hd']; [apply Hin, elem_of_app; by left|].
    eapply (join_apart c bp n b l2); [done | done | done | done | apply U3; left | apply Hin, elem_of_app; right; left | | exact Hd'].
    intros e He. rewrite Forall_forall in Hl2. specialize (Hl2 e He). destruct (Hin e) as [|]; [apply elem_of_app; right; by right | lia | done].
  - destruct (join_big bp n b l2 R2 Hl2) as (d & Hd & Hnd). exists d. split; [|done].
    assert (Hd' : d ∈ nodes bs') by (rewrite Hn'; apply elem_of_app; by right). apply elem_of_cons in Hd' as [->|Hd']; [cbn in Hnd; lia | done].
Qed.

Lemma wp_free fuel h bs ap n (Q : unit → heap → Prop) E :
  heap_ok h bs → hmem h (ap - 8 + 4) = n → outside bs (ap - 8, n) → ap - 8 + 8 * n ≤ hbrk h → (2 * length bs + 2 ≤ fuel)%nat →
  (∀ h' bs', heap_ok h' bs' → cells bs' ≡ₚ cells1 (ap - 8, n) ++ cells bs → hbrk h' = hbrk h → hlim h' = hlim h →
     (length bs' ≤ S (length bs))%nat → untouched ((ap - 8, n) :: bs) h h' → (∀ c, outside ((ap - 8, n) :: bs) c → outside bs' c) →
     (∃ d, d ∈ bs' ∧ n ≤ d.2) → freep h' ≠ 0 → Q tt h') →
  wp (free fuel ap) Q E h.
Proof.
  intros Hok Hsz Hout Hbrk Hf HQ. pose proof Hok as [H1 H2 H3 H4 H5]. pose proof Hout as (O1 & O2 & O3). cbn [fst snd] in O1, O2.
  destruct (freep_split h bs Hok) as (r1 & nf & r2 & Hfree). set (bp := ap - 8) in *.
  unfold free. change (ap - HDR) with bp. rewrite u32_id by lia. cbv zeta. do 2 wp_step. change (freep h) with (freep h, nf).1. wp_step.
  eapply wp_search; [exact Hok | exact Hfree | lia | | |].
  { intros c Hc He. specialize (O3 c Hc). rewrite Forall_forall in H3. specialize (H3 c Hc). unfold apart in O3. cbn in *. lia. }
  { assert (length (nodes bs) = length (r1 ++ (freep h, nf) :: r2)) as Hlen by (by rewrite Hfree). rewrite length_app in Hlen. cbn in Hlen. lia. }
  intros l1 b l2 Hn Hlt Hnext. destruct (room h bs l1 b l2 bp n Hok Hn Hlt Hnext Hout Hbrk) as (R1 & R2 & R3 & R4 & R5 & R6).
  rewrite Hn in H1. apply seg_app in H1 as [S1 (S2 & S3 & S4)]. cbn [hd_addr] in S1.
  wp_step. apply wp_size. rewrite Hsz. wp_step. apply wp_ptr. rewrite S2.
  wp_step. eapply (wp_join_up h bp n l2 (hbrk h)); [done | exact S4 | lia | done | exact R5 | done | lia|].
  intros ha Hoa Hsa Hea. destruct (join_up_hd bp n l2) as (k & l & Hj & Hjl). rewrite Hj in Hsa.
  pose proof (join_up_chain bp n l2 (hbrk h) O2 R5 Hbrk) as Hjc. rewrite Hj in Hjc.
  assert (Hbsz : hmem ha (b.1 + 4) = b.2) by (rewrite <-S3; apply Hoa; lia).
  assert (Hha : hbrk ha = hbrk h ∧ hlim ha = hlim h) by (rewrite Hea; done). destruct Hha as [Hba Hla].
  wp_step. apply wp_size. rewrite Hbsz. wp_step. eapply (wp_join_down ha b bp k l (hbrk h)); [done | exact Hsa | done | done | done | done | exact Hjc | lia|].
  intros hb Hob Hsb Heb. rewrite <-Hj in Hsb. wp_step.
  assert (Hhb : hbrk hb = hbrk h ∧ hlim hb = hlim h) by (rewrite Heb; done). destruct Hhb as [Hbb Hlb].
  destruct (freed_list h bs l1 b l2 bp n Hok Hn Hout R3 R4 R5 Hbrk) as (bs' & Hn' & Hsz' & Hch' & Hcells & Hlen & Hin & Houts & Hbig).
  apply (HQ _ bs'); [|done|done|done|done| |done|done|cbn; lia].
  - split; cbn [hmem freep hbrk hlim update_field]; [|by rewrite Hbb | done | by rewrite Hbb, Hlb | done].
    rewrite Hn'. apply seg_app. split; [|exact Hsb].
    assert (Hhd : hd_addr (join_down b (join_up bp n l2)) base = b.1) by (rewrite Hj; cbn; by destruct (_ =? _)). rewrite Hhd.
    assert (Hl1 : ∀ c, c ∈ l1 → c.1 + 8 ≤ b.1).
    { intros c Hc. destruct (chain_in _ _ _ _ R1 Hc) as (_ & C1 & C2). pose proof (endof_ge c C1). lia. }
    eapply (seg_only_at b.1); [exact Hob | intros c Hc; right; by apply Hl1|].
    eapply (seg_only_at bp); [exact Hoa | intros c Hc; right; specialize (Hl1 c Hc); lia | exact S1].
  - intros c y (U1 & U2 & U3) Hy. cbn [hmem update_field]. destruct (U3 (bp, n) ltac:(left)) as [Ha|Ha]; cbn [fst snd] in Ha.
    all: assert (Hcb : c.1 + 8 * c.2 ≤ b.1 ∨ b.1 + 8 ≤ c.1)
      by (assert (Hbn : b ∈ nodes bs) by (rewrite Hn; apply elem_of_app; right; left);
          apply elem_of_cons in Hbn as [->|Hbn]; [right; cbn; lia|];
          assert (1 ≤ b.2) by (rewrite Forall_forall in H3; by apply H3); destruct (U3 b ltac:(by right)); lia).
    all: etrans; [apply Hob; lia | apply Hoa; lia].
Qed.

(** *** Taking a block *)

(** [r] is the answer of [malloc] for [n] units from the blocks [bs] and
    [fresh]. *)
Record allocated (h : heap) (bs fresh : list (Z * Z)) (n r : Z) (h' : heap) (bs' : list (Z * Z)) : Prop := {
  al_ok : heap_ok h' bs';
  al_cells : cells1 (r - 8, n) ++ cells bs' ≡ₚ cells bs ++ cells fresh;
  al_size : hmem h' (r - 8 + 4) = n;
  al_out : outside bs' (r - 8, n);
  al_top : r - 8 + 8 * n ≤ hbrk h' ∧ hbrk h ≤ hbrk h';
  al_len : (length bs' ≤ length bs + length fresh)%nat;
  al_keep : ∀ c, outside (bs ++ fresh) c → outside bs' c ∧ apart c (r - 8, n);
  al_frame : untouched (bs ++ fresh) h h'
}.

(** What is left of block [c] when [n] units are taken from its end. *)
Definition rest_of (c : Z * Z) (n : Z) : list (Z * Z) := if c.2 =? n then [] else [(c.1, c.2 - n)].

Lemma rest_chain lo c n l2 hi : 1 ≤ n ≤ c.2 → lo < c.1 → chain (endof c) l2 hi → chain lo (rest_of c n ++ l2) hi.
Proof.
  intros Hn Hlo Hch. assert (He : endof c = c.1 + 8 * c.2) by (unfold endof; rewrite (proj2 (Z.eqb_neq _ _)) by lia; done).
  unfold rest_of. destruct (Z.eqb_spec c.2 n) as [Heq|Hne]; cbn [app chain fst snd].
  - eapply chain_weaken; [exact Hch | lia | lia].
  - split_and!; [lia | lia|]. eapply chain_weaken; [exact Hch | | lia]. unfold endof at 1. cbn [fst snd]. rewrite (proj2 (Z.eqb_neq _ _)) by lia. lia.
Qed.

Lemma rest_cells c n : 1 ≤ n ≤ c.2 → cells1 c = cells (rest_of c n) ++ cells1 (c.1 + 8 * (c.2 - n), n).
Proof.
  intros Hn. unfold rest_of. destruct (Z.eqb_spec c.2 n) as [Heq|Hne].
  - rewrite Heq, Z.sub_diag, Z.mul_0_r, Z.add_0_r. cbn. subst n. by destruct c.
  - unfold cells. cbn. rewrite app_nil_r. rewrite <-cells1_join by lia. destruct c as [a k]. cbn. do 2 f_equal. lia.
Qed.

(** The blocks after the units are gone. *)
Lemma taken_list h bs l1 b c l2 n :
  heap_ok h bs → nodes bs = l1 ++ b :: c :: l2 → 1 ≤ n ≤ c.2 →
  ∃ bs', nodes bs' = l1 ++ b :: rest_of c n ++ l2 ∧ Forall (fun b => 1 ≤ b.2) bs' ∧ chain (base - 1) (nodes bs') (hbrk h) ∧
    cells1 (c.1 + 8 * (c.2 - n), n) ++ cells bs' ≡ₚ cells bs ∧ b.1 ∈ (nodes bs').*1.
Proof.
  intros [H1 H2 H3 H4 H5] Hn Hle. rewrite Hn in H2. apply chain_app in H2 as (R1 & R2 & (R3 & R4 & R5)).
  assert (Hr : Forall (fun b => 1 ≤ b.2) (rest_of c n)) by (unfold rest_of; destruct (Z.eqb_spec c.2 n); repeat (constructor; [cbn; lia|]); constructor).
  assert (Hbs : ∃ bs', nodes bs' = l1 ++ b :: rest_of c n ++ l2 ∧ Forall (fun b => 1 ≤ b.2) bs').
  { destruct l1 as [|d l1]; injection Hn as Hd Hn.
    - subst b. exists (rest_of c n ++ l2). split; [done|]. rewrite Hn in H3. apply Forall_cons in H3 as [_ H3]. by apply Forall_app.
    - exists (l1 ++ b :: rest_of c n ++ l2). split; [by rewrite Hd|]. rewrite Hn in H3. apply Forall_app in H3 as [H31 H32].
      apply Forall_cons in H32 as [H32 H33]. apply Forall_cons in H33 as [_ H33]. apply Forall_app. split; [done|]. apply Forall_cons. split; [done | by apply Forall_app]. }
  destruct Hbs as (bs' & Hn' & Hsz'). exists bs'. assert (Hc : ∀ l, cells (nodes l) = cells l) by done. split_and!; [done | done | | |].
  - rewrite Hn'. apply chain_app. split_and!; [done | done | by apply rest_chain].
  - rewrite <-(Hc bs'), <-(Hc bs), Hn', Hn, !cells_app, !cells_cons, !cells_app, (rest_cells c n) by done. solve_Permutation.
  - rewrite Hn', fmap_app. apply elem_of_app. right. left.
Qed.

Lemma taken_apart lo l1 b c l2 n hi d :
  chain lo (l1 ++ b :: c :: l2) hi → 1 ≤ n ≤ c.2 → d ∈ l1 ++ b :: rest_of c n ++ l2 → apart (c.1 + 8 * (c.2 - n), n) d.
Proof.
  intros (R1 & R2 & (R3 & R4 & R5))%chain_app Hn Hd. pose proof (endof_ge b R2). pose proof (endof_ge c R4).
  unfold apart. cbn [fst snd]. apply elem_of_app in Hd as [Hd|Hd].
  - destruct (chain_in _ _ _ _ R1 Hd) as (_ & C1 & C2). pose proof (endof_ge d C1). lia.
  - apply elem_of_cons in Hd as [->|Hd]; [lia|]. apply elem_of_app in Hd as [Hd|Hd].
    + unfold rest_of in Hd. destruct (_ =? _); [by apply elem_of_nil in Hd|]. apply list_elem_of_singleton in Hd as ->. cbn. lia.
    + destruct (chain_in _ _ _ _ R5 Hd) as (C0 & _ & _). lia.
Qed.

(** The list in memory after the units are gone. *)
Lemma taken_seg m l1 b c l2 n lo hi :
  seg m (l1 ++ b :: c :: l2) base → chain lo (l1 ++ b :: c :: l2) hi → 1 ≤ n ≤ c.2 →
  let na := c.1 + 8 * (c.2 - n) in
  let m' := if c.2 =? n then upd_mem m b.1 (m c.1) else upd_mem (upd_mem m (c.1 + 4) (c.2 - n)) (na + 4) n in
  seg m' (l1 ++ b :: rest_of c n ++ l2) base ∧ m' (na + 4) = n.
Proof.
  intros [S1 (S2 & S3 & S4 & S5 & S6)]%seg_app (R1 & R2 & (R3 & R4 & R5))%chain_app Hn na m'. cbn [hd_addr] in S1, S2.
  pose proof (endof_ge b R2). pose proof (endof_ge c R4).
  assert (Hl1 : ∀ d, d ∈ l1 → d.1 + 8 ≤ b.1) by (intros d Hd; destruct (chain_in _ _ _ _ R1 Hd) as (_ & C1 & C2); pose proof (endof_ge d C1); lia).
  assert (Hl2 : ∀ d, d ∈ l2 → c.1 + 8 * c.2 < d.1) by (intros d Hd; destruct (chain_in _ _ _ _ R5 Hd) as (C0 & _ & _); lia).
  unfold m', rest_of, na. destruct (Z.eqb_spec c.2 n) as [Heq|Hne]; cbn [app].
  - split; [|rewrite upd_other by lia; replace (c.1 + 8 * (c.2 - n) + 4) with (c.1 + 4) by lia; congruence].
    apply seg_app. split; [|cbn [seg]; rewrite upd_same, upd_other by lia; split_and!; [done | done|]].
    + eapply (seg_only_at b.1); [intros y Y1 Y2; by apply upd_other | intros d Hd; right; by apply Hl1 | exact S1].
    + eapply (seg_only_at b.1); [intros y Y1 Y2; by apply upd_other | intros d Hd; left; specialize (Hl2 d Hd); lia | exact S6].
  - split; [|by rewrite upd_same]. set (m2 := upd_mem _ _ _).
    assert (Hm2 : ∀ y, y < c.1 ∨ y = c.1 ∨ c.1 + 8 * c.2 ≤ y → m2 y = m y) by (intros y Hy; unfold m2; rewrite !upd_other by lia; done).
    apply seg_app. split; [|cbn [seg hd_addr fst snd]; split_and!].
    + eapply seg_frame; [|exact S1]. intros d Hd. specialize (Hl1 d Hd). split; apply Hm2; lia.
    + rewrite Hm2 by lia. done.
    + rewrite Hm2 by lia. done.
    + rewrite Hm2 by lia. done.
    + unfold m2. rewrite upd_other, upd_same by lia. done.
    + eapply seg_frame; [|exact S6]. intros d Hd. specialize (Hl2 d Hd). split; apply Hm2; lia.
Qed.

(** What was apart from the blocks is apart from their parts. *)
Lemma taken_keep bs bs' l1 b c l2 n d :
  nodes bs = l1 ++ b :: c :: l2 → nodes bs' = l1 ++ b :: rest_of c n ++ l2 → 1 ≤ n ≤ c.2 → outside bs d →
  outside bs' d ∧ apart d (c.1 + 8 * (c.2 - n), n).
Proof.
  intros Hn Hn' Hle (U1 & U2 & U3). assert (Hc : apart d c).
  { apply U3. destruct l1; injection Hn as _ Hn; rewrite Hn; [left | apply elem_of_app; right; right; left]. }
  split; [|unfold apart in *; cbn in *; lia]. split_and!; [done | done|]. intros e He.
  assert (Hin : ∀ l e, e ∈ l ++ b :: rest_of c n ++ l2 → e ∈ rest_of c n ∨ e ∈ l ++ b :: c :: l2).
  { intros l f. rewrite !elem_of_app, !elem_of_cons, elem_of_app. tauto. }
  destruct l1 as [|f l1]; injection Hn as Hf Hn; injection Hn' as Hf' Hn'.
  all: rewrite Hn' in He; rewrite Hn in U3.
  - apply elem_of_app in He as [He|He]; [|apply U3; by right]. unfold rest_of in He. destruct (_ =? _); [by apply elem_of_nil in He|].
    apply list_elem_of_singleton in He as ->. unfold apart in *. cbn in *. lia.
  - destruct (Hin _ e He) as [Hr|Hr]; [|by apply U3]. unfold rest_of in Hr. destruct (_ =? _); [by apply elem_of_nil in Hr|].
    apply list_elem_of_singleton in Hr as ->. unfold apart in *. cbn in *. lia.
Qed.

Lemma wp_take h bs l1 b c l2 n (Q : Z → heap → Prop) E :
  heap_ok h bs → nodes bs = l1 ++ b :: c :: l2 → 1 ≤ n ≤ c.2 →
  (∀ r h' bs', r ≠ 0 → hbrk h' = hbrk h → hlim h' = hlim h → allocated h bs [] n r h' bs' → Q r h') →
  wp (p ← (if c.2 =? n then q ← ptr c.1; set_ptr b.1 q;; mret c.1
           else set_size c.1 (u32 (c.2 - n));;
                let p := padd c.1 (u32 (c.2 - n)) in set_size p n;; mret p);
      modify (fun h => h <| freep := b.1 |>);; mret (padd p 1)) Q E h.
Proof.
  intros Hok Hn Hle HQ. pose proof Hok as [H1 H2 H3 H4 H5]. destruct (taken_list h bs l1 b c l2 n Hok Hn Hle) as (bs' & Hn' & Hsz' & Hch' & Hcells & Hin).
  rewrite Hn in H1, H2. destruct (taken_seg _ _ _ _ _ _ _ _ H1 H2 Hle) as [Hseg' Hna]. rewrite <-Hn' in Hseg'.
  set (na := c.1 + 8 * (c.2 - n)) in *.
  pose proof H2 as (R1 & R2 & (R3 & R4 & R5))%chain_app. apply chain_le in R5 as R6. pose proof (endof_ge b R2) as Eb. pose proof (endof_ge c R4) as Ec.
  assert (Hb0 : base ≤ b.1) by (apply chain_le in R1; lia).
  set (m' := if c.2 =? n then _ else _) in *.
  assert (Hgoal : Q (na + 8) (mkheap m' b.1 (hbrk h) (hlim h))).
  { assert (Hback : na + 8 - 8 = na) by lia. apply (HQ _ _ bs'); [lia | done | done|]. split; rewrite ?Hback; cbn [hmem hbrk].
    - by split.
    - by rewrite app_nil_r.
    - exact Hna.
    - split_and!; [cbn; lia | cbn; lia|]. intros d Hd. eapply (taken_apart _ _ _ _ _ _ _ d H2 Hle). rewrite <-Hn'. by right.
    - lia.
    - assert (Hl : length (nodes bs') = length (l1 ++ b :: rest_of c n ++ l2)) by (by rewrite Hn'). assert (Hl' : length (nodes bs) = length (l1 ++ b :: c :: l2)) by (by rewrite Hn).
      revert Hl Hl'. rewrite !length_app. cbn. rewrite length_app. unfold rest_of. destruct (_ =? _); cbn; lia.
    - rewrite app_nil_r. intros d Hd. by eapply taken_keep.
    - rewrite app_nil_r. intros d y (U1 & U2 & U3) Hy. cbn [hmem].
      assert (Hdc : c.1 + 8 * c.2 ≤ d.1 ∨ d.1 + 8 * d.2 ≤ c.1).
      { destruct (U3 c) as [|]; [destruct l1; injection Hn as _ Hn; rewrite Hn; [left | apply elem_of_app; right; right; left] | by right | by left]. }
      assert (Hdb : d.1 + 8 * d.2 ≤ b.1 ∨ b.1 + 8 ≤ d.1).
      { assert (Hbn : b ∈ nodes bs) by (rewrite Hn; apply elem_of_app; right; left). apply elem_of_cons in Hbn as [->|Hbn]; [right; cbn; lia|].
        assert (1 ≤ b.2) by (rewrite Forall_forall in H3; by apply H3). destruct (U3 b Hbn); lia. }
      unfold m'. destruct (_ =? _); rewrite !upd_other by lia; done. }
  unfold m' in Hgoal. destruct (Z.eqb_spec c.2 n) as [Heq|Hne].
  - wp_step. wp_step. apply wp_ptr. wp_step. unfold set_ptr, st. wp_step. do 4 wp_step. rewrite padd_id by lia.
    replace (c.1 + 8 * 1) with (na + 8) by lia. exact Hgoal.
  - rewrite u32_id by lia. unfold set_size, st. wp_step. wp_step. wp_step. cbv zeta. wp_step. wp_step. do 4 wp_step. rewrite !padd_id by (rewrite ?padd_id; lia).
    exact Hgoal.
Qed.

(** *** The search of malloc *)
Section search.
Context (h : heap) (bs : list (Z * Z)) (n : Z) (Q : Z → heap → Prop) (E : stop → heap → Prop).
Context (Hok : heap_ok h bs) (Hn : 1 ≤ n).
Context (HQ : ∀ r h' bs', r ≠ 0 → hbrk h' = hbrk h → hlim h' = hlim h → allocated h bs [] n r h' bs' → Q r h').

(** One block is looked at: it is taken, or too small. *)
Lemma wp_visit fuel L b c R :
  nodes bs = L ++ b :: c :: R →
  (c.2 < n → wp (f ← gets freep;
       r ← (if c.1 =? f then p ← morecore fuel n; mret (if p =? 0 then None else Some p) else mret (Some c.1));
       match r, fuel with
       | None, _ => mret 0
       | Some p, O => stop_with NoFuel
       | Some p, S fuel => q ← ptr p; malloc_loop fuel n p q
       end) Q E h) →
  wp (malloc_loop fuel n b.1 c.1) Q E h.
Proof.
  intros Hs Hmiss. pose proof (ho_seg _ _ Hok) as Hseg. rewrite Hs in Hseg. apply seg_app in Hseg as [_ (_ & _ & _ & Hc & _)].
  assert (Hgo : wp (if c.2 >=? n then
      p ← (if c.2 =? n then q ← ptr c.1; set_ptr b.1 q;; mret c.1
           else set_size c.1 (u32 (c.2 - n));; let p := padd c.1 (u32 (c.2 - n)) in set_size p n;; mret p);
      modify (fun h => h <| freep := b.1 |>);; mret (padd p 1)
    else f ← gets freep;
       r ← (if c.1 =? f then p ← morecore fuel n; mret (if p =? 0 then None else Some p) else mret (Some c.1));
       match r, fuel with
       | None, _ => mret 0
       | Some p, O => stop_with NoFuel
       | Some p, S fuel => q ← ptr p; malloc_loop fuel n p q
       end) Q E h).
  { destruct (Z.geb_spec c.2 n) as [Hge|Hlt]; [|by apply Hmiss]. eapply wp_take; [exact Hok | exact Hs | lia | exact HQ]. }
  destruct fuel; cbn [malloc_loop]; wp_step; apply wp_size; rewrite Hc; exact Hgo.
Qed.

Lemma wp_walk_seg S fuel L b R :
  nodes bs = L ++ b :: S ++ R → (∀ c, c ∈ S → c.1 ≠ freep h) → (length S ≤ fuel)%nat →
  (∀ L' b', Forall (fun c => c.2 < n) S → nodes bs = L' ++ b' :: R → wp (malloc_loop (fuel - length S) n b'.1 (hd_addr R base)) Q E h) →
  wp (malloc_loop fuel n b.1 (hd_addr (S ++ R) base)) Q E h.
Proof.
  revert fuel L b. induction S as [|c S IH]; intros fuel L b Hs Hne Hf HR.
  { cbn in HR. rewrite Nat.sub_0_r in HR. by eapply HR. }
  cbn [app hd_addr]. eapply (wp_visit fuel L b c (S ++ R)); [done|]. intros Hsmall.
  do 2 wp_step. rewrite (proj2 (Z.eqb_neq _ _)) by (apply Hne; left). do 2 wp_step. destruct fuel as [|fuel]; [cbn in Hf; lia|].
  assert (Hs' : nodes bs = (L ++ [b]) ++ c :: S ++ R) by (by rewrite <-app_assoc).
  pose proof (ho_seg _ _ Hok) as Hseg. rewrite Hs' in Hseg. apply seg_app in Hseg as [_ (Hc & _)].
  wp_step. apply wp_ptr. rewrite Hc. apply (IH fuel (L ++ [b]) c Hs'); [intros d Hd; apply Hne; by right | cbn in Hf; lia|].
  intros L' b' HS Hs2. cbn in HR. apply (HR L' b'); [by constructor | done].
Qed.

(** Once around the list: a block is taken, or all are too small. *)
Lemma wp_round fuel :
  (length bs < fuel)%nat →
  (∀ fuel', Forall (fun c => c.2 < n) bs → (fuel ≤ fuel' + length bs + 1)%nat → wp (
       r ← (p ← morecore fuel' n; mret (if p =? 0 then None else Some p));
       match r, fuel' with
       | None, _ => mret 0
       | Some p, O => stop_with NoFuel
       | Some p, S fuel => q ← ptr p; malloc_loop fuel n p q
       end) Q E h) →
  wp (malloc_loop fuel n (freep h) (hmem h (freep h))) Q E h.
Proof.
  intros Hf HM. destruct (freep_split h bs Hok) as (L & nf & R & Hs). pose proof (ho_seg _ _ Hok) as Hseg. pose proof (ho_chain _ _ Hok) as Hch.
  rewrite Hs in Hch. apply chain_app in Hch as (C1 & C2 & C3). cbn [fst snd] in C2. pose proof (endof_ge (freep h, nf) C2) as He. cbn [fst snd] in He.
  assert (HRne : ∀ c, c ∈ R → c.1 ≠ freep h) by (intros c Hc; destruct (chain_in _ _ _ _ C3 Hc) as (? & _ & _); lia).
  assert (HLne : ∀ c, c ∈ L → c.1 ≠ freep h).
  { intros c Hc. destruct (chain_in _ _ _ _ C1 Hc) as (_ & ? & ?). pose proof (endof_ge c). cbn [fst] in *. lia. }
  assert (Hlen : (length L + length R = length bs)%nat).
  { assert (Hl : length (nodes bs) = length (L ++ (freep h, nf) :: R)) by (by rewrite Hs). rewrite length_app in Hl. cbn in Hl. lia. }
  assert (Hptr : hmem h (freep h) = hd_addr R base) by (rewrite Hs in Hseg; by apply seg_app in Hseg as [_ (Hp & _)]). rewrite Hptr.
  assert (Hend : ∀ fuel' L' b', nodes bs = L' ++ b' :: (freep h, nf) :: R → Forall (fun c => c.2 < n) R → Forall (fun c => c.2 < n) L →
      (fuel ≤ fuel' + length bs + 1)%nat → wp (malloc_loop fuel' n b'.1 (freep h)) Q E h).
  { intros fuel' L' b' Hs' HR HL Hf'. change (freep h) with (freep h, nf).1. eapply wp_visit; [exact Hs'|]. intros Hsmall. do 2 wp_step.
    cbn [fst]. rewrite Z.eqb_refl. apply HM; [|done]. assert (Hall : Forall (fun c => c.2 < n) (nodes bs)) by (rewrite Hs; apply Forall_app; split; [done | by constructor]).
    by apply Forall_cons in Hall as [_ Hall]. }
  replace (hd_addr R base) with (hd_addr (R ++ []) base) by (by rewrite app_nil_r). change (freep h) with (freep h, nf).1.
  eapply wp_walk_seg; [by rewrite app_nil_r; exact Hs | done | lia|]. intros L' b' HR Hs'. cbn [hd_addr].
  destruct Hseg as (Hb1 & Hb2 & _). cbn [fst snd] in Hb1, Hb2. destruct L as [|d L]; [injection Hs as Hd Hnf Hs | injection Hs as Hd Hs].
  - assert (Hmiss : wp (f ← gets freep;
       r ← (if base =? f then p ← morecore (fuel - length R) n; mret (if p =? 0 then None else Some p) else mret (Some base));
       match r, (fuel - length R)%nat with
       | None, _ => mret 0
       | Some p, O => stop_with NoFuel
       | Some p, S fuel => q ← ptr p; malloc_loop fuel n p q
       end) Q E h).
    { do 2 wp_step. rewrite <-Hd, Z.eqb_refl. apply HM; [by rewrite Hs | cbn in Hlen; lia]. }
    destruct (fuel - length R)%nat; cbn [malloc_loop]; wp_step; apply wp_size; rewrite Hb2, geb_false by lia; exact Hmiss.
  - destruct (fuel - length R)%nat as [|f2] eqn:Ef; [cbn in Hlen; lia|]. cbn [malloc_loop]. wp_step. apply wp_size. rewrite Hb2, geb_false by lia.
    do 2 wp_step. subst d. rewrite (proj2 (Z.eqb_neq _ _)) by (apply (HLne (base, 0)); left). do 2 wp_step. wp_step. apply wp_ptr. rewrite Hb1, Hs.
    change base with (base, 0).1 at 1. eapply (wp_walk_seg L f2 [] (base, 0) ((freep h, nf) :: R)); [by rewrite Hs | | cbn in Hlen; lia|].
    { intros c Hc. apply HLne. by right. }
    intros L2 b2 HL2 Hs2. cbn [hd_addr fst]. eapply Hend; [exact Hs2 | done | | cbn in Hlen; lia]. constructor; [cbn; lia | done].
Qed.
End search.

(** *** More memory *)
Definition more (n : Z) : Z := if n <? 4096 then 4096 else n.

Lemma heap_ok_grow h bs h1 :
  heap_ok h bs → freep h1 = freep h → hbrk h ≤ hbrk h1 ≤ hlim h1 → hlim h1 = hlim h → (∀ x, x < hbrk h → hmem h1 x = hmem h x) → heap_ok h1 bs.
Proof.
  intros [H1 H2 H3 H4 H5] Hf Hb Hl Hm. split; [|by eapply chain_weaken; [exact H2 | lia | lia] | done | lia | by rewrite Hf].
  eapply seg_frame; [|exact H1]. intros b Hbn. destruct (chain_in _ _ _ _ H2 Hbn) as (_ & C1 & C2). pose proof (endof_ge b C1). split; apply Hm; lia.
Qed.

Lemma fresh_outside h bs n : heap_ok h bs → 1 ≤ n → outside bs (hbrk h, n).
Proof.
  intros [H1 H2 H3 H4 H5] Hn. split_and!; [cbn; lia | done|]. intros b Hb. right. cbn.
  destruct (chain_in _ _ _ b H2) as (_ & C1 & C2); [by right|]. pose proof (endof_ge b C1). lia.
Qed.

Lemma wp_morecore fuel h bs n (Q : Z → heap → Prop) E :
  heap_ok h bs → 1 ≤ n → 8 * more n < 2 ^ 31 → (2 * length bs + 2 ≤ fuel)%nat →
  (hlim h < hbrk h + 8 * more n → Q 0 h) →
  (∀ h' bs', hbrk h + 8 * more n ≤ hlim h → heap_ok h' bs' → cells bs' ≡ₚ cells1 (hbrk h, more n) ++ cells bs → freep h' ≠ 0 → hbrk h ≤ hbrk h' →
     (length bs' ≤ S (length bs))%nat → untouched ((hbrk h, more n) :: bs) h h' →
     (∀ c, outside ((hbrk h, more n) :: bs) c → outside bs' c) → (∃ d, d ∈ bs' ∧ n ≤ d.2) → Q (freep h') h') →
  wp (morecore fuel n) Q E h.
Proof.
  intros Hok Hn Hmax Hf HN HS. pose proof (ho_lim _ _ Hok) as H4. unfold morecore. fold (more n). cbv zeta. assert (Hmn : 4096 ≤ more n ∧ n ≤ more n) by (unfold more; destruct (Z.ltb_spec n 4096); lia).
  unfold HDR. rewrite (u32_id (more n * 8)), i32_id by (unfold INT_MIN, INT_MAX; lia). unfold sbrk. wp_step. do 4 wp_step. replace (more n * 8) with (8 * more n) by lia.
  destruct (Z.leb_spec (hbrk h + 8 * more n) (hlim h)) as [Hle|Hgt].
  2:{ wp_step. change (u32 (-1) =? u32 (-1)) with true. cbv iota. wp_step. by apply HN. }
  do 3 wp_step. rewrite (proj2 (Z.eqb_neq _ _)) by (change (u32 (-1)) with (2 ^ 32 - 1); lia). unfold set_size, st. do 2 wp_step. wp_step.
  set (h1 := mkheap (upd_mem (hmem h) (hbrk h + 4) (more n)) (freep h) (hbrk h + 8 * more n) (hlim h)).
  change (wp (free fuel (padd (hbrk h) 1)) (fun _ s' => wp (gets freep) Q E s') E h1). rewrite padd_id by lia.
  assert (Hok1 : heap_ok h1 bs) by (eapply heap_ok_grow; [exact Hok | done | cbn; lia | done | intros x Hx; cbn; apply upd_other; lia]).
  assert (Hback : hbrk h + 8 * 1 - 8 = hbrk h) by lia.
  eapply (wp_free fuel h1 bs (hbrk h + 8 * 1) (more n)); rewrite ?Hback; [exact Hok1 | cbn; apply upd_same | apply fresh_outside; [done | lia] | cbn; lia | done|].
  intros h' bs' F1 F2 F3 F4 F5 F6 F7 (d & F8 & F9) F10. wp_step. apply HS with bs'; [done | done | done | done | rewrite F3; cbn; lia | done | | done | exists d; split; [done | lia]].
  intros c x Hc Hx. rewrite (F6 c x Hc Hx). cbn. apply upd_other. destruct Hc as (_ & _ & Hc). destruct (Hc (hbrk h, more n) ltac:(left)); cbn in *; lia.
Qed.

(** *** malloc *)
Lemma units_eq nbytes : 0 ≤ nbytes < 2 ^ 31 → units nbytes = (nbytes + 7) / 8 + 1 ∧ 1 ≤ units nbytes ∧ nbytes ≤ 8 * (units nbytes - 1).
Proof.
  intros Hn. assert (He : units nbytes = (nbytes + 7) / 8 + 1).
  { unfold units, HDR. replace (nbytes + 8 - 1) with (nbytes + 7) by lia. rewrite !u32_id; [done | lia | rewrite ?u32_id; dlia]. }
  split; [done|]. rewrite He. dlia.
Qed.

(** Before the first call there is no list. *)
Definition ready (h : heap) (bs : list (Z * Z)) : Prop :=
  heap_ok h bs ∨ freep h = 0 ∧ bs = [] ∧ 0 < base ∧ base + 8 ≤ hbrk h ≤ hlim h ∧ hlim h ≤ 2 ^ 31.

Definition malloc_result (h : heap) (bs : list (Z * Z)) (n r : Z) (h' : heap) : Prop :=
  (r = 0 ∧ heap_ok h' bs ∧ untouched bs h h' ∧ hbrk h' = hbrk h ∧ hlim h' = hlim h ∧
     Forall (fun c => c.2 < n) bs ∧ hlim h < hbrk h + 8 * more n) ∨
  (r ≠ 0 ∧ ∃ bs' fresh, allocated h bs fresh n r h' bs' ∧
     (fresh = [] ∨ fresh = [(hbrk h, more n)] ∧ Forall (fun c => c.2 < n) bs)).

Lemma wp_malloc_loop fuel h bs n (Q : Z → heap → Prop) E :
  heap_ok h bs → 1 ≤ n → 8 * more n < 2 ^ 31 → (4 * length bs + 8 ≤ fuel)%nat →
  (∀ r h', malloc_result h bs n r h' → Q r h') →
  wp (malloc_loop fuel n (freep h) (hmem h (freep h))) Q E h.
Proof.
  intros Hok Hn Hmax Hf HQ. eapply (wp_round h bs n Q E Hok Hn); [|lia|].
  { intros r h' bs' Hr Hb Hl Ha. apply HQ. right. split; [done|]. exists bs', []. split; [done | by left]. }
  intros fuel' Hsmall Hf'. wp_step. wp_step. eapply wp_morecore; [exact Hok | done | done | lia | |].
  - intros Hlim. wp_step. change (0 =? 0) with true. cbv iota. wp_step. apply HQ. left. split_and!; done.
  - intros h2 bs2 M1 M2 M3 M4 M0 M5 M6 M7 (d & M8 & M9). rewrite (proj2 (Z.eqb_neq _ _)) by done. wp_step.
    destruct fuel' as [|f2]; [lia|]. cbv iota. wp_step. apply wp_ptr. eapply (wp_round h2 bs2 n Q E M2 Hn); [|lia|].
    + intros r h' bs' Hr Hb Hl [A1 A2 A3 A4 A5 A7 A8 A6]. apply HQ. right. split; [done|]. exists bs', [(hbrk h, more n)]. split; [|by right].
      assert (Hcons : ∀ c, outside (bs ++ [(hbrk h, more n)]) c → outside ((hbrk h, more n) :: bs) c).
      { intros c (U1 & U2 & U3). split_and!; [done | done|]. intros e [->|He]%elem_of_cons; apply U3, elem_of_app; [right; left | by left]. }
      split; [done | | done | done | lia | cbn in *; lia | intros c Hc; apply A8; rewrite app_nil_r; by apply M7, Hcons|].
      * rewrite A2, M3. unfold cells. cbn. rewrite !app_nil_r. solve_Permutation.
      * intros c x Hc%Hcons Hx.
        rewrite <-(M6 c x) by done. apply A6 with c; [rewrite app_nil_r; by apply M7 | done].
    + intros f3 Hs3 _. rewrite Forall_forall in Hs3. specialize (Hs3 d M8). cbn in Hs3. lia.
Qed.

Lemma wp_malloc fuel h bs nbytes :
  ready h bs → 1 ≤ units nbytes → 8 * more (units nbytes) < 2 ^ 31 → (4 * length bs + 8 ≤ fuel)%nat →
  wpt (malloc base fuel nbytes) (malloc_result h bs (units nbytes)) h.
Proof.
  intros Hr U2 Hmax Hf.
  unfold malloc. do 2 wp_step. destruct Hr as [Hok|(Hf0 & -> & Hb & Hl)].
  - assert (Hf0 : freep h ≠ 0).
    { pose proof (ho_free _ _ Hok) as Hin. apply list_elem_of_fmap in Hin as (b & -> & Hin). destruct (chain_in _ _ _ _ (ho_chain _ _ Hok) Hin) as (? & _ & _).
      pose proof (ho_lim _ _ Hok). lia. }
    rewrite (proj2 (Z.eqb_neq _ _)) by done. do 2 wp_step. wp_step. apply wp_ptr. eapply wp_malloc_loop; [exact Hok | done | done | done | done].
  - rewrite Hf0. cbn [Z.eqb]. unfold set_ptr, set_size, st. wp_run. apply wp_ptr.
    set (h1 := mkheap (upd_mem (upd_mem (hmem h) base base) (base + 4) 0) base (hbrk h) (hlim h)).
    assert (Hok1 : heap_ok h1 []).
    { split; [| cbn; lia | constructor | done | left]. cbn. rewrite upd_same, upd_other, upd_same by lia. done. }
    change (wp (malloc_loop fuel (units nbytes) (freep h1) (hmem h1 (freep h1))) (malloc_result h [] (units nbytes)) never h1).
    assert (Hunt : ∀ l, untouched l h h1).
    { intros l c x (C1 & C2 & _) Hx. cbn. rewrite !upd_other by lia. done. }
    eapply wp_malloc_loop; [exact Hok1 | done | done | done|]. intros r h' [(R1 & R2 & R3 & R4)|(R1 & bs' & fresh & [A1 A2 A3 A4 A5 A7 A8 A6] & R2)].
    + left. split_and!; [done | done | | apply R4..]. intros c x Hc Hx. rewrite (R3 c x Hc Hx). by apply Hunt with [] c.
    + right. split; [done|]. exists bs', fresh. split; [|done]. split; [done..|]. intros c x Hc Hx. rewrite (A6 c x Hc Hx). by apply Hunt with ([] ++ fresh) c.
Qed.

(** [malloc] of up to two gigabytes, with any free list.  It returns null
    exactly when no free block is large enough and the process cannot grow, and
    then the list is as it was.  Otherwise it returns a block of enough units
    that were free or new before and that are free no longer, its header says
    its size, the list is well formed and coalesced, and nothing outside the
    free blocks has changed. *)
Theorem malloc_correct fuel h bs nbytes :
  ready h bs → 0 ≤ nbytes < 2 ^ 31 - 32768 → (4 * length bs + 8 ≤ fuel)%nat →
  ∃ r h', malloc base fuel nbytes h = Ok r h' ∧ malloc_result h bs (units nbytes) r h' ∧ nbytes ≤ 8 * (units nbytes - 1).
Proof.
  intros Hr Hn Hf. destruct (units_eq nbytes ltac:(lia)) as (U1 & U2 & U3).
  destruct (proj1 (wpt_ok _ _ _) (wp_malloc fuel h bs nbytes Hr U2 ltac:(rewrite U1; unfold more; destruct (Z.ltb_spec ((nbytes + 7) / 8 + 1) 4096); dlia) Hf))
    as (r & h' & Hrun & Hres). by exists r, h'.
Qed.

(** The number of units is computed in 32 bits: for the last seven sizes it
    wraps to one, and [malloc] hands out a header without any room where it
    should refuse. *)
Theorem malloc_wraps fuel h bs nbytes :
  ready h bs → 2 ^ 32 - 7 ≤ nbytes < 2 ^ 32 → (4 * length bs + 8 ≤ fuel)%nat → hbrk h + 8 * 4096 ≤ hlim h →
  ∃ r h', malloc base fuel nbytes h = Ok r h' ∧ r ≠ 0 ∧ hmem h' (r - 8 + 4) = 1.
Proof.
  intros Hr Hn Hf Hlim. assert (U : units nbytes = 1).
  { unfold units, HDR. replace (u32 (nbytes + 8 - 1)) with (nbytes + 7 - 2 ^ 32).
    - rewrite Z.div_small by lia. done.
    - unfold u32. apply Z.mod_unique with 1; lia. }
  assert (Hw := wp_malloc fuel h bs nbytes Hr). rewrite U in Hw.
  destruct (proj1 (wpt_ok _ _ _) (Hw ltac:(lia) ltac:(by vm_compute) Hf)) as (r & h' & Hrun & [(_ & _ & _ & _ & _ & _ & Hno)|(Hr0 & bs' & fresh & [_ _ A3 _ _ _ _ _] & _)]).
  - change (more 1) with 4096 in Hno. lia.
  - by exists r, h'.
Qed.

(** [free] of a block that is in use and has its header.  The units are
    free again and nothing else is; the list is in address order with no two
    blocks next to each other, however the neighbours were; everything outside
    the block and the free blocks is as it was. *)
Theorem free_correct fuel h bs ap n :
  heap_ok h bs → hmem h (ap - 8 + 4) = n → outside bs (ap - 8, n) → ap - 8 + 8 * n ≤ hbrk h → (2 * length bs + 2 ≤ fuel)%nat →
  ∃ h' bs', free fuel ap h = Ok tt h' ∧ heap_ok h' bs' ∧ cells bs' ≡ₚ cells1 (ap - 8, n) ++ cells bs ∧ untouched ((ap - 8, n) :: bs) h h'.
Proof.
  intros Hok Hsz Hout Hb Hf.
  assert (Hw : wpt (free fuel ap) (fun _ h' => ∃ bs', heap_ok h' bs' ∧ cells bs' ≡ₚ cells1 (ap - 8, n) ++ cells bs ∧ untouched ((ap - 8, n) :: bs) h h') h).
  { eapply wp_free; [done..|]. intros h' bs' F1 F2 _ _ _ F3 _ _ _. by exists bs'. }
  apply wpt_ok in Hw as ([] & h' & Hrun & bs' & Hres). by exists h', bs'.
Qed.

(** ** A client

    It calls [malloc] and [free] in any order and stores into the blocks it
    has; a block is given by its number in the list of those in use. *)
Inductive request := Malloc (nbytes : Z) | Free (i : nat) | Write (i : nat) (off v : Z).

Definition lift {A} (m : M heap A) : M (heap * list (Z * Z)) A := zoom fst (fun h s => (h, s.2)) m.

Definition client (fuel : nat) (q : request) : M (heap * list (Z * Z)) unit :=
  own ← gets snd;
  match q with
  | Malloc nbytes =>
      r ← lift (malloc base fuel nbytes);
      when (negb (r =? 0)) (modify (fun s => (s.1, (r - 8, units nbytes) :: s.2)))
  | Free i =>
      match own !! i with
      | Some b => lift (free fuel (b.1 + 8));; modify (fun s => (s.1, delete i s.2))
      | None => mret tt
      end
  | Write i off v =>
      match own !! i with
      | Some b => when ((8 <=? off) && (off <? 8 * b.2)) (lift (st (b.1 + off) v))
      | None => mret tt
      end
  end.

Definition run_client (fuel : nat) (l : list request) : M (heap * list (Z * Z)) unit := for_each l (client fuel).

Record client_ok (h : heap) (own bs : list (Z * Z)) : Prop := {
  co_ready : ready h bs;
  co_init : own = [] ∨ heap_ok h bs;
  co_out : ∀ b, b ∈ own → outside bs b ∧ hmem h (b.1 + 4) = b.2 ∧ b.1 + 8 * b.2 ≤ hbrk h;
  co_apart : ∀ i j b c, own !! i = Some b → own !! j = Some c → i ≠ j → apart b c
}.

Definition fits (q : request) : Prop := match q with Malloc n => 0 ≤ n < 2 ^ 31 - 32768 | _ => True end.

Lemma apart_sym b c : apart b c → apart c b.
Proof. unfold apart. tauto. Qed.

Lemma ready_brk h bs : ready h bs → base + 8 ≤ hbrk h.
Proof. intros [Hok|?]; [pose proof (ho_lim _ _ Hok)|]; lia. Qed.

Lemma client_malloc fuel h own bs nbytes Q E :
  client_ok h own bs → fits (Malloc nbytes) → (4 * length bs + 8 ≤ fuel)%nat →
  (∀ h' own' bs', client_ok h' own' bs' → (length bs' ≤ S (length bs))%nat → Q tt (h', own')) →
  wp (client fuel (Malloc nbytes)) Q E (h, own).
Proof.
  intros [C1 _ C2 C3] Hn Hf HQ. destruct (units_eq nbytes ltac:(cbn in Hn; lia)) as (U1 & U2 & U3).
  unfold client. do 2 wp_step. wp_step. unfold lift. apply wp_zoom. cbn [fst snd].
  destruct (proj1 (wpt_ok _ _ _) (wp_malloc fuel h bs nbytes C1 U2 ltac:(rewrite U1; unfold more; cbn in Hn; destruct (Z.ltb_spec ((nbytes + 7) / 8 + 1) 4096); dlia) Hf))
    as (r & h' & Hrun & [(-> & R2 & R3 & R4 & R5 & _)|(Hr0 & bs' & fresh & [A1 A2 A3 A4 A5 A7 A8 A6] & Hfr)]); (eapply wp_eq; [exact Hrun|]).
  - cbn [Z.eqb negb when]. wp_step. apply (HQ h' own bs); [|lia]. split; [by left | by right | | done].
    intros b Hb. destruct (C2 b Hb) as (O1 & O2 & O3). split_and!; [done | | lia]. rewrite (R3 b); [done | done|]. destruct O1 as (_ & ? & _). lia.
  - rewrite (proj2 (Z.eqb_neq _ _)) by done. cbn [negb when]. wp_step. apply (HQ h' _ bs').
    2:{ destruct Hfr as [->|[-> _]]; cbn in A7; lia. }
    assert (Hkeep : ∀ b, b ∈ own → outside (bs ++ fresh) b).
    { intros b Hb. destruct (C2 b Hb) as ((O1 & O2 & O3) & _ & O4). split_and!; [done | done|]. intros d [Hd|Hd]%elem_of_app; [by apply O3|].
      destruct Hfr as [->|[-> _]]; [by apply elem_of_nil in Hd|]. apply list_elem_of_singleton in Hd as ->. left. cbn. lia. }
    split; [by left | by right | |].
    + intros b [->|Hb]%elem_of_cons; [cbn [fst snd]; split_and!; [done | done | lia]|]. destruct (C2 b Hb) as (O1 & O2 & O3).
      split_and!; [by apply A8, Hkeep | | lia]. rewrite (A6 b); [done | by apply Hkeep|]. destruct O1 as (_ & ? & _). lia.
    + intros [|i] [|j] b c Hb Hc Hij; cbn in Hb, Hc; [done | | | apply (C3 i j b c); [done | done | congruence]]; simplify_eq.
      * apply apart_sym, A8, Hkeep. by eapply list_elem_of_lookup_2.
      * apply A8, Hkeep. by eapply list_elem_of_lookup_2.
Qed.

Lemma lookup_deleted (own : list (Z * Z)) i j c :
  delete i own !! j = Some c → own !! (if decide (j < i)%nat then j else S j) = Some c.
Proof. case_decide; [by rewrite list_lookup_delete_lt | by rewrite list_lookup_delete_ge by lia]. Qed.

Lemma client_free fuel h own bs i Q E :
  client_ok h own bs → (4 * length bs + 8 ≤ fuel)%nat →
  (∀ h' own' bs', client_ok h' own' bs' → (length bs' ≤ S (length bs))%nat → Q tt (h', own')) →
  wp (client fuel (Free i)) Q E (h, own).
Proof.
  intros HC Hf HQ. pose proof HC as [_ C1 C2 C3]. unfold client. do 2 wp_step. cbn [snd]. destruct (own !! i) as [b|] eqn:Hi.
  2:{ wp_step. by apply (HQ h own bs); [|lia]. }
  assert (Hb : b ∈ own) by by eapply list_elem_of_lookup_2. destruct (C2 b Hb) as (O1 & O2 & O3). destruct C1 as [->|Hok]; [done|].
  wp_step. unfold lift. apply wp_zoom. cbn [fst snd]. assert (Hback : b.1 + 8 - 8 = b.1) by lia.
  eapply (wp_free fuel h bs (b.1 + 8) b.2); rewrite ?Hback; [done | done | by destruct b | done | lia|].
  intros h' bs' F1 F2 F3 F4 F5 F6 F7 _ _. wp_step. apply (HQ h' _ bs'); [|done].
  assert (Hne : ∀ c, c ∈ delete i own → c ∈ own ∧ apart c b).
  { intros c (j & Hj%lookup_deleted)%list_elem_of_lookup_1. split; [by eapply list_elem_of_lookup_2|]. eapply C3; [done | done|]. case_decide; lia. }
  assert (Hout : ∀ c, c ∈ delete i own → outside ((b.1, b.2) :: bs) c).
  { intros c Hc. destruct (Hne c Hc) as [Hc' Hcb]. destruct (C2 c Hc') as ((U1 & U2 & U3) & _). split_and!; [done | done|].
    intros d [->|Hd]%elem_of_cons; [by destruct b | by apply U3]. }
  split; [by left | by right | |].
  - intros c Hc. destruct (Hne c Hc) as [Hc' _]. destruct (C2 c Hc') as (U1 & U2 & U3). split_and!; [by apply F7, Hout | | lia].
    rewrite (F6 c); [done | by apply Hout|]. destruct U1 as (_ & ? & _). lia.
  - intros j k c d Hc%lookup_deleted Hd%lookup_deleted Hjk. eapply C3; [exact Hc | exact Hd|]. repeat case_decide; lia.
Qed.

Lemma client_write fuel h own bs i off v Q E :
  client_ok h own bs → (∀ h', client_ok h' own bs → Q tt (h', own)) → wp (client fuel (Write i off v)) Q E (h, own).
Proof.
  intros HC HQ. pose proof HC as [C1 C4 C2 C3]. unfold client. do 2 wp_step. cbn [snd]. destruct (own !! i) as [b|] eqn:Hi; [|wp_step; by apply HQ].
  apply wp_when; intros Hoff; [|by apply HQ]. apply andb_prop in Hoff as [Hlo%Z.leb_le Hhi%Z.ltb_lt].
  assert (Hb : b ∈ own) by by eapply list_elem_of_lookup_2. destruct (C2 b Hb) as (O1 & O2 & O3).
  unfold lift, st. apply wp_zoom. wp_step. cbn [fst snd]. apply HQ.
  assert (Hmem : ∀ x, (∀ y, b.1 + 8 ≤ y < b.1 + 8 * b.2 → x ≠ y) → upd_mem (hmem h) (b.1 + off) v x = hmem h x) by (intros x Hx; apply upd_other, Hx; lia).
  assert (Hnode : heap_ok h bs → heap_ok (h <| hmem := upd_mem (hmem h) (b.1 + off) v |>) bs).
  { intros [H1 H2 H3 H4 H5]. split; [|done..]. cbn [hmem update_field]. eapply seg_frame; [|exact H1]. intros d Hd.
    destruct O1 as (O1 & O4 & O5). apply elem_of_cons in Hd as [->|Hd]; cbn [fst]; [split; apply Hmem; intros y Hy; lia|].
    rewrite Forall_forall in H3. specialize (H3 d Hd). specialize (O5 d Hd). unfold apart in O5. cbn in H3. split; apply Hmem; intros y Hy; lia. }
  split; [destruct C1 as [Hok|C1]; [left; by apply Hnode | right; done] | destruct C4 as [?|Hok]; [by left | right; by apply Hnode] | | done].
  intros c Hc. destruct (C2 c Hc) as (U1 & U2 & U3). split_and!; [done | | done]. cbn [hmem update_field]. rewrite Hmem; [done|]. intros y Hy Hxy. rewrite <-Hxy in Hy.
  apply list_elem_of_lookup_1 in Hc as (j & Hj). destruct (decide (i = j)) as [<-|Hij]; [simplify_eq; lia|].
  specialize (C3 i j b c Hi Hj Hij). destruct U1 as (_ & ? & _), O1 as (_ & ? & _). unfold apart in C3. lia.
Qed.

(** However a client allocates, frees and writes into its blocks, no call
    stops, the blocks it has never overlap each other or the free ones, and the
    sizes in their headers stay. *)
Theorem umalloc_safe fuel h own bs l :
  client_ok h own bs → Forall fits l → (4 * (length bs + length l) + 8 ≤ fuel)%nat →
  ∃ h' own' bs', run_client fuel l (h, own) = Ok tt (h', own') ∧ client_ok h' own' bs'.
Proof.
  revert h own bs. induction l as [|q l IH]; intros h own bs HC Hl Hf; [by exists h, own, bs|].
  apply Forall_cons in Hl as [Hq Hl]. cbn [length] in Hf.
  assert (Hw : wpt (client fuel q) (fun _ s => ∃ bs', client_ok s.1 s.2 bs' ∧ (length bs' ≤ S (length bs))%nat) (h, own)).
  { destruct q as [n|i|i off v].
    - eapply client_malloc; [done | done | lia|]. intros h' own' bs' H1 H2. by exists bs'.
    - eapply client_free; [done | lia|]. intros h' own' bs' H1 H2. by exists bs'.
    - eapply client_write; [done|]. intros h' H1. exists bs. split; [done | lia]. }
  apply wpt_ok in Hw as ([] & [h1 own1] & Hrun & bs1 & H1 & H2). destruct (IH h1 own1 bs1 H1 Hl ltac:(lia)) as (h' & own' & bs' & Hrun' & Hok').
  exists h', own', bs'. split; [|done]. unfold run_client, for_each in *. cbn. m_unfold. by rewrite Hrun.
Qed.
End proofs.

(** ** A fresh process

    The static header at 4000, the heap from 8192 on, room for 64 kilobytes. *)
Definition fresh_heap : heap := mkheap (fun _ => 0) 0 8192 73728.

Lemma fresh_ready : ready 4000 fresh_heap [].
Proof. right. cbn. split_and!; done || lia. Qed.

Lemma malloc_correct_witness :
  ∃ r h', malloc 4000 20 100 fresh_heap = Ok r h' ∧ malloc_result 4000 fresh_heap [] (units 100) r h' ∧ 100 ≤ 8 * (units 100 - 1).
Proof. apply (malloc_correct 4000 20 fresh_heap [] 100 fresh_ready); [lia | cbn; lia]. Defined.

Lemma malloc_wraps_witness :
  ∃ r h', malloc 4000 20 (2 ^ 32 - 1) fresh_heap = Ok r h' ∧ r ≠ 0 ∧ hmem h' (r - 8 + 4) = 1.
Proof. apply (malloc_wraps 4000 20 fresh_heap [] (2 ^ 32 - 1) fresh_ready); [lia | cbn; lia | cbn; lia]. Defined.

(** Two free blocks around one in use. *)
Definition three_mem (x : Z) : Z :=
  if x =? 4000 then 8192 else if x =? 8192 then 8256 else if x =? 8196 then 4 else if x =? 8228 then 4
  else if x =? 8256 then 4000 else if x =? 8260 then 2 else 0.
Definition three_blocks : heap := mkheap three_mem 4000 8272 73728.

Lemma three_ok : heap_ok 4000 three_blocks [(8192, 4); (8256, 2)].
Proof.
  split; [by vm_compute | by vm_compute | repeat (constructor; [cbn; lia|]); constructor | cbn; lia | left].
Qed.

Lemma free_correct_witness :
  ∃ h' bs', free 10 8232 three_blocks = Ok tt h' ∧ heap_ok 4000 h' bs' ∧
    cells bs' ≡ₚ cells1 (8224, 4) ++ cells [(8192, 4); (8256, 2)] ∧ untouched 4000 [(8224, 4); (8192, 4); (8256, 2)] three_blocks h'.
Proof.
  apply (free_correct 4000 10 three_blocks [(8192, 4); (8256, 2)] 8232 4 three_ok); [reflexivity | | cbn; lia | cbn; lia].
  split_and!; [cbn; lia | cbn; lia|]. intros b [->|[->|[]%elem_of_nil]%elem_of_cons]%elem_of_cons; unfold apart; cbn; lia.
Defined.

Lemma umalloc_safe_witness :
  ∃ h' own' bs', run_client 4000 32 [Malloc 100; Malloc 8; Write 1 12 7; Free 1; Malloc 40000] (fresh_heap, []) = Ok tt (h', own') ∧
    client_ok 4000 h' own' bs'.
Proof.
  apply (umalloc_safe 4000 32 fresh_heap [] [] [Malloc 100; Malloc 8; Write 1 12 7; Free 1; Malloc 40000]).
  - split; [exact fresh_ready | by left | by intros b []%elem_of_nil | by intros i j b c Hb].
  - repeat (constructor; [cbn; lia || done|]); constructor.
  - cbn. lia.
Defined.
