(* ===== verification/Block.v ===== *)
(** * Disk blocks and the interface of the block cache (fs.h, buf.h)

    A block is a list of bytes.

    [BlockCache] is what bio.c promises to the layers above it, in terms of a
    [dstate]: what is on the disk, what the cache shows, which blocks are
    dirty and which buffers are locked by the caller.  log.c and fs.c are
    verified against the laws of the interface. *)
From stdpp Require Import gmap functions.
From S2P Require Import Prelude Bytes.

Definition BSIZE : Z := 512.
Definition FSSIZE : Z := 2000.

Abbreviation block := (list Z).
Abbreviation baddr := (Z * Z)%type.        (* device, block number *)

(** The super block, at block 1. *)
Record superblock := mksb {
  sb_size : Z; sb_nblocks : Z; sb_ninodes : Z; sb_nlog : Z;
  sb_logstart : Z; sb_inodestart : Z; sb_bmapstart : Z
}.

Definition decode_sb (d : block) : superblock :=
  mksb (get32 d 0) (get32 d 4) (get32 d 8) (get32 d 12) (get32 d 16) (get32 d 20) (get32 d 24).

(** ** The interface of the block cache *)
Record dstate := mkd {
  disk : baddr → block;               (* contents of the disk *)
  view : baddr → block;               (* contents as the cache shows them *)
  dirty : baddr → bool;               (* pinned by B_DIRTY *)
  held : gmap nat baddr               (* the buffers locked by the caller *)
}.
#[export] Instance dstate_eta : EtaRecord dstate := fun d =>
  mkd (disk d) (view d) (dirty d) (held d).

(** Two descriptions are the same when they agree on every block. *)
#[export] Instance dstate_equiv : Equiv dstate := fun d d' =>
  (∀ a, disk d a = disk d' a) ∧ (∀ a, view d a = view d' a) ∧
  (∀ a, dirty d a = dirty d' a) ∧ held d = held d'.

#[export] Instance dstate_equivalence : Equivalence (≡@{dstate}).
Proof.
  split.
  - by intros d.
  - intros d d' (H1 & H2 & H3 & H4). by repeat split.
  - intros d1 d2 d3 (H1 & H2 & H3 & H4) (G1 & G2 & G3 & G4).
    repeat split; intros; [rewrite H1 | rewrite H2 | rewrite H3 | rewrite H4]; auto.
Qed.

(** The operations of bio.c, on buffer handles, in any state that contains a
    block cache, and the part of a crashed state that survives. *)
Class BlockCache (S : Type) := {
  bread : Z → Z → M S nat;
  bufno : nat → M S Z;                    (* b->blockno *)
  get_data : nat → M S block;             (* b->data *)
  put_data : nat → block → M S unit;      (* memmove(b->data, ...) *)
  set_dirty : nat → M S unit;             (* b->flags |= B_DIRTY *)
  bwrite : nat → M S unit;
  brelse : nat → M S unit;
  rep : S → dstate → Prop;
  pdisk : S → baddr → block
}.

(** A stop, be it a panic or a loss of power, leaves the disk [d]. *)
Definition disk_kept {S} `{BlockCache S} (d : dstate) (w : stop) (s : S) : Prop :=
  ∀ a, pdisk s a = disk d a.

(** A block may be given back when nothing would be lost by evicting it. *)
Definition safe_block (d : dstate) (a : baddr) : Prop := dirty d a = true ∨ view d a = disk d a.

Class BlockLaws (S : Type) `{BlockCache S} : Prop := {
  rep_proper (s : S) d d' : d ≡ d' → rep s d → rep s d';
  rep_disk (s : S) d a : rep s d → pdisk s a = disk d a;
  bread_law (s : S) d dev n :
    rep s d → (∀ h, held d !! h ≠ Some (dev, n)) → 0 ≤ n < FSSIZE →
    wp (bread dev n) (fun h s' => held d !! h = None ∧
      rep s' (d <| held := <[h := (dev, n)]> (held d) |>)) (disk_kept d) s;
  bufno_law (s : S) d h a :
    rep s d → held d !! h = Some a → wpt (bufno h) (fun n s' => n = a.2 ∧ rep s' d) s;
  get_data_law (s : S) d h a :
    rep s d → held d !! h = Some a →
    wpt (get_data h) (fun x s' => x = view d a ∧ rep s' d) s;
  put_data_law (s : S) d h a x :
    rep s d → held d !! h = Some a →
    wpt (put_data h x) (fun _ s' => rep s' (d <| view := <[a := x]> (view d) |>)) s;
  set_dirty_law (s : S) d h a :
    rep s d → held d !! h = Some a →
    wpt (set_dirty h) (fun _ s' => rep s' (d <| dirty := <[a := true]> (dirty d) |>)) s;
  bwrite_law (s : S) d h a :
    rep s d → held d !! h = Some a →
    wp (bwrite h) (fun _ s' =>
      rep s' (d <| disk := <[a := view d a]> (disk d) |> <| dirty := <[a := false]> (dirty d) |>))
      (disk_kept d) s;
  brelse_law (s : S) d h a :
    rep s d → held d !! h = Some a → safe_block d a →
    wp (brelse h) (fun _ s' => rep s' (d <| held := delete h (held d) |>)) (disk_kept d) s
}.

(** ** A reference cache

    The simplest implementation of the interface: it holds every block, and a
    budget of disk writes after which the power fails. *)
Record refcache := mkrc { rc_d : dstate; rc_power : nat; rc_next : nat }.
#[export] Instance refcache_eta : EtaRecord refcache := fun r =>
  mkrc (rc_d r) (rc_power r) (rc_next r).

Module RefCache.
Definition addr (h : nat) : M refcache baddr := m ← gets (fun r => held (rc_d r)); deref (m !! h).

Definition bread (dev n : Z) : M refcache nat :=
  h ← gets rc_next;
  modify (fun r => r <| rc_d ::= fun d => d <| held ::= <[h := (dev, n)]> |> |> <| rc_next := S h |>);;
  mret h.
Definition bufno (h : nat) : M refcache Z := a ← addr h; mret a.2.
Definition get_data (h : nat) : M refcache block := a ← addr h; gets (fun r => view (rc_d r) a).
Definition put_data (h : nat) (x : block) : M refcache unit :=
  a ← addr h; modify (fun r => r <| rc_d ::= fun d => d <| view ::= <[a := x]> |> |>).
Definition set_dirty (h : nat) : M refcache unit :=
  a ← addr h; modify (fun r => r <| rc_d ::= fun d => d <| dirty ::= <[a := true]> |> |>).
Definition bwrite (h : nat) : M refcache unit :=
  a ← addr h;
  p ← gets rc_power;
  match p with
  | O => stop_with PowerLoss
  | S p => modify (fun r => r <| rc_power := p |> <| rc_d ::= fun d =>
             d <| disk := <[a := view d a]> (disk d) |> <| dirty := <[a := false]> (dirty d) |> |>)
  end.
Definition brelse (h : nat) : M refcache unit :=
  addr h;; modify (fun r => r <| rc_d ::= fun d => d <| held ::= delete h |> |>).
End RefCache.

#[export] Instance refcache_cache : BlockCache refcache := {|
  bread := RefCache.bread; bufno := RefCache.bufno; get_data := RefCache.get_data;
  put_data := RefCache.put_data; set_dirty := RefCache.set_dirty; bwrite := RefCache.bwrite;
  brelse := RefCache.brelse;
  rep r d := rc_d r ≡ d ∧ ∀ h, (rc_next r ≤ h)%nat → held d !! h = None;
  pdisk r := disk (rc_d r)
|}.

Lemma fn_insert_ext {A B} `{EqDecision A} (f g : A → B) (a : A) (x y : B) :
  x = y → (∀ b, f b = g b) → ∀ b, <[a := x]> f b = <[a := y]> g b.
Proof.
  intros -> H b. destruct (decide (a = b)) as [<-|].
  - by rewrite !fn_lookup_insert.
  - by rewrite !fn_lookup_insert_ne.
Qed.

Lemma wp_addr r d h a (Q : baddr → refcache → Prop) E :
  rep r d → held d !! h = Some a → Q a r → wp (RefCache.addr h) Q E r.
Proof.
  intros [(_ & _ & _ & Hh) _] Ha HQ. unfold RefCache.addr. do 2 wp_step.
  eapply wp_deref; [by rewrite Hh | done].
Qed.

#[export] Instance refcache_laws : BlockLaws refcache.
Proof.
  split.
  - intros r d d' He [Hr Hn]. split; [by rewrite Hr|]. destruct He as (_ & _ & _ & <-). done.
  - intros r d a [(Hd & _) _]. apply Hd.
  - intros r d dev n [(H1 & H2 & H3 & H4) Hn] _ _. cbn. unfold RefCache.bread. wp_run.
    split; [by apply Hn|]. split; [repeat split; cbn; auto; by rewrite H4|].
    cbn. intros h Hh. rewrite lookup_insert_ne by lia. apply Hn. lia.
  - intros r d h a Hr Ha. cbn. unfold RefCache.bufno. wp_step. eapply wp_addr; [done..|]. by wp_step.
  - intros r d h a Hr Ha. cbn. unfold RefCache.get_data. wp_step. eapply wp_addr; [done..|].
    wp_step. split; [|done]. apply Hr.
  - intros r d h a x Hr Ha. cbn. unfold RefCache.put_data. wp_step. eapply wp_addr; [done..|].
    wp_step. destruct Hr as [(H1 & H2 & H3 & H4) Hn]. split; [|done].
    repeat split; cbn; auto. by apply fn_insert_ext.
  - intros r d h a Hr Ha. cbn. unfold RefCache.set_dirty. wp_step. eapply wp_addr; [done..|].
    wp_step. destruct Hr as [(H1 & H2 & H3 & H4) Hn]. split; [|done].
    repeat split; cbn; auto. by apply fn_insert_ext.
  - intros r d h a Hr Ha. cbn. unfold RefCache.bwrite. wp_step. eapply wp_addr; [done..|].
    do 2 wp_step. destruct Hr as [(H1 & H2 & H3 & H4) Hn]. destruct (rc_power r) as [|p]; [exact H1|].
    wp_step. split; [|done]. repeat split; cbn; auto; by apply fn_insert_ext.
  - intros r d h a Hr Ha _. cbn. unfold RefCache.brelse. wp_step. eapply wp_addr; [done..|].
    wp_step. destruct Hr as [(H1 & H2 & H3 & H4) Hn]. split; [repeat split; cbn; auto; by rewrite H4|].
    cbn. intros j Hj. apply lookup_delete_None. auto.
Qed.
