(* ===== verification/Log.v ===== *)
(** * The write-ahead log (log.c)

    The log is a redo log of whole blocks: a header block with the numbers of
    the logged blocks, followed by their contents.  The routines are written
    against the interface [BlockCache]; a stop of any of them (a panic, or a
    loss of power between two disk writes) leaves whatever is on the disk.

    The theorems: a commit is atomic with respect to crashes, recovery is
    idempotent and may itself crash any number of times, and the reservation
    of [begin_op] bounds what [log_write] can be asked to hold. *)
From stdpp Require Import gmap functions.
From S2P Require Import Prelude Spinlock Bytes Block.

(** ** Constants and data *)
Definition MAXOPBLOCKS : Z := 10.
Definition LOGSIZE : Z := MAXOPBLOCKS * 3.

(** [struct log], with the CPU that runs the code and the cache below. *)
Record lsys (S : Type) := mklsys {
  cache : S;
  lcpu : cpu;
  log_lock : spinlock;
  log_start : Z;
  log_size : Z;
  outstanding : Z;
  committing : bool;
  log_dev : Z;
  lh_n : Z;
  lh_block : list Z                     (* int block[LOGSIZE] *)
}.
Arguments mklsys {S}.
Arguments cache {S}.
Arguments lcpu {S}.
Arguments log_lock {S}.
Arguments log_start {S}.
Arguments log_size {S}.
Arguments outstanding {S}.
Arguments committing {S}.
Arguments log_dev {S}.
Arguments lh_n {S}.
Arguments lh_block {S}.
#[export] Instance lsys_eta S : EtaRecord (lsys S) := fun l =>
  mklsys (cache l) (lcpu l) (log_lock l) (log_start l) (log_size l) (outstanding l)
    (committing l) (log_dev l) (lh_n l) (lh_block l).

Section log.
Context {C : Type} `{!BlockCache C}.
Abbreviation L := (M (lsys C)).

Definition inC {A} (m : M C A) : L A := zoom cache (fun c l => l <| cache := c |>) m.
Definition with_log_lock {A} (m : M (cpu * spinlock) A) : L A :=
  zoom (fun l => (lcpu l, log_lock l)) (fun x l => l <| lcpu := x.1 |> <| log_lock := x.2 |>) m.

Definition blockat (i : Z) : L Z := b ← gets lh_block; deref (array_get b i).

Definition install_trans : L unit :=
  n ← gets lh_n;
  for_each (seqZ 0 n) (fun tail =>
    dev ← gets log_dev;
    start ← gets log_start;
    lbuf ← inC (bread dev (u32 (start + tail + 1)));
    home ← blockat tail;
    dbuf ← inC (bread dev (u32 home));
    x ← inC (get_data lbuf);
    inC (put_data dbuf x);;
    inC (bwrite dbuf);;
    inC (brelse lbuf);;
    inC (brelse dbuf)).

Definition read_head : L unit :=
  dev ← gets log_dev;
  start ← gets log_start;
  buf ← inC (bread dev (u32 start));
  x ← inC (get_data buf);
  modify (fun l => l <| lh_n := i32 (get32 x 0) |>);;
  n ← gets lh_n;
  for_each (seqZ 0 n) (fun i =>
    x ← inC (get_data buf);
    b ← gets lh_block;
    b' ← deref (array_set b i (i32 (get32 x (Z.to_nat (4 + 4 * i)))));
    modify (fun l => l <| lh_block := b' |>));;
  inC (brelse buf).

Definition write_head : L unit :=
  dev ← gets log_dev;
  start ← gets log_start;
  buf ← inC (bread dev (u32 start));
  n ← gets lh_n;
  x ← inC (get_data buf);
  inC (put_data buf (put32 x 0 n));;
  for_each (seqZ 0 n) (fun i =>
    b ← blockat i;
    x ← inC (get_data buf);
    inC (put_data buf (put32 x (Z.to_nat (4 + 4 * i)) b)));;
  inC (bwrite buf);;
  inC (brelse buf).

Definition recover_from_log : L unit :=
  read_head;;
  install_trans;;
  modify (fun l => l <| lh_n := 0 |>);;
  write_head.

(** [readsb] of fs.c. *)
Definition readsb (dev : Z) : L superblock :=
  bp ← inC (bread dev 1);
  x ← inC (get_data bp);
  inC (brelse bp);;
  mret (decode_sb x).

Definition initlog (dev : Z) : L unit :=
  modify (fun l => l <| log_lock := initlock "log" |>);;
  sb ← readsb dev;
  modify (fun l => l <| log_start := i32 (sb_logstart sb) |>);;
  modify (fun l => l <| log_size := i32 (sb_nlog sb) |>);;
  modify (fun l => l <| log_dev := dev |>);;
  recover_from_log.

Definition write_log : L unit :=
  n ← gets lh_n;
  for_each (seqZ 0 n) (fun tail =>
    dev ← gets log_dev;
    start ← gets log_start;
    to ← inC (bread dev (u32 (start + tail + 1)));
    home ← blockat tail;
    from ← inC (bread dev (u32 home));
    x ← inC (get_data from);
    inC (put_data to x);;
    inC (bwrite to);;
    inC (brelse from);;
    inC (brelse to)).

Definition commit : L unit :=
  n ← gets lh_n;
  when (n >? 0)
    (write_log;;
     write_head;;
     install_trans;;
     modify (fun l => l <| lh_n := 0 |>);;
     write_head).

(** One round of the loop of [begin_op], under the lock: [true] when the
    operation is admitted, [false] when it has to sleep. *)
Definition begin_op_try : L bool :=
  c ← gets committing;
  if (c : bool) then mret false else
  n ← gets lh_n;
  o ← gets outstanding;
  if i32 (n + (o + 1) * MAXOPBLOCKS) >? LOGSIZE then mret false else
  modify (fun l => l <| outstanding := i32 (outstanding l + 1) |>);;
  mret true.

(** [sleep_log] is [sleep(&log, &log.lock)]; [fuel] bounds how often it is
    woken in vain. *)
Fixpoint begin_op_loop (sleep_log : L unit) (fuel : nat) : L unit :=
  match fuel with
  | O => stop_with NoFuel
  | S fuel =>
      admitted ← begin_op_try;
      if (admitted : bool) then with_log_lock release
      else sleep_log;; begin_op_loop sleep_log fuel
  end.

Definition begin_op (sleep_log : L unit) (fuel : nat) : L unit :=
  with_log_lock acquire;; begin_op_loop sleep_log fuel.

(** [wakeup_log] is [wakeup(&log)]. *)
Definition end_op (wakeup_log : L unit) : L unit :=
  with_log_lock acquire;;
  modify (fun l => l <| outstanding := i32 (outstanding l - 1) |>);;
  c ← gets committing;
  if (c : bool) then panic "log.committing" else
  o ← gets outstanding;
  let do_commit := o =? 0 in
  (if do_commit then modify (fun l => l <| committing := true |>) else wakeup_log);;
  with_log_lock release;;
  when do_commit
    (commit;;
     with_log_lock acquire;;
     modify (fun l => l <| committing := false |>);;
     wakeup_log;;
     with_log_lock release).

Definition log_write (b : nat) : L unit :=
  n ← gets lh_n;
  size ← gets log_size;
  if (n >=? LOGSIZE) || (n >=? size - 1) then panic "too big a transaction" else
  o ← gets outstanding;
  if o <? 1 then panic "log_write outside of trans" else
  with_log_lock acquire;;
  bn ← inC (bufno b);
  found ← for_list (seqZ 0 n) (fun i =>
    x ← blockat i;
    mret (if u32 x =? bn then Some i else None));
  let i := default n found in
  bl ← gets lh_block;
  bl' ← deref (array_set bl i (i32 bn));
  modify (fun l => l <| lh_block := bl' |>);;
  when (i =? n) (modify (fun l => l <| lh_n := i32 (lh_n l + 1) |>));;
  inC (set_dirty b);;
  with_log_lock release.
End log.

(** ** Effect of the log routines on the blocks

    [copy_one src dst] is a block copied through the cache and written. *)
Definition copy_one (src dst : baddr) (d : dstate) : dstate :=
  d <| view := <[dst := view d src]> (view d) |>
    <| disk := <[dst := view d src]> (disk d) |>
    <| dirty := <[dst := false]> (dirty d) |>.

(** The header block with the given block numbers written into it. *)
Definition put_entry (bs : list Z) (x : block) (i : Z) : block :=
  put32 x (Z.to_nat (4 + 4 * i)) (default 0 (bs !! Z.to_nat i)).
Definition encode_head (bs : list Z) (x : block) : block :=
  foldl (put_entry bs) (put32 x 0 (Z.of_nat (length bs))) (seqZ 0 (Z.of_nat (length bs))).

Definition store (a : baddr) (x : block) (d : dstate) : dstate :=
  d <| view := <[a := x]> (view d) |> <| disk := <[a := x]> (disk d) |>
    <| dirty := <[a := false]> (dirty d) |>.

Section log_proof.
Context {C : Type} `{!BlockCache C} `{!BlockLaws C}.
Context (dev start size : Z).
Context (Hgeo : 0 ≤ start ∧ 1 ≤ size ≤ LOGSIZE + 1 ∧ start + size ≤ FSSIZE).

Definition hdr : baddr := (dev, start).
Definition slotaddr (i : Z) : baddr := (dev, start + i + 1).
Definition homeaddr (b : Z) : baddr := (dev, b).

(** A list of block numbers the log can hold: distinct blocks of the file
    system, none of them in the log itself, no more than there are slots. *)
Record good_list (bs : list Z) : Prop := {
  gl_nodup : NoDup bs;
  gl_len : Z.of_nat (length bs) ≤ size - 1;
  gl_home : ∀ b, b ∈ bs → 0 ≤ b < FSSIZE ∧ (b < start ∨ start + size ≤ b)
}.

(** The in-memory log describes the list [bs]. *)
Record log_for (bs : list Z) (l : lsys C) : Prop := {
  lf_dev : log_dev l = dev;
  lf_start : log_start l = start;
  lf_n : lh_n l = Z.of_nat (length bs);
  lf_block : ∃ rest, lh_block l = bs ++ rest
}.

Lemma log_for_cache bs l c : log_for bs l → log_for bs (l <| cache := c |>).
Proof. intros [????]. by split. Qed.

Lemma wp_inC {A} (m : M C A) (Q : A → lsys C → Prop) E l :
  wp m (fun a c => Q a (l <| cache := c |>)) (fun w c => E w (l <| cache := c |>)) (cache l) →
  wp (inC m) Q E l.
Proof. intros Hm. unfold inC. apply wp_zoom. exact Hm. Qed.

Lemma wp_blockat bs l i b (Q : Z → lsys C → Prop) E :
  log_for bs l → bs !! Z.to_nat i = Some b → 0 ≤ i → Q b l → wp (blockat i) Q E l.
Proof.
  intros [_ _ _ [rest Hb]] Hi Hpos HQ. unfold blockat. do 2 wp_step. eapply wp_deref; [|done].
  apply array_get_Some. split; [done|]. rewrite Hb. by apply lookup_app_l_Some.
Qed.

(** The blocks of a stopped state are those of [d]. *)
Definition on_disk (d : dstate) (l : lsys C) : Prop := ∀ a, pdisk (cache l) a = disk d a.

Definition quiet_at (l : lsys C) (d : dstate) (l' : lsys C) : Prop :=
  ∃ c, l' = l <| cache := c |> ∧ rep c d.

Lemma wp_log_bread l d0 n (Q : nat → lsys C → Prop) E :
  rep (cache l) d0 → (∀ h, held d0 !! h ≠ Some (dev, n)) → 0 ≤ n < FSSIZE →
  (∀ h c, held d0 !! h = None → rep c (d0 <| held := <[h := (dev, n)]> (held d0) |>) →
     Q h (l <| cache := c |>)) →
  (∀ w l', on_disk d0 l' → E w l') →
  wp (inC (bread dev (u32 n))) Q E l.
Proof.
  intros Hr Hh Hn HQ HE. rewrite u32_id by (unfold FSSIZE in Hn; lia). apply wp_inC.
  eapply wp_mono; [by apply bread_law| |].
  - intros h c [H1 H2]. by apply HQ.
  - intros w c Hk. by apply HE.
Qed.

(** Reading one buffer, copying it into the other, writing that and giving
    both back. *)
Lemma wp_copy_tail l d hm hs hd src dst :
  rep (cache l) (d <| held := hm |>) → hm !! hs = Some src → hm !! hd = Some dst → hs ≠ hd →
  src ≠ dst → delete hd (delete hs hm) = held d → safe_block d src →
  wp (x ← inC (get_data hs); inC (put_data hd x);; inC (bwrite hd);; inC (brelse hs);; inC (brelse hd))
    (fun _ l' => quiet_at l (copy_one src dst d) l')
    (fun _ l' => on_disk d l' ∨ on_disk (copy_one src dst d) l') l.
Proof.
  intros Hr Hs Hd Hne Hsd Hdel Hsafe.
  wp_step. apply wp_inC. eapply wp_mono; [eapply (get_data_law _ _ hs src); [exact Hr | exact Hs]| |done].
  intros x c1 [-> Hr1]. wp_step. apply wp_inC.
  eapply wp_mono; [eapply (put_data_law _ _ hd dst); [exact Hr1 | exact Hd]| |done]. intros [] c2 Hr2.
  wp_step. apply wp_inC. eapply wp_mono; [eapply (bwrite_law _ _ hd dst); [exact Hr2 | exact Hd]| |].
  2:{ intros w c Hk. left. exact Hk. }
  intros [] c3 Hr3. cbn in Hr3. rewrite fn_lookup_insert in Hr3.
  set (d3 := copy_one src dst d).
  assert (Hr3' : rep c3 (d3 <| held := hm |>)) by exact Hr3. clear Hr3.
  wp_step. apply wp_inC. eapply wp_mono; [eapply (brelse_law _ _ hs src); [exact Hr3' | done |]| |].
  { destruct Hsafe as [Hdirty|Heq]; [left | right]; cbn; by rewrite !fn_lookup_insert_ne by done. }
  2:{ intros w c Hk. right. exact Hk. }
  intros [] c4 Hr4. apply wp_inC.
  eapply wp_mono; [eapply (brelse_law _ _ hd dst); [exact Hr4 | cbn; by rewrite lookup_delete_ne |]| |].
  { right. cbn. by rewrite !fn_lookup_insert. }
  2:{ intros w c Hk. right. exact Hk. }
  intros [] c5 Hr5. exists c5. split; [done|]. cbn in Hr5. rewrite Hdel in Hr5. exact Hr5.
Qed.

(** A loop of block copies: run to the end it performs all of them, stopped
    anywhere it has performed some of the first ones. *)
Definition after (step : Z → dstate → dstate) (l : list Z) (d : dstate) : dstate :=
  foldl (fun d i => step i d) d l.

Lemma for_each_steps (step : Z → dstate → dstate) (body : Z → M (lsys C) unit) (zs : list Z) l0 d0 :
  rep (cache l0) d0 →
  (∀ pre i post c, zs = pre ++ i :: post → let d := after step pre d0 in rep c d →
     wp (body i) (fun _ l' => quiet_at l0 (step i d) l')
       (fun _ l' => on_disk d l' ∨ on_disk (step i d) l') (l0 <| cache := c |>)) →
  wp (for_each zs body) (fun _ l' => quiet_at l0 (after step zs d0) l')
    (fun _ l' => ∃ pre post, zs = pre ++ post ∧ on_disk (after step pre d0) l') l0.
Proof.
  intros Hr Hstep.
  enough (Hgen : ∀ post pre c, zs = pre ++ post → rep c (after step pre d0) →
    wp (for_each post body) (fun _ l' => quiet_at l0 (after step zs d0) l')
      (fun _ l' => ∃ pre post, zs = pre ++ post ∧ on_disk (after step pre d0) l') (l0 <| cache := c |>)).
  { specialize (Hgen zs [] (cache l0) eq_refl Hr).
    by replace (l0 <| cache := cache l0 |>) with l0 in Hgen by by destruct l0. }
  induction post as [|i post IH]; intros pre c Hzs Hc; cbn [for_each].
  - wp_step. rewrite app_nil_r in Hzs. subst. by exists c.
  - assert (Hsnoc : after step (pre ++ [i]) d0 = step i (after step pre d0))
      by (unfold after; by rewrite foldl_app).
    wp_step. eapply wp_mono; [by apply (Hstep pre i post)| |].
    + intros [] l' (c' & -> & Hr'). apply (IH (pre ++ [i])); [by rewrite <-app_assoc | by rewrite Hsnoc].
    + intros w l' [Hd|Hd].
      * exists pre, (i :: post). auto.
      * exists (pre ++ [i]), post. rewrite Hsnoc, <-app_assoc. auto.
Qed.

(** Copies between the home blocks [bs] and the slots. *)
Definition home_of (bs : list Z) (i : Z) : baddr := homeaddr (default 0 (bs !! Z.to_nat i)).
Definition to_home (bs : list Z) (i : Z) : dstate → dstate := copy_one (slotaddr i) (home_of bs i).
Definition to_slot (bs : list Z) (i : Z) : dstate → dstate := copy_one (home_of bs i) (slotaddr i).

Abbreviation indices bs := (seqZ 0 (Z.of_nat (@length Z bs))).

Lemma after_held step zs d : (∀ i d, held (step i d) = held d) → held (after step zs d) = held d.
Proof.
  intros Hs. unfold after. revert d. induction zs as [|z zs IH]; intros d; cbn; [done|].
  by rewrite IH, Hs.
Qed.

(** What is known of index [i] of a good list. *)
Lemma index_ok bs i :
  good_list bs → i ∈ indices bs →
  ∃ b, bs !! Z.to_nat i = Some b ∧ home_of bs i = (dev, b) ∧ 0 ≤ b < FSSIZE ∧
    0 ≤ i < size - 1 ∧ (b < start ∨ start + size ≤ b).
Proof.
  intros [Hnd Hlen Hhome] Hi%elem_of_seqZ.
  destruct (lookup_lt_is_Some_2 bs (Z.to_nat i)) as [b Hb]; [lia|].
  destruct (Hhome b) as [Hr Ho]; [by eapply list_elem_of_lookup_2|].
  exists b. unfold home_of, homeaddr. rewrite Hb. repeat split; try done; lia.
Qed.

Lemma index_split bs pre i post :
  indices bs = pre ++ i :: post → i ∈ indices bs.
Proof. intros ->. apply list_elem_of_In, in_or_app. right. by left. Qed.

(** What a sequence of copies leaves alone and what it achieves. *)
Lemma after_frame (src dst : Z → baddr) zs d a :
  (∀ i, i ∈ zs → dst i ≠ a) →
  let d' := after (fun i => copy_one (src i) (dst i)) zs d in
  disk d' a = disk d a ∧ view d' a = view d a ∧ dirty d' a = dirty d a.
Proof.
  unfold after. revert d. induction zs as [|z zs IH]; intros d Hne; cbn; [done|].
  destruct (IH (copy_one (src z) (dst z) d)) as (-> & -> & ->);
    [intros; apply Hne; by apply list_elem_of_further|].
  assert (dst z ≠ a) by (apply Hne, list_elem_of_here).
  cbn. by rewrite !fn_lookup_insert_ne.
Qed.

Lemma after_done (src dst : Z → baddr) zs d i :
  NoDup zs → (∀ i j, i ∈ zs → j ∈ zs → dst i = dst j → i = j) →
  (∀ i j, i ∈ zs → j ∈ zs → src i ≠ dst j) → i ∈ zs →
  let d' := after (fun i => copy_one (src i) (dst i)) zs d in
  disk d' (dst i) = view d (src i) ∧ view d' (dst i) = view d (src i) ∧ dirty d' (dst i) = false.
Proof.
  revert d. induction zs as [|z zs IH]; intros d Hnd Hinj Hsd Hi; [by apply elem_of_nil in Hi|].
  apply NoDup_cons in Hnd as [Hz Hnd]. cbn [after foldl].
  assert (Hsub : ∀ j, j ∈ zs → j ∈ z :: zs) by (intros; by apply list_elem_of_further).
  apply elem_of_cons in Hi as [->|Hi].
  - destruct (after_frame src dst zs (copy_one (src z) (dst z) d) (dst z)) as (E1 & E2 & E3).
    { intros j Hj E. apply Hz. by rewrite <-(Hinj j z); auto using list_elem_of_here. }
    unfold after in *. rewrite E1, E2, E3. cbn. by rewrite !fn_lookup_insert.
  - destruct (IH (copy_one (src z) (dst z) d)) as (E1 & E2 & E3); eauto.
    unfold after in *. rewrite E1, E2, E3. cbn.
    rewrite !fn_lookup_insert_ne; [done|]. intros E. eapply (Hsd i z); eauto using list_elem_of_here.
Qed.

(** The slots and the home blocks of a good list are all different. *)
Lemma slot_not_home bs i j : good_list bs → i ∈ indices bs → j ∈ indices bs → slotaddr i ≠ home_of bs j.
Proof.
  intros Hg Hi Hj. destruct (index_ok bs j Hg Hj) as (b & _ & -> & _ & _ & Ho).
  destruct (index_ok bs i Hg Hi) as (_ & _ & _ & _ & Hir & _). unfold slotaddr. intros [= ?]. lia.
Qed.

Lemma home_inj bs i j :
  good_list bs → i ∈ indices bs → j ∈ indices bs → home_of bs i = home_of bs j → i = j.
Proof.
  intros Hg Hi Hj. destruct (index_ok bs i Hg Hi) as (b & Hb & -> & _).
  destruct (index_ok bs j Hg Hj) as (b' & Hb' & -> & _). intros [= ->].
  apply elem_of_seqZ in Hi, Hj. pose proof (NoDup_lookup _ _ _ _ (gl_nodup _ Hg) Hb Hb'). lia.
Qed.

Lemma slot_inj i j : slotaddr i = slotaddr j → i = j.
Proof. unfold slotaddr. intros [= ?]. lia. Qed.

Lemma hdr_not_slot bs i : i ∈ indices bs → slotaddr i ≠ hdr.
Proof. intros Hi%elem_of_seqZ. unfold slotaddr, hdr. intros [= ?]. lia. Qed.

Lemma hdr_not_home bs i : good_list bs → i ∈ indices bs → home_of bs i ≠ hdr.
Proof.
  intros Hg Hi. destruct (index_ok bs i Hg Hi) as (b & _ & -> & _ & _ & Ho). unfold hdr. intros [= ?]. lia.
Qed.

(** Opening slot [i] and the home block that goes with it. *)
Lemma wp_open_pair {A} (m : nat → nat → M (lsys C) A) bs i b l c d Q (E : stop → lsys C → Prop) :
  log_for bs l → rep c d → held d = ∅ → bs !! Z.to_nat i = Some b → 0 ≤ b < FSSIZE →
  0 ≤ i < size - 1 → b < start ∨ start + size ≤ b →
  (∀ w l', on_disk d l' → E w l') →
  (∀ h1 h2 c', h1 ≠ h2 → rep c' (d <| held := {[h2 := (dev, b); h1 := slotaddr i]} |>) →
     wp (m h1 h2) Q E (l <| cache := c' |>)) →
  wp (h1 ← inC (bread dev (u32 (start + i + 1)));
      x ← blockat i;
      h2 ← inC (bread dev (u32 x)); m h1 h2) Q E (l <| cache := c |>).
Proof.
  intros Hl Hc Hheld Hb Hbr Hi Ho HE Hm. wp_step.
  apply (wp_log_bread _ d (start + i + 1)); [exact Hc | by rewrite Hheld | unfold FSSIZE in *; lia | | done].
  intros h1 c1 Hh1 Hr1.
  wp_step. eapply (wp_blockat bs); [by do 2 apply log_for_cache | done | lia |]. wp_step.
  eapply (wp_log_bread _ _ b); [exact Hr1 | | done | | exact HE].
  - intros h. cbn. rewrite Hheld. intros [[_ E']|[_ E']]%lookup_insert_Some; [simplify_eq; lia|].
    by rewrite lookup_empty in E'.
  - intros h2 c2 Hh2 Hr2. cbn in Hh2, Hr2. rewrite Hheld in Hh2, Hr2. apply Hm; [|exact Hr2].
    intros ->. by rewrite lookup_insert_eq in Hh2.
Qed.

(** ** install_trans and write_log *)
Lemma install_trans_spec bs l d :
  good_list bs → log_for bs l → rep (cache l) d → held d = ∅ →
  (∀ i, i ∈ indices bs → view d (slotaddr i) = disk d (slotaddr i)) →
  wp install_trans (fun _ l' => quiet_at l (after (to_home bs) (indices bs) d) l')
    (fun _ l' => ∃ pre post, indices bs = pre ++ post ∧ on_disk (after (to_home bs) pre d) l') l.
Proof.
  intros Hg Hl Hr Hheld Hsafe. unfold install_trans. do 2 wp_step. rewrite (lf_n _ _ Hl).
  apply (for_each_steps (to_home bs)); [done|]. intros pre i post c Hsplit dp Hc.
  pose proof (index_split _ _ _ _ Hsplit) as Hi.
  destruct (index_ok bs i Hg Hi) as (b & Hb & Hhome & Hbr & Hir & Ho).
  assert (Hhp : held dp = ∅) by (unfold dp; by rewrite after_held).
  do 4 wp_step. cbn. rewrite (lf_dev _ _ Hl), (lf_start _ _ Hl).
  eapply (wp_open_pair _ bs i b l c dp); [done.. | by left |].
  intros h1 h2 c' Hne Hc'. unfold to_home. rewrite Hhome.
  eapply wp_mono; [eapply (wp_copy_tail (l <| cache := c' |>) dp _ h1 h2 (slotaddr i) (dev, b)); [exact Hc' |..]| |].
  - by rewrite lookup_insert_ne, lookup_singleton_eq.
  - by rewrite lookup_insert_eq.
  - done.
  - rewrite <-Hhome. by apply slot_not_home.
  - rewrite Hhp, delete_insert_ne, delete_singleton_eq, insert_empty by done. by rewrite delete_singleton_eq.
  - right. destruct (after_frame slotaddr (home_of bs) pre d (slotaddr i)) as (E1 & E2 & _).
    { intros j Hj E. eapply (slot_not_home bs i j); try done. rewrite Hsplit. apply elem_of_app. by left. }
    change (view (after (to_home bs) pre d) (slotaddr i) = disk (after (to_home bs) pre d) (slotaddr i)).
    unfold to_home. rewrite E1, E2. by apply Hsafe.
  - intros [] l' (c2 & -> & Hr2). by exists c2.
  - done.
Qed.

(** Copying the modified blocks into the log. *)
Lemma write_log_spec bs l d :
  good_list bs → log_for bs l → rep (cache l) d → held d = ∅ →
  (∀ i, i ∈ indices bs → safe_block d (home_of bs i)) →
  wp write_log (fun _ l' => quiet_at l (after (to_slot bs) (indices bs) d) l')
    (fun _ l' => ∃ pre post, indices bs = pre ++ post ∧ on_disk (after (to_slot bs) pre d) l') l.
Proof.
  intros Hg Hl Hr Hheld Hsafe. unfold write_log. do 2 wp_step. rewrite (lf_n _ _ Hl).
  apply (for_each_steps (to_slot bs)); [done|]. intros pre i post c Hsplit dp Hc.
  pose proof (index_split _ _ _ _ Hsplit) as Hi.
  destruct (index_ok bs i Hg Hi) as (b & Hb & Hhome & Hbr & Hir & Ho).
  assert (Hhp : held dp = ∅) by (unfold dp; by rewrite after_held).
  do 4 wp_step. cbn. rewrite (lf_dev _ _ Hl), (lf_start _ _ Hl).
  eapply (wp_open_pair _ bs i b l c dp); [done.. | by left |].
  intros h1 h2 c' Hne Hc'. unfold to_slot. rewrite Hhome.
  eapply wp_mono; [eapply (wp_copy_tail (l <| cache := c' |>) dp _ h2 h1 (dev, b) (slotaddr i)); [exact Hc' |..]| |].
  - by rewrite lookup_insert_eq.
  - by rewrite lookup_insert_ne, lookup_singleton_eq.
  - done.
  - rewrite <-Hhome. intros E. by eapply (slot_not_home bs i i).
  - rewrite Hhp, delete_insert_eq, (delete_singleton_ne h2 h1) by done. by rewrite delete_singleton_eq.
  - destruct (after_frame (home_of bs) slotaddr pre d (dev, b)) as (E1 & E2 & E3).
    { intros j Hj E. rewrite <-Hhome in E. eapply (slot_not_home bs j i); try done.
      rewrite Hsplit. apply elem_of_app. by left. }
    unfold safe_block, dp, to_slot. rewrite E1, E2, E3, <-Hhome. by apply Hsafe.
  - intros [] l' (c2 & -> & Hr2). by exists c2.
  - done.
Qed.

(** ** write_head *)
Definition editing (h : nat) (x : block) (d : dstate) : dstate :=
  d <| held := {[h := hdr]} |> <| view := <[hdr := x]> (view d) |>.

Lemma editing_again h x y d : (editing h x d) <| view := <[hdr := y]> (view (editing h x d)) |> ≡ editing h y d.
Proof.
  repeat split; cbn; try done. intros a. destruct (decide (hdr = a)) as [<-|].
  - by rewrite !fn_lookup_insert.
  - by rewrite !fn_lookup_insert_ne.
Qed.

Lemma wp_edit h x y d l (Q : unit → lsys C → Prop) E :
  rep (cache l) (editing h x d) → (∀ c, rep c (editing h y d) → Q tt (l <| cache := c |>)) →
  wp (inC (put_data h y)) Q E l.
Proof.
  intros Hr HQ. apply wp_inC.
  eapply wp_mono; [eapply (put_data_law _ _ h hdr); [exact Hr | by cbn; rewrite lookup_singleton_eq]| |done].
  intros [] c Hc. apply HQ. eapply rep_proper; [apply editing_again | exact Hc].
Qed.

Lemma wp_read_edit h x d l (Q : block → lsys C → Prop) E :
  rep (cache l) (editing h x d) → (∀ c, rep c (editing h x d) → Q x (l <| cache := c |>)) →
  wp (inC (get_data h)) Q E l.
Proof.
  intros Hr HQ. apply wp_inC.
  eapply wp_mono; [eapply (get_data_law _ _ h hdr); [exact Hr | by cbn; rewrite lookup_singleton_eq]| |done].
  intros y c [-> Hc]. cbn. rewrite fn_lookup_insert. by apply HQ.
Qed.

(** Filling in the block numbers. *)
Lemma wp_put_entries bs h x d l zs (Q : unit → lsys C → Prop) E :
  log_for bs l → (∀ i, i ∈ zs → i ∈ indices bs) → rep (cache l) (editing h x d) →
  (∀ c, rep c (editing h (foldl (put_entry bs) x zs) d) → Q tt (l <| cache := c |>)) →
  wp (for_each zs (fun i =>
        b ← blockat i; y ← inC (get_data h);
        inC (put_data h (put32 y (Z.to_nat (4 + 4 * i)) b)))) Q E l.
Proof.
  intros Hl Hzs Hr HQ. revert x l Hl Hr HQ. induction zs as [|i zs IH]; intros x l Hl Hr HQ; cbn [for_each].
  - wp_step. specialize (HQ (cache l) Hr). by destruct l.
  - assert (Hi : i ∈ indices bs) by apply Hzs, list_elem_of_here. apply elem_of_seqZ in Hi.
    destruct (lookup_lt_is_Some_2 bs (Z.to_nat i)) as [b Hb]; [lia|].
    do 2 wp_step. eapply (wp_blockat bs); [done | done | lia |]. wp_step.
    apply (wp_read_edit h x d); [done|]. intros c1 Hr1. eapply (wp_edit h x); [exact Hr1|].
    intros c2 Hr2. assert (Hzs' : ∀ j, j ∈ zs → j ∈ indices bs).
    { intros j Hj. apply Hzs. by apply list_elem_of_further. }
    apply (IH Hzs' (put_entry bs x i)).
    + by do 2 apply log_for_cache.
    + unfold put_entry. by rewrite Hb.
    + intros c Hc. by apply HQ.
Qed.

Lemma write_head_spec bs l d :
  log_for bs l → rep (cache l) d → held d = ∅ →
  wp write_head (fun _ l' => quiet_at l (store hdr (encode_head bs (view d hdr)) d) l')
    (fun _ l' => on_disk d l' ∨ on_disk (store hdr (encode_head bs (view d hdr)) d) l') l.
Proof.
  intros Hl Hr Hheld. unfold write_head. do 4 wp_step. rewrite (lf_dev _ _ Hl), (lf_start _ _ Hl).
  wp_step. apply (wp_log_bread _ d start); [done | by rewrite Hheld | unfold FSSIZE in *; lia | | by left].
  intros h c Hh Hc. rewrite Hheld in Hc. do 2 wp_step. cbn. rewrite (lf_n _ _ Hl).
  set (x := view d hdr).
  assert (Hc0 : rep c (editing h x d)).
  { eapply rep_proper; [|exact Hc]. repeat split; cbn; try done. intros a.
    destruct (decide (hdr = a)) as [<-|]; [by rewrite fn_lookup_insert | by rewrite fn_lookup_insert_ne]. }
  wp_step. apply (wp_read_edit h x d); [exact Hc0|]. intros c1 Hr1. wp_step.
  eapply (wp_edit h x); [exact Hr1|]. intros c2 Hr2. wp_step.
  eapply (wp_put_entries bs h); [by repeat apply log_for_cache | done | exact Hr2 |].
  fold (encode_head bs x). intros c3 Hr3.
  wp_step. apply wp_inC.
  eapply wp_mono; [eapply (bwrite_law _ _ h hdr); [exact Hr3 | by cbn; rewrite lookup_singleton_eq]| |].
  2:{ intros w c' Hk. left. exact Hk. }
  intros [] c4 Hr4. cbn in Hr4. rewrite fn_lookup_insert in Hr4. apply wp_inC.
  eapply wp_mono; [eapply (brelse_law _ _ h hdr); [exact Hr4 | by cbn; rewrite lookup_singleton_eq |]| |].
  { right. cbn. by rewrite !fn_lookup_insert. }
  - intros [] c5 Hr5. exists c5. split; [done|]. eapply rep_proper; [|exact Hr5].
    repeat split; cbn; try done. by rewrite Hheld, delete_singleton_eq.
  - intros w c' Hk. right. exact Hk.
Qed.

(** ** What recovery would make of a disk *)
Definition head_n (dk : baddr → block) : Z := i32 (get32 (dk hdr) 0).
Definition head_entry (x : block) (i : Z) : Z := i32 (get32 x (Z.to_nat (4 + 4 * i))).
Definition head_list (dk : baddr → block) : list Z :=
  head_entry (dk hdr) <$> seqZ 0 (head_n dk).

(** The block [a] as a recovery from [dk] would leave it. *)
Definition replay (dk : baddr → block) (a : baddr) : block :=
  match list_find (fun b => homeaddr b = a) (head_list dk) with
  | Some (i, _) => dk (slotaddr (Z.of_nat i))
  | None => dk a
  end.

(** A block of the file system proper, outside the log. *)
Definition home (a : baddr) : Prop := a.1 = dev → a.2 < start ∨ start + size ≤ a.2.

Lemma length_put_entry bs x i :
  length x = 512%nat → 0 ≤ i < LOGSIZE → length (put_entry bs x i) = 512%nat.
Proof. intros Hx Hi. unfold put_entry. rewrite length_put32; [done|]. rewrite Hx. unfold LOGSIZE, MAXOPBLOCKS in Hi. lia. Qed.

(** Later entries do not disturb earlier ones. *)
Lemma put_entries_get bs x zs off :
  length x = 512%nat → (∀ i, i ∈ zs → 0 ≤ i < LOGSIZE ∧ (off + 4 ≤ Z.to_nat (4 + 4 * i) ∨ Z.to_nat (4 + 4 * i) + 4 ≤ off)%nat) →
  get32 (foldl (put_entry bs) x zs) off = get32 x off.
Proof.
  revert x. induction zs as [|i zs IH]; intros x Hx Hzs; cbn; [done|].
  destruct (Hzs i (list_elem_of_here _ _)) as [Hi Hoff].
  rewrite IH; [|by apply length_put_entry|].
  - unfold put_entry. apply get32_put32_other; [rewrite Hx; unfold LOGSIZE, MAXOPBLOCKS in Hi; lia | lia].
  - intros j Hj. apply Hzs. by apply list_elem_of_further.
Qed.

Lemma length_put_entries bs x zs :
  length x = 512%nat → (∀ i, i ∈ zs → 0 ≤ i < LOGSIZE) → length (foldl (put_entry bs) x zs) = 512%nat.
Proof.
  revert x. induction zs as [|i zs IH]; intros x Hx Hzs; cbn; [done|].
  apply IH; [apply length_put_entry; [done | apply Hzs, list_elem_of_here]|].
  intros j Hj. apply Hzs. by apply list_elem_of_further.
Qed.

Lemma good_index bs i : good_list bs → i ∈ indices bs → 0 ≤ i < LOGSIZE.
Proof. intros Hg Hi. destruct (index_ok bs i Hg Hi) as (_ & _ & _ & _ & ? & _). lia. Qed.

Lemma length_encode_head bs x :
  length x = 512%nat → good_list bs → length (encode_head bs x) = 512%nat.
Proof.
  intros Hx Hg. apply length_put_entries; [rewrite length_put32; lia|].
  intros i Hi. by apply (good_index bs).
Qed.

(** Reading back a header that was written. *)
Lemma put_entries_get_in bs x zs i :
  length x = 512%nat → NoDup zs → (∀ j, j ∈ zs → 0 ≤ j < LOGSIZE) → i ∈ zs →
  get32 (foldl (put_entry bs) x zs) (Z.to_nat (4 + 4 * i)) = u32 (default 0 (bs !! Z.to_nat i)).
Proof.
  revert x. induction zs as [|j zs IH]; intros x Hx Hnd Hr Hi; [by apply elem_of_nil in Hi|].
  apply NoDup_cons in Hnd as [Hj Hnd]. cbn.
  assert (Hr' : ∀ m, m ∈ zs → 0 ≤ m < LOGSIZE) by (intros; apply Hr; by apply list_elem_of_further).
  assert (Hjr : 0 ≤ j < LOGSIZE) by apply Hr, list_elem_of_here.
  apply elem_of_cons in Hi as [->|Hi]; [|apply IH; auto; by apply length_put_entry].
  rewrite put_entries_get.
  - unfold put_entry. apply get32_put32. rewrite Hx. unfold LOGSIZE, MAXOPBLOCKS in Hjr. lia.
  - by apply length_put_entry.
  - intros m Hm. specialize (Hr' m Hm). split; [done|]. assert (m ≠ j) by congruence. lia.
Qed.

Lemma encode_head_decode bs x :
  length x = 512%nat → good_list bs →
  i32 (get32 (encode_head bs x) 0) = Z.of_nat (length bs) ∧
  head_entry (encode_head bs x) <$> indices bs = bs.
Proof.
  intros Hx Hg. set (x0 := put32 x 0 (Z.of_nat (length bs))).
  assert (Hx0 : length x0 = 512%nat) by (unfold x0; rewrite length_put32; lia).
  assert (Hidx : ∀ i, i ∈ indices bs → 0 ≤ i < LOGSIZE) by (intros i Hi; by apply (good_index bs)).
  split.
  - unfold encode_head. rewrite put_entries_get; [|done|].
    + fold x0. unfold x0. rewrite get32_put32 by lia. pose proof (gl_len _ Hg). unfold LOGSIZE, MAXOPBLOCKS in *.
      rewrite u32_id by lia. apply i32_id. unfold INT_MIN, INT_MAX. lia.
    + intros i Hi. split; [by apply Hidx|]. apply Hidx in Hi. lia.
  - apply list_eq. intros i. rewrite list_lookup_fmap.
    destruct (decide (i < length bs)%nat) as [Hi|Hi].
    + rewrite lookup_seqZ_lt by lia. cbn. unfold head_entry, encode_head. fold x0.
      assert (Hin : 0 + Z.of_nat i ∈ indices bs) by (apply elem_of_seqZ; lia).
      rewrite put_entries_get_in; [|done | apply NoDup_seqZ | done | done].
      destruct (index_ok bs _ Hg Hin) as (b & Hb & _ & Hbr & _). rewrite Hb. cbn.
      unfold FSSIZE in Hbr. rewrite u32_id, i32_id by (unfold INT_MIN, INT_MAX; lia).
      rewrite <-Hb. f_equal. lia.
    + rewrite lookup_seqZ_ge by lia. symmetry. apply lookup_ge_None. lia.
Qed.

(** The header on a disk right after it was written. *)
Lemma head_of_store bs d :
  length (view d hdr) = 512%nat → good_list bs →
  let dk := disk (store hdr (encode_head bs (view d hdr)) d) in
  head_n dk = Z.of_nat (length bs) ∧ head_list dk = bs.
Proof.
  intros Hx Hg dk. destruct (encode_head_decode bs _ Hx Hg) as [H1 H2].
  assert (Hdk : dk hdr = encode_head bs (view d hdr)) by (unfold dk; cbn; by rewrite fn_lookup_insert).
  unfold head_list, head_n. rewrite Hdk, H1. done.
Qed.

(** ** Replaying *)
Lemma replay_empty dk a : head_n dk = 0 → replay dk a = dk a.
Proof. intros Hn. unfold replay, head_list. by rewrite Hn. Qed.

Lemma replay_logged bs dk i :
  good_list bs → head_list dk = bs → i ∈ indices bs → replay dk (home_of bs i) = dk (slotaddr i).
Proof.
  intros Hg Hl Hi. unfold replay. rewrite Hl.
  destruct (index_ok bs i Hg Hi) as (b & Hb & Hh & _). apply elem_of_seqZ in Hi.
  destruct (list_find (fun b => homeaddr b = home_of bs i) bs) as [[j b']|] eqn:E.
  - apply list_find_Some in E as (Hj & He & _). rewrite Hh in He. unfold homeaddr in He.
    assert (b' = b) as -> by congruence.
    pose proof (NoDup_lookup _ _ _ _ (gl_nodup _ Hg) Hb Hj). do 2 f_equal. lia.
  - exfalso. apply list_find_None in E. rewrite Forall_forall in E.
    eapply E; [by eapply list_elem_of_lookup_2 | by rewrite Hh].
Qed.

Lemma replay_other bs dk a :
  head_list dk = bs → (∀ i, i ∈ indices bs → home_of bs i ≠ a) → replay dk a = dk a.
Proof.
  intros Hl Ha. unfold replay. rewrite Hl.
  destruct (list_find (fun b => homeaddr b = a) bs) as [[j b]|] eqn:E; [|done].
  exfalso. apply list_find_Some in E as (Hj & He & _). apply (Ha (Z.of_nat j)).
  - apply elem_of_seqZ. apply lookup_lt_Some in Hj. lia.
  - unfold home_of. by rewrite Nat2Z.id, Hj.
Qed.

(** A block is one of the logged ones or none of them. *)
Lemma logged_or_not bs a :
  (∃ i, i ∈ indices bs ∧ a = home_of bs i) ∨ (∀ i, i ∈ indices bs → home_of bs i ≠ a).
Proof.
  destruct (decide (Exists (fun i => home_of bs i = a) (indices bs))) as [H|H].
  - left. apply Exists_exists in H as (i & Hi & <-). eauto.
  - right. intros i Hi E. apply H, Exists_exists. eauto.
Qed.

Lemma home_not_slot a bs i : good_list bs → home a → i ∈ indices bs → slotaddr i ≠ a.
Proof.
  intros Hg Ha Hi <-. pose proof (index_ok bs i Hg Hi) as (_ & _ & _ & _ & Hir & _).
  unfold home, slotaddr in Ha. cbn in Ha. lia.
Qed.

Lemma home_not_hdr a : home a → hdr ≠ a.
Proof. intros Ha <-. unfold home, hdr in Ha. cbn in Ha. lia. Qed.

Lemma pre_elem (zs pre post : list Z) i : zs = pre ++ post → i ∈ pre → i ∈ zs.
Proof. intros -> Hi. apply elem_of_app. by left. Qed.

Lemma replay_ext dk dk' : (∀ a, dk a = dk' a) → ∀ a, replay dk a = replay dk' a.
Proof.
  intros He a. unfold replay, head_list, head_n. rewrite (He hdr).
  destruct (list_find _ _) as [[i b]|]; apply He.
Qed.

(** A disk that a crashed commit or recovery can leave: its header is empty or
    describes a transaction. *)
Record recoverable (dk : baddr → block) : Prop := {
  rc_good : good_list (head_list dk);
  rc_n : 0 ≤ head_n dk;
  rc_len : length (dk hdr) = 512%nat
}.

Lemma recoverable_ext dk dk' : dk hdr = dk' hdr → recoverable dk → recoverable dk'.
Proof. intros He [H1 H2 H3]. by split; unfold head_list, head_n in *; rewrite <-He. Qed.

Lemma good_nil : good_list [].
Proof. split; [constructor | cbn; lia | intros b Hb; by apply elem_of_nil in Hb]. Qed.

Lemma recoverable_empty dk : length (dk hdr) = 512%nat → head_n dk = 0 → recoverable dk.
Proof. intros Hl Hn. split; [unfold head_list; rewrite Hn; apply good_nil | lia | done]. Qed.

(** Installing does not change what would be recovered. *)
Lemma replay_install bs e pre post a :
  good_list bs → head_list (disk e) = bs →
  (∀ i, i ∈ indices bs → view e (slotaddr i) = disk e (slotaddr i)) →
  indices bs = pre ++ post → home a →
  disk (after (to_home bs) pre e) hdr = disk e hdr ∧
  replay (disk (after (to_home bs) pre e)) a = replay (disk e) a.
Proof.
  intros Hg Hh Hs Hp Ha. set (d3 := after (to_home bs) pre e).
  destruct (after_frame slotaddr (home_of bs) pre e hdr) as (Eh & _).
  { intros i Hi. apply hdr_not_home; [done | by eapply pre_elem]. }
  assert (Hhead : head_list (disk d3) = bs) by (unfold head_list, head_n, d3, to_home; by rewrite Eh).
  split; [exact Eh|]. destruct (logged_or_not bs a) as [(i & Hi & ->)|Hno].
  - rewrite !(replay_logged bs) by done.
    destruct (after_frame slotaddr (home_of bs) pre e (slotaddr i)) as (E & _).
    { intros j Hj E. eapply (slot_not_home bs i j); [done | done | by eapply pre_elem | done]. }
    exact E.
  - rewrite !(replay_other bs) by done.
    destruct (after_frame slotaddr (home_of bs) pre e a) as (E & _); [|exact E].
    intros j Hj. apply Hno. by eapply pre_elem.
Qed.

(** *** The phases of a commit, as sequences of block copies *)
Section phases.
Context (bs : list Z) (d : dstate).
Context (Hg : good_list bs) (Hlen : length (view d hdr) = 512%nat) (Hempty : head_n (disk d) = 0).
Context (Hclean : ∀ a, home a → (∀ i, i ∈ indices bs → home_of bs i ≠ a) → view d a = disk d a).

(** While the log is written the old contents would be recovered. *)
Lemma replay_writing pre post a :
  indices bs = pre ++ post → home a →
  disk (after (to_slot bs) pre d) hdr = disk d hdr ∧
  replay (disk (after (to_slot bs) pre d)) a = disk d a.
Proof.
  intros Hp Ha.
  destruct (after_frame (home_of bs) slotaddr pre d hdr) as (Eh & _).
  { intros i Hi. apply (hdr_not_slot bs). by eapply pre_elem. }
  destruct (after_frame (home_of bs) slotaddr pre d a) as (Ea & _).
  { intros i Hi. apply (home_not_slot a bs); [done | done | by eapply pre_elem]. }
  split; [exact Eh|].
  rewrite replay_empty; [exact Ea|]. unfold head_n, to_slot in *. by rewrite Eh.
Qed.

Definition logged_state : dstate := after (to_slot bs) (indices bs) d.
Definition committed : dstate :=
  store hdr (encode_head bs (view logged_state hdr)) logged_state.

Lemma logged_hdr : view logged_state hdr = view d hdr.
Proof.
  destruct (after_frame (home_of bs) slotaddr (indices bs) d hdr) as (_ & E & _); [|exact E].
  intros i Hi. by apply (hdr_not_slot bs).
Qed.

Lemma committed_head : head_n (disk committed) = Z.of_nat (length bs) ∧ head_list (disk committed) = bs.
Proof. apply head_of_store; [by rewrite logged_hdr | done]. Qed.

(** The slots hold the new contents. *)
Lemma committed_slot i :
  i ∈ indices bs →
  view committed (slotaddr i) = view d (home_of bs i) ∧ disk committed (slotaddr i) = view d (home_of bs i).
Proof.
  intros Hi. destruct (after_done (home_of bs) slotaddr (indices bs) d i) as (E1 & E2 & _).
  - apply NoDup_seqZ.
  - intros j m _ _. apply slot_inj.
  - intros j m Hj Hm E. by eapply (slot_not_home bs m j).
  - done.
  - unfold committed. cbn. rewrite !fn_lookup_insert_ne by (symmetry; by apply (hdr_not_slot bs)). done.
Qed.

Lemma committed_home a : home a → disk committed a = disk d a ∧ view committed a = view d a.
Proof.
  intros Ha. destruct (after_frame (home_of bs) slotaddr (indices bs) d a) as (E1 & E2 & _).
  { intros i Hi. by apply (home_not_slot a bs). }
  unfold committed. cbn. rewrite !fn_lookup_insert_ne by by apply home_not_hdr. done.
Qed.

(** From the write of the header on, the new contents would be recovered. *)
Lemma replay_committed a : home a → replay (disk committed) a = view d a.
Proof.
  intros Ha. destruct committed_head as [_ Hh].
  destruct (logged_or_not bs a) as [(i & Hi & ->)|Hno].
  - rewrite (replay_logged bs) by done. by apply committed_slot.
  - rewrite (replay_other bs) by done. rewrite (proj1 (committed_home a Ha)). symmetry. by apply Hclean.
Qed.

Lemma replay_installing pre post a :
  indices bs = pre ++ post → home a →
  disk (after (to_home bs) pre committed) hdr = disk committed hdr ∧
  replay (disk (after (to_home bs) pre committed)) a = view d a.
Proof.
  intros Hp Ha. rewrite <-(replay_committed a Ha).
  apply (replay_install bs committed pre post); [done | apply committed_head | | done | done].
  intros i Hi. by destruct (committed_slot i Hi) as [-> ->].
Qed.

Lemma committed_recoverable : recoverable (disk committed).
Proof.
  destruct committed_head as [Hn Hh]. split; [by rewrite Hh | lia |].
  unfold committed, store. cbn -[encode_head]. rewrite fn_lookup_insert, logged_hdr.
  by apply length_encode_head.
Qed.

Definition installed : dstate := after (to_home bs) (indices bs) committed.

Lemma installed_home a : home a → disk installed a = view d a ∧ view installed a = view d a.
Proof.
  intros Ha. destruct (logged_or_not bs a) as [(i & Hi & ->)|Hno].
  - destruct (after_done slotaddr (home_of bs) (indices bs) committed i) as (E1 & E2 & _).
    + apply NoDup_seqZ.
    + intros j m. by apply home_inj.
    + intros j m Hj Hm. by apply slot_not_home.
    + done.
    + unfold installed, to_home. rewrite E1, E2. split; by apply committed_slot.
  - destruct (after_frame slotaddr (home_of bs) (indices bs) committed a) as (E1 & E2 & _); [done|].
    unfold installed, to_home. rewrite E1, E2. destruct (committed_home a Ha) as [-> ->].
    split; [symmetry; by apply Hclean | done].
Qed.

Definition erased : dstate := store hdr (encode_head [] (view installed hdr)) installed.

Lemma installed_hdr : length (view installed hdr) = 512%nat.
Proof.
  destruct (after_frame slotaddr (home_of bs) (indices bs) committed hdr) as (_ & E & _).
  { intros i Hi. by apply hdr_not_home. }
  unfold installed, to_home. rewrite E. unfold committed, store. cbn -[encode_head].
  rewrite fn_lookup_insert, logged_hdr. by apply length_encode_head.
Qed.

Lemma erased_recoverable : recoverable (disk erased).
Proof.
  apply recoverable_empty; [|apply (head_of_store []); [apply installed_hdr | apply good_nil]].
  unfold erased, store. cbn -[encode_head]. rewrite fn_lookup_insert.
  apply length_encode_head; [apply installed_hdr | apply good_nil].
Qed.

Lemma erased_ok : head_n (disk erased) = 0 ∧ ∀ a, home a → disk erased a = view d a ∧ view erased a = view d a.
Proof.
  split; [apply (head_of_store []); [apply installed_hdr | apply good_nil]|].
  intros a Ha. unfold erased. cbn. rewrite !fn_lookup_insert_ne by by apply home_not_hdr.
  by apply installed_home.
Qed.
End phases.

(** ** Atomic commit *)

(** The state in which a transaction on [bs] is committed: the blocks of the
    transaction are pinned in the cache, every other block of the file system
    is as on disk, and the log on disk is empty. *)
Record ready (bs : list Z) (d : dstate) : Prop := {
  rd_good : good_list bs;
  rd_held : held d = ∅;
  rd_len : length (view d hdr) = 512%nat;
  rd_dlen : length (disk d hdr) = 512%nat;
  rd_empty : head_n (disk d) = 0;
  rd_safe : ∀ i, i ∈ indices bs → safe_block d (home_of bs i);
  rd_clean : ∀ a, home a → (∀ i, i ∈ indices bs → home_of bs i ≠ a) → view d a = disk d a
}.

Definition recovers_to (l : lsys C) (x : baddr → block) : Prop :=
  ∀ a, home a → replay (pdisk (cache l)) a = x a.

(** A stop that is harmless: recovery is possible and gives [x]. *)
Definition safe_stop (l : lsys C) (x : baddr → block) : Prop :=
  recoverable (pdisk (cache l)) ∧ recovers_to l x.

Lemma on_disk_safe e l x :
  on_disk e l → recoverable (disk e) → (∀ a, home a → replay (disk e) a = x a) → safe_stop l x.
Proof.
  intros Hd Hrc Hx. split; [apply (recoverable_ext (disk e)); [symmetry; apply Hd | done]|].
  intros a Ha. rewrite (replay_ext _ (disk e)); [by apply Hx | exact Hd].
Qed.

(** Some block is outside the log. *)
Lemma home_exists : home (dev, start + size).
Proof. intros _. right. cbn. lia. Qed.

Lemma log_for_zero bs l : log_for bs l → log_for [] (l <| lh_n := 0 |>).
Proof. intros [H1 H2 H3 [r H4]]. split; [done | done | done | by exists (bs ++ r)]. Qed.

(** The harmless stops of the four phases. *)
Section stops.
Context (bs : list Z) (d : dstate) (Hd : ready bs d) (l : lsys C).

Lemma stop_writing pre post :
  indices bs = pre ++ post → on_disk (after (to_slot bs) pre d) l → safe_stop l (disk d).
Proof.
  destruct Hd as [Hg Hheld Hlen Hdlen Hempty Hsafe Hclean]. intros Hp Hl.
  eapply on_disk_safe; [exact Hl | | by intros; eapply (replay_writing bs)].
  apply (recoverable_ext (disk d)); [|by apply recoverable_empty].
  symmetry. by eapply (replay_writing bs d Hg Hempty pre post _ Hp home_exists).
Qed.

Lemma stop_installing pre post :
  indices bs = pre ++ post → on_disk (after (to_home bs) pre (committed bs d)) l → safe_stop l (view d).
Proof.
  destruct Hd as [Hg Hheld Hlen Hdlen Hempty Hsafe Hclean]. intros Hp Hl.
  eapply on_disk_safe; [exact Hl | | by intros; eapply (replay_installing bs)].
  apply (recoverable_ext (disk (committed bs d))); [|by apply committed_recoverable].
  symmetry. by eapply (replay_installing bs d Hg Hlen Hclean pre post _ Hp home_exists).
Qed.

Lemma stop_erased : on_disk (erased bs d) l → safe_stop l (view d).
Proof.
  destruct Hd as [Hg Hheld Hlen Hdlen Hempty Hsafe Hclean]. intros Hl.
  destruct (erased_ok bs d Hg Hlen Hclean) as [H0 Hx].
  eapply on_disk_safe; [exact Hl | by apply erased_recoverable |].
  intros a Ha. rewrite replay_empty by exact H0. by apply Hx.
Qed.
End stops.

Lemma committed_held bs d : held (committed bs d) = held d.
Proof. unfold committed, logged_state. cbn. by rewrite after_held. Qed.

Lemma installed_held bs d : held (installed bs d) = held d.
Proof. unfold installed. rewrite after_held by done. apply committed_held. Qed.

Lemma commit_spec bs l d :
  ready bs d → log_for bs l → rep (cache l) d →
  wp commit
    (fun _ l' => lh_n l' = 0 ∧ ∃ d', rep (cache l') d' ∧ held d' = ∅ ∧ head_n (disk d') = 0 ∧
       ∀ a, home a → disk d' a = view d a ∧ view d' a = view d a)
    (fun _ l' => safe_stop l' (disk d) ∨ safe_stop l' (view d)) l.
Proof.
  intros Hrd Hl Hr. pose proof Hrd as [Hg Hheld Hlen Hdlen Hempty Hsafe Hclean].
  unfold commit. do 2 wp_step. rewrite (lf_n _ _ Hl). apply wp_when; intros Hn.
  2:{ assert (bs = []) as -> by
        (destruct (Z.gtb_spec (Z.of_nat (length bs)) 0); [done | destruct bs; [done | cbn in *; lia]]).
      split; [by rewrite (lf_n _ _ Hl)|]. exists d. do 3 (split; [done|]).
      intros a Ha. split; [|done]. symmetry. apply Hclean; [done|]. intros i Hi. by apply elem_of_nil in Hi. }
  wp_step. eapply wp_mono; [by apply write_log_spec| |].
  2:{ intros w l' (pre & post & Hp & Hd). left. by eapply stop_writing. }
  intros [] l1 (c1 & -> & Hr1). wp_step.
  eapply wp_mono; [eapply (write_head_spec bs); [by apply log_for_cache | exact Hr1 | by rewrite after_held]| |].
  2:{ intros w l' [Hd|Hd]; [left | right].
      - by apply (stop_writing bs d Hrd l' (indices bs) []); [rewrite app_nil_r|].
      - by apply (stop_installing bs d Hrd l' [] (indices bs)). }
  intros [] l2 (c2 & -> & Hr2). wp_step.
  eapply wp_mono; [eapply (install_trans_spec bs _ (committed bs d)); [done | by do 2 apply log_for_cache | exact Hr2 | by rewrite committed_held |]| |].
  { intros i Hi. by destruct (committed_slot bs d Hg i Hi) as [-> ->]. }
  2:{ intros w l' (pre & post & Hp & Hd). right. by eapply stop_installing. }
  intros [] l3 (c3 & -> & Hr3). do 2 wp_step.
  eapply wp_mono; [eapply (write_head_spec [] _ (installed bs d)); [|exact Hr3 | by rewrite installed_held]| |].
  { eapply log_for_zero. by do 3 apply log_for_cache. }
  - intros [] l4 (c4 & -> & Hr4). split; [done|]. exists (erased bs d). split; [exact Hr4|].
    split; [cbn; by rewrite installed_held | by apply erased_ok].
  - intros w l' [Hd|Hd]; right; [|by eapply stop_erased].
    by apply (stop_installing bs d Hrd l' (indices bs) []); [rewrite app_nil_r|].
Qed.

(** ** Recovery *)

(** A freshly started cache shows the disk. *)
Record booted (d : dstate) : Prop := {
  bt_held : held d = ∅;
  bt_view : ∀ a, view d a = disk d a
}.

(** The log just after [initlog] set its fields. *)
Record log_at (l : lsys C) : Prop := {
  la_dev : log_dev l = dev;
  la_start : log_start l = start;
  la_block : length (lh_block l) = 30%nat
}.

Lemma head_list_len dk : 0 ≤ head_n dk → Z.of_nat (length (head_list dk)) = head_n dk.
Proof. intros Hn. unfold head_list. rewrite length_fmap, length_seqZ. lia. Qed.

(** Copying the block numbers out of the header. *)
Lemma wp_read_entries h x d l n (Q : unit → lsys C → Prop) E :
  rep (cache l) d → held d !! h = Some hdr → view d hdr = x → length (lh_block l) = 30%nat →
  0 ≤ n ≤ 30 →
  (∀ c rest, rep c d → Q tt (l <| cache := c |> <| lh_block := (head_entry x <$> seqZ 0 n) ++ rest |>)) →
  wp (for_each (seqZ 0 n) (fun i =>
        x ← inC (get_data h);
        b ← gets lh_block;
        b' ← deref (array_set b i (i32 (get32 x (Z.to_nat (4 + 4 * i)))));
        modify (fun l => l <| lh_block := b' |>))) Q E l.
Proof.
  intros Hr Hh Hx Hl Hn HQ.
  eapply wp_weaken; [apply (for_each_wp (fun zs l' => ∃ j c rest, 0 ≤ j ≤ n ∧ zs = seqZ j (n - j) ∧ rep c d ∧
    l' = l <| cache := c |> <| lh_block := (head_entry x <$> seqZ 0 j) ++ rest |> ∧
    Z.of_nat (length rest) = 30 - j))|].
  - exists 0, (cache l), (lh_block l). rewrite Z.sub_0_r. repeat split; try done; try lia. by destruct l.
  - intros i zs l' (j & c & rest & Hj & Hzs & Hc & -> & Hrest).
    assert (Hlt : j < n). { destruct (decide (j < n)); [done|]. rewrite seqZ_nil in Hzs by lia. done. }
    rewrite seqZ_cons in Hzs by lia. injection Hzs as -> ->.
    destruct rest as [|r0 rest]; [cbn in Hrest; lia|].
    wp_step. apply wp_inC. eapply wp_mono; [eapply (get_data_law _ _ h hdr); [exact Hc | done]| |done].
    intros y c' [-> Hc']. rewrite Hx. do 3 wp_step.
    assert (Hlen : length (head_entry x <$> seqZ 0 j) = Z.to_nat j) by (rewrite length_fmap, length_seqZ; done).
    eapply wp_deref; [apply array_set_in; cbn; rewrite length_app; cbn in *; lia|]. wp_step.
    exists (j + 1), c', rest. split; [lia|]. split; [f_equal; lia|]. split; [done|]. split; [|cbn in Hrest; lia].
    assert (Hins : ∀ v, <[Z.to_nat j := v]> ((head_entry x <$> seqZ 0 j) ++ r0 :: rest) =
      ((head_entry x <$> seqZ 0 j) ++ [v]) ++ rest).
    { intros v. rewrite insert_app_r_alt, Hlen, Nat.sub_diag by lia. by rewrite <-app_assoc. }
    cbn. rewrite Hins, seqZ_snoc, fmap_app by lia. by destruct l.
  - intros [] l' (j & c & rest & Hj & Hzs & Hc & -> & _).
    assert (j = n) as ->. { destruct (decide (j = n)); [done|]. rewrite seqZ_cons in Hzs by lia. done. }
    by apply HQ.
Qed.

Lemma read_head_spec l d :
  log_at l → rep (cache l) d → booted d → recoverable (disk d) →
  wp read_head (fun _ l' => log_for (head_list (disk d)) l' ∧ rep (cache l') d)
    (fun _ l' => on_disk d l') l.
Proof.
  intros [Hdev Hstart Hblk] Hr [Hheld Hview] [Hg Hn Hlen]. unfold read_head. do 4 wp_step.
  rewrite Hdev, Hstart. wp_step.
  apply (wp_log_bread _ d start); [done | by rewrite Hheld | unfold FSSIZE in *; lia | | done].
  intros h c Hh Hc. wp_step. apply wp_inC.
  eapply wp_mono; [eapply (get_data_law _ _ h hdr); [exact Hc | by cbn; rewrite lookup_insert_eq]| |done].
  intros x c1 [-> Hc1]. cbn [view update_field]. do 4 wp_step. cbn. rewrite Hview.
  pose proof (head_list_len (disk d) Hn) as Hll. pose proof (gl_len _ Hg).
  change (i32 (get32 (disk d hdr) 0)) with (head_n (disk d)). wp_step.
  eapply (wp_read_entries h (disk d hdr)).
  - exact Hc1.
  - cbn. by rewrite lookup_insert_eq.
  - apply Hview.
  - exact Hblk.
  - unfold LOGSIZE, MAXOPBLOCKS in *. lia.
  - intros c2 rest Hc2. cbn. apply wp_inC.
    eapply wp_mono; [eapply (brelse_law _ _ h hdr); [exact Hc2 | by cbn; rewrite lookup_insert_eq |]| |].
    + right. apply Hview.
    + intros [] c3 Hc3. split; [split; cbn; auto; by exists rest|].
      eapply rep_proper; [|exact Hc3]. repeat split. cbn. by rewrite delete_insert_id.
    + intros w c' Hk. exact Hk.
Qed.

(** Installing into a cache that shows the disk keeps it so. *)
Lemma after_view_disk (src dst : Z → baddr) zs e :
  (∀ a, view e a = disk e a) →
  let e' := after (fun i => copy_one (src i) (dst i)) zs e in ∀ a, view e' a = disk e' a.
Proof.
  unfold after. revert e. induction zs as [|z zs IH]; intros e He; cbn; [done|].
  apply IH. intros a. cbn. destruct (decide (dst z = a)) as [<-|].
  - by rewrite !fn_lookup_insert.
  - by rewrite !fn_lookup_insert_ne.
Qed.

Section recovering.
Context (d : dstate) (Hb : booted d) (Hrc : recoverable (disk d)).
Let bs := head_list (disk d).

Lemma recovering_prefix pre post :
  indices bs = pre ++ post →
  recoverable (disk (after (to_home bs) pre d)) ∧
  ∀ a, home a → replay (disk (after (to_home bs) pre d)) a = replay (disk d) a.
Proof.
  intros Hp. destruct Hb as [_ Hview]. destruct Hrc as [Hg _ _]. split.
  - apply (recoverable_ext (disk d)); [|done]. symmetry.
    by apply (replay_install bs d pre post _ Hg eq_refl ltac:(auto) Hp home_exists).
  - intros a Ha. by apply (replay_install bs d pre post a Hg eq_refl ltac:(auto) Hp Ha).
Qed.

Definition replayed : dstate := after (to_home bs) (indices bs) d.

Lemma replayed_view a : view replayed a = disk replayed a.
Proof. apply after_view_disk. apply Hb. Qed.

Lemma replayed_held : held replayed = ∅.
Proof. unfold replayed. rewrite after_held by done. apply Hb. Qed.

Lemma replayed_home a : home a → disk replayed a = replay (disk d) a.
Proof.
  intros Ha. destruct Hb as [_ Hview]. destruct Hrc as [Hg _ _].
  destruct (logged_or_not bs a) as [(i & Hi & ->)|Hno].
  - rewrite (replay_logged bs) by done. rewrite <-Hview.
    apply (after_done slotaddr (home_of bs) (indices bs) d i); [apply NoDup_seqZ | | | done].
    + intros j m. by apply home_inj.
    + intros j m Hj Hm. by apply slot_not_home.
  - rewrite (replay_other bs) by done. by apply (after_frame slotaddr (home_of bs) (indices bs) d a).
Qed.

Definition recovered : dstate := store hdr (encode_head [] (view replayed hdr)) replayed.

Lemma recovered_head : head_n (disk recovered) = 0 ∧ recoverable (disk recovered).
Proof.
  destruct (recovering_prefix (indices bs) []) as [[_ _ Hlen] _]; [by rewrite app_nil_r|].
  assert (Hv : length (view replayed hdr) = 512%nat) by (rewrite replayed_view; exact Hlen).
  assert (Hz : head_n (disk recovered) = 0) by (apply (head_of_store []); [done | apply good_nil]).
  split; [done|]. apply recoverable_empty; [|done]. unfold recovered. cbn -[encode_head].
  rewrite fn_lookup_insert. apply length_encode_head; [done | apply good_nil].
Qed.

Lemma recovered_home a : home a → disk recovered a = replay (disk d) a.
Proof.
  intros Ha. cbn -[encode_head]. rewrite fn_lookup_insert_ne by by apply home_not_hdr.
  by apply replayed_home.
Qed.

Lemma recovered_booted : booted recovered.
Proof.
  split; [apply replayed_held|]. intros a. cbn -[encode_head].
  destruct (decide (hdr = a)) as [<-|]; [by rewrite !fn_lookup_insert|].
  rewrite !fn_lookup_insert_ne by done. apply replayed_view.
Qed.
End recovering.

Lemma recover_spec l d :
  log_at l → rep (cache l) d → booted d → recoverable (disk d) →
  wp recover_from_log
    (fun _ l' => lh_n l' = 0 ∧ ∃ d', rep (cache l') d' ∧ booted d' ∧ head_n (disk d') = 0 ∧
       ∀ a, home a → disk d' a = replay (disk d) a)
    (fun _ l' => safe_stop l' (replay (disk d))) l.
Proof.
  intros Hl Hr Hb Hrc. pose proof Hb as [Hheld Hview]. pose proof Hrc as [Hg Hn Hlen].
  set (bs := head_list (disk d)) in *. unfold recover_from_log. wp_step.
  eapply wp_mono; [by eapply (read_head_spec l d)| |].
  2:{ intros w l' Hd. by apply (on_disk_safe d). }
  intros [] l1 [Hl1 Hr1]. wp_step.
  eapply wp_mono; [by apply (install_trans_spec bs _ d); auto| |].
  2:{ intros w l' (pre & post & Hp & Hd). destruct (recovering_prefix d Hb Hrc pre post Hp).
      by eapply (on_disk_safe (after (to_home bs) pre d)). }
  intros [] l2 (c2 & -> & Hr2). do 2 wp_step.
  destruct (recovered_head d Hb Hrc) as [Hz Hrec].
  eapply wp_mono; [eapply (write_head_spec [] _ (replayed d)); [|exact Hr2 | by apply replayed_held]| |].
  { eapply log_for_zero. by apply log_for_cache. }
  - intros [] l3 (c3 & -> & Hr3). split; [done|]. exists (recovered d). split; [exact Hr3|].
    split; [by apply recovered_booted|]. split; [done|]. by apply recovered_home.
  - intros w l' [Hd|Hd].
    + destruct (recovering_prefix d Hb Hrc (indices bs) []); [by rewrite app_nil_r|].
      by apply (on_disk_safe (replayed d)).
    + apply (on_disk_safe (recovered d)); [exact Hd | done |].
      intros a Ha. rewrite replay_empty by done. by apply recovered_home.
Qed.

(** ** Crashes, reboots and crashes during recovery *)

(** A machine that boots from the disk [dk]. *)
Definition boots (dk : baddr → block) (l : lsys C) : Prop :=
  log_at l ∧ ∃ d, rep (cache l) d ∧ booted d ∧ ∀ a, disk d a = dk a.

(** A recovery that stops before its end, and one that finishes. *)
Definition crashed_recovery (dk dk' : baddr → block) : Prop :=
  ∃ l w l', boots dk l ∧ recover_from_log l = Stop w l' ∧ dk' = pdisk (cache l').
Definition finished_recovery (dk dk' : baddr → block) : Prop :=
  ∃ l l', boots dk l ∧ recover_from_log l = Ok tt l' ∧ dk' = pdisk (cache l').

Definition recovering_to (x : baddr → block) (dk : baddr → block) : Prop :=
  recoverable dk ∧ ∀ a, home a → replay dk a = x a.

Lemma boots_spec dk l x :
  boots dk l → recovering_to x dk →
  wp recover_from_log (fun _ l' => ∀ a, home a → pdisk (cache l') a = x a)
    (fun _ l' => recovering_to x (pdisk (cache l'))) l.
Proof.
  intros [Hl (d & Hr & Hb & Hd)] [Hrc Hx].
  assert (Hre : ∀ a, home a → replay (disk d) a = x a) by (intros; rewrite (replay_ext _ dk); auto).
  eapply wp_mono; [apply (recover_spec l d); [done | done | done | by apply (recoverable_ext dk)]| |].
  - intros [] l' (_ & d' & Hr' & _ & _ & Hh) a Ha. rewrite (rep_disk _ d') by done. rewrite Hh by done. auto.
  - intros w l' [H1 H2]. split; [done|]. intros a Ha. rewrite (H2 a Ha). auto.
Qed.

Lemma crashed_recoveries dk dk' x :
  rtc crashed_recovery dk dk' → recovering_to x dk → recovering_to x dk'.
Proof.
  intros Hr. induction Hr as [|dk1 dk2 dk3 (l & w & l' & Hl & He & ->) _ IH]; [done|].
  intros Hx. apply IH. pose proof (boots_spec _ _ _ Hl Hx) as Hw. unfold wp in Hw. by rewrite He in Hw.
Qed.

(** Whatever happened before, the recovery that finishes shows [x]. *)
Definition always_recovers_to (dk x : baddr → block) : Prop :=
  ∀ dk1 dk2, rtc crashed_recovery dk dk1 → finished_recovery dk1 dk2 → ∀ a, home a → dk2 a = x a.

Lemma safe_stop_recovers l x : safe_stop l x → always_recovers_to (pdisk (cache l)) x.
Proof.
  intros Hs dk1 dk2 Hr (l1 & l2 & Hb & He & ->).
  pose proof (crashed_recoveries _ _ x Hr Hs) as Hx.
  pose proof (boots_spec _ _ _ Hb Hx) as Hw. unfold wp in Hw. by rewrite He in Hw.
Qed.
End log_proof.

(** C1: A commit is atomic whatever happens.  If it returns, every block of
    the file system is on disk as the cache shows it and the log is empty.
    If it stops anywhere (a loss of power between any two disk writes, or a
    panic), then after any number of reboots, each of which may again crash
    in the middle of recovery, the first recovery that finishes leaves either
    all blocks as they were before the transaction or all blocks as the
    transaction wrote them. *)
Theorem commit_atomic {C : Type} `{!BlockCache C} `{!BlockLaws C} (dev start size : Z)
    (bs : list Z) (l : lsys C) (d : dstate) :
  0 ≤ start ∧ 1 ≤ size ≤ LOGSIZE + 1 ∧ start + size ≤ FSSIZE →
  ready dev start size bs d → log_for dev start bs l → rep (cache l) d →
  wp commit
    (fun _ l' => lh_n l' = 0 ∧ ∃ d', rep (cache l') d' ∧ head_n dev start (disk d') = 0 ∧
       ∀ a, home dev start size a → disk d' a = view d a ∧ view d' a = view d a)
    (fun _ l' => always_recovers_to dev start size (C := C) (pdisk (cache l')) (disk d) ∨
       always_recovers_to dev start size (C := C) (pdisk (cache l')) (view d)) l.
Proof.
  intros Hgeo Hrd Hl Hr. eapply wp_mono; [by eapply (commit_spec dev start size Hgeo bs l d)| |].
  - intros [] l' (H0 & d' & Hr' & _ & Hn & Ha). eauto.
  - intros w l' [Hs|Hs]; [left | right]; by apply safe_stop_recovers.
Qed.

(** C15: Recovery replays the log and can be interrupted: run to its end it
    leaves every block of the file system as the log on disk says, empties
    the log and shows the disk in the cache; stopped anywhere it leaves a
    disk from which the same contents are recovered. *)
Theorem recovery_idempotent {C : Type} `{!BlockCache C} `{!BlockLaws C} (dev start size : Z)
    (l : lsys C) (d : dstate) :
  0 ≤ start ∧ 1 ≤ size ≤ LOGSIZE + 1 ∧ start + size ≤ FSSIZE →
  log_at dev start l → rep (cache l) d → booted d → recoverable dev start size (disk d) →
  wp recover_from_log
    (fun _ l' => lh_n l' = 0 ∧ ∃ d', rep (cache l') d' ∧ booted d' ∧ head_n dev start (disk d') = 0 ∧
       ∀ a, home dev start size a → disk d' a = replay dev start (disk d) a)
    (fun _ l' => recoverable dev start size (pdisk (cache l')) ∧
       ∀ a, home dev start size a → replay dev start (pdisk (cache l')) a = replay dev start (disk d) a) l.
Proof. intros Hgeo Hl Hr Hb Hrc. by apply recover_spec. Qed.

(** *** A concrete transaction: block 100 of device 1, log at blocks 2..31 *)
Definition zeros : block := replicate 512 0.
Definition sample_d : dstate :=
  mkd (fun _ => zeros) (<[(1, 100) := replicate 512 7]> (fun _ => zeros))
      (<[(1, 100) := true]> (fun _ => false)) ∅.
Definition sample_log (power : nat) : lsys refcache :=
  mklsys (mkrc sample_d power 0) (mkcpu 0 0 false true) (initlock "log") 2 30 0 true 1 1
    (100 :: replicate 29 0).

Lemma sample_good : good_list 2 30 [100].
Proof.
  split; [apply NoDup_singleton | cbn; lia|].
  intros b ->%list_elem_of_singleton. unfold FSSIZE. lia.
Qed.

Lemma sample_ready : ready 1 2 30 [100] sample_d.
Proof.
  split; [apply sample_good | reflexivity | reflexivity | reflexivity | vm_compute; reflexivity | |].
  - intros i Hi. left. apply elem_of_seqZ in Hi. cbn in Hi. assert (i = 0) as -> by lia. reflexivity.
  - intros a _ Hno. cbn. rewrite fn_lookup_insert_ne; [done|].
    intros <-. apply (Hno 0); [apply elem_of_seqZ; cbn; lia | reflexivity].
Qed.

Lemma sample_rep power : rep (cache (sample_log power)) sample_d.
Proof. split; [reflexivity|]. intros h _. apply lookup_empty. Qed.

Lemma commit_atomic_witness :
  wp commit
    (fun _ l' => lh_n l' = 0 ∧ ∃ d', rep (cache l') d' ∧ head_n 1 2 (disk d') = 0 ∧
       ∀ a, home 1 2 30 a → disk d' a = view sample_d a ∧ view d' a = view sample_d a)
    (fun _ l' => always_recovers_to 1 2 30 (C := refcache) (pdisk (cache l')) (disk sample_d) ∨
       always_recovers_to 1 2 30 (C := refcache) (pdisk (cache l')) (view sample_d)) (sample_log 2).
Proof.
  apply (commit_atomic 1 2 30 [100]).
  - unfold LOGSIZE, MAXOPBLOCKS, FSSIZE. lia.
  - apply sample_ready.
  - split; [reflexivity | reflexivity | reflexivity | exists (replicate 29 0); reflexivity].
  - apply sample_rep.
Defined.

(** A disk with a committed transaction in its log. *)
Definition sample_crashed : dstate :=
  let x := encode_head [100] zeros in
  let dk := <[(1, 2) := x]> (<[(1, 3) := replicate 512 7]> (fun _ => zeros)) in
  mkd dk dk (fun _ => false) ∅.
Definition sample_boot (power : nat) : lsys refcache :=
  mklsys (mkrc sample_crashed power 0) (mkcpu 0 0 false true) (initlock "log") 2 30 0 false 1 0
    (replicate 30 0).

Lemma sample_recoverable : recoverable 1 2 30 (disk sample_crashed).
Proof.
  split.
  - assert (head_list 1 2 (disk sample_crashed) = [100]) as -> by (vm_compute; reflexivity). apply sample_good.
  - assert (head_n 1 2 (disk sample_crashed) = 1) as -> by (vm_compute; reflexivity). lia.
  - vm_compute. reflexivity.
Qed.

Lemma recovery_idempotent_witness :
  wp recover_from_log
    (fun _ l' => lh_n l' = 0 ∧ ∃ d', rep (cache l') d' ∧ booted d' ∧ head_n 1 2 (disk d') = 0 ∧
       ∀ a, home 1 2 30 a → disk d' a = replay 1 2 (disk sample_crashed) a)
    (fun _ l' => recoverable 1 2 30 (pdisk (cache l')) ∧
       ∀ a, home 1 2 30 a → replay 1 2 (pdisk (cache l')) a = replay 1 2 (disk sample_crashed) a)
    (sample_boot 5).
Proof.
  apply (recovery_idempotent 1 2 30).
  - unfold LOGSIZE, MAXOPBLOCKS, FSSIZE. lia.
  - split; reflexivity.
  - split; [reflexivity|]. intros h _. apply lookup_empty.
  - split; [reflexivity|]. intros a. reflexivity.
  - apply sample_recoverable.
Defined.
