(* ===== verification/Bio.v ===== *)
(** * The buffer cache (bio.c, memide.c)

    Thirty buffers on a doubly linked ring in order of use.  The disk is the
    memory disk of memide.c, with a [fuse] that counts the disk writes until
    the power fails.  The cache is proved to satisfy [BlockLaws], so that
    everything proved of the log for a lawful cache holds for this one. *)
From stdpp Require Import gmap functions.
From S2P Require Import Prelude Spinlock Proc Sleep Sleeplock Bytes Block.

Definition NBUF : nat := 30.
Definition B_VALID : Z := 2.
Definition B_DIRTY : Z := 4.

Record buf := mkbuf {
  flags : Z;
  b_dev : Z;
  blockno : Z;
  b_lock : sleeplock;
  refcnt : Z;
  prev : nat;
  next : nat;
  b_data : block
}.
#[export] Instance buf_eta : EtaRecord buf := fun b =>
  mkbuf (flags b) (b_dev b) (blockno b) (b_lock b) (refcnt b) (prev b) (next b) (b_data b).

(** [bcache.buf] is 0..29 and [bcache.head] is buffer 30. *)
Definition HEAD : nat := NBUF.

Record bst := mkbst {
  b_kern : kstate;
  bc_lock : spinlock;
  bufs : list buf;
  memdisk : Z → block;
  disksize : Z;
  fuse : nat
}.
#[export] Instance bst_eta : EtaRecord bst := fun s =>
  mkbst (b_kern s) (bc_lock s) (bufs s) (memdisk s) (disksize s) (fuse s).

Abbreviation B := (M bst).
Definition bget_buf (i : nat) : B buf := bs ← gets bufs; deref (bs !! i).
Definition bupd (i : nat) (f : buf → buf) : B unit :=
  b ← bget_buf i; modify (fun s => s <| bufs ::= <[i := f b]> |>).
Definition with_bc_lock {A} (m : M (cpu * spinlock) A) : B A :=
  zoom (fun s => (this_cpu (b_kern s), bc_lock s))
       (fun p s => s <| b_kern ::= fun k => k <| this_cpu := p.1 |> |> <| bc_lock := p.2 |>) m.
Definition with_buf_lock {A} (i : nat) (m : SL A) : B A :=
  b ← bget_buf i;
  zoom (fun s => (b_kern s, b_lock b))
       (fun p s => s <| b_kern := p.1 |> <| bufs ::= <[i := b <| b_lock := p.2 |>]> |>) m.

(** One turn of the loop of [binit]. *)
Definition binit_one (i : nat) : B unit :=
  h ← bget_buf HEAD;
  bupd i (fun b => b <| next := next h |>);;
  bupd i (fun b => b <| prev := HEAD |>);;
  bupd i (fun b => b <| b_lock := initsleeplock "buffer" |>);;
  h ← bget_buf HEAD;
  bupd (next h) (fun b => b <| prev := i |>);;
  bupd HEAD (fun b => b <| next := i |>).

Definition binit : B unit :=
  modify (fun s => s <| bc_lock := initlock "bcache" |>);;
  bupd HEAD (fun b => b <| prev := HEAD |>);;
  bupd HEAD (fun b => b <| next := HEAD |>);;
  for_each (seq 0 NBUF) binit_one.

(** A walk along the ring from [b], by [step], to the first buffer that
    passes the test or to the head. *)
Fixpoint ring_find (step : buf → nat) (test : buf → bool) (fuel b : nat) : B (option nat) :=
  if Nat.eqb b HEAD then mret None
  else
    match fuel with
    | O => stop_with NoFuel
    | S fuel =>
        x ← bget_buf b;
        if test x then mret (Some b) else ring_find step test fuel (step x)
    end.

Section code.
(** [sleep] on the lock of a buffer, how often it may be called, and the
    addresses of the locks. *)
Context (sleep_buf : nat → SL unit) (naps : nat) (lock_chan : nat → chan_t).

Definition bget (dev n : Z) : B nat :=
  with_bc_lock acquire;;
  h ← bget_buf HEAD;
  r ← ring_find next (fun b => (b_dev b =? dev) && (blockno b =? n)) (S NBUF) (next h);
  match r with
  | Some b =>
      bupd b (fun x => x <| refcnt := u32 (refcnt x + 1) |>);;
      with_bc_lock release;;
      with_buf_lock b (acquiresleep (sleep_buf b) naps);;
      mret b
  | None =>
      h ← bget_buf HEAD;
      r ← ring_find prev (fun b => (refcnt b =? 0) && (Z.land (flags b) B_DIRTY =? 0)) (S NBUF) (prev h);
      match r with
      | Some b =>
          bupd b (fun x => x <| b_dev := dev |>);;
          bupd b (fun x => x <| blockno := n |>);;
          bupd b (fun x => x <| flags := 0 |>);;
          bupd b (fun x => x <| refcnt := 1 |>);;
          with_bc_lock release;;
          with_buf_lock b (acquiresleep (sleep_buf b) naps);;
          mret b
      | None => panic "bget: no buffers"
      end
  end.

(** [iderw] of memide.c.  The power may fail before the write. *)
Definition iderw (b : nat) : B unit :=
  h ← with_buf_lock b holdingsleep;
  if h =? 0 then panic "iderw: buf not locked" else
  x ← bget_buf b;
  if Z.land (flags x) (Z.lor B_VALID B_DIRTY) =? B_VALID then panic "iderw: nothing to do" else
  if negb (b_dev x =? 1) then panic "iderw: request not for disk 1" else
  size ← gets disksize;
  if blockno x >=? size then panic "iderw: block out of range" else
  (if negb (Z.land (flags x) B_DIRTY =? 0) then
     bupd b (fun x => x <| flags := Z.land (flags x) (Z.lnot B_DIRTY) |>);;
     f ← gets fuse;
     match f with
     | O => stop_with PowerLoss
     | S f =>
         modify (fun s => s <| fuse := f |> <| memdisk ::= <[blockno x := b_data x]> |>)
     end
   else
     d ← gets memdisk;
     bupd b (fun y => y <| b_data := d (blockno x) |>));;
  bupd b (fun x => x <| flags := Z.lor (flags x) B_VALID |>).

Definition bread (dev n : Z) : B nat :=
  b ← bget dev n;
  x ← bget_buf b;
  when (Z.land (flags x) B_VALID =? 0) (iderw b);;
  mret b.

Definition bwrite (b : nat) : B unit :=
  h ← with_buf_lock b holdingsleep;
  if h =? 0 then panic "bwrite" else
  bupd b (fun x => x <| flags := Z.lor (flags x) B_DIRTY |>);;
  iderw b.

(** Unlink a buffer and put it behind the head. *)
Definition move_to_front (b : nat) : B unit :=
  x ← bget_buf b; bupd (next x) (fun y => y <| prev := prev x |>);;
  x ← bget_buf b; bupd (prev x) (fun y => y <| next := next x |>);;
  h ← bget_buf HEAD; bupd b (fun y => y <| next := next h |>);;
  bupd b (fun y => y <| prev := HEAD |>);;
  h ← bget_buf HEAD; bupd (next h) (fun y => y <| prev := b |>);;
  bupd HEAD (fun y => y <| next := b |>).

Definition brelse (b : nat) : B unit :=
  h ← with_buf_lock b holdingsleep;
  if h =? 0 then panic "brelse" else
  with_buf_lock b (releasesleep (lock_chan b));;
  with_bc_lock acquire;;
  bupd b (fun x => x <| refcnt := u32 (refcnt x - 1) |>);;
  x ← bget_buf b;
  when (refcnt x =? 0) (move_to_front b);;
  with_bc_lock release.
End code.

(** ** The ring *)

(** [path f a l]: following [f] from [a] visits [l] and then the head. *)
Fixpoint path (f : nat → nat) (a : nat) (l : list nat) : Prop :=
  match l with
  | [] => f a = HEAD
  | x :: l' => f a = x ∧ path f x l'
  end.

Definition last_of (a : nat) (l : list nat) : nat := default a (last l).

Lemma last_of_cons a x l : last_of a (x :: l) = last_of x l.
Proof. unfold last_of. rewrite last_cons. by destruct (last l). Qed.

Lemma last_of_in a l : last_of a l = a ∨ last_of a l ∈ l.
Proof. unfold last_of. destruct (last l) eqn:E; [right; by apply last_Some_elem_of | by left]. Qed.

Lemma path_ext f g a l : (∀ x, x ∈ a :: l → f x = g x) → path f a l → path g a l.
Proof.
  revert a. induction l as [|x l IH]; intros a H; cbn.
  - rewrite H by apply list_elem_of_here. done.
  - rewrite (H a) by apply list_elem_of_here. intros [-> Hp]. split; [done|].
    apply IH; [|done]. intros y Hy. apply H. by apply list_elem_of_further.
Qed.


(** Taking an element out of the ring. *)
Lemma path_remove f a l1 b l2 :
  NoDup (a :: l1 ++ b :: l2) → path f a (l1 ++ b :: l2) →
  f (last_of a l1) = b ∧ path (<[last_of a l1 := f b]> f) a (l1 ++ l2).
Proof.
  revert a. induction l1 as [|x l1 IH]; intros a Hnd; cbn [app path].
  - intros [Hb Hp]. change (last_of a []) with a. split; [done|].
    assert (Hnb : ∀ y, y ∈ b :: l2 → a ≠ y) by (intros y Hy ->; by apply NoDup_cons in Hnd as []).
    destruct l2 as [|y l2]; cbn in *; [by rewrite fn_lookup_insert|].
    rewrite fn_lookup_insert. destruct Hp as [Hy Hp]. split; [done|].
    apply (path_ext f); [|done]. intros z Hz. rewrite fn_lookup_insert_ne; [done|].
    apply Hnb. by apply list_elem_of_further.
  - intros [Hx Hp]. apply NoDup_cons in Hnd as [Ha Hnd]. destruct (IH x Hnd Hp) as [H1 H2].
    rewrite last_of_cons. split; [done|]. split; [|done]. rewrite fn_lookup_insert_ne; [done|].
    intros Heq. apply Ha. cbn [app]. destruct (last_of_in x l1) as [E|E]; rewrite Heq in E.
    + rewrite E. apply list_elem_of_here.
    + apply list_elem_of_further, elem_of_app. by left.
Qed.

(** Putting an element at either end. *)
Lemma path_push f b l :
  b ∉ HEAD :: l → NoDup (HEAD :: l) → path f HEAD l → path (<[HEAD := b]> (<[b := f HEAD]> f)) HEAD (b :: l).
Proof.
  intros [Hb Hbl]%not_elem_of_cons [Hh _]%NoDup_cons Hp. cbn [path]. rewrite fn_lookup_insert. split; [done|].
  assert (Hout : ∀ y, y ∈ l → <[HEAD := b]> (<[b := f HEAD]> f) y = f y).
  { intros y Hy. rewrite !fn_lookup_insert_ne by (intros Heq; subst; done). done. }
  assert (Hbf : <[HEAD := b]> (<[b := f HEAD]> f) b = f HEAD)
    by (rewrite fn_lookup_insert_ne by done; apply fn_lookup_insert).
  destruct l as [|x l]; cbn [path] in *; [by rewrite Hbf|]. destruct Hp as [Hx Hp].
  rewrite Hbf. split; [done|]. apply (path_ext f); [|done]. intros y Hy. by rewrite Hout.
Qed.

Lemma path_snoc f a b l :
  NoDup (a :: l) → b ∉ a :: l → path f a l → path (<[last_of a l := b]> (<[b := HEAD]> f)) a (l ++ [b]).
Proof.
  revert a. induction l as [|x l IH]; intros a Hnd Hb; cbn [app path].
  - intros _. change (last_of a []) with a. rewrite fn_lookup_insert. split; [done|].
    rewrite fn_lookup_insert_ne; [apply fn_lookup_insert|]. intros ->. apply Hb, list_elem_of_here.
  - intros [Hx Hp]. apply NoDup_cons in Hnd as [Ha Hnd]. apply not_elem_of_cons in Hb as [Hba Hb].
    rewrite last_of_cons. split; [|by apply IH].
    rewrite fn_lookup_insert_ne; [by rewrite fn_lookup_insert_ne by congruence|].
    intros Heq. apply Ha. destruct (last_of_in x l) as [E|E]; rewrite Heq in E;
      [rewrite E; apply list_elem_of_here | by apply list_elem_of_further].
Qed.

Lemma path_last f a l : path f a l → f (last_of a l) = HEAD.
Proof.
  revert a. induction l as [|x l IH]; intros a; cbn [path]; [done|].
  intros [_ Hp]. rewrite last_of_cons. auto.
Qed.

Lemma path_first f a l : path f a l → f a = default HEAD (head l).
Proof. destruct l; cbn; [done | by intros []]. Qed.

Lemma path_tail f a l1 b l2 : path f a (l1 ++ b :: l2) → path f b l2.
Proof. revert a. induction l1 as [|x l1 IH]; intros a; cbn; [by intros [] | intros [_ ?]; eauto]. Qed.

(** The links as functions, and the rest of a buffer. *)
Definition nx (bs : list buf) (i : nat) : nat := default HEAD (next <$> bs !! i).
Definition pv (bs : list buf) (i : nat) : nat := default HEAD (prev <$> bs !! i).
Definition core (b : buf) : buf := b <| prev := HEAD |> <| next := HEAD |>.
Definition same_core (bs bs' : list buf) : Prop := ∀ i, core <$> bs !! i = core <$> bs' !! i.

Lemma same_core_length bs bs' : same_core bs bs' → length bs = length bs'.
Proof.
  intros H. apply Nat.le_antisymm; apply Nat.nlt_ge; intros Hlt.
  - apply lookup_lt_is_Some in Hlt as [x Hx]. specialize (H (length bs')). rewrite Hx in H.
    by rewrite (lookup_ge_None_2 bs') in H by lia.
  - apply lookup_lt_is_Some in Hlt as [x Hx]. specialize (H (length bs)). rewrite Hx in H.
    by rewrite (lookup_ge_None_2 bs) in H by lia.
Qed.

Lemma wp_bget i (Q : buf → bst → Prop) E s b :
  bufs s !! i = Some b → Q b s → wp (bget_buf i) Q E s.
Proof. intros Hb HQ. unfold bget_buf. do 2 wp_step. by eapply wp_deref. Qed.

Lemma wp_bupd i f (Q : unit → bst → Prop) E s b :
  bufs s !! i = Some b → Q tt (s <| bufs ::= <[i := f b]> |>) → wp (bupd i f) Q E s.
Proof. intros Hb HQ. unfold bupd. wp_step. eapply wp_bget; [done|]. by wp_step. Qed.

Lemma wp_links i (Q : buf → bst → Prop) E s :
  (i < length (bufs s))%nat →
  (∀ b, bufs s !! i = Some b → next b = nx (bufs s) i → prev b = pv (bufs s) i → Q b s) →
  wp (bget_buf i) Q E s.
Proof.
  intros [b Hb]%lookup_lt_is_Some HQ. eapply wp_bget; [done|].
  apply HQ; [done | unfold nx; by rewrite Hb | unfold pv; by rewrite Hb].
Qed.

Lemma wp_set_next i v (Q : unit → bst → Prop) E s :
  (i < length (bufs s))%nat →
  (∀ bs', same_core (bufs s) bs' → (∀ j, nx bs' j = (<[i := v]> (nx (bufs s))) j) →
     (∀ j, pv bs' j = pv (bufs s) j) → Q tt (s <| bufs := bs' |>)) →
  wp (bupd i (fun b => b <| next := v |>)) Q E s.
Proof.
  intros Hi HQ. pose proof Hi as [b Hb]%lookup_lt_is_Some. eapply wp_bupd; [done|]. apply HQ.
  - intros j. destruct (decide (j = i)) as [->|]; [by rewrite list_lookup_insert_eq, Hb|].
    by rewrite list_lookup_insert_ne.
  - intros j. unfold nx. destruct (decide (j = i)) as [->|].
    + by rewrite list_lookup_insert_eq, fn_lookup_insert.
    + by rewrite list_lookup_insert_ne, fn_lookup_insert_ne.
  - intros j. unfold pv. destruct (decide (j = i)) as [->|]; [by rewrite list_lookup_insert_eq, Hb|].
    by rewrite list_lookup_insert_ne.
Qed.

Lemma wp_set_prev i v (Q : unit → bst → Prop) E s :
  (i < length (bufs s))%nat →
  (∀ bs', same_core (bufs s) bs' → (∀ j, pv bs' j = (<[i := v]> (pv (bufs s))) j) →
     (∀ j, nx bs' j = nx (bufs s) j) → Q tt (s <| bufs := bs' |>)) →
  wp (bupd i (fun b => b <| prev := v |>)) Q E s.
Proof.
  intros Hi HQ. pose proof Hi as [b Hb]%lookup_lt_is_Some. eapply wp_bupd; [done|]. apply HQ.
  - intros j. destruct (decide (j = i)) as [->|]; [by rewrite list_lookup_insert_eq, Hb|].
    by rewrite list_lookup_insert_ne.
  - intros j. unfold pv. destruct (decide (j = i)) as [->|].
    + by rewrite list_lookup_insert_eq, fn_lookup_insert.
    + by rewrite list_lookup_insert_ne, fn_lookup_insert_ne.
  - intros j. unfold nx. destruct (decide (j = i)) as [->|]; [by rewrite list_lookup_insert_eq, Hb|].
    by rewrite list_lookup_insert_ne.
Qed.

(** The buffers in [order], most recently used first. *)
Record ring (bs : list buf) (order : list nat) : Prop := {
  rg_len : length bs = 31%nat;
  rg_next : path (nx bs) HEAD order;
  rg_prev : path (pv bs) HEAD (reverse order);
  rg_perm : order ≡ₚ seq 0 NBUF
}.

Lemma ring_nodup bs order : ring bs order → NoDup (HEAD :: order).
Proof.
  intros [_ _ _ Hp]. rewrite Hp. apply NoDup_cons. split; [|apply NoDup_seq].
  rewrite elem_of_seq. unfold HEAD, NBUF. lia.
Qed.

Lemma ring_elem bs order i : ring bs order → i ∈ order ↔ (i < 30)%nat.
Proof. intros [_ _ _ Hp]. rewrite Hp, elem_of_seq. unfold NBUF. lia. Qed.

(** Where the neighbours of an element are. *)
Lemma ring_neighbours bs l1 b l2 :
  ring bs (l1 ++ b :: l2) → pv bs b = last_of HEAD l1 ∧ nx bs b = last_of HEAD (reverse l2).
Proof.
  intros [_ Hn Hp _]. rewrite reverse_app, reverse_cons, <-app_assoc in Hp. cbn [app] in Hp.
  apply path_tail, path_first in Hp. apply path_tail, path_first in Hn.
  rewrite Hp, Hn. unfold last_of. by rewrite last_reverse, head_reverse.
Qed.

Lemma same_core_trans bs1 bs2 bs3 : same_core bs1 bs2 → same_core bs2 bs3 → same_core bs1 bs3.
Proof. intros H1 H2 i. by rewrite H1. Qed.

Lemma fn_insert_ext1 (f g : nat → nat) i v : (∀ j, f j = g j) → ∀ j, (<[i := v]> f) j = (<[i := v]> g) j.
Proof. intros H. by apply fn_insert_ext. Qed.

(** The links [move_to_front] leaves behind. *)
Definition front_next (f : nat → nat) (p n b : nat) : nat → nat :=
  let f1 := <[p := n]> f in <[HEAD := b]> (<[b := f1 HEAD]> f1).
Definition front_prev (f g : nat → nat) (p n b : nat) : nat → nat :=
  let f1 := <[p := n]> f in <[f1 HEAD := b]> (<[b := HEAD]> (<[n := p]> g)).

Lemma move_to_front_links b s (Q : unit → bst → Prop) E :
  let bs := bufs s in let p := pv bs b in let n := nx bs b in
  (b < length bs)%nat → (p < length bs)%nat → (n < length bs)%nat → (HEAD < length bs)%nat →
  (nx bs HEAD < length bs)%nat → b ≠ HEAD → p ≠ b → n ≠ b →
  (∀ bs', same_core bs bs' → (∀ j, nx bs' j = front_next (nx bs) p n b j) →
     (∀ j, pv bs' j = front_prev (nx bs) (pv bs) p n b j) → Q tt (s <| bufs := bs' |>)) →
  wp (move_to_front b) Q E s.
Proof.
  intros bs p n Hb Hp Hn Hh Hnh Hne Hpb Hnb HQ. unfold move_to_front.
  wp_step. apply wp_links; [done|]. intros x Hx Hxn Hxp. wp_step. rewrite Hxn, Hxp. fold bs p n.
  apply wp_set_prev; [done|]. intros bs1 Hc1 Hp1 Hn1. pose proof (same_core_length _ _ Hc1) as Hl1. change (bufs s) with bs in Hc1, Hp1, Hn1, Hl1.
  wp_step. apply wp_links; [cbn; lia|]. cbn [bufs]. intros x1 Hx1 Hxn1 Hxp1. wp_step.
  change (bufs (s <| bufs := bs1 |>)) with bs1 in *.
  rewrite Hxn1, Hxp1, Hn1, Hp1. rewrite fn_lookup_insert_ne by done. fold p n.
  apply wp_set_next; [cbn; lia|]. change (bufs (s <| bufs := bs1 |>)) with bs1.
  intros bs2 Hc2 Hn2 Hp2. pose proof (same_core_length _ _ Hc2) as Hl2.
  set (s2 := _ <| bufs := bs2 |>). change (bufs s2) with bs2 in *.
  assert (Hn2' : ∀ j, nx bs2 j = (<[p := n]> (nx bs)) j) by (intros j; rewrite Hn2; by apply fn_insert_ext1).
  wp_step. apply wp_links; [change (bufs s2) with bs2; lia|]. change (bufs s2) with bs2.
  intros h Hh2 Hhn _. wp_step. rewrite Hhn.
  apply wp_set_next; [change (bufs s2) with bs2; lia|]. change (bufs s2) with bs2.
  intros bs3 Hc3 Hn3 Hp3. pose proof (same_core_length _ _ Hc3) as Hl3.
  wp_step. apply wp_set_prev; [cbn; lia|]. intros bs4 Hc4 Hp4 Hn4. cbn in Hc4, Hp4, Hn4.
  pose proof (same_core_length _ _ Hc4) as Hl4.
  wp_step. apply wp_links; [cbn; lia|]. cbn. intros h4 Hh4 Hhn4 _.
  rewrite Hn4, Hn3, fn_lookup_insert_ne, Hn2' in Hhn4 by done. wp_step. rewrite Hhn4.
  assert (Hlast : ((<[p := n]> (nx bs)) HEAD < length bs)%nat).
  { destruct (decide (p = HEAD)) as [Hph|]; [rewrite Hph, fn_lookup_insert | rewrite fn_lookup_insert_ne]; done. }
  apply wp_set_prev; [cbn; lia|]. cbn. intros bs5 Hc5 Hp5 Hn5. pose proof (same_core_length _ _ Hc5) as Hl5.
  apply wp_set_next; [cbn; lia|]. cbn. intros bs6 Hc6 Hn6 Hp6.
  apply (HQ bs6).
  - by repeat (eapply same_core_trans; [eassumption|]).
  - intros j. rewrite Hn6. apply fn_insert_ext1. intros i. rewrite Hn5, Hn4, Hn3, Hn2'.
    by apply fn_insert_ext.
  - intros j. rewrite Hp6, Hp5. apply fn_insert_ext1. intros i. rewrite Hp4. apply fn_insert_ext1.
    intros i'. rewrite Hp3, Hp2, Hp1. done.
Qed.

Lemma ring_front bs bs' l1 b l2 :
  ring bs (l1 ++ b :: l2) → same_core bs bs' →
  (∀ j, nx bs' j = front_next (nx bs) (pv bs b) (nx bs b) b j) →
  (∀ j, pv bs' j = front_prev (nx bs) (pv bs) (pv bs b) (nx bs b) b j) →
  ring bs' (b :: l1 ++ l2).
Proof.
  intros Hr Hc Hn Hp. destruct (ring_neighbours _ _ _ _ Hr) as [Ep En].
  pose proof (ring_nodup _ _ Hr) as Hnd. destruct Hr as [Hl Hnx Hpv Hpm].
  assert (Hnd' : NoDup (b :: HEAD :: l1 ++ l2)).
  { assert (b :: HEAD :: l1 ++ l2 ≡ₚ HEAD :: l1 ++ b :: l2) as -> by solve_Permutation. done. }
  apply NoDup_cons in Hnd' as [Hb Hnd'].
  destruct (path_remove _ _ _ _ _ Hnd Hnx) as [_ Hnx']. rewrite <-Ep in Hnx'.
  rewrite reverse_app, reverse_cons, <-app_assoc in Hpv. cbn [app] in Hpv.
  destruct (path_remove (pv bs) HEAD (reverse l2) b (reverse l1)) as [_ Hpv']; [|done|].
  { rewrite !reverse_Permutation.
    assert (HEAD :: l2 ++ b :: l1 ≡ₚ HEAD :: l1 ++ b :: l2) as -> by solve_Permutation. done. }
  rewrite <-En, <-reverse_app in Hpv'. split.
  - by rewrite <-(same_core_length _ _ Hc).
  - eapply path_ext; [|apply (path_push _ b _ Hb Hnd' Hnx')]. intros j _. by rewrite Hn.
  - rewrite reverse_cons. eapply path_ext; [|eapply (path_snoc (<[nx bs b := pv bs b]> (pv bs)) HEAD b (reverse (l1 ++ l2)))]; [| | |exact Hpv'].
    + intros j _. rewrite Hp. unfold front_prev. cbv zeta.
      rewrite (path_first _ _ _ Hnx'). unfold last_of. by rewrite last_reverse.
    + by rewrite reverse_Permutation.
    + by rewrite elem_of_cons, elem_of_reverse, <-elem_of_cons.
  - by rewrite Permutation_middle.
Qed.

Lemma move_to_front_spec b s order :
  ring (bufs s) order → (b < 30)%nat →
  wpt (move_to_front b) (fun _ s' => ∃ bs' order', s' = s <| bufs := bs' |> ∧ ring bs' order' ∧
    same_core (bufs s) bs') s.
Proof.
  intros Hr Hb. pose proof (proj2 (ring_elem _ _ b Hr) Hb) as (l1 & l2 & ->)%list_elem_of_split.
  destruct (ring_neighbours _ _ _ _ Hr) as [Ep En]. pose proof (ring_nodup _ _ Hr) as Hnd.
  assert (Hin : ∀ x, x = HEAD ∨ x ∈ l1 ++ b :: l2 → (x < length (bufs s))%nat).
  { intros x Hx. rewrite (rg_len _ _ Hr). destruct Hx as [->|Hx%(ring_elem _ _ x Hr)]; unfold HEAD, NBUF; lia. }
  assert (Hd : HEAD ≠ b ∧ b ∉ l1 ∧ b ∉ l2).
  { apply NoDup_cons in Hnd as [Hh Hnd]. apply NoDup_app in Hnd as (_ & H1 & H2).
    apply NoDup_cons in H2 as [H2 _]. split; [|split; [|done]].
    - intros <-. apply Hh, elem_of_app. right. apply list_elem_of_here.
    - intros H. apply (H1 b H), list_elem_of_here. }
  destruct Hd as (Hbh & Hb1 & Hb2).
  assert (Hp : pv (bufs s) b = HEAD ∨ pv (bufs s) b ∈ l1) by (rewrite Ep; apply last_of_in).
  assert (Hn : nx (bufs s) b = HEAD ∨ nx (bufs s) b ∈ l2)
    by (rewrite En; destruct (last_of_in HEAD (reverse l2)) as [|H]; [by left | right; by rewrite elem_of_reverse in H]).
  apply move_to_front_links; [apply Hin | apply Hin | apply Hin | apply Hin | apply Hin | done | | |].
  - right. apply elem_of_app. right. apply list_elem_of_here.
  - destruct Hp; [by left | right; apply elem_of_app; by left].
  - destruct Hn; [by left | right; apply elem_of_app; right; by apply list_elem_of_further].
  - by left.
  - rewrite (path_first _ _ _ (rg_next _ _ Hr)). right. destruct l1; cbn; apply list_elem_of_here || done.
  - intros E. rewrite E in Hp. destruct Hp; [congruence | done].
  - intros E. rewrite E in Hn. destruct Hn; [congruence | done].
  - intros bs' Hc Hn' Hp'. exists bs', (b :: l1 ++ l2). split; [done|]. split; [by eapply ring_front | done].
Qed.

(** A walk along the ring finds the first buffer that passes the test. *)
Lemma ring_find_spec step test f l s fuel a :
  (∀ i b, bufs s !! i = Some b → step b = f i) →
  path f a l → (∀ i, i ∈ l → (i < 30)%nat) → (30 < length (bufs s))%nat → (length l < fuel)%nat →
  wpt (ring_find step test fuel (f a)) (fun r s' => s' = s ∧
    match r with
    | Some i => i ∈ l ∧ ∃ b, bufs s !! i = Some b ∧ test b = true
    | None => ∀ i b, i ∈ l → bufs s !! i = Some b → test b = false
    end) s.
Proof.
  intros Hstep. revert fuel a. induction l as [|x l IH]; intros fuel a Hp Hl Hlen Hf; cbn [path] in Hp.
  - destruct fuel as [|fuel]; [cbn in Hf; lia|]. cbn [ring_find]. rewrite Hp. unfold HEAD at 1.
    rewrite Nat.eqb_refl. wp_step. split; [done|]. by intros i b ?%elem_of_nil.
  - destruct Hp as [-> Hp]. destruct fuel as [|fuel]; [cbn in Hf; lia|]. cbn [ring_find].
    assert (Hx : (x < 30)%nat) by apply Hl, list_elem_of_here.
    rewrite (proj2 (Nat.eqb_neq x HEAD)) by (unfold HEAD, NBUF; lia).
    destruct (lookup_lt_is_Some_2 (bufs s) x ltac:(lia)) as [b Hb].
    wp_step. eapply wp_bget; [done|]. destruct (test b) eqn:Ht.
    + wp_step. split; [done|]. split; [apply list_elem_of_here | eauto].
    + rewrite (Hstep x b Hb). eapply wp_weaken; [apply IH; [done | | done | cbn in Hf; lia]|].
      * intros i Hi. apply Hl. by apply list_elem_of_further.
      * intros [i|] s' [-> H]; (split; [done|]).
        -- destruct H as [Hi H]. split; [by apply list_elem_of_further | done].
        -- intros i b' [->|Hi]%elem_of_cons Hb'; [congruence | eauto].
Qed.

(** ** What the cache represents *)
Record buf_ok (md : Z → block) (b : buf) : Prop := {
  bo_idle : sl_idle (b_lock b);
  bo_ref : refcnt b = sl_locked (b_lock b);
  bo_lock : sl_locked (b_lock b) = 0 ∨ sl_locked (b_lock b) = 1;
  bo_kind :
    (b_dev b = 1 ∧ (flags b = 2 ∨ flags b = 6) ∧
     (sl_locked (b_lock b) = 0 → flags b = 2 → b_data b = md (blockno b))) ∨
    (b_dev b ≠ 1 ∧ flags b = 0 ∧ sl_locked (b_lock b) = 0)
}.

Definition bio_disk (s : bst) (a : baddr) : block := if a.1 =? 1 then memdisk s a.2 else [].

(** Buffer [i] is [b] and caches a block of the disk. *)
Definition caches (bs : list buf) (i : nat) (b : buf) : Prop := (i < 30)%nat ∧ bs !! i = Some b ∧ b_dev b = 1.

Record bufs_rep (md : Z → block) (bs : list buf) (d : dstate) : Prop := {
  bb_ok : ∀ i b, (i < 30)%nat → bs !! i = Some b → buf_ok md b;
  bb_unique : ∀ i j b c, caches bs i b → caches bs j c → blockno b = blockno c → i = j;
  bb_disk : ∀ a, disk d a = if a.1 =? 1 then md a.2 else [];
  bb_in : ∀ i b, caches bs i b →
    view d (1, blockno b) = b_data b ∧ dirty d (1, blockno b) = (flags b =? 6);
  bb_out : ∀ a, (∀ i b, caches bs i b → (1, blockno b) ≠ a) → view d a = disk d a ∧ dirty d a = false;
  bb_held : ∀ i a, held d !! i = Some a ↔
    ∃ b, caches bs i b ∧ sl_locked (b_lock b) = 1 ∧ a = (1, blockno b)
}.

Record bio_rep (s : bst) (d : dstate) : Prop := {
  br_kern : kready (b_kern s);
  br_lock : free (bc_lock s);
  br_ring : ∃ order, ring (bufs s) order;
  br_bufs : bufs_rep (memdisk s) (bufs s) d
}.

(** The links do not matter for what is represented. *)
Lemma same_core_lookup bs bs' i b' :
  same_core bs bs' → bs' !! i = Some b' → ∃ b, bs !! i = Some b ∧ core b = core b'.
Proof.
  intros H Hb. specialize (H i). rewrite Hb in H.
  destruct (bs !! i) as [b|]; [|done]. cbn [fmap option_fmap option_map] in H. exists b. split; [done | congruence].
Qed.

Lemma core_fields b b' : core b = core b' →
  flags b = flags b' ∧ b_dev b = b_dev b' ∧ blockno b = blockno b' ∧ b_lock b = b_lock b' ∧
  refcnt b = refcnt b' ∧ b_data b = b_data b'.
Proof.
  intros H. split_and!; [exact (f_equal flags H) | exact (f_equal b_dev H) | exact (f_equal blockno H)
    | exact (f_equal b_lock H) | exact (f_equal refcnt H) | exact (f_equal b_data H)].
Qed.

Lemma same_core_sym bs bs' : same_core bs bs' → same_core bs' bs.
Proof. intros H i. by rewrite H. Qed.

Lemma caches_core bs bs' i b' :
  same_core bs bs' → caches bs' i b' → ∃ b, caches bs i b ∧ core b = core b'.
Proof.
  intros H (Hi & Hb & Hd). destruct (same_core_lookup _ _ _ _ H Hb) as (b & Hb' & Hc).
  exists b. destruct (core_fields _ _ Hc) as (_ & E & _). split; [|done]. by rewrite <-E in Hd.
Qed.

Lemma bufs_rep_core md bs bs' d : same_core bs bs' → bufs_rep md bs d → bufs_rep md bs' d.
Proof.
  intros Hc [H1 H2 H3 H4 H5 H6]. split.
  - intros i b' Hi Hb'. destruct (same_core_lookup _ _ _ _ Hc Hb') as (b & Hb & E).
    destruct (core_fields _ _ E) as (E1 & E2 & E3 & E4 & E5 & E6).
    destruct (H1 i b Hi Hb) as [G1 G2 G3 G4]. split; by rewrite <-?E1, <-?E2, <-?E3, <-?E4, <-?E5, <-?E6.
  - intros i j b' c' (b & Hb & E)%(caches_core bs) (c & Hcc & F)%(caches_core bs); [|done..].
    destruct (core_fields _ _ E) as (_ & _ & <- & _), (core_fields _ _ F) as (_ & _ & <- & _). eauto.
  - done.
  - intros i b' (b & Hb & E)%(caches_core bs); [|done].
    destruct (core_fields _ _ E) as (<- & _ & <- & _ & _ & <-). eauto.
  - intros a Ha. apply H5. intros i b (b' & Hb' & E)%(caches_core bs'); [|by apply same_core_sym].
    destruct (core_fields _ _ E) as (_ & _ & <- & _). eauto.
  - intros i a. rewrite H6. split.
    + intros (b & (b' & Hb' & E)%(caches_core bs') & Hl & ->); [|by apply same_core_sym].
      destruct (core_fields _ _ E) as (_ & _ & E3 & E4 & _). exists b'. rewrite E4, E3. done.
    + intros (b' & (b & Hb & E)%(caches_core bs) & Hl & ->); [|done].
      destruct (core_fields _ _ E) as (_ & _ & E3 & E4 & _). exists b. rewrite E4, E3. done.
Qed.

(** Which buffers an update of buffer [j] changes. *)
Lemma caches_insert bs j y i b :
  (j < 30)%nat → (j < length bs)%nat →
  caches (<[j := y]> bs) i b ↔ (i = j ∧ b = y ∧ b_dev y = 1) ∨ (i ≠ j ∧ caches bs i b).
Proof.
  intros Hj Hlen. unfold caches. destruct (decide (i = j)) as [->|Hne].
  - rewrite list_lookup_insert_eq by done. naive_solver.
  - rewrite list_lookup_insert_ne by done. naive_solver.
Qed.

(** Replacing buffer [j] by [y]: the one place where the invariant is
    re-established, for every operation. *)
Lemma bufs_rep_update md md' bs j y d d' :
  bufs_rep md bs d → (j < 30)%nat → (j < length bs)%nat → buf_ok md' y →
  (∀ i c, i ≠ j → caches bs i c →
     (b_dev y = 1 → blockno c ≠ blockno y) ∧ md' (blockno c) = md (blockno c) ∧
     view d' (1, blockno c) = view d (1, blockno c) ∧ dirty d' (1, blockno c) = dirty d (1, blockno c)) →
  (∀ a, disk d' a = if a.1 =? 1 then md' a.2 else []) →
  (b_dev y = 1 → view d' (1, blockno y) = b_data y ∧ dirty d' (1, blockno y) = (flags y =? 6)) →
  (∀ a, (∀ i c, i ≠ j → caches bs i c → (1, blockno c) ≠ a) → (b_dev y = 1 → (1, blockno y) ≠ a) →
     view d' a = disk d' a ∧ dirty d' a = false) →
  (∀ i, i ≠ j → held d' !! i = held d !! i) →
  held d' !! j = (if decide (sl_locked (b_lock y) = 1) then Some (1, blockno y) else None) →
  bufs_rep md' (<[j := y]> bs) d'.
Proof.
  intros [H1 H2 H3 H4 H5 H6] Hj Hlen Hy Hoth Hdisk Hin Hout Hheld Hhj. split.
  - intros i b Hi Hb. destruct (decide (i = j)) as [->|Hne].
    + rewrite list_lookup_insert_eq in Hb by done. by injection Hb as <-.
    + rewrite list_lookup_insert_ne in Hb by done. destruct (H1 i b Hi Hb) as [G1 G2 G3 G4].
      split; [done..|]. destruct G4 as [(Gd & Gf & Gc)|G4]; [left | by right].
      destruct (Hoth i b Hne ltac:(done)) as (_ & -> & _). done.
  - intros i i' b c. rewrite !caches_insert by done. intros [(-> & -> & Hd)|[Hi Hb]] [(-> & -> & Hd')|[Hi' Hc]].
    + done.
    + intros E. destruct (Hoth i' c Hi' Hc) as [Hn _]. by destruct (Hn Hd).
    + intros E. destruct (Hoth i b Hi Hb) as [Hn _]. by destruct (Hn Hd').
    + by eapply H2.
  - done.
  - intros i b. rewrite caches_insert by done. intros [(-> & -> & Hd)|[Hi Hb]]; [by apply Hin|].
    destruct (Hoth i b Hi Hb) as (_ & _ & -> & ->). by eapply H4.
  - intros a Ha. apply Hout.
    + intros i c Hi Hc. apply (Ha i c). apply caches_insert; auto.
    + intros Hd. apply (Ha j y). apply caches_insert; auto.
  - intros i a. destruct (decide (i = j)) as [->|Hne].
    + rewrite Hhj. split.
      * case_decide as Hl; [|done]. intros [= <-]. exists y. split; [|done]. apply caches_insert; [done..|].
        left. split; [done|]. split; [done|]. destruct (bo_kind _ _ Hy) as [[? _]|(_ & _ & Hz)]; [done | lia].
      * intros (b & [(_ & -> & _)|[Hx _]]%caches_insert & Hl & ->); [|done..]. by rewrite decide_True.
    + rewrite Hheld, H6 by done. split; intros (b & Hb & Hl & ->); exists b; (split; [|done]).
      * apply caches_insert; auto.
      * apply caches_insert in Hb as [(? & _)|[_ ?]]; done.
Qed.

(** Facts about a represented buffer. *)
Lemma rep_held md bs d j a :
  bufs_rep md bs d → held d !! j = Some a →
  ∃ b, caches bs j b ∧ sl_locked (b_lock b) = 1 ∧ a = (1, blockno b) ∧ buf_ok md b.
Proof.
  intros Hr Ha. apply (bb_held _ _ _ Hr) in Ha as (b & Hb & Hl & ->). exists b.
  split; [done|]. split; [done|]. split; [done|]. destruct Hb as (Hj & Hb & _). by eapply (bb_ok _ _ _ Hr).
Qed.

Lemma rep_other md bs d i j b c :
  bufs_rep md bs d → caches bs j b → i ≠ j → caches bs i c → blockno c ≠ blockno b.
Proof. intros Hr Hb Hne Hc E. apply Hne. by eapply (bb_unique _ _ _ Hr). Qed.

(** A pair of addresses of the disk. *)
Lemma pair_ne (n m : Z) : n ≠ m → (1, n) ≠ (1, m).
Proof. congruence. Qed.
#[local] Hint Resolve pair_ne : core.

Lemma rep_hit md bs d j b p :
  bufs_rep md bs d → caches bs j b → (j < length bs)%nat → sl_locked (b_lock b) = 0 →
  bufs_rep md (<[j := b <| refcnt := 1 |> <| b_lock := mksleeplock 1 (sl_lk (b_lock b)) (sl_name (b_lock b)) p |>]> bs)
    (d <| held := <[j := (1, blockno b)]> (held d) |>).
Proof.
  intros Hr Hb Hlen Hl. pose proof Hb as (Hj & Hbj & Hd). pose proof (bb_ok _ _ _ Hr j b Hj Hbj) as [G1 G2 G3 G4].
  apply (bufs_rep_update md _ _ _ _ d); cbn; try done.
  - split; cbn; [done | done | by right|]. left. destruct G4 as [(_ & Gf & _)|[? _]]; [|done].
    split; [done|]. split; [done|]. lia.
  - intros i c Hne Hc. split; [|done]. intros _. by eapply rep_other.
  - apply (bb_disk _ _ _ Hr).
  - intros _. by apply (bb_in _ _ _ Hr j).
  - intros a Ha Hy. apply (bb_out _ _ _ Hr). intros i c Hc. destruct (decide (i = j)) as [->|]; [|by eapply Ha].
    destruct Hc as (_ & Hc & _). rewrite Hbj in Hc. injection Hc as <-. by apply Hy.
  - intros i Hne. by rewrite lookup_insert_ne.
  - by rewrite lookup_insert_eq.
Qed.

(** The buffer that takes over the block [n]. *)
Definition filled (b : buf) (n : Z) (x : block) (p : Z) : buf :=
  b <| b_dev := 1 |> <| blockno := n |> <| flags := 2 |> <| refcnt := 1 |>
    <| b_lock := mksleeplock 1 (sl_lk (b_lock b)) (sl_name (b_lock b)) p |> <| b_data := x |>.

Lemma rep_fill md bs d j b n p :
  bufs_rep md bs d → (j < 30)%nat → (j < length bs)%nat → bs !! j = Some b →
  sl_locked (b_lock b) = 0 → flags b ≠ 6 → (∀ i c, caches bs i c → blockno c ≠ n) →
  bufs_rep md (<[j := filled b n (md n) p]> bs) (d <| held := <[j := (1, n)]> (held d) |>).
Proof.
  intros Hr Hj Hlen Hbj Hl Hf Hn. pose proof (bb_ok _ _ _ Hr j b Hj Hbj) as [G1 G2 G3 G4].
  assert (Hold : ∀ a, (∀ i c, i ≠ j → caches bs i c → (1, blockno c) ≠ a) → view d a = disk d a ∧ dirty d a = false).
  { intros a Ha. destruct (decide (b_dev b = 1 ∧ a = (1, blockno b))) as [[Hd ->]|Hna].
    - destruct (bb_in _ _ _ Hr j b ltac:(done)) as [-> ->]. rewrite (bb_disk _ _ _ Hr). cbn.
      destruct G4 as [(_ & [Gf|Gf] & Gc)|[? _]]; [|done..]. rewrite Gf. split; [by apply Gc | done].
    - apply (bb_out _ _ _ Hr). intros i c Hc. destruct (decide (i = j)) as [->|]; [|by eapply Ha].
      destruct Hc as (_ & Hc & Hd). rewrite Hbj in Hc. injection Hc as <-. naive_solver. }
  apply (bufs_rep_update md _ _ _ _ d); cbn; try done.
  - split; cbn; [done | done | by right|]. left. split; [done|]. split; [by left | lia].
  - intros i c Hne Hc. split; [|done]. intros _. by eapply Hn.
  - apply (bb_disk _ _ _ Hr).
  - intros _. assert (Hv : view d (1, n) = disk d (1, n) ∧ dirty d (1, n) = false)
      by (apply Hold; intros i c _ Hc; apply pair_ne; by eapply Hn).
    destruct Hv as [-> ->]. by rewrite (bb_disk _ _ _ Hr).
  - intros a Ha _. by apply Hold.
  - intros i Hne. by rewrite lookup_insert_ne.
  - by rewrite lookup_insert_eq.
Qed.

(** Changing the data or the flags of a buffer the caller holds. *)
Lemma rep_outside md bs d j b a :
  bufs_rep md bs d → caches bs j b →
  (∀ i c, i ≠ j → caches bs i c → (1, blockno c) ≠ a) → (1, blockno b) ≠ a →
  view d a = disk d a ∧ dirty d a = false.
Proof.
  intros Hr Hb Ha Hy. apply (bb_out _ _ _ Hr). intros i c Hc. destruct (decide (i = j)) as [->|]; [|by eapply Ha].
  destruct Hc as (_ & Hc & _), Hb as (_ & Hb & _). congruence.
Qed.

Lemma rep_put md bs d j b x :
  bufs_rep md bs d → caches bs j b → (j < length bs)%nat → sl_locked (b_lock b) = 1 →
  bufs_rep md (<[j := b <| b_data := x |>]> bs) (d <| view := <[(1, blockno b) := x]> (view d) |>).
Proof.
  intros Hr Hb Hlen Hl. pose proof Hb as (Hj & Hbj & Hd). pose proof (bb_ok _ _ _ Hr j b Hj Hbj) as [G1 G2 G3 G4].
  destruct (bb_in _ _ _ Hr j b Hb) as [_ Hdirty].
  apply (bufs_rep_update md _ _ _ _ d); cbn; try done.
  - split; cbn; [done | done | by right|]. left. destruct G4 as [(_ & Gf & _)|[? _]]; [|done].
    split; [done|]. split; [done | lia].
  - intros i c Hne Hc. pose proof (rep_other _ _ _ _ _ _ _ Hr Hb Hne Hc).
    split; [done|]. split; [done|]. by rewrite fn_lookup_insert_ne by auto.
  - apply (bb_disk _ _ _ Hr).
  - intros _. by rewrite fn_lookup_insert.
  - intros a Ha Hy. rewrite fn_lookup_insert_ne by auto. eapply rep_outside; eauto.
  - rewrite Hl. apply (bb_held _ _ _ Hr). eauto.
Qed.

Lemma rep_dirty md bs d j b :
  bufs_rep md bs d → caches bs j b → (j < length bs)%nat → sl_locked (b_lock b) = 1 →
  bufs_rep md (<[j := b <| flags := 6 |>]> bs) (d <| dirty := <[(1, blockno b) := true]> (dirty d) |>).
Proof.
  intros Hr Hb Hlen Hl. pose proof Hb as (Hj & Hbj & Hd). pose proof (bb_ok _ _ _ Hr j b Hj Hbj) as [G1 G2 G3 G4].
  destruct (bb_in _ _ _ Hr j b Hb) as [Hview _].
  apply (bufs_rep_update md _ _ _ _ d); cbn; try done.
  - split; cbn; [done | done | by right|]. left. split; [done|]. split; [by right | done].
  - intros i c Hne Hc. pose proof (rep_other _ _ _ _ _ _ _ Hr Hb Hne Hc).
    split; [done|]. split; [done|]. by rewrite fn_lookup_insert_ne by auto.
  - apply (bb_disk _ _ _ Hr).
  - intros _. by rewrite fn_lookup_insert.
  - intros a Ha Hy. rewrite fn_lookup_insert_ne by auto. eapply rep_outside; eauto.
  - rewrite Hl. apply (bb_held _ _ _ Hr). eauto.
Qed.

Lemma rep_write md bs d j b :
  bufs_rep md bs d → caches bs j b → (j < length bs)%nat → sl_locked (b_lock b) = 1 →
  bufs_rep (<[blockno b := b_data b]> md) (<[j := b <| flags := 2 |>]> bs)
    (d <| disk := <[(1, blockno b) := view d (1, blockno b)]> (disk d) |>
       <| dirty := <[(1, blockno b) := false]> (dirty d) |>).
Proof.
  intros Hr Hb Hlen Hl. pose proof Hb as (Hj & Hbj & Hd). pose proof (bb_ok _ _ _ Hr j b Hj Hbj) as [G1 G2 G3 G4].
  destruct (bb_in _ _ _ Hr j b Hb) as [Hview _].
  apply (bufs_rep_update md _ _ _ _ d); cbn; try done.
  - split; cbn; [done | done | by right|]. left. split; [done|]. split; [by left | lia].
  - intros i c Hne Hc. pose proof (rep_other _ _ _ _ _ _ _ Hr Hb Hne Hc).
    split; [done|]. rewrite !fn_lookup_insert_ne by auto. done.
  - intros [a1 a2]. cbn. destruct (decide ((1, blockno b) = (a1, a2))) as [[= <- <-]|Hne].
    + by rewrite !fn_lookup_insert.
    + rewrite fn_lookup_insert_ne, (bb_disk _ _ _ Hr) by done. cbn.
      destruct (Z.eqb_spec a1 1) as [->|]; [|done]. rewrite fn_lookup_insert_ne; [done|]. congruence.
  - intros _. by rewrite fn_lookup_insert.
  - intros a Ha Hy. rewrite !fn_lookup_insert_ne by auto. eapply rep_outside; eauto.
  - rewrite Hl. apply (bb_held _ _ _ Hr). eauto.
Qed.

Lemma rep_release md bs d j b :
  bufs_rep md bs d → caches bs j b → (j < length bs)%nat → sl_locked (b_lock b) = 1 →
  safe_block d (1, blockno b) →
  bufs_rep md (<[j := b <| b_lock := mksleeplock 0 (sl_lk (b_lock b)) (sl_name (b_lock b)) 0 |> <| refcnt := 0 |>]> bs)
    (d <| held := delete j (held d) |>).
Proof.
  intros Hr Hb Hlen Hl Hsafe. pose proof Hb as (Hj & Hbj & Hd). pose proof (bb_ok _ _ _ Hr j b Hj Hbj) as [G1 G2 G3 G4].
  destruct (bb_in _ _ _ Hr j b Hb) as [Hview Hdirty].
  apply (bufs_rep_update md _ _ _ _ d); cbn; try done.
  - split; cbn; [done | done | by left|]. left. destruct G4 as [(_ & Gf & _)|[? _]]; [|done].
    split; [done|]. split; [done|]. intros _ E. destruct Hsafe as [Hs|Hs].
    + rewrite Hdirty, E in Hs. done.
    + by rewrite Hview, (bb_disk _ _ _ Hr) in Hs.
  - intros i c Hne Hc. pose proof (rep_other _ _ _ _ _ _ _ Hr Hb Hne Hc). done.
  - apply (bb_disk _ _ _ Hr).
  - intros a Ha Hy. eapply rep_outside; eauto.
  - intros i Hne. by rewrite lookup_delete_ne.
  - by rewrite lookup_delete_eq.
Qed.

(** ** The operations *)

(** A state of the cache with buffer [j] replaced. *)
Definition at_buf (s : bst) (k : kstate) (lk : spinlock) (j : nat) (y : buf) : bst :=
  mkbst k lk (<[j := y]> (bufs s)) (memdisk s) (disksize s) (fuse s).

Lemma at_buf_again s k k' lk j y y' :
  mkbst k' lk (<[j := y']> (bufs (at_buf s k lk j y))) (memdisk s) (disksize s) (fuse s) = at_buf s k' lk j y'.
Proof. unfold at_buf. cbn. by rewrite list_insert_insert_eq. Qed.

Lemma wp_bupd_at s k lk j y f (Q : unit → bst → Prop) E :
  (j < length (bufs s))%nat → Q tt (at_buf s k lk j (f y)) → wp (bupd j f) Q E (at_buf s k lk j y).
Proof.
  intros Hj HQ. eapply wp_bupd; [by apply list_lookup_insert_eq|].
  rewrite <-(at_buf_again s k k lk j y) in HQ. exact HQ.
Qed.

Lemma wp_bget_at s k lk j y (Q : buf → bst → Prop) E :
  (j < length (bufs s))%nat → Q y (at_buf s k lk j y) → wp (bget_buf j) Q E (at_buf s k lk j y).
Proof. intros Hj HQ. eapply wp_bget; [by apply list_lookup_insert_eq | done]. Qed.

Lemma wp_buf_lock {A} s k lk j y (m : SL A) (Q : A → bst → Prop) E :
  (j < length (bufs s))%nat →
  wp m (fun a p => Q a (at_buf s p.1 lk j (y <| b_lock := p.2 |>)))
       (fun w p => E w (at_buf s p.1 lk j (y <| b_lock := p.2 |>))) (k, b_lock y) →
  wp (with_buf_lock j m) Q E (at_buf s k lk j y).
Proof.
  intros Hj Hm. unfold with_buf_lock. wp_step. apply wp_bget_at; [done|]. apply wp_zoom.
  eapply wp_mono; [exact Hm| |]; intros a p HQ; cbv beta in HQ; rewrite <-(at_buf_again s k p.1 lk j y) in HQ; exact HQ.
Qed.

Lemma at_buf_id s j b : bufs s !! j = Some b → s = at_buf s (b_kern s) (bc_lock s) j b.
Proof. intros Hb. unfold at_buf. rewrite list_insert_id by done. by destruct s. Qed.

Definition kentered (k k' : kstate) : Prop := kern_ok k' ∧ this_cpu k' = pushed (this_cpu k).

Lemma wp_bc_acquire s (Q : unit → bst → Prop) E :
  kready (b_kern s) → free (bc_lock s) →
  (∀ k', kentered (b_kern s) k' →
     Q tt (s <| b_kern := k' |> <| bc_lock := locked_by (this_cpu (b_kern s)) (bc_lock s) |>)) →
  wp (with_bc_lock acquire) Q E s.
Proof.
  intros [[Hl [Hc Hn] Hp Hcur] Hn2] Hf HQ. eapply wp_zoom_acquire; [exact Hc | exact Hf|]. cbn [fst snd].
  apply HQ. split; [|done]. split; [done | | done | done].
  split; [by apply cli_ok_pushed | cbn -[INT_MAX]; lia].
Qed.

Lemma wp_bc_release k lk s (Q : unit → bst → Prop) E :
  kready k → free lk → kentered k (b_kern s) → bc_lock s = locked_by (this_cpu k) lk →
  (∀ k', kready k' → Q tt (s <| b_kern := k' |> <| bc_lock := lk |>)) → wp (with_bc_lock release) Q E s.
Proof.
  intros [[Hl [Hc Hn] Hp Hcur] Hn2] Hf [[Hl' Hc' Hp' Hcur'] Hcpu] Hlk HQ.
  eapply (wp_zoom_release _ _ (this_cpu k) lk); [done | cbn; by rewrite Hcpu, Hlk|].
  rewrite unlocked_free by done. cbn [fst snd]. apply HQ. split; [|cbn -[INT_MAX]; lia].
  split; [done | by apply calm_bracket | done | done].
Qed.

Section ops.
Context (sleep_buf : nat → SL unit) (naps : nat) (lock_chan : nat → chan_t).

(** Any stop keeps the disk. *)
Definition keeps (s : bst) (w : stop) (s' : bst) : Prop := memdisk s' = memdisk s.

Lemma acquire_at s k lk j y (Q : unit → bst → Prop) E :
  (j < length (bufs s))%nat → kready k → sl_idle (b_lock y) → sl_locked (b_lock y) = 0 →
  (∀ k' p, kready k' →
     Q tt (at_buf s k' lk j (y <| b_lock := mksleeplock 1 (sl_lk (b_lock y)) (sl_name (b_lock y)) p |>))) →
  wp (with_buf_lock j (acquiresleep (sleep_buf j) naps)) Q E (at_buf s k lk j y).
Proof.
  intros Hj Hk Hi H0 HQ. apply wp_buf_lock; [done|]. apply acquiresleep_free; [done..|].
  intros k' p Hk' _. cbn [fst snd]. by apply HQ.
Qed.

Lemma holding_at s k lk j y (Q : Z → bst → Prop) E :
  (j < length (bufs s))%nat → kready k → sl_idle (b_lock y) →
  (∀ k', kready k' → Q (sl_locked (b_lock y)) (at_buf s k' lk j y)) →
  wp (with_buf_lock j holdingsleep) Q E (at_buf s k lk j y).
Proof.
  intros Hj Hk Hi HQ. apply wp_buf_lock; [done|]. apply holdingsleep_spec; [done..|].
  intros k' Hk' _. cbn [fst snd]. replace (y <| b_lock := b_lock y |>) with y by by destruct y. by apply HQ.
Qed.

Lemma at_buf_entered s k lk j b :
  bufs s !! j = Some b → s <| b_kern := k |> <| bc_lock := lk |> = at_buf s k lk j b.
Proof. intros Hb. unfold at_buf. by rewrite list_insert_id. Qed.

(** What [bget] returns: a buffer that caches the block, or one it recycles. *)
Definition recycled (b : buf) (dev n : Z) : buf :=
  b <| b_dev := dev |> <| blockno := n |> <| flags := 0 |> <| refcnt := 1 |>.
Definition owned (b : buf) (p : Z) : buf :=
  b <| b_lock := mksleeplock 1 (sl_lk (b_lock b)) (sl_name (b_lock b)) p |>.

Definition got (s : bst) (dev n : Z) (j : nat) (s' : bst) : Prop :=
  ∃ b k p, (j < 30)%nat ∧ bufs s !! j = Some b ∧ kready k ∧ sl_locked (b_lock b) = 0 ∧
    ((b_dev b = dev ∧ blockno b = n ∧ s' = at_buf s k (bc_lock s) j (owned (b <| refcnt := 1 |>) p)) ∨
     ((∀ i c, (i < 30)%nat → bufs s !! i = Some c → ¬ (b_dev c = dev ∧ blockno c = n)) ∧ flags b ≠ 6 ∧
      s' = at_buf s k (bc_lock s) j (owned (recycled b dev n) p))).

(** The last steps of both branches: let the cache go, lock the buffer. *)
Lemma bget_tail s k1 j y (Q : nat → bst → Prop) E :
  kready (b_kern s) → free (bc_lock s) → kentered (b_kern s) k1 → (j < length (bufs s))%nat →
  sl_idle (b_lock y) → sl_locked (b_lock y) = 0 →
  (∀ k p, kready k → Q j (at_buf s k (bc_lock s) j (owned y p))) →
  wp (with_bc_lock release;; with_buf_lock j (acquiresleep (sleep_buf j) naps);; mret j) Q E
     (at_buf s k1 (locked_by (this_cpu (b_kern s)) (bc_lock s)) j y).
Proof.
  intros Hk Hf Hent Hj Hi H0 HQ. wp_step. eapply (wp_bc_release (b_kern s) (bc_lock s)); [done..|].
  intros k2 Hk2. wp_step.
  apply (acquire_at s k2 (bc_lock s) j y); [done..|]. intros k3 p Hk3. wp_step. by apply HQ.
Qed.

Lemma bget_spec s d dev n :
  bio_rep s d → (∀ h, held d !! h ≠ Some (dev, n)) →
  wp (bget sleep_buf naps dev n) (got s dev n) (keeps s) s.
Proof.
  intros [Hk Hf [order Hr] Hb] Hnh. unfold bget. wp_step. apply wp_bc_acquire; [done..|]. intros k1 Hent.
  set (lk := locked_by _ _). set (s1 := _ <| bc_lock := lk |>).
  change (bufs s) with (bufs s1) in Hr. pose proof Hr as [Hlen Hn Hp Hpm].
  assert (Hin : ∀ i, i ∈ order ↔ (i < 30)%nat) by (intros i; by apply (ring_elem (bufs s1))).
  assert (Hlo : length order = 30%nat) by (rewrite Hpm; apply length_seq).
  wp_step. apply wp_links; [unfold HEAD, NBUF; lia|]. intros h Hh Hhn _. rewrite Hhn. wp_step.
  eapply wp_mono; [apply (ring_find_spec _ _ (nx (bufs s1)) order)| |done]; [| done | by intros i ?%Hin | lia | unfold NBUF; lia|].
  { intros i b Hbi. unfold nx. by rewrite Hbi. }
  intros r s2 [-> Hr1]. destruct r as [j|].
  - destruct Hr1 as (Hj%Hin & b & Hbj & [Hd%Z.eqb_eq Hno%Z.eqb_eq]%andb_prop). change (bufs s1) with (bufs s) in *.
    destruct (bb_ok _ _ _ Hb j b Hj Hbj) as [G1 G2 G3 G4].
    assert (Hl : sl_locked (b_lock b) = 0).
    { destruct G3 as [|G3]; [done|]. destruct G4 as [(Gd & _)|(_ & _ & ?)]; [|done].
      destruct (Hnh j). apply (bb_held _ _ _ Hb). exists b. split; [done|]. split; [done|]. congruence. }
    unfold s1. rewrite (at_buf_entered s k1 lk j b Hbj).
    wp_step. apply wp_bupd_at; [lia|]. rewrite G2, Hl. change (u32 (0 + 1)) with 1.
    apply bget_tail; [done | done | done | lia | done | done|].
    intros k p Hk'. exists b, k, p. split; [done|]. split; [done|]. split; [done|]. split; [done|]. by left.
  - assert (Hno : ∀ i c, (i < 30)%nat → bufs s !! i = Some c → ¬ (b_dev c = dev ∧ blockno c = n)).
    { intros i c Hi Hc [E1 E2]. specialize (Hr1 i c (proj2 (Hin i) Hi) Hc). by rewrite E1, E2, !Z.eqb_refl in Hr1. }
    wp_step. apply wp_links; [unfold HEAD, NBUF; lia|]. intros h2 Hh2 _ Hhp. rewrite Hhp. wp_step.
    eapply wp_mono; [apply (ring_find_spec _ _ (pv (bufs s1)) (reverse order))| |done];
      [| done | by intros i ?%elem_of_reverse%Hin | lia | rewrite length_reverse; unfold NBUF; lia|].
    { intros i b Hbi. unfold pv. by rewrite Hbi. }
    intros r s2 [-> Hr2]. destruct r as [j|]; [|by apply wp_panic].
    destruct Hr2 as (Hj%elem_of_reverse%Hin & b & Hbj & [Hz%Z.eqb_eq Hfl%Z.eqb_eq]%andb_prop).
    change (bufs s1) with (bufs s) in *. destruct (bb_ok _ _ _ Hb j b Hj Hbj) as [G1 G2 G3 G4].
    unfold s1. rewrite (at_buf_entered s k1 lk j b Hbj).
    do 4 (wp_step; apply wp_bupd_at; [lia|]).
    apply bget_tail; [done | done | done | lia | done | cbn; congruence|].
    intros k p Hk'. exists b, k, p. split; [done|]. split; [done|]. split; [done|]. split; [congruence|]. right.
    split; [done|]. split; [|done]. intros E. by rewrite E in Hfl.
Qed.

(** [iderw] reads the block into a buffer without data. *)
Lemma iderw_read s k lk j y (Q : unit → bst → Prop) E :
  (j < length (bufs s))%nat → kready k → sl_idle (b_lock y) → sl_locked (b_lock y) = 1 → flags y = 0 →
  (∀ w s', memdisk s' = memdisk s → E w s') →
  (b_dev y = 1 → ∀ k', kready k' →
     Q tt (at_buf s k' lk j (y <| b_data := memdisk s (blockno y) |> <| flags := 2 |>))) →
  wp (iderw j) Q E (at_buf s k lk j y).
Proof.
  intros Hj Hk Hi Hl Hf HE HQ. unfold iderw. wp_step. apply holding_at; [done..|]. intros k' Hk'. rewrite Hl.
  change (1 =? 0) with false. cbv iota. wp_step. apply wp_bget_at; [done|]. rewrite Hf.
  change (Z.land 0 (Z.lor B_VALID B_DIRTY) =? B_VALID) with false. cbv iota.
  destruct (Z.eqb_spec (b_dev y) 1) as [Hd|]; cbn [negb]; [|apply wp_panic; by apply HE]. do 2 wp_step.
  destruct (_ >=? _); [apply wp_panic; by apply HE|].
  change (negb (Z.land 0 B_DIRTY =? 0)) with false. cbv iota. wp_step. do 2 wp_step. apply wp_bupd_at; [done|].
  apply wp_bupd_at; [done|]. cbn [flags]. specialize (HQ Hd k' Hk').
  change (flags (y <| b_data := _ |>)) with (flags y). rewrite Hf. exact HQ.
Qed.

(** [iderw] writes a dirty buffer, unless the power fails first. *)
Lemma iderw_write s k lk j y (Q : unit → bst → Prop) E :
  (j < length (bufs s))%nat → kready k → sl_idle (b_lock y) → sl_locked (b_lock y) = 1 → flags y = 6 →
  (∀ w s', memdisk s' = memdisk s → E w s') →
  (∀ k' f, kready k' → Q tt (mkbst k' lk (<[j := y <| flags := 2 |>]> (bufs s))
     (<[blockno y := b_data y]> (memdisk s)) (disksize s) f)) →
  wp (iderw j) Q E (at_buf s k lk j y).
Proof.
  intros Hj Hk Hi Hl Hf HE HQ. unfold iderw. wp_step. apply holding_at; [done..|]. intros k' Hk'. rewrite Hl.
  change (1 =? 0) with false. cbv iota. wp_step. apply wp_bget_at; [done|]. rewrite Hf.
  change (Z.land 6 (Z.lor B_VALID B_DIRTY) =? B_VALID) with false. cbv iota.
  destruct (negb _); [apply wp_panic; by apply HE|]. do 2 wp_step.
  destruct (_ >=? _); [apply wp_panic; by apply HE|].
  change (negb (Z.land 6 B_DIRTY =? 0)) with true. cbv iota. wp_step. wp_step. apply wp_bupd_at; [done|].
  do 2 wp_step. change (fuse (at_buf s _ _ _ _)) with (fuse s). destruct (fuse s) as [|f]; [by apply HE|].
  wp_step. set (s1 := mkbst k' lk (bufs s) (<[blockno y := b_data y]> (memdisk s)) (disksize s) f).
  apply (wp_bupd_at s1 k' lk j); [done|]. unfold at_buf. cbn.
  replace (y <| flags := _ |> <| flags := _ |>) with (y <| flags := 2 |>); [by apply HQ|].
  by rewrite Hf.
Qed.
End ops.

(** ** The interface *)
Section interface.
Context (sleep_buf : nat → SL unit) (naps : nat) (lock_chan : nat → chan_t).

Definition bio_cache : BlockCache bst := {|
  Block.bread := bread sleep_buf naps;
  Block.bufno h := b ← bget_buf h; mret (blockno b);
  Block.get_data h := b ← bget_buf h; mret (b_data b);
  Block.put_data h x := bupd h (fun b => b <| b_data := x |>);
  Block.set_dirty h := bupd h (fun b => b <| flags := Z.lor (flags b) B_DIRTY |>);
  Block.bwrite := bwrite;
  Block.brelse := brelse lock_chan;
  Block.rep := bio_rep;
  Block.pdisk := bio_disk
|}.

Lemma bio_kept s d w s' : bio_rep s d → memdisk s' = memdisk s → disk_kept (H := bio_cache) d w s'.
Proof. intros [_ _ _ Hb] E a. cbn. unfold bio_disk. by rewrite E, (bb_disk _ _ _ Hb). Qed.

Lemma bio_length s d : bio_rep s d → length (bufs s) = 31%nat.
Proof. intros [_ _ [o Hr] _]. apply Hr. Qed.

(** The links are those of before an update of one buffer. *)
Lemma ring_insert bs order j b y :
  ring bs order → bs !! j = Some b → next y = next b → prev y = prev b → ring (<[j := y]> bs) order.
Proof.
  intros [Hl Hn Hp Hpm] Hb En Ep. split; [by rewrite length_insert | | | done].
  - apply (path_ext (nx bs)); [|done]. intros i _. unfold nx. destruct (decide (i = j)) as [->|].
    + rewrite list_lookup_insert_eq by (by eapply lookup_lt_Some). rewrite Hb. cbn. by rewrite En.
    + by rewrite list_lookup_insert_ne.
  - apply (path_ext (pv bs)); [|done]. intros i _. unfold pv. destruct (decide (i = j)) as [->|].
    + rewrite list_lookup_insert_eq by (by eapply lookup_lt_Some). rewrite Hb. cbn. by rewrite Ep.
    + by rewrite list_lookup_insert_ne.
Qed.

(** A new state that differs in one buffer, its links apart. *)
Lemma bio_rep_at s d k j b y md f d' :
  bio_rep s d → kready k → bufs s !! j = Some b → next y = next b → prev y = prev b →
  bufs_rep md (<[j := y]> (bufs s)) d' →
  bio_rep (mkbst k (bc_lock s) (<[j := y]> (bufs s)) md (disksize s) f) d'.
Proof.
  intros [Hk Hf [o Hr] Hb] Hk' Hbj En Ep Hb'. split; [done | done | | done].
  exists o. by eapply ring_insert.
Qed.

Lemma held_none md bs d j b :
  bufs_rep md bs d → bs !! j = Some b → sl_locked (b_lock b) = 0 → held d !! j = None.
Proof.
  intros Hr Hb Hl. destruct (held d !! j) as [a|] eqn:E; [|done].
  destruct (rep_held _ _ _ _ _ Hr E) as (c & (_ & Hc & _) & Hlc & _). rewrite Hb in Hc. injection Hc as <-. lia.
Qed.

Lemma bread_ok s d dev n :
  bio_rep s d → (∀ h, held d !! h ≠ Some (dev, n)) →
  wp (bread sleep_buf naps dev n) (fun h s' => held d !! h = None ∧
    bio_rep s' (d <| held := <[h := (dev, n)]> (held d) |>)) (disk_kept (H := bio_cache) d) s.
Proof.
  intros Hrep Hnh. pose proof (bio_length _ _ Hrep) as Hlen. unfold bread. wp_step.
  eapply wp_mono; [by eapply bget_spec| |by intros w s' Hs; eapply bio_kept].
  intros j s' (b & k & p & Hj & Hbj & Hk & Hl & Hcase). pose proof Hrep as [_ _ _ Hb].
  assert (HE : ∀ w s', memdisk s' = memdisk s → disk_kept (H := bio_cache) d w s') by (intros; by eapply bio_kept).
  pose proof (held_none _ _ _ _ _ Hb Hbj Hl) as Hhn. pose proof (bb_ok _ _ _ Hb j b Hj Hbj) as [G1 G2 G3 G4].
  destruct Hcase as [(Hd & Hn & ->)|(Hno & Hf & ->)].
  - wp_step. apply wp_bget_at; [lia|]. wp_step. destruct G4 as [(Hd1 & Gf & _)|(Hd1 & Gf & _)].
    + change (flags (owned _ _)) with (flags b).
      assert (Z.land (flags b) B_VALID =? 0 = false) as -> by (by destruct Gf as [-> | ->]). do 2 wp_step.
      split; [done|]. eapply bio_rep_at; [done | done | exact Hbj | done | done|].
      rewrite <-Hd, <-Hn, Hd1.
      apply (rep_hit (memdisk s) (bufs s) d j b p); [done | done | lia | done].
    + change (flags (owned _ _)) with (flags b). rewrite Gf. change (Z.land 0 B_VALID =? 0) with true. wp_step.
      apply iderw_read; [lia | done | done | done | done | exact HE|]. intros Hd'. by destruct Hd1.
  - wp_step. apply wp_bget_at; [lia|]. wp_step. change (Z.land (flags (owned _ _)) B_VALID =? 0) with true. wp_step.
    apply iderw_read; [lia | done | done | done | done | exact HE|]. intros Hd1 k' Hk'. cbn in Hd1. subst dev. wp_step.
    split; [done|]. eapply bio_rep_at; [done | done | exact Hbj | done | done|].
    apply (rep_fill (memdisk s) (bufs s) d j b n p); [done | done | lia | done | done | done|].
    intros i c (Hi & Hc & Hdc) E. by apply (Hno i c Hi Hc).
Qed.

Lemma bwrite_ok s d h a :
  bio_rep s d → held d !! h = Some a →
  wp (bwrite h) (fun _ s' =>
    bio_rep s' (d <| disk := <[a := view d a]> (disk d) |> <| dirty := <[a := false]> (dirty d) |>))
    (disk_kept (H := bio_cache) d) s.
Proof.
  intros Hrep Ha. pose proof (bio_length _ _ Hrep) as Hlen. pose proof Hrep as [Hk _ _ Hb].
  destruct (rep_held _ _ _ _ _ Hb Ha) as (b & Hc & Hl & -> & [G1 G2 G3 G4]). pose proof Hc as (Hj & Hbj & Hd).
  unfold bwrite. rewrite (at_buf_id s h b Hbj) at 1. wp_step. apply holding_at; [lia | done | done|].
  intros k1 Hk1. rewrite Hl. change (1 =? 0) with false. cbv iota. wp_step. apply wp_bupd_at; [lia|].
  assert (Z.lor (flags b) B_DIRTY = 6) as -> by (destruct G4 as [(_ & [-> | ->] & _)|[? _]]; done).
  apply iderw_write; [lia | done | done | done | done | intros; by eapply bio_kept|].
  intros k2 f Hk2. eapply bio_rep_at; [done | done | exact Hbj | done | done|].
  by apply (rep_write (memdisk s) (bufs s) d h b); [| |lia|].
Qed.

Lemma brelse_ok s d h a :
  bio_rep s d → held d !! h = Some a → safe_block d a →
  wp (brelse lock_chan h) (fun _ s' => bio_rep s' (d <| held := delete h (held d) |>))
    (disk_kept (H := bio_cache) d) s.
Proof.
  intros Hrep Ha Hsafe. pose proof (bio_length _ _ Hrep) as Hlen. pose proof Hrep as [Hk Hf [order Hr] Hb].
  destruct (rep_held _ _ _ _ _ Hb Ha) as (b & Hc & Hl & -> & [G1 G2 G3 G4]). pose proof Hc as (Hj & Hbj & Hd).
  unfold brelse. rewrite (at_buf_id s h b Hbj) at 1. wp_step. apply holding_at; [lia | done | done|].
  intros k1 Hk1. rewrite Hl. change (1 =? 0) with false. cbv iota. wp_step. apply wp_buf_lock; [lia|].
  apply releasesleep_held; [done..|]. intros k2 Hk2 _. cbn [fst snd]. wp_step. apply wp_bc_acquire; [done..|].
  intros k3 Hent. cbn [b_kern at_buf] in Hent. set (y := b <| b_lock := _ |>).
  set (lk := locked_by _ _).
  change (_ <| b_kern := k3 |> <| bc_lock := lk |>) with (at_buf s k3 lk h y).
  wp_step. apply wp_bupd_at; [lia|]. change (refcnt y) with (refcnt b). rewrite G2, Hl. change (u32 (1 - 1)) with 0.
  set (y2 := y <| refcnt := 0 |>). wp_step. apply wp_bget_at; [lia|]. change (refcnt y2 =? 0) with true. do 2 wp_step.
  assert (Hr2 : ring (bufs (at_buf s k3 lk h y2)) order) by by eapply ring_insert.
  eapply wp_mono; [by apply (move_to_front_spec h _ order)| |done]. intros [] s5 (bs' & order' & -> & Hr' & Hcore).
  eapply (wp_bc_release k2 (bc_lock s)); [done..|]. intros k4 Hk4.
  split; [done | done | by exists order' |]. cbn. apply (bufs_rep_core _ _ _ _ Hcore). cbn.
  apply (rep_release (memdisk s) (bufs s) d h b); [done | done | lia | done | done].
Qed.

Lemma bio_laws : BlockLaws bst (H := bio_cache).
Proof.
  split; cbn.
  - intros s d d' (E1 & E2 & E3 & E4) [Hk Hf Hr [H1 H2 H3 H4 H5 H6]]. split; [done..|].
    split; [done | done | | | |].
    + intros a. by rewrite <-E1.
    + intros i b Hb. rewrite <-E2, <-E3. by eapply H4.
    + intros a Ha. rewrite <-E1, <-E2, <-E3. by apply H5.
    + by rewrite <-E4.
  - intros s d a [_ _ _ Hb]. by rewrite (bb_disk _ _ _ Hb).
  - intros s d dev n Hrep Hnh _. by apply bread_ok.
  - intros s d h a Hrep Ha. pose proof Hrep as [_ _ _ Hb].
    destruct (rep_held _ _ _ _ _ Hb Ha) as (b & (_ & Hbj & _) & _ & -> & _).
    wp_step. eapply wp_bget; [done|]. by wp_step.
  - intros s d h a Hrep Ha. pose proof Hrep as [_ _ _ Hb].
    destruct (rep_held _ _ _ _ _ Hb Ha) as (b & Hc & _ & -> & _). pose proof Hc as (_ & Hbj & _).
    wp_step. eapply wp_bget; [done|]. wp_step. split; [|done]. symmetry. by eapply (bb_in _ _ _ Hb).
  - intros s d h a x Hrep Ha. pose proof Hrep as [Hk _ _ Hb]. pose proof (bio_length _ _ Hrep).
    destruct (rep_held _ _ _ _ _ Hb Ha) as (b & Hc & Hl & -> & _). pose proof Hc as (Hj & Hbj & _).
    eapply wp_bupd; [done|]. eapply (bio_rep_at s d); [done | done | exact Hbj | done | done|].
    apply rep_put; [done | done | lia | done].
  - intros s d h a Hrep Ha. pose proof Hrep as [Hk _ _ Hb]. pose proof (bio_length _ _ Hrep).
    destruct (rep_held _ _ _ _ _ Hb Ha) as (b & Hc & Hl & -> & [_ _ _ G4]). pose proof Hc as (Hj & Hbj & Hd).
    eapply wp_bupd; [done|]. eapply (bio_rep_at s d); [done | done | exact Hbj | done | done|].
    assert (Z.lor (flags b) B_DIRTY = 6) as -> by (destruct G4 as [(_ & [-> | ->] & _)|[? _]]; done).
    apply rep_dirty; [done | done | lia | done].
  - intros s d h a Hrep Ha. by apply bwrite_ok.
  - intros s d h a Hrep Ha Hsafe. by eapply brelse_ok.
Qed.
End interface.

(** C16: The buffer cache implements the interface the log is verified against:
    [bread] returns the block locked with its current contents, [bwrite] makes
    it durable, [brelse] gives it up, recycling never loses a dirty block or
    shows stale contents, the ring of buffers stays intact, and a stop at any
    point (a panic, or a loss of power) leaves the disk as it was. *)
Theorem bio_refines_interface (sleep_buf : nat → SL unit) (naps : nat) (lock_chan : nat → chan_t) :
  BlockLaws bst (H := bio_cache sleep_buf naps lock_chan).
Proof. apply bio_laws. Qed.

(** ** The cache after [binit] *)
Definition buf0 : buf := mkbuf 0 0 0 (mksleeplock 0 (initlock "") "" 0) 0 0 0 [].
Definition boot_bufs : list buf := replicate 31 buf0.

(** The ring in the order 29, ..., 0. *)
Definition ring0 : list buf :=
  ((fun i => mkbuf 0 0 0 (initsleeplock "buffer") 0 (if Nat.eqb i 29 then 30 else S i)%nat
      (if Nat.eqb i 0 then 30 else pred i)%nat []) <$> seq 0 30)
  ++ [buf0 <| prev := 0%nat |> <| next := 29%nat |>].

Lemma binit_eq k lk md size f :
  binit (mkbst k lk boot_bufs md size f) = Ok tt (mkbst k (initlock "bcache") ring0 md size f).
Proof. vm_compute. reflexivity. Qed.

Lemma ring0_ring : ring ring0 (reverse (seq 0 30)).
Proof.
  split; [done | vm_compute; repeat split | vm_compute; repeat split |].
  rewrite reverse_Permutation. done.
Qed.


