(* ===== verification/Store.v ===== *)
(** * What the file system relies on: blocks inside a transaction

    [BlockStore] is what bio.c and log.c together offer to fs.c between
    [begin_op] and [end_op], in terms of a [tstate]: the contents of the
    blocks, the buffers the caller has locked, the blocks that belong to the
    transaction, the blocks that were changed in the cache without
    [log_write], whose contents are not known once they are given back, what
    is on the disk, and how many blocks may be logged; outside of a transaction
    blocks can be read and none may be logged.

    [Transactions] is the bracket itself: [begin_op] opens a transaction,
    [end_op] makes the contents durable, and a loss of power leaves either the
    disk from before the transaction or all of what it logged. *)
From stdpp Require Import gmap functions.
From S2P Require Import Prelude Spinlock Proc Sleep Sleeplock Bytes Block.

Record tstate := mkt {
  tv : baddr → block;
  th : gmap nat baddr;
  tlog : gset baddr;
  tstale : gset baddr;
  tbase : baddr → block;
  tcap : nat
}.
#[export] Instance tstate_eta : EtaRecord tstate := fun t => mkt (tv t) (th t) (tlog t) (tstale t) (tbase t) (tcap t).

Class BlockStore (S : Type) := {
  bread : Z → Z → M S nat;
  get_data : nat → M S block;
  put_data : nat → block → M S unit;
  log_write : nat → M S unit;
  brelse : nat → M S unit;
  kern_of : S → kstate;
  set_kern : kstate → S → S;
  trep : S → tstate → Prop
}.

(** A block of 512 bytes. *)
Definition is_block (x : block) : Prop := length x = 512%nat ∧ Forall is_byte x.

(** A change that is not logged, and the same change logged. *)
Definition tput (a : baddr) (x : block) (t : tstate) : tstate :=
  t <| tv := <[a := x]> (tv t) |>
    <| tstale := if decide (a ∈ tlog t) then tstale t else {[a]} ∪ tstale t |>.
Definition tlogged (a : baddr) (t : tstate) : tstate :=
  t <| tlog := {[a]} ∪ tlog t |> <| tstale := tstale t ∖ {[a]} |>.
Definition tstore (a : baddr) (x : block) (t : tstate) : tstate :=
  tlogged a (t <| tv := <[a := x]> (tv t) |>).

(** No buffer of the caller holds block [a]. *)
Definition not_held (t : tstate) (a : baddr) : Prop := ∀ h, th t !! h ≠ Some a.

(** Steps of a transaction leave the disk alone; most make nothing stale. *)
Definition carries (t t' : tstate) : Prop := tbase t' = tbase t ∧ tcap t' = tcap t ∧ tstale t' ⊆ tstale t.
#[export] Instance carries_preorder : PreOrder carries.
Proof.
  split; [by intros t|]. intros t1 t2 t3 (H1 & H2 & H3) (H4 & H5 & H6).
  split; [congruence | split; [congruence | by etrans]].
Qed.

Lemma carries_tstore t a x : carries t (tstore a x t).
Proof. split; [done | split; [done|]]. cbn. set_solver. Qed.

(** The deepest nesting of locked buffers in fs.c: the doubly indirect block,
    the indirect block below it, and one more. *)
Definition MAXHELD : nat := 3.

Class StoreLaws (S : Type) `{BlockStore S} : Prop := {
  trep_ext (s : S) t v : trep s t → (∀ a, v a = tv t a) → trep s (t <| tv := v |>);
  trep_kern (s : S) t : trep s t → kready (kern_of s);
  trep_set_kern (s : S) t k :
    trep s t → kready k → other_locks k = other_locks (kern_of s) → trep (set_kern k s) t;
  kern_set_kern (s : S) k : kern_of (set_kern k s) = k;
  set_set_kern (s : S) k k' : set_kern k (set_kern k' s) = set_kern k s;
  set_kern_id (s : S) : set_kern (kern_of s) s = s;
  bread_law (s : S) t dev n :
    trep s t → not_held t (dev, n) → 0 ≤ n < FSSIZE → (size (th t) < MAXHELD)%nat →
    wpt (bread dev n) (fun h s' => ∃ x, th t !! h = None ∧
      ((dev, n) ∉ tstale t → x = tv t (dev, n)) ∧ (is_block (tv t (dev, n)) → is_block x) ∧
      trep s' (t <| tv := <[(dev, n) := x]> (tv t) |> <| th := <[h := (dev, n)]> (th t) |>)) s;
  get_data_law (s : S) t h a :
    trep s t → th t !! h = Some a → wpt (get_data h) (fun x s' => x = tv t a ∧ trep s' t) s;
  put_data_law (s : S) t h a x :
    trep s t → th t !! h = Some a → wpt (put_data h x) (fun _ s' => trep s' (tput a x t)) s;
  log_write_law (s : S) t h a :
    trep s t → th t !! h = Some a → (size ({[a]} ∪ tlog t) ≤ tcap t)%nat →
    wpt (log_write h) (fun _ s' => trep s' (tlogged a t)) s;
  brelse_law (s : S) t h a :
    trep s t → th t !! h = Some a → wpt (brelse h) (fun _ s' => trep s' (t <| th := delete h (th t) |>)) s
}.

(** The blocks of the file system, as opposed to those of the log, are
    [home]; [survives s u] means that [u] is on the disk after recovery. *)
Class Transactions (S : Type) := {
  begin_op : M S unit;
  end_op : M S unit;
  home : baddr → Prop;
  survives : S → (baddr → block) → Prop
}.

(** Outside of a transaction. *)
Definition closed (t : tstate) : Prop := tcap t = 0%nat ∧ th t = ∅ ∧ tlog t = ∅.

(** What a loss of power in a transaction leaves. *)
Definition all_or_nothing {S} `{Transactions S} (t : tstate) (s : S) : Prop :=
  ∃ u, survives s u ∧
    ((∀ a, home a → u a = tbase t a) ∨ (∀ a, home a → a ∉ tstale t → u a = tv t a)).

(** [capacity] is how many blocks one transaction may log. *)
Class TxnLaws (S : Type) `{BlockStore S} `{Transactions S} (capacity : nat) : Prop := {
  begin_op_law (s : S) t :
    trep s t → closed t →
    wpt begin_op (fun _ s' => ∃ u, (∀ a, home a → a ∉ tstale t → u a = tv t a) ∧
      trep s' (t <| tbase := u |> <| tcap := capacity |>)) s;
  end_op_law (s : S) t :
    trep s t → th t = ∅ → tcap t = capacity → (∀ a, is_block (tv t a)) →
    wp end_op (fun _ s' => ∃ v u, (∀ a, home a → v a = tv t a) ∧ (∀ a, is_block (v a)) ∧
        trep s' (mkt v ∅ ∅ (tstale t) u 0))
      (fun w s' => w = PowerLoss ∧ all_or_nothing t s') s
}.

(** ** A reference store

    The simplest implementation: it holds every block, gives the latest
    contents also of blocks that were not logged, and has power for a number
    of transactions. *)
Record refstore := mkrs { rs_t : tstate; rs_next : nat; rs_kern : kstate; rs_power : nat }.
#[export] Instance refstore_eta : EtaRecord refstore := fun r =>
  mkrs (rs_t r) (rs_next r) (rs_kern r) (rs_power r).

Module RefStore.
Section refstore.
Definition addr (h : nat) : M refstore baddr := m ← gets (fun r => th (rs_t r)); deref (m !! h).

Definition bread (dev n : Z) : M refstore nat :=
  h ← gets rs_next;
  modify (fun r => r <| rs_t ::= fun t => t <| th ::= <[h := (dev, n)]> |> |> <| rs_next := S h |>);;
  mret h.
Definition get_data (h : nat) : M refstore block := a ← addr h; gets (fun r => tv (rs_t r) a).
Definition put_data (h : nat) (x : block) : M refstore unit :=
  a ← addr h; modify (fun r => r <| rs_t ::= tput a x |>).
Definition log_write (h : nat) : M refstore unit :=
  a ← addr h;
  t ← gets rs_t;
  if Nat.leb (size ({[a]} ∪ tlog t)) (tcap t) then modify (fun r => r <| rs_t ::= tlogged a |>)
  else panic "too big a transaction".
Definition brelse (h : nat) : M refstore unit :=
  addr h;; modify (fun r => r <| rs_t ::= fun t => t <| th ::= delete h |> |>).

Definition same (t t' : tstate) : Prop :=
  (∀ a, tv t a = tv t' a) ∧ th t = th t' ∧ tlog t = tlog t' ∧ tstale t = tstale t' ∧ (∀ a, tbase t a = tbase t' a) ∧
  tcap t = tcap t'.

Definition store : BlockStore refstore := {|
  Store.bread := bread; Store.get_data := get_data; Store.put_data := put_data;
  Store.log_write := log_write; Store.brelse := brelse;
  Store.kern_of := rs_kern; Store.set_kern := fun k r => r <| rs_kern := k |>;
  Store.trep r t := same (rs_t r) t ∧ kready (rs_kern r) ∧ ∀ h, (rs_next r ≤ h)%nat → th t !! h = None
|}.

Lemma wp_held_addr r t h a (Q : baddr → refstore → Prop) E :
  same (rs_t r) t → th t !! h = Some a → Q a r → wp (addr h) Q E r.
Proof.
  intros (_ & Hh & _) Ha HQ. unfold addr. do 2 wp_step. eapply wp_deref; [by rewrite Hh | done].
Qed.

Lemma laws : @StoreLaws refstore store.
Proof.
  split; cbn.
  - intros r t v ((H1 & H2 & H3 & H4 & H5 & H6) & Hk & Hn) Hv. split; [|done].
    repeat split; cbn; auto. intros a. by rewrite Hv.
  - naive_solver.
  - naive_solver.
  - done.
  - done.
  - by intros [].
  - intros r t dev n ((H1 & H2 & H3 & H4 & H5 & H6) & Hk & Hn) _ _ _. unfold bread. wp_run.
    exists (tv t (dev, n)). split; [by apply Hn|]. split; [done|]. split; [done|].
    split; [|split; [done|]].
    + repeat split; cbn; auto; [|by rewrite H2]. intros a. rewrite H1.
      destruct (decide (a = (dev, n))) as [->|]; [by rewrite fn_lookup_insert | by rewrite fn_lookup_insert_ne].
    + cbn. intros h Hh. rewrite lookup_insert_ne by lia. apply Hn. lia.
  - intros r t h a (Hs & Hk & Hn) Ha. unfold get_data. wp_step. eapply wp_held_addr; [done..|].
    wp_step. split; [apply Hs | done].
  - intros r t h a x (Hs & Hk & Hn) Ha. unfold put_data. wp_step. eapply wp_held_addr; [done..|].
    wp_step. destruct Hs as (H1 & H2 & H3 & H4 & H5 & H6). split; [|done].
    repeat split; cbn; auto; [by apply fn_insert_ext | by rewrite H3, H4].
  - intros r t h a (Hs & Hk & Hn) Ha Hc. unfold log_write. wp_step. eapply wp_held_addr; [done..|].
    do 2 wp_step. pose proof Hs as (H1 & H2 & H3 & H4 & H5 & H6). rewrite H3, H6.
    destruct (Nat.leb_spec (size ({[a]} ∪ tlog t)) (tcap t)); [|lia].
    wp_step. split; [|done]. repeat split; cbn; auto; by rewrite ?H3, ?H4.
  - intros r t h a (Hs & Hk & Hn) Ha. unfold brelse. wp_step. eapply wp_held_addr; [done..|].
    wp_step. destruct Hs as (H1 & H2 & H3 & H4 & H5 & H6). split; [repeat split; cbn; auto; by rewrite H2|].
    split; [done|]. cbn. intros j Hj. apply lookup_delete_None. auto.
Qed.

(** Transactions of up to [capacity] blocks. *)
Context (capacity : nat).
Definition begin_op : M refstore unit := modify (fun r => r <| rs_t ::= fun t => t <| tbase := tv t |> <| tcap := capacity |> |>).
Definition end_op : M refstore unit :=
  p ← gets rs_power;
  match p with
  | O => stop_with PowerLoss
  | S p => modify (fun r => r <| rs_power := p |>
      <| rs_t ::= fun t => t <| tlog := ∅ |> <| tbase := tv t |> <| tcap := 0%nat |> |>)
  end.
Definition txns : Transactions refstore := {|
  Store.begin_op := begin_op; Store.end_op := end_op; Store.home a := True;
  Store.survives r u := ∀ a, u a = tbase (rs_t r) a
|}.

Lemma txn_laws : @TxnLaws refstore store txns capacity.
Proof.
  split; cbn.
  - intros r t ((H1 & H2 & H3 & H4 & H5 & H6) & Hk & Hn) (Hc & Hth & Hl).
    exists (tv t). split; [done|]. split; [|done]. repeat split; cbn; auto.
  - intros r t ((H1 & H2 & H3 & H4 & H5 & H6) & Hk & Hn) Hth Hc Hb. unfold end_op. do 2 wp_step.
    destruct (rs_power r) as [|p].
    + split; [done|]. exists (tbase (rs_t r)). split; [done|]. left. intros a _. apply H5.
    + wp_step. exists (tv t), (tv t). split; [done|]. split; [done|].
      cbn. split; [|by rewrite Hth in Hn]. repeat split; cbn; auto. by rewrite H2.
Qed.
End refstore.
End RefStore.
