(* ===== verification/Fs.v ===== *)
(** * The file system (fs.c, fs.h, file.h)

    Blocks, inodes, file contents, directories and path names, over any
    [BlockStore].  An in-memory inode is its index in [icache.inode]; a
    buffer is the handle the store returned.  The bytes a routine copies to
    its caller are part of its result, the bytes it copies from its caller an
    argument.

    This file holds the code; [FsAlloc], [FsFile], [FsInode] and [FsDir] hold
    what is proved of it. *)
From S2P Require Import Prelude Spinlock Proc Sleep Sleeplock Bytes CString Block Store.

(** ** Constants and data *)
Definition ROOTINO : Z := 1.
Definition ROOTDEV : Z := 1.
Definition NDIRECT : Z := 11.
Definition NINDIRECT : Z := BSIZE / 4.
Definition NDBINDIRECT : Z := BSIZE / 4 * BSIZE / 4.
Definition MAXFILE : Z := NDIRECT + NINDIRECT + NDBINDIRECT.
Definition IPB : Z := BSIZE / 64.
Definition IBLOCK (i : Z) (s : superblock) : Z := u32 (i / IPB + sb_inodestart s).
Definition BPB : Z := BSIZE * 8.
Definition BBLOCK (b : Z) (s : superblock) : Z := u32 (b / BPB + sb_bmapstart s).
Definition DIRSIZ : Z := 14.
Definition NINODE : nat := 50.
Definition NDEV : Z := 10.
Definition I_VALID : Z := 2.
Definition T_DIR : Z := 1.
Definition T_FILE : Z := 2.
Definition T_DEV : Z := 3.

Record inode := mkinode {
  i_dev : Z;
  inum : Z;
  ref : Z;
  i_lock : sleeplock;
  i_flags : Z;
  i_type : Z;
  major : Z;
  minor : Z;
  nlink : Z;
  i_size : Z;
  addrs : list Z                 (* uint addrs[NDIRECT+2] *)
}.
#[export] Instance inode_eta : EtaRecord inode := fun i =>
  mkinode (i_dev i) (inum i) (ref i) (i_lock i) (i_flags i) (i_type i) (major i) (minor i)
    (nlink i) (i_size i) (addrs i).

Record stat := mkstat { st_type : Z; st_dev : Z; st_ino : Z; st_nlink : Z; st_size : Z }.
Record dirent := mkdirent { de_inum : Z; de_name : list Z }.

(** The variables of fs.c, and the layers below. *)
Record fsys (T : Type) := mkfsys {
  store : T;
  sb : superblock;
  ic_lock : spinlock;
  inodes : list inode
}.
Arguments mkfsys {T}.
Arguments store {T}.
Arguments sb {T}.
Arguments ic_lock {T}.
Arguments inodes {T}.
#[export] Instance fsys_eta T : EtaRecord (fsys T) := fun s =>
  mkfsys (store s) (sb s) (ic_lock s) (inodes s).

(** *** struct dinode in a block

    64 bytes at [64 * (inum % IPB)]: four shorts, the size, the addresses. *)
Definition dinode_off (n : Z) : nat := Z.to_nat (64 * (n mod IPB)).
Definition put_dinode (ip : inode) (x : block) : block :=
  let o := dinode_off (inum ip) in
  let x := put16 x o (i_type ip) in
  let x := put16 x (o + 2) (major ip) in
  let x := put16 x (o + 4) (minor ip) in
  let x := put16 x (o + 6) (nlink ip) in
  let x := put32 x (o + 8) (i_size ip) in
  splice x (o + 12) (concat (le_bytes 4 <$> addrs ip)).
Definition get_dinode (x : block) (ip : inode) : inode :=
  let o := dinode_off (inum ip) in
  ip <| i_type := i16 (get16 x o) |>
     <| major := i16 (get16 x (o + 2)) |>
     <| minor := i16 (get16 x (o + 4)) |>
     <| nlink := i16 (get16 x (o + 6)) |>
     <| i_size := get32 x (o + 8) |>
     <| addrs := (fun k => get32 x (o + 12 + 4 * k)%nat) <$> seq 0 13 |>.

Section code.
Context {T : Type} `{!BlockStore T}.
Abbreviation F := (M (fsys T)).

Definition inS {A} (m : M T A) : F A := zoom store (fun c s => s <| store := c |>) m.
Definition kern (s : fsys T) : kstate := kern_of (store s).
Definition put_kern (k : kstate) (s : fsys T) : fsys T := s <| store ::= set_kern k |>.

Definition ino (i : nat) : F inode := l ← gets inodes; deref (l !! i).
Definition iupd (i : nat) (f : inode → inode) : F unit :=
  x ← ino i; modify (fun s => s <| inodes ::= <[i := f x]> |>).

(** ** Blocks *)
Definition readsb (dev : Z) : F superblock :=
  bp ← inS (bread dev 1);
  x ← inS (get_data bp);
  inS (brelse bp);;
  mret (decode_sb x).

Definition bzero (dev bno : Z) : F unit :=
  bp ← inS (bread dev bno);
  inS (put_data bp (replicate 512 0));;
  inS (log_write bp);;
  inS (brelse bp).

(** The loop over the bits of one block of the map. *)
Definition balloc_bits (dev size b : Z) (bp : nat) : F (option Z) :=
  for_list (seqZ 0 (Z.min BPB (size - b))) (fun bi =>
    let m := Z.shiftl 1 (bi mod 8) in
    x ← inS (get_data bp);
    v ← deref (array_get x (bi / 8));
    if Z.land v m =? 0 then
      x' ← deref (array_set x (bi / 8) (u8 (Z.lor v m)));
      inS (put_data bp x');;
      inS (log_write bp);;
      inS (brelse bp);;
      bzero dev (b + bi);;
      mret (Some (b + bi))
    else mret None).

Definition balloc (dev : Z) : F Z :=
  size ← gets (fun s => sb_size (sb s));
  r ← for_list ((fun k => k * BPB) <$> seqZ 0 ((size + BPB - 1) / BPB)) (fun b =>
    s ← gets sb;
    bp ← inS (bread dev (BBLOCK b s));
    r ← balloc_bits dev size b bp;
    match r with
    | Some a => mret (Some a)
    | None => inS (brelse bp);; mret None
    end);
  match r with
  | Some a => mret a
  | None => panic "balloc: out of blocks"
  end.

Definition bfree (dev b : Z) : F unit :=
  s' ← readsb dev;
  modify (fun s => s <| sb := s' |>);;
  s ← gets sb;
  bp ← inS (bread dev (BBLOCK b s));
  let bi := b mod BPB in
  let m := Z.shiftl 1 (bi mod 8) in
  x ← inS (get_data bp);
  v ← deref (array_get x (bi / 8));
  if Z.land v m =? 0 then panic "freeing free block" else
  x' ← deref (array_set x (bi / 8) (u8 (Z.land v (Z.lnot m))));
  inS (put_data bp x');;
  inS (log_write bp);;
  inS (brelse bp).

(** ** Inode contents *)
Definition iupdate (i : nat) : F unit :=
  ip ← ino i;
  s ← gets sb;
  bp ← inS (bread (i_dev ip) (IBLOCK (inum ip) s));
  x ← inS (get_data bp);
  inS (put_data bp (put_dinode ip x));;
  inS (log_write bp);;
  inS (brelse bp).

(** [if((addr = ip->addrs[k]) == 0) ip->addrs[k] = addr = balloc(ip->dev)] *)
Definition addr_or_alloc (i : nat) (k : Z) : F Z :=
  ip ← ino i;
  addr ← deref (array_get (addrs ip) k);
  if addr =? 0 then
    addr ← balloc (i_dev ip);
    ip ← ino i;
    l ← deref (array_set (addrs ip) k addr);
    iupd i (fun x => x <| addrs := l |>);;
    mret addr
  else mret addr.

(** [if((addr = a[k]) == 0){ a[k] = addr = balloc(ip->dev); log_write(bp); }]
    where [a] is the data of [bp]. *)
Definition entry_or_alloc (dev : Z) (bp : nat) (k : Z) : F Z :=
  a ← inS (get_data bp);
  let addr := get32 a (Z.to_nat (4 * k)) in
  if addr =? 0 then
    addr ← balloc dev;
    a ← inS (get_data bp);
    inS (put_data bp (put32 a (Z.to_nat (4 * k)) addr));;
    inS (log_write bp);;
    mret addr
  else mret addr.

Definition bmap (i : nat) (bn : Z) : F Z :=
  ip ← ino i;
  let dev := i_dev ip in
  if bn <? NDIRECT then addr_or_alloc i bn else
  let bn := bn - NDIRECT in
  if bn <? NINDIRECT then
    addr ← addr_or_alloc i NDIRECT;
    bp ← inS (bread dev addr);
    addr ← entry_or_alloc dev bp bn;
    inS (brelse bp);;
    mret addr
  else
  let bn := bn - NINDIRECT in
  if bn <? NDBINDIRECT then
    addr ← addr_or_alloc i (NDIRECT + 1);
    db_bp ← inS (bread dev addr);
    addr ← entry_or_alloc dev db_bp (bn / NINDIRECT);
    bp ← inS (bread dev addr);
    addr ← entry_or_alloc dev bp (bn mod NINDIRECT);
    inS (brelse bp);;
    inS (brelse db_bp);;
    mret addr
  else panic "bmap: out of range".

(** Free what the entries of the block in [bp] point at. *)
Definition free_entries (dev : Z) (bp : nat) : F unit :=
  for_each (seqZ 0 NINDIRECT) (fun j =>
    a ← inS (get_data bp);
    let e := get32 a (Z.to_nat (4 * j)) in
    when (negb (e =? 0)) (bfree dev e)).

Definition addr_at (i : nat) (k : Z) : F Z := ip ← ino i; deref (array_get (addrs ip) k).
Definition clear_addr (i : nat) (k : Z) : F unit :=
  iupd i (fun x => x <| addrs ::= <[Z.to_nat k := 0]> |>).

Definition itrunc (i : nat) : F unit :=
  ip ← ino i;
  let dev := i_dev ip in
  for_each (seqZ 0 NDIRECT) (fun k =>
    a ← addr_at i k;
    when (negb (a =? 0)) (bfree dev a;; clear_addr i k));;
  a ← addr_at i NDIRECT;
  when (negb (a =? 0))
    (bp ← inS (bread dev a);
     free_entries dev bp;;
     inS (brelse bp);;
     bfree dev a;;
     clear_addr i NDIRECT);;
  a ← addr_at i (NDIRECT + 1);
  when (negb (a =? 0))
    (db_bp ← inS (bread dev a);
     for_each (seqZ 0 NINDIRECT) (fun j =>
       d ← inS (get_data db_bp);
       let e := get32 d (Z.to_nat (4 * j)) in
       when (negb (e =? 0))
         (bp ← inS (bread dev e);
          free_entries dev bp;;
          inS (brelse bp);;
          bfree dev e;;
          d ← inS (get_data db_bp);
          inS (put_data db_bp (put32 d (Z.to_nat (4 * j)) 0))));;
     inS (brelse db_bp);;
     bfree dev a;;
     clear_addr i (NDIRECT + 1));;
  iupd i (fun x => x <| i_size := 0 |>);;
  iupdate i.

Definition stati (i : nat) : F stat :=
  ip ← ino i;
  mret (mkstat (i_type ip) (i_dev ip) (inum ip) (nlink ip) (i_size ip)).

(** [devsw[major].read] and [write]: the drivers, where there is one. *)
Context (dev_read : Z → option (nat → Z → F (Z * list Z))).
Context (dev_write : Z → option (nat → list Z → Z → F Z)).

(** The copying loop of [readi]: every turn copies at least one byte. *)
Fixpoint readi_loop (fuel i : nat) (off tot n : Z) : F (list Z) :=
  if tot <? n then
    match fuel with
    | O => stop_with NoFuel
    | S fuel =>
        ip ← ino i;
        addr ← bmap i (off / BSIZE);
        bp ← inS (bread (i_dev ip) addr);
        let m := Z.min (n - tot) (BSIZE - off mod BSIZE) in
        x ← inS (get_data bp);
        inS (brelse bp);;
        rest ← readi_loop fuel i (off + m) (tot + m) n;
        mret (slice x (Z.to_nat (off mod BSIZE)) (Z.to_nat m) ++ rest)
    end
  else mret [].

(** The value returned and the bytes stored at [dst]. *)
Definition readi (i : nat) (off n : Z) : F (Z * list Z) :=
  ip ← ino i;
  if i_type ip =? T_DEV then
    if (major ip <? 0) || (major ip >=? NDEV) then mret (-1, []) else
    match dev_read (major ip) with
    | None => mret (-1, [])
    | Some f => f i n
    end
  else
  if (off >? i_size ip) || (u32 (off + n) <? off) then mret (-1, []) else
  let n := if u32 (off + n) >? i_size ip then u32 (i_size ip - off) else n in
  l ← readi_loop (Z.to_nat (n / BSIZE + 2)) i off 0 n;
  mret (i32 n, l).

(** [src] holds the bytes from the pointer on. *)
Fixpoint writei_loop (fuel i : nat) (src : list Z) (off tot n : Z) : F Z :=
  if tot <? n then
    match fuel with
    | O => stop_with NoFuel
    | S fuel =>
        ip ← ino i;
        addr ← bmap i (off / BSIZE);
        bp ← inS (bread (i_dev ip) addr);
        let m := Z.min (n - tot) (BSIZE - off mod BSIZE) in
        x ← inS (get_data bp);
        if Nat.ltb (length src) (Z.to_nat m) then fault else
        inS (put_data bp (splice x (Z.to_nat (off mod BSIZE)) (take (Z.to_nat m) src)));;
        inS (log_write bp);;
        inS (brelse bp);;
        writei_loop fuel i (drop (Z.to_nat m) src) (off + m) (tot + m) n
    end
  else mret off.

Definition writei (i : nat) (src : list Z) (off n : Z) : F Z :=
  ip ← ino i;
  if i_type ip =? T_DEV then
    if (major ip <? 0) || (major ip >=? NDEV) then mret (-1) else
    match dev_write (major ip) with
    | None => mret (-1)
    | Some f => f i src n
    end
  else
  if (off >? i_size ip) || (u32 (off + n) <? off) then mret (-1) else
  if u32 (off + n) >? MAXFILE * BSIZE then mret (-1) else
  off ← writei_loop (Z.to_nat (n / BSIZE + 2)) i src off 0 n;
  ip ← ino i;
  when ((n >? 0) && (off >? i_size ip))
    (iupd i (fun x => x <| i_size := off |>);; iupdate i);;
  mret (i32 n).

(** ** The inode cache

    [sleep_inode] is what happens while [acquiresleep] sleeps, [naps] how
    often it may, [inode_chan] the addresses of the locks.  A pointer to an
    in-memory inode is an index, so the null tests of [ilock] and [iunlock]
    are on the callers' side. *)
Context (sleep_inode : nat → SL unit) (naps : nat) (inode_chan : nat → chan_t).

Definition with_ic_lock {A} (m : M (cpu * spinlock) A) : F A :=
  zoom (fun s => (this_cpu (kern s), ic_lock s))
       (fun p s => (put_kern ((kern s) <| this_cpu := p.1 |>) s) <| ic_lock := p.2 |>) m.
Definition with_inode_lock {A} (i : nat) (m : SL A) : F A :=
  x ← ino i;
  zoom (fun s => (kern s, i_lock x))
       (fun p s => (put_kern p.1 s) <| inodes ::= <[i := x <| i_lock := p.2 |>]> |>) m.

Definition iinit (dev : Z) : F unit :=
  modify (fun s => s <| ic_lock := initlock "icache" |>);;
  for_each (seq 0 NINODE) (fun i => iupd i (fun x => x <| i_lock := initsleeplock "inode" |>));;
  s' ← readsb dev;
  modify (fun s => s <| sb := s' |>).

(** The scan of [iget]: the entry that has the inode, else the first free one. *)
Fixpoint iget_scan (dev n : Z) (l : list nat) (empty : option nat) : F (nat + option nat) :=
  match l with
  | [] => mret (inr empty)
  | i :: l =>
      x ← ino i;
      if (ref x >? 0) && (i_dev x =? dev) && (inum x =? n) then mret (inl i)
      else iget_scan dev n l
             (match empty with None => if ref x =? 0 then Some i else None | Some _ => empty end)
  end.

Definition iget (dev n : Z) : F nat :=
  with_ic_lock acquire;;
  r ← iget_scan dev n (seq 0 NINODE) None;
  match r with
  | inl i =>
      iupd i (fun x => x <| ref := i32 (ref x + 1) |>);;
      with_ic_lock release;;
      mret i
  | inr None => panic "iget: no inodes"
  | inr (Some i) =>
      iupd i (fun x => x <| i_dev := dev |>);;
      iupd i (fun x => x <| inum := n |>);;
      iupd i (fun x => x <| ref := 1 |>);;
      iupd i (fun x => x <| i_flags := 0 |>);;
      with_ic_lock release;;
      mret i
  end.

Definition ialloc (dev type : Z) : F nat :=
  n ← gets (fun s => sb_ninodes (sb s));
  r ← for_list (seqZ 1 (n - 1)) (fun inum =>
    s ← gets sb;
    bp ← inS (bread dev (IBLOCK inum s));
    x ← inS (get_data bp);
    let o := dinode_off inum in
    if i16 (get16 x o) =? 0 then
      inS (put_data bp (put16 (splice x o (replicate 64 0)) o type));;
      inS (log_write bp);;
      inS (brelse bp);;
      i ← iget dev inum;
      mret (Some i)
    else inS (brelse bp);; mret None);
  match r with
  | Some i => mret i
  | None => panic "ialloc: no inodes"
  end.

Definition idup (i : nat) : F nat :=
  with_ic_lock acquire;;
  iupd i (fun x => x <| ref := i32 (ref x + 1) |>);;
  with_ic_lock release;;
  mret i.

Definition ilock (i : nat) : F unit :=
  ip ← ino i;
  if ref ip <? 1 then panic "ilock" else
  with_inode_lock i (acquiresleep (sleep_inode i) naps);;
  ip ← ino i;
  when (Z.land (i_flags ip) I_VALID =? 0)
    (s ← gets sb;
     bp ← inS (bread (i_dev ip) (IBLOCK (inum ip) s));
     x ← inS (get_data bp);
     iupd i (get_dinode x);;
     inS (brelse bp);;
     iupd i (fun y => y <| i_flags := Z.lor (i_flags y) I_VALID |>);;
     ip ← ino i;
     if i_type ip =? 0 then panic "ilock: no type" else mret tt).

Definition iunlock (i : nat) : F unit :=
  h ← with_inode_lock i holdingsleep;
  if h =? 0 then panic "iunlock" else
  ip ← ino i;
  if ref ip <? 1 then panic "iunlock" else
  with_inode_lock i (releasesleep (inode_chan i)).

Definition iput (i : nat) : F unit :=
  with_ic_lock acquire;;
  ip ← ino i;
  when ((ref ip =? 1) && negb (Z.land (i_flags ip) I_VALID =? 0) && (nlink ip =? 0))
    (with_ic_lock release;;
     itrunc i;;
     iupd i (fun x => x <| i_type := 0 |>);;
     iupdate i;;
     with_ic_lock acquire;;
     iupd i (fun x => x <| i_flags := 0 |>));;
  iupd i (fun x => x <| ref := i32 (ref x - 1) |>);;
  with_ic_lock release.

Definition iunlockput (i : nat) : F unit := iunlock i;; iput i.

(** ** Directories *)

(** Run a routine of string.c on a memory that holds its arguments. *)
Definition in_mem {A} (m : mem) (c : M mem A) : F (A * mem) :=
  match c m with
  | Ok a m' => mret (a, m')
  | Stop w _ => stop_with w
  end.

Definition namecmp (s t : list Z) : F Z :=
  r ← in_mem (s ++ t) (strncmp 0 (Z.of_nat (length s)) DIRSIZ);
  mret r.1.

Definition decode_dirent (l : list Z) : dirent := mkdirent (get16 l 0) (slice l 2 14).
Definition encode_dirent (de : dirent) : list Z := le_bytes 2 (de_inum de) ++ de_name de.

(** The offsets of the entries of a directory. *)
Definition dirent_offs (size : Z) : list Z := (fun k => 16 * k) <$> seqZ 0 ((size + 15) / 16).

Definition read_dirent (dp : nat) (off : Z) : F dirent :=
  r ← readi dp off 16;
  if negb (r.1 =? 16) then panic "dirlink read" else mret (decode_dirent r.2).

(** The inode found, and the offset of its entry for [*poff]. *)
Definition dirlookup (dp : nat) (name : list Z) : F (option (nat * Z)) :=
  x ← ino dp;
  if negb (i_type x =? T_DIR) then panic "dirlookup not DIR" else
  for_list (dirent_offs (i_size x)) (fun off =>
    de ← read_dirent dp off;
    if de_inum de =? 0 then mret None else
    c ← namecmp name (de_name de);
    if c =? 0 then
      i ← iget (i_dev x) (de_inum de);
      mret (Some (i, off))
    else mret None).

Definition dirlink (dp : nat) (name : list Z) (n : Z) : F Z :=
  r ← dirlookup dp name;
  match r with
  | Some (i, _) => iput i;; mret (-1)
  | None =>
      x ← ino dp;
      r ← for_list (dirent_offs (i_size x)) (fun off =>
        de ← read_dirent dp off;
        mret (if de_inum de =? 0 then Some off else None));
      let off := default (16 * ((i_size x + 15) / 16)) r in
      (* the 14 bytes of de.name, whatever they are, and the new name *)
      c ← in_mem (replicate 14 0 ++ name) (strncpy 0 14 DIRSIZ);
      w ← writei dp (encode_dirent (mkdirent (u16 n) (take 14 c.2))) off 16;
      if negb (w =? 16) then panic "dirlink" else mret 0
  end.

(** ** Paths

    A path is the bytes from the pointer on; reading past them faults. *)
Definition slash : Z := 47.

Fixpoint skip_slashes (path : list Z) : F (list Z) :=
  match path with
  | [] => fault
  | c :: rest => if c =? slash then skip_slashes rest else mret path
  end.

(** The element, and the path that follows it. *)
Fixpoint take_elem (path : list Z) : F (list Z * list Z) :=
  match path with
  | [] => fault
  | c :: rest =>
      if negb (c =? slash) && negb (c =? 0) then r ← take_elem rest; mret (c :: r.1, r.2)
      else mret ([], path)
  end.

(** The rest of the path, and the 14 bytes of [name]. *)
Definition skipelem (path name : list Z) : F (option (list Z) * list Z) :=
  path ← skip_slashes path;
  c ← deref (head path);
  if c =? 0 then mret (None, name) else
  r ← take_elem path;
  let len := Z.of_nat (length r.1) in
  let name :=
    if len >=? DIRSIZ then splice name 0 (take 14 r.1)
    else splice (splice name 0 r.1) (length r.1) [0] in
  path ← skip_slashes r.2;
  mret (Some path, name).

(** The loop of [namex]; [None] is a null inode. *)
Fixpoint namex_loop (fuel : nat) (parent : bool) (ip : nat) (path name : list Z) :
    F (option nat * list Z) :=
  match fuel with
  | O => stop_with NoFuel
  | S fuel =>
      r ← skipelem path name;
      match r with
      | (None, name) =>
          if parent then iput ip;; mret (None, name) else mret (Some ip, name)
      | (Some path, name) =>
          ilock ip;;
          x ← ino ip;
          if negb (i_type x =? T_DIR) then iunlockput ip;; mret (None, name) else
          c ← deref (head path);
          if parent && (c =? 0) then iunlock ip;; mret (Some ip, name) else
          next ← dirlookup ip name;
          match next with
          | None => iunlockput ip;; mret (None, name)
          | Some (next, _) => iunlockput ip;; namex_loop fuel parent next path name
          end
      end
  end.

Definition namex (path : list Z) (parent : bool) (name : list Z) : F (option nat * list Z) :=
  c ← deref (head path);
  ip ← (if c =? slash then iget ROOTDEV ROOTINO
        else
          me ← zoom kern put_kern the_proc;
          p ← zoom kern put_kern (pget me);
          i ← deref (cwd p);
          idup i);
  namex_loop (S (length path)) parent ip path name.

Definition namei (path : list Z) : F (option nat) :=
  r ← namex path false (replicate 14 0); mret r.1.
Definition nameiparent (path name : list Z) : F (option nat * list Z) := namex path true name.
End code.
