(* ===== verification/FsAlloc.v ===== *)
(** * Disk block allocation (fs.c: bzero, balloc, bfree)

    The free map as a predicate on block numbers, what [balloc] and [bfree]
    do to it, and the rules for block operations that the other layers of
    the file system use. *)
From stdpp Require Import gmap functions.
From S2P Require Import Prelude Spinlock Proc Sleep Sleeplock Bytes CString Block Store Fs.

(** ** Bits of a block *)
Definition bit_of (x : block) (k : Z) : bool :=
  Z.testbit (default 0 (x !! Z.to_nat (k / 8))) (k mod 8).

Lemma land_bit v i : 0 ≤ i → (Z.land v (Z.shiftl 1 i) =? 0) = negb (Z.testbit v i).
Proof.
  intros Hi. rewrite Z.shiftl_1_l. destruct (Z.testbit v i) eqn:Ht; cbn.
  - apply Z.eqb_neq. intros H. apply (f_equal (fun z => Z.testbit z i)) in H.
    by rewrite Z.land_spec, Ht, Z.pow2_bits_true, Z.bits_0 in H by done.
  - apply Z.eqb_eq. apply Z.bits_inj'. intros j Hj. rewrite Z.land_spec, Z.bits_0.
    destruct (decide (i = j)) as [<-|]; [by rewrite Ht|].
    by rewrite Z.pow2_bits_false, andb_false_r by lia.
Qed.

Lemma u8_testbit v i : 0 ≤ i < 8 → Z.testbit (u8 v) i = Z.testbit v i.
Proof. intros Hi. unfold u8. apply Z.mod_pow2_bits_low. lia. Qed.

Lemma is_block_lookup x k : is_block x → 0 ≤ k < BPB → ∃ v, x !! Z.to_nat (k / 8) = Some v ∧ is_byte v.
Proof.
  intros [Hl Hb] Hk. unfold BPB, BSIZE in Hk.
  destruct (lookup_lt_is_Some_2 x (Z.to_nat (k / 8))) as [v Hv]; [rewrite Hl; dlia|].
  exists v. split; [done|]. by eapply Forall_lookup_1.
Qed.

Lemma is_block_insert x i v : is_block x → is_block (<[i := u8 v]> x).
Proof.
  intros [Hl Hb]. split; [by rewrite length_insert|]. apply Forall_insert; [done | apply u8_byte].
Qed.

(** A write to the byte of bit [k] that sets it to [b] and keeps the others. *)
Lemma bit_of_insert x k v w b :
  x !! Z.to_nat (k / 8) = Some v → 0 ≤ k →
  (∀ i, 0 ≤ i < 8 → Z.testbit w i = if decide (i = k mod 8) then b else Z.testbit v i) →
  ∀ j, 0 ≤ j → bit_of (<[Z.to_nat (k / 8) := u8 w]> x) j = if decide (j = k) then b else bit_of x j.
Proof.
  intros Hv Hk Hw j Hj. unfold bit_of. destruct (decide (j / 8 = k / 8)) as [E|E].
  - rewrite E, list_lookup_insert_eq by (by eapply lookup_lt_Some). cbn.
    rewrite u8_testbit, Hw by dlia. rewrite Hv. cbn.
    case_decide as H1; case_decide as H2; try done; exfalso; dlia.
  - rewrite list_lookup_insert_ne by dlia. case_decide as H2; [subst; done | done].
Qed.

Definition set_bit (x : block) (k : Z) : block :=
  <[Z.to_nat (k / 8) := u8 (Z.lor (default 0 (x !! Z.to_nat (k / 8))) (Z.shiftl 1 (k mod 8)))]> x.
Definition clear_bit (x : block) (k : Z) : block :=
  <[Z.to_nat (k / 8) := u8 (Z.land (default 0 (x !! Z.to_nat (k / 8))) (Z.lnot (Z.shiftl 1 (k mod 8))))]> x.

Lemma bit_of_set x k j : is_block x → 0 ≤ k < BPB → 0 ≤ j →
  bit_of (set_bit x k) j = if decide (j = k) then true else bit_of x j.
Proof.
  intros Hx Hk Hj. destruct (is_block_lookup x k Hx Hk) as (v & Hv & _).
  unfold set_bit. rewrite Hv. cbn. apply (bit_of_insert x k v); [done | lia | | done].
  intros i Hi. rewrite Z.shiftl_1_l, Z.lor_spec. case_decide as E.
  - subst i. rewrite Z.pow2_bits_true by dlia. apply orb_true_r.
  - rewrite Z.pow2_bits_false by lia. apply orb_false_r.
Qed.

Lemma bit_of_clear x k j : is_block x → 0 ≤ k < BPB → 0 ≤ j →
  bit_of (clear_bit x k) j = if decide (j = k) then false else bit_of x j.
Proof.
  intros Hx Hk Hj. destruct (is_block_lookup x k Hx Hk) as (v & Hv & _).
  unfold clear_bit. rewrite Hv. cbn. apply (bit_of_insert x k v); [done | lia | | done].
  intros i Hi. rewrite Z.shiftl_1_l, Z.land_spec, Z.lnot_spec by lia. case_decide as E.
  - subst i. rewrite Z.pow2_bits_true by dlia. apply andb_false_r.
  - rewrite Z.pow2_bits_false by lia. apply andb_true_r.
Qed.

Lemma is_block_set x k : is_block x → is_block (set_bit x k).
Proof. apply is_block_insert. Qed.
Lemma is_block_clear x k : is_block x → is_block (clear_bit x k).
Proof. apply is_block_insert. Qed.

Definition zero_block : block := replicate 512 0.
Lemma is_block_zero : is_block zero_block.
Proof. split; [done|]. apply Forall_replicate. unfold is_byte. lia. Qed.

(** ** Rules for the operations of the store *)
Section store_rules.
Context {T : Type} `{!BlockStore T} `{!StoreLaws T}.
Implicit Types (s : fsys T) (t : tstate).

Lemma wp_inS {A} (m : M T A) (Q : A → fsys T → Prop) E s :
  wp m (fun a c => Q a (s <| store := c |>)) (fun w c => E w (s <| store := c |>)) (store s) →
  wp (inS m) Q E s.
Proof. intros Hm. unfold inS. apply wp_zoom. exact Hm. Qed.

Lemma wpt_inS {A} (m : M T A) (P : A → T → Prop) (Q : A → fsys T → Prop) E s :
  wpt m P (store s) → (∀ a c, P a c → Q a (s <| store := c |>)) → wp (inS m) Q E s.
Proof. intros Hm HQ. apply wp_inS. eapply wp_mono; [exact Hm | exact HQ | done]. Qed.

(** Locking a block whatever it holds. *)
Lemma wp_bread_any dev n (Q : nat → fsys T → Prop) E s t :
  trep (store s) t → not_held t (dev, n) → 0 ≤ n < FSSIZE → (size (th t) < MAXHELD)%nat →
  (∀ h c x, th t !! h = None → ((dev, n) ∉ tstale t → x = tv t (dev, n)) →
     (is_block (tv t (dev, n)) → is_block x) →
     trep c (t <| tv := <[(dev, n) := x]> (tv t) |> <| th := <[h := (dev, n)]> (th t) |>) →
     Q h (s <| store := c |>)) →
  wp (inS (bread dev n)) Q E s.
Proof.
  intros Hr Hh Hn Hs HQ. eapply wpt_inS; [by apply bread_law|].
  intros h c (x & H1 & H2 & H3 & H4). by eapply HQ.
Qed.

(** Locking a block whose contents are known. *)
Lemma wp_bread dev n (Q : nat → fsys T → Prop) E s t :
  trep (store s) t → not_held t (dev, n) → (dev, n) ∉ tstale t → 0 ≤ n < FSSIZE →
  (size (th t) < MAXHELD)%nat →
  (∀ h c, th t !! h = None → trep c (t <| th := <[h := (dev, n)]> (th t) |>) → Q h (s <| store := c |>)) →
  wp (inS (bread dev n)) Q E s.
Proof.
  intros Hr Hh Hst Hn Hs HQ. eapply wp_bread_any; [done..|]. intros h c x Hnone Hx _ Hc.
  apply HQ; [done|]. apply (trep_ext _ _ (tv t)) in Hc; [exact Hc|]. intros a. cbn.
  rewrite (Hx Hst). destruct (decide (a = (dev, n))) as [->|];
    [by rewrite fn_lookup_insert | by rewrite fn_lookup_insert_ne].
Qed.

Lemma wp_get_data h a (Q : block → fsys T → Prop) E s t :
  trep (store s) t → th t !! h = Some a → (∀ c, trep c t → Q (tv t a) (s <| store := c |>)) →
  wp (inS (get_data h)) Q E s.
Proof. intros Hr Ha HQ. eapply wpt_inS; [by eapply get_data_law|]. intros x c [-> Hc]. auto. Qed.

Lemma wp_put_data h a x (Q : unit → fsys T → Prop) E s t :
  trep (store s) t → th t !! h = Some a → (∀ c, trep c (tput a x t) → Q tt (s <| store := c |>)) →
  wp (inS (put_data h x)) Q E s.
Proof. intros Hr Ha HQ. eapply wpt_inS; [by eapply put_data_law|]. intros [] c Hc. auto. Qed.

Lemma wp_log_write h a (Q : unit → fsys T → Prop) E s t :
  trep (store s) t → th t !! h = Some a → (size ({[a]} ∪ tlog t) ≤ tcap t)%nat →
  (∀ c, trep c (tlogged a t) → Q tt (s <| store := c |>)) → wp (inS (log_write h)) Q E s.
Proof. intros Hr Ha Hs HQ. eapply wpt_inS; [by eapply log_write_law|]. intros [] c Hc. auto. Qed.

Lemma wp_brelse h a (Q : unit → fsys T → Prop) E s t :
  trep (store s) t → th t !! h = Some a →
  (∀ c, trep c (t <| th := delete h (th t) |>) → Q tt (s <| store := c |>)) → wp (inS (brelse h)) Q E s.
Proof. intros Hr Ha HQ. eapply wpt_inS; [by eapply brelse_law|]. intros [] c Hc. auto. Qed.

Lemma tput_logged a x t h :
  th t !! h = None →
  (tlogged a (tput a x (t <| th := <[h := a]> (th t) |>))) <| th := delete h (<[h := a]> (th t)) |>
  = tstore a x t.
Proof.
  intros Hh. unfold tstore, tlogged, tput. destruct t as [v m l st]. unfold update_field. cbn in *. f_equal.
  - by apply delete_insert_id.
  - case_decide; [done|]. set_solver.
Qed.

(** Writing back a locked block: [put_data], [log_write], [brelse]. *)
Lemma wp_write_back {A} h a x (k : M (fsys T) A) (Q : A → fsys T → Prop) E s t :
  trep (store s) (t <| th := <[h := a]> (th t) |>) → th t !! h = None →
  (size ({[a]} ∪ tlog t) ≤ tcap t)%nat →
  (∀ c, trep c (tstore a x t) → wp k Q E (s <| store := c |>)) →
  wp (inS (put_data h x);; inS (log_write h);; inS (brelse h);; k) Q E s.
Proof.
  intros Hr Hh Hs HQ. wp_step. eapply wp_put_data; [exact Hr | cbn; by simplify_map_eq|]. intros c1 Hr1.
  wp_step. eapply wp_log_write; [exact Hr1 | cbn; by simplify_map_eq | done|]. intros c2 Hr2.
  wp_step. eapply wp_brelse; [exact Hr2 | cbn; by simplify_map_eq|]. intros c3 Hr3.
  apply HQ. by rewrite <-(tput_logged a x t h).
Qed.

(** The same at the end of a routine. *)
Lemma wp_write_back_end h a x (Q : unit → fsys T → Prop) E s t :
  trep (store s) (t <| th := <[h := a]> (th t) |>) → th t !! h = None →
  (size ({[a]} ∪ tlog t) ≤ tcap t)%nat →
  (∀ c, trep c (tstore a x t) → Q tt (s <| store := c |>)) →
  wp (inS (put_data h x);; inS (log_write h);; inS (brelse h)) Q E s.
Proof.
  intros Hr Hh Hs HQ.
  assert (Hw : wp (inS (put_data h x);; inS (log_write h);; inS (brelse h);; mret tt) Q E s).
  { eapply wp_write_back; [done..|]. intros c Hc. wp_step. auto. }
  revert Hw. unfold wp, mbind, M_bind, mret, M_ret. clear.
  destruct (inS (put_data h x) s) as [[] s1|]; [|done].
  destruct (inS (log_write h) s1) as [[] s2|]; [|done]. by destruct (inS (brelse h) s2) as [[] s3|].
Qed.

(** A locked block given back untouched. *)
Lemma release_id t h a :
  th t !! h = None → t <| th := <[h := a]> (th t) |> <| th ::= delete h |> = t.
Proof. intros Hh. destruct t as [v m l st]. unfold update_field. cbn in *. f_equal. by apply delete_insert_id. Qed.

Lemma wp_brelse_same h a (Q : unit → fsys T → Prop) E s t :
  trep (store s) (t <| th := <[h := a]> (th t) |>) → th t !! h = None →
  (∀ c, trep c t → Q tt (s <| store := c |>)) → wp (inS (brelse h)) Q E s.
Proof.
  intros Hr Hh HQ. eapply wp_brelse; [exact Hr | cbn; by simplify_map_eq|]. intros c Hc.
  apply HQ. by rewrite <-(release_id t h a).
Qed.
End store_rules.

(** With no buffer locked. *)
Lemma no_held (t : tstate) a : th t = ∅ → not_held t a.
Proof. intros H h. by rewrite H, lookup_empty. Qed.
Lemma few_held (t : tstate) : th t = ∅ → (size (th t) < MAXHELD)%nat.
Proof. intros ->. rewrite map_size_empty. unfold MAXHELD. lia. Qed.

(** Counting what a predicate selects before and after one element changes. *)
Lemma filter_remove_one {A} `{EqDecision A} (P P' : A → Prop) `{∀ x, Decision (P x), ∀ x, Decision (P' x)} l b :
  NoDup l → b ∈ l → P b → (∀ x, x ∈ l → P' x ↔ P x ∧ x ≠ b) →
  length (filter P l) = S (length (filter P' l)).
Proof.
  intros Hnd Hb HP HP'. change (S (length (filter P' l))) with (length (b :: filter P' l)).
  apply Permutation_length. apply NoDup_Permutation.
  - by apply NoDup_filter.
  - apply NoDup_cons. split; [|by apply NoDup_filter].
    rewrite list_elem_of_filter. intros [H1 H2]. by apply HP' in H1 as [_ []].
  - intros x. rewrite elem_of_cons, !list_elem_of_filter.
    destruct (decide (x = b)) as [->|Hne]; [naive_solver|]. split.
    + intros [H1 H2]. right. split; [|done]. by apply HP'.
    + intros [?|[H1 H2]]; [done|]. split; [|done]. by apply HP' in H1 as [].
Qed.

(** ** The layout of a disk *)
Definition datastart (g : superblock) : Z := sb_bmapstart g + 1.

(** As mkfs lays it out: boot block, super block, log, inodes, free map, data.
    A file system has at most [FSSIZE] blocks, so one block holds the map. *)
Record geometry (g : superblock) : Prop := {
  g_log : 2 ≤ sb_logstart g ∧ 0 ≤ sb_nlog g ∧ sb_logstart g + sb_nlog g ≤ sb_inodestart g;
  g_inodes : 1 ≤ sb_ninodes g ∧ sb_inodestart g + (sb_ninodes g - 1) / IPB < sb_bmapstart g;
  g_data : datastart g ≤ sb_size g ≤ FSSIZE
}.

Section alloc.
Context {T : Type} `{!BlockStore T} `{!StoreLaws T}.
Context (dev : Z) (g : superblock).
Implicit Types (s : fsys T) (t : tstate).

Definition bm : baddr := (dev, sb_bmapstart g).
Definition used (t : tstate) (b : Z) : bool := bit_of (tv t bm) b.

Record fs_ok (t : tstate) : Prop := {
  fo_block : ∀ a, is_block (tv t a);
  fo_sb : decode_sb (tv t (dev, 1)) = g;
  fo_clean : ∀ b, b < datastart g → (dev, b) ∉ tstale t;
  fo_meta : ∀ b, 0 ≤ b < datastart g → used t b = true;
  fo_held : ∀ h b, th t !! h = Some (dev, b) → datastart g ≤ b < sb_size g ∧ used t b = true
}.

(** What is left to allocate and to log: the map belongs to every budget. *)
Definition nfree (t : tstate) : nat :=
  length (filter (fun b => used t b = false) (seqZ 0 (sb_size g))).
Definition fits (t : tstate) (k : nat) : Prop := (size ({[bm]} ∪ tlog t) + k ≤ tcap t)%nat.
Definition room (t : tstate) (k : nat) : Prop := fits t k ∧ (k ≤ nfree t)%nat.

(** *** Budgets *)
Lemma fits_mono t k k' : (k' ≤ k)%nat → fits t k → fits t k'.
Proof. unfold fits. lia. Qed.

Lemma room_mono t k k' : (k' ≤ k)%nat → room t k → room t k'.
Proof. intros Hk [H1 H2]. split; [by eapply fits_mono | lia]. Qed.

Lemma fits_log_bm t x : fits (tstore bm x t) = fits t.
Proof. unfold fits. cbn. f_equal. by rewrite (assoc_L (∪)), (idemp_L (∪)). Qed.

Lemma size_add (X : gset baddr) a : (size ({[a]} ∪ X) ≤ S (size X))%nat.
Proof.
  rewrite size_union_alt, size_singleton.
  pose proof (subseteq_size (X ∖ {[a]}) X ltac:(set_solver)). lia.
Qed.

Lemma fits_log t a x k : fits t (S k) → fits (tstore a x t) k.
Proof.
  unfold fits. cbn. intros H. pose proof (size_add ({[bm]} ∪ tlog t) a) as Ha.
  replace ({[bm]} ∪ ({[a]} ∪ tlog t)) with ({[a]} ∪ ({[bm]} ∪ tlog t)) by set_solver. lia.
Qed.

Lemma fits_again t a x k : a ∈ tlog t → fits t k → fits (tstore a x t) k.
Proof.
  unfold fits. cbn. intros Ha H. by replace ({[a]} ∪ tlog t) with (tlog t) by set_solver.
Qed.

Lemma fits_bm t k : fits t k → (size ({[bm]} ∪ tlog t) ≤ tcap t)%nat.
Proof. unfold fits. lia. Qed.

Lemma fits_one t a k : fits t (S k) → (size ({[a]} ∪ tlog t) ≤ tcap t)%nat.
Proof.
  unfold fits. intros H. pose proof (size_add (tlog t) a).
  pose proof (subseteq_size (tlog t) ({[bm]} ∪ tlog t) ltac:(set_solver)). lia.
Qed.

Lemma fits_old t a k : a ∈ tlog t → fits t k → (size ({[a]} ∪ tlog t) ≤ tcap t)%nat.
Proof.
  unfold fits. intros Ha H. replace ({[a]} ∪ tlog t) with (tlog t) by set_solver.
  pose proof (subseteq_size (tlog t) ({[bm]} ∪ tlog t) ltac:(set_solver)). lia.
Qed.

Context (Hg : geometry g).

Lemma geo_bounds : 2 ≤ sb_inodestart g < sb_bmapstart g ∧ sb_bmapstart g < sb_size g ∧
  1 < sb_bmapstart g < FSSIZE ∧ sb_size g ≤ FSSIZE.
Proof.
  destruct Hg as [? [? Hi] ?]. unfold datastart in *. change IPB with 8 in Hi.
  pose proof (Z.div_pos (sb_ninodes g - 1) 8). lia.
Qed.

Lemma meta_not_held t b : fs_ok t → b < datastart g → not_held t (dev, b).
Proof. intros Hok Hb h Hh. apply (fo_held _ Hok) in Hh as [? _]. lia. Qed.

Lemma free_not_held t b : fs_ok t → used t b = false → not_held t (dev, b).
Proof. intros Hok Hb h Hh. apply (fo_held _ Hok) in Hh as [_ ?]. congruence. Qed.

(** *** The effect of allocation and release *)
Definition alloc_block (b : Z) (t : tstate) : tstate :=
  tstore (dev, b) zero_block (tstore bm (set_bit (tv t bm) b) t).
Definition free_block (b : Z) (t : tstate) : tstate := tstore bm (clear_bit (tv t bm) b) t.

Lemma tv_tstore a x t c : tv (tstore a x t) c = if decide (c = a) then x else tv t c.
Proof.
  cbn. case_decide as E; [subst; apply fn_lookup_insert | by rewrite fn_lookup_insert_ne].
Qed.

Lemma used_tstore b x t : (dev, b) ≠ bm → used (tstore (dev, b) x t) = used t.
Proof. intros H. unfold used. rewrite tv_tstore. by rewrite decide_False. Qed.

Lemma in_range_bpb b : 0 ≤ b < sb_size g → 0 ≤ b < BPB.
Proof. pose proof geo_bounds. unfold FSSIZE, BPB, BSIZE in *. lia. Qed.

Lemma used_alloc t b c : fs_ok t → 0 ≤ b < sb_size g → used t b = false → 0 ≤ c →
  used (alloc_block b t) c = if decide (c = b) then true else used t c.
Proof.
  intros Hok Hb Hf Hc. unfold alloc_block. rewrite used_tstore.
  - unfold used. rewrite tv_tstore, decide_True by done.
    apply bit_of_set; [apply Hok | by apply in_range_bpb | done].
  - intros E. injection E as ->. rewrite (fo_meta _ Hok) in Hf; [done|].
    pose proof geo_bounds. unfold datastart. lia.
Qed.

Lemma used_free t b c : fs_ok t → 0 ≤ b < sb_size g → 0 ≤ c →
  used (free_block b t) c = if decide (c = b) then false else used t c.
Proof.
  intros Hok Hb Hc. unfold used, free_block. rewrite tv_tstore, decide_True by done.
  apply bit_of_clear; [apply Hok | by apply in_range_bpb | done].
Qed.

Lemma free_is_data t b : fs_ok t → 0 ≤ b → used t b = false → datastart g ≤ b.
Proof.
  intros Hok Hb Hf. destruct (decide (b < datastart g)); [|lia].
  rewrite (fo_meta _ Hok) in Hf by lia. done.
Qed.

(** A store to a data block keeps the disk well formed. *)
Lemma fs_ok_tstore t b x : fs_ok t → datastart g ≤ b → is_block x → fs_ok (tstore (dev, b) x t).
Proof.
  intros Hok Hb Hx. pose proof geo_bounds as Hgeo. unfold datastart in Hb.
  assert (Hu : used (tstore (dev, b) x t) = used t) by (apply used_tstore; intros [=]; lia).
  split.
  - intros a. rewrite tv_tstore. case_decide; [done | apply Hok].
  - rewrite tv_tstore, decide_False by (intros [=]; lia). apply Hok.
  - intros c Hc. cbn. apply not_elem_of_difference. left. by apply Hok.
  - rewrite Hu. apply Hok.
  - rewrite Hu. apply Hok.
Qed.

Lemma fs_ok_map t x :
  fs_ok t → is_block x → (∀ b, 0 ≤ b < datastart g → bit_of x b = true) →
  (∀ h b, th t !! h = Some (dev, b) → bit_of x b = true) → fs_ok (tstore bm x t).
Proof.
  intros Hok Hx Hm Hh. pose proof geo_bounds as Hgeo.
  assert (Hu : ∀ c, used (tstore bm x t) c = bit_of x c).
  { intros c. unfold used. by rewrite tv_tstore, decide_True. }
  split.
  - intros a. rewrite tv_tstore. case_decide; [done | apply Hok].
  - rewrite tv_tstore, decide_False by (intros [=]; lia). apply Hok.
  - intros c Hc. cbn. apply not_elem_of_difference. left. by apply Hok.
  - intros c Hc. rewrite Hu. auto.
  - intros h c Hc. rewrite Hu. split; [by eapply fo_held | by eapply Hh].
Qed.

Lemma fs_ok_alloc t b : fs_ok t → 0 ≤ b < sb_size g → used t b = false → fs_ok (alloc_block b t).
Proof.
  intros Hok Hb Hf. unfold alloc_block. apply fs_ok_tstore; [|by eapply free_is_data; [|lia|] | apply is_block_zero].
  pose proof geo_bounds as Hgeo.
  assert (Hs : ∀ c, 0 ≤ c → bit_of (set_bit (tv t bm) b) c = if decide (c = b) then true else used t c).
  { intros c Hc. apply bit_of_set; [apply Hok | by apply in_range_bpb | done]. }
  apply fs_ok_map; [done | apply is_block_set, Hok | |].
  - intros c Hc. rewrite Hs by lia. case_decide; [done|]. by apply Hok.
  - intros h c Hc. apply (fo_held _ Hok) in Hc as [Hr Hu]. unfold datastart in Hr. rewrite Hs by lia. by case_decide.
Qed.

Lemma fs_ok_free t b :
  fs_ok t → datastart g ≤ b < sb_size g → not_held t (dev, b) → fs_ok (free_block b t).
Proof.
  intros Hok Hb Hn. pose proof geo_bounds as Hgeo. unfold datastart in Hb.
  assert (Hs : ∀ c, 0 ≤ c → bit_of (clear_bit (tv t bm) b) c = if decide (c = b) then false else used t c).
  { intros c Hc. apply bit_of_clear; [apply Hok | apply in_range_bpb; lia | done]. }
  apply fs_ok_map; [done | apply is_block_clear, Hok | |].
  - intros c Hc. unfold datastart in Hc. rewrite Hs, decide_False by lia. apply Hok. unfold datastart. lia.
  - intros h c Hc. pose proof (fo_held _ Hok h c Hc) as [Hr Hu]. unfold datastart in Hr. rewrite Hs by lia.
    rewrite decide_False; [done|]. intros ->. by apply (Hn h).
Qed.

Lemma nfree_alloc t b :
  fs_ok t → 0 ≤ b < sb_size g → used t b = false → nfree t = S (nfree (alloc_block b t)).
Proof.
  intros Hok Hb Hf. unfold nfree. apply (filter_remove_one _ _ _ b); [apply NoDup_seqZ | | done |].
  - by apply elem_of_seqZ.
  - intros c Hc%elem_of_seqZ. rewrite used_alloc by (done || lia). case_decide; naive_solver.
Qed.

Lemma nfree_tstore b x t : (dev, b) ≠ bm → nfree (tstore (dev, b) x t) = nfree t.
Proof. intros H. unfold nfree. by rewrite used_tstore. Qed.

Lemma room_alloc t b k :
  fs_ok t → 0 ≤ b < sb_size g → used t b = false → room t (S k) → room (alloc_block b t) k.
Proof.
  intros Hok Hb Hf [H1 H2]. split.
  - unfold alloc_block. apply fits_log. by rewrite fits_log_bm.
  - rewrite (nfree_alloc t b) in H2 by done. lia.
Qed.
(** *** The routines *)
Lemma wp_bzero b (Q : unit → fsys T → Prop) E s t :
  trep (store s) t → not_held t (dev, b) → 0 ≤ b < FSSIZE → (size (th t) < MAXHELD)%nat →
  (size ({[(dev, b)]} ∪ tlog t) ≤ tcap t)%nat →
  (∀ c, trep c (tstore (dev, b) zero_block t) → Q tt (s <| store := c |>)) → wp (bzero dev b) Q E s.
Proof.
  intros Hr Hn Hb Hs Hc HQ. unfold bzero. wp_step. eapply wp_bread_any; [done..|].
  intros h c x Hh _ _ Hr1.
  eapply (wp_write_back_end h (dev, b) _ _ _ _ (t <| tv := <[(dev, b) := x]> (tv t) |>)); [exact Hr1 | done | done|].
  intros c2 Hr2. apply HQ. apply (trep_ext _ _ (tv (tstore (dev, b) zero_block t))) in Hr2; [exact Hr2|].
  intros a. rewrite !tv_tstore. case_decide as E1; [done|]. cbn. by rewrite fn_lookup_insert_ne.
Qed.

Lemma wp_readsb (Q : superblock → fsys T → Prop) E s t :
  fs_ok t → trep (store s) t → (size (th t) < MAXHELD)%nat →
  (∀ c, trep c t → Q g (s <| store := c |>)) → wp (readsb dev) Q E s.
Proof.
  intros Hok Hr Hs HQ. pose proof geo_bounds as Hgeo. unfold readsb. wp_step.
  eapply wp_bread; [done | | | unfold FSSIZE; lia | done|].
  { apply meta_not_held; [done | unfold datastart; lia]. }
  { apply Hok. unfold datastart. lia. }
  intros h c Hh Hr1. wp_step. eapply (wp_get_data h (dev, 1)); [exact Hr1 | cbn; by simplify_map_eq|].
  intros c2 Hr2. wp_step. eapply wp_brelse_same; [exact Hr2 | done|]. intros c3 Hr3. wp_step.
  cbn. rewrite (fo_sb _ Hok). by apply HQ.
Qed.

(** The first free block. *)
Definition first_free (t : tstate) (b : Z) : Prop :=
  0 ≤ b < sb_size g ∧ used t b = false ∧ ∀ c, 0 ≤ c < b → used t c = true.

Lemma first_free_or_full t :
  (∃ b, first_free t b) ∨ ∀ b, 0 ≤ b < sb_size g → used t b = true.
Proof.
  assert (H : ∀ n, 0 ≤ n → (∃ b, 0 ≤ b < n ∧ used t b = false ∧ ∀ c, 0 ≤ c < b → used t c = true) ∨
    ∀ b, 0 ≤ b < n → used t b = true).
  { apply natlike_ind; [right; lia|]. intros n Hn [(b & Hb & H1 & H2)|Hall].
    - left. exists b. split; [lia | done].
    - destruct (used t n) eqn:Hu.
      + right. intros b Hb. destruct (decide (b = n)) as [->|]; [done | apply Hall; lia].
      + left. exists n. split; [lia | done]. }
  pose proof geo_bounds. apply H. lia.
Qed.

(** One bit of the map, as the loop tests it. *)
Lemma map_byte t k : fs_ok t → 0 ≤ k < sb_size g →
  array_get (tv t bm) (k / 8) = Some (default 0 (tv t bm !! Z.to_nat (k / 8))) ∧
  (Z.land (default 0 (tv t bm !! Z.to_nat (k / 8))) (Z.shiftl 1 (k mod 8)) =? 0) = negb (used t k) ∧
  (0 ≤ k / 8 < Z.of_nat (length (tv t bm))).
Proof.
  intros Hok Hk. destruct (is_block_lookup (tv t bm) k) as (v & Hv & _);
    [apply Hok | by apply in_range_bpb|].
  split_and!.
  - apply array_get_Some. split; [dlia|]. by rewrite Hv.
  - rewrite land_bit by dlia. done.
  - dlia.
  - apply lookup_lt_Some in Hv. dlia.
Qed.

Lemma wp_balloc_bits h s t (Q : option Z → fsys T → Prop) E :
  fs_ok t → trep (store s) (t <| th := <[h := bm]> (th t) |>) → th t !! h = None →
  (size (th t) < MAXHELD)%nat → fits t 1 →
  (∀ b c, first_free t b → trep c (alloc_block b t) → Q (Some b) (s <| store := c |>)) →
  (∀ c, (∀ b, 0 ≤ b < sb_size g → used t b = true) → trep c (t <| th := <[h := bm]> (th t) |>) →
     Q None (s <| store := c |>)) →
  wp (balloc_bits dev (sb_size g) 0 h) Q E s.
Proof.
  intros Hok Hr Hh Hs Hfit HS HN. pose proof geo_bounds as Hgeo.
  unfold balloc_bits. rewrite Z.sub_0_r, Z.min_r by (unfold BPB, BSIZE, FSSIZE in *; lia).
  eapply (for_list_wp (fun l s' => ∃ j c, l = seqZ j (sb_size g - j) ∧ 0 ≤ j ≤ sb_size g ∧
    s' = s <| store := c |> ∧ trep c (t <| th := <[h := bm]> (th t) |>) ∧
    ∀ b, 0 ≤ b < j → used t b = true)).
  - exists 0, (store s). split; [f_equal; lia|]. split; [lia|]. split; [by destruct s|]. split; [done | lia].
  - intros s' (j & c & Hl & Hj & -> & Hc & Hall). apply HN; [|done].
    destruct (decide (j = sb_size g)) as [<-|]; [done|]. by rewrite seqZ_cons in Hl by lia.
  - intros k l' s' (j & c & Hl & Hj & -> & Hc & Hall).
    destruct (decide (j = sb_size g)) as [->|]; [by rewrite Z.sub_diag in Hl|].
    rewrite seqZ_cons in Hl by lia. injection Hl as -> ->.
    destruct (map_byte t j Hok ltac:(lia)) as (Hget & Htest & Hlen).
    wp_step. eapply (wp_get_data h bm); [exact Hc | cbn; by simplify_map_eq|]. intros c1 Hc1.
    cbn [tv update_field]. wp_step. eapply wp_deref; [exact Hget|]. rewrite Htest. destruct (used t j) eqn:Hu; cbn [negb].
    + wp_step. exists (Z.succ j), c1. split; [f_equal; lia|]. split; [lia|]. split; [done|]. split; [done|].
      intros b Hb. destruct (decide (b = j)) as [->|]; [done | apply Hall; lia].
    + wp_step. eapply wp_deref; [by apply array_set_in|].
      eapply (wp_write_back h bm); [exact Hc1 | done | by eapply fits_bm|]. intros c2 Hc2. wp_step.
      eapply wp_bzero; [exact Hc2 | | lia | done | |].
      * by apply (free_not_held t).
      * eapply (fits_one (tstore bm _ t) _ 0). by rewrite fits_log_bm.
      * intros c3 Hc3. wp_step. rewrite Z.add_0_l. apply HS; [|exact Hc3]. split; [lia|]. done.
Qed.

Lemma wp_balloc_gen s t (Q : Z → fsys T → Prop) E :
  fs_ok t → trep (store s) t → sb s = g → (size (th t) < MAXHELD)%nat → fits t 1 →
  (∀ b c, first_free t b → trep c (alloc_block b t) → Q b (s <| store := c |>)) →
  (∀ c, (∀ b, 0 ≤ b < sb_size g → used t b = true) → trep c t →
     E (Panic "balloc: out of blocks") (s <| store := c |>)) →
  wp (balloc dev) Q E s.
Proof.
  intros Hok Hr Hsb Hs Hfit HS HN. pose proof geo_bounds as Hgeo. unfold balloc. do 2 wp_step. rewrite Hsb.
  replace ((sb_size g + BPB - 1) / BPB) with 1.
  2:{ unfold BPB, BSIZE, FSSIZE in *. change (512 * 8) with 4096.
      apply (Z.div_unique_pos _ _ _ (sb_size g - 1)); lia. }
  change ((fun k : Z => k * BPB) <$> seqZ 0 1) with [0]. cbn [for_list]. do 3 wp_step. wp_step. rewrite Hsb.
  replace (BBLOCK 0 g) with (sb_bmapstart g).
  2:{ unfold BBLOCK. rewrite Z.div_0_l by done. rewrite u32_id; [done|]. unfold FSSIZE in *. lia. }
  wp_step. eapply wp_bread; [done | | | lia | done|].
  { apply meta_not_held; [done | unfold datastart; lia]. }
  { apply Hok. unfold datastart. lia. }
  intros h c Hh Hr1. wp_step. eapply wp_balloc_bits; [done | exact Hr1 | done..| |].
  - intros b c2 Hb Hc2. do 3 wp_next. by apply HS.
  - intros c2 Hall Hc2. wp_next. eapply wp_brelse_same; [exact Hc2 | done|]. intros c3 Hc3.
    do 3 wp_next. by apply HN.
Qed.

(** With a free block left, [balloc] takes the first one. *)
Lemma wp_balloc s t k (Q : Z → fsys T → Prop) E :
  fs_ok t → trep (store s) t → sb s = g → (size (th t) < MAXHELD)%nat → room t (S k) →
  (∀ b c, first_free t b → trep c (alloc_block b t) → Q b (s <| store := c |>)) →
  wp (balloc dev) Q E s.
Proof.
  intros Hok Hr Hsb Hs [Hfit Hfree] HQ. eapply wp_balloc_gen; [done..| | done |].
  - eapply fits_mono; [|done]. lia.
  - intros c Hall _. exfalso. revert Hfree. unfold nfree.
    destruct (filter _ (seqZ 0 (sb_size g))) as [|b l] eqn:El; [cbn; lia|].
    assert (Hb : b ∈ filter (fun b => used t b = false) (seqZ 0 (sb_size g)))
      by (rewrite El; apply list_elem_of_here).
    apply list_elem_of_filter in Hb as [Hu Hb%elem_of_seqZ]. rewrite Hall in Hu by lia. done.
Qed.

Lemma wp_bfree b s t (Q : unit → fsys T → Prop) E :
  fs_ok t → trep (store s) t → sb s = g → (size (th t) < MAXHELD)%nat → fits t 0 →
  datastart g ≤ b < sb_size g → used t b = true →
  (∀ c, trep c (free_block b t) → Q tt (s <| store := c |>)) → wp (bfree dev b) Q E s.
Proof.
  intros Hok Hr Hsb Hs Hfit Hb Hu HQ. pose proof geo_bounds as Hgeo. unfold datastart in Hb.
  unfold bfree. wp_step. eapply wp_readsb; [done..|]. intros c Hc. do 4 wp_step. cbn [sb update_field].
  assert (Hb' : 0 ≤ b < BPB) by (apply in_range_bpb; lia).
  replace (BBLOCK b g) with (sb_bmapstart g).
  2:{ unfold BBLOCK. rewrite Z.div_small by done. rewrite u32_id; [done|]. unfold FSSIZE in *. lia. }
  wp_step. eapply (wp_bread _ _ _ _ _ t); [exact Hc | | | lia | done|].
  { apply meta_not_held; [done | unfold datastart; lia]. }
  { apply Hok. unfold datastart. lia. }
  intros h c1 Hh Hc1. wp_step. eapply (wp_get_data h bm); [exact Hc1 | cbn; by simplify_map_eq|].
  intros c2 Hc2. cbn [tv update_field]. rewrite (Z.mod_small b BPB) by done.
  destruct (map_byte t b Hok ltac:(lia)) as (Hget & Htest & Hlen).
  wp_step. eapply wp_deref; [exact Hget|]. rewrite Htest, Hu. cbn [negb].
  wp_step. eapply wp_deref; [by apply array_set_in|].
  eapply (wp_write_back_end h bm); [exact Hc2 | done | by eapply fits_bm|]. intros c3 Hc3.
  match goal with |- Q tt ?s' => replace s' with (s <| store := c3 |>) by (destruct s; cbn in *; by subst) end.
  by apply HQ.
Qed.

(** C28: [balloc] returns the lowest block that is free in the map, marks it
    used, fills it with zeros, and changes no other block and no other bit;
    it panics only when every block of the disk is in use. *)
Theorem balloc_correct s t :
  fs_ok t → trep (store s) t → sb s = g → th t = ∅ → fits t 1 →
  wp (balloc dev)
    (fun b s' => first_free t b ∧ datastart g ≤ b ∧ ∃ c t', s' = s <| store := c |> ∧ trep c t' ∧ fs_ok t' ∧
       tv t' (dev, b) = zero_block ∧ (∀ a, a ≠ bm → a ≠ (dev, b) → tv t' a = tv t a) ∧
       (∀ k, 0 ≤ k → used t' k = if decide (k = b) then true else used t k) ∧
       nfree t = S (nfree t') ∧ tlog t' = {[(dev, b); bm]} ∪ tlog t)
    (fun w s' => w = Panic "balloc: out of blocks" ∧ ∀ b, 0 ≤ b < sb_size g → used t b = true) s.
Proof.
  intros Hok Hr Hsb Hh Hfit. eapply wp_balloc_gen; [done..| rewrite Hh, map_size_empty; unfold MAXHELD; lia | done | |done].
  intros b c Hff Hc. pose proof Hff as (Hb & Hu & _). split; [done|].
  split; [eapply free_is_data; [done | lia | done]|].
  exists c, (alloc_block b t). split_and!; [done | done | by apply fs_ok_alloc | | | | by apply nfree_alloc |].
  - unfold alloc_block. by rewrite tv_tstore, decide_True.
  - intros a H1 H2. unfold alloc_block. by rewrite !tv_tstore, !decide_False.
  - intros k Hk. by apply used_alloc.
  - cbn. set_solver.
Qed.

(** [bfree] marks exactly the block it is given free and changes no other
    block, so the next [balloc] may hand it out; [balloc] of it followed by
    [bfree] gives back the same map. *)
Theorem bfree_correct s t b :
  fs_ok t → trep (store s) t → sb s = g → th t = ∅ → fits t 0 →
  datastart g ≤ b < sb_size g → used t b = true →
  ∃ c t', bfree dev b s = Ok tt (s <| store := c |>) ∧ trep c t' ∧ fs_ok t' ∧
    (∀ a, a ≠ bm → tv t' a = tv t a) ∧
    (∀ k, 0 ≤ k → used t' k = if decide (k = b) then false else used t k).
Proof.
  intros Hok Hr Hsb Hh Hfit Hb Hu.
  assert (Hw : wpt (bfree dev b) (fun _ s' => ∃ c, s' = s <| store := c |> ∧ trep c (free_block b t)) s).
  { eapply wp_bfree; [done..| rewrite Hh, map_size_empty; unfold MAXHELD; lia | done | done | done |]. intros c Hc. by exists c. }
  apply wpt_ok in Hw as ([] & s' & Hrun & c & -> & Hc). exists c, (free_block b t).
  pose proof geo_bounds. unfold datastart in Hb.
  split_and!; [done | done | | |].
  - apply fs_ok_free; [done | done |]. intros h. by rewrite Hh, lookup_empty.
  - intros a Ha. unfold free_block. by rewrite tv_tstore, decide_False.
  - intros k Hk. apply used_free; [done | lia | done].
Qed.
End alloc.

(** ** A small disk

    100 blocks with an empty log, 20 inodes and all data blocks free; the
    examples of the file system run on it. *)
Module SmallDisk.
Definition g : superblock := mksb 100 84 20 10 2 12 15.
Definition sb_block : block :=
  concat (le_bytes 4 <$> [100; 84; 20; 10; 2; 12; 15]) ++ replicate 484 0.
Definition map_block : block := [255; 255] ++ replicate 510 0.
Definition contents (a : baddr) : block :=
  if decide (a = (1, 1)) then sb_block else if decide (a = (1, 15)) then map_block else zero_block.
Definition t : tstate := mkt contents ∅ ∅ ∅ contents 30.
Definition kernel : kstate := boot_state <| curproc := Some 0%nat |>.
Definition disk : refstore := mkrs t 0 kernel 9.

Lemma geometry_g : geometry g.
Proof. split; cbv; intuition congruence. Qed.

Lemma kready_kernel : kready kernel.
Proof.
  split; [|unfold INT_MAX; cbn; lia].
  split; [done | unfold calm, cli_ok, INT_MAX; cbn; intuition lia | done|]. exists 0%nat, proc0. done.
Qed.

Lemma fs_ok_t : fs_ok 1 g t.
Proof.
  assert (Hb : ∀ x, length x = 512%nat → forallb (fun b => (0 <=? b) && (b <? 256)) x = true → is_block x).
  { intros x Hl Hx. split; [done|]. apply Forall_forall. intros b Hin.
    rewrite forallb_forall in Hx. specialize (Hx b). rewrite <-list_elem_of_In in Hx. unfold is_byte. specialize (Hx Hin). lia. }
  split.
  - intros a. change (is_block (contents a)). unfold contents. repeat case_decide; apply Hb; by vm_compute.
  - by vm_compute.
  - intros b _. apply not_elem_of_empty.
  - intros b Hb'. change (datastart g) with 16 in Hb'.
    assert (Hall : forallb (used 1 g t) (seqZ 0 16) = true) by (by vm_compute).
    rewrite forallb_forall in Hall. apply Hall, list_elem_of_In, elem_of_seqZ. lia.
  - intros h b Hh. change (th t) with (∅ : gmap nat baddr) in Hh. by rewrite lookup_empty in Hh.
Qed.

Lemma trep_disk : trep (BlockStore := RefStore.store) disk t.
Proof. split; [done|]. split; [apply kready_kernel | intros h _; apply lookup_empty]. Qed.

Lemma room_t (k : nat) : (k ≤ 29)%nat → room 1 g t k.
Proof.
  intros Hk. split.
  - unfold fits. change (tlog t) with (∅ : gset baddr). rewrite (right_id_L ∅ (∪)), size_singleton. cbn. lia.
  - assert (nfree 1 g t = 84%nat) as -> by (by vm_compute). lia.
Qed.
End SmallDisk.

Lemma balloc_correct_witness :
  let s := mkfsys SmallDisk.disk SmallDisk.g (initlock "icache") [] in
  wp (balloc (BlockStore0 := RefStore.store) 1) (fun b s' => b = 16)
    (fun w s' => False) s.
Proof.
  intros s. pose proof (RefStore.laws) as Hlaws.
  eapply wp_mono; [apply (balloc_correct (BlockStore0 := RefStore.store) (StoreLaws0 := Hlaws) 1 SmallDisk.g SmallDisk.geometry_g s SmallDisk.t)| |].
  - apply SmallDisk.fs_ok_t.
  - apply SmallDisk.trep_disk.
  - done.
  - done.
  - apply SmallDisk.room_t. lia.
  - intros b s' ((Hb & Hu & Hmin) & Hd & _). change (datastart SmallDisk.g) with 16 in Hd.
    destruct (decide (b = 16)) as [|Hne]; [done|].
    assert (Hc : used 1 SmallDisk.g SmallDisk.t 16 = true) by (apply Hmin; lia). by vm_compute in Hc.
  - intros w s' [_ Hfull]. assert (Hc : used 1 SmallDisk.g SmallDisk.t 16 = true) by (apply Hfull; cbn; lia).
    by vm_compute in Hc.
Defined.

Lemma bfree_correct_witness :
  let t := alloc_block 1 SmallDisk.g 16 SmallDisk.t in
  let s := mkfsys (mkrs t 0 SmallDisk.kernel 9) SmallDisk.g (initlock "icache") [] in
  ∃ c t', bfree (BlockStore0 := RefStore.store) 1 16 s = Ok tt (s <| store := c |>) ∧
    used 1 SmallDisk.g t' 16 = false.
Proof.
  intros t s. pose proof (RefStore.laws) as Hlaws.
  destruct (bfree_correct (BlockStore0 := RefStore.store) (StoreLaws0 := Hlaws) 1 SmallDisk.g SmallDisk.geometry_g s t 16)
    as (c & t' & Hrun & _ & _ & _ & Hu).
  - apply fs_ok_alloc; [apply SmallDisk.geometry_g | apply SmallDisk.fs_ok_t | cbn; lia | by vm_compute].
  - split; [done|]. split; [apply SmallDisk.kready_kernel | intros h _; apply lookup_empty].
  - done.
  - done.
  - unfold fits. vm_compute. lia.
  - change (datastart SmallDisk.g) with 16. change (sb_size SmallDisk.g) with 100. lia.
  - by vm_compute.
  - exists c, t'. split; [exact Hrun|]. rewrite Hu by lia. by rewrite decide_True.
Defined.
