(* ===== verification/FsFile.v ===== *)
(** * File contents (fs.c: bmap, readi, writei, itrunc)

    The blocks of a file form a tree: the addresses in the inode, the
    indirect block, and the doubly indirect block with the indirect blocks
    below it.  A [path] names a place in the tree, the last index first.
    [wf_file] is the shape of the tree: every address in it is an allocated
    data block, and no block occurs twice.  The contents of a file are the
    bytes [fbyte]; a block that is not mapped reads as zeros. *)
From stdpp Require Import gmap functions.
From S2P Require Import Prelude Spinlock Proc Sleep Sleeplock Bytes CString Block Store Fs FsAlloc.

(** ** Words of a block *)
Definition ent (x : block) (k : Z) : Z := get32 x (Z.to_nat (4 * k)).

Lemma bytes_le n v : Forall is_byte (le_bytes n v).
Proof.
  revert v. induction n as [|n IH]; intros v; cbn; [constructor|]. constructor; [|done].
  unfold is_byte. apply Z.mod_pos_bound. lia.
Qed.

Lemma is_block_splice x off l :
  is_block x → (off + length l ≤ 512)%nat → Forall is_byte l → is_block (splice x off l).
Proof.
  intros [Hl Hb] Ho Hbl. split; [by rewrite length_splice by lia|].
  unfold splice. rewrite !Forall_app. split_and!; [by apply Forall_take | done | by apply Forall_drop].
Qed.

Lemma is_block_put32 x off v : is_block x → (off + 4 ≤ 512)%nat → is_block (put32 x off v).
Proof. intros Hx Ho. apply is_block_splice; [done | by rewrite length_le_bytes | apply bytes_le]. Qed.

Lemma ent_put x j v k : is_block x → 0 ≤ j < NINDIRECT → 0 ≤ k < NINDIRECT → 0 ≤ v < FSSIZE →
  ent (put32 x (Z.to_nat (4 * j)) v) k = if decide (k = j) then v else ent x k.
Proof.
  intros [Hl _] Hj Hk Hv. change NINDIRECT with 128 in *. unfold FSSIZE in Hv. unfold ent. case_decide as E.
  - subst k. rewrite get32_put32 by lia. apply u32_id. lia.
  - apply get32_put32_other; lia.
Qed.

Lemma le_val_zeros n : le_val (replicate n 0) = 0.
Proof. induction n as [|n IH]; cbn [replicate le_val]; [done|]. by rewrite IH. Qed.

Lemma ent_zero k : 0 ≤ k < NINDIRECT → ent zero_block k = 0.
Proof.
  intros Hk. change NINDIRECT with 128 in Hk. unfold ent, get32, slice, zero_block.
  rewrite drop_replicate, take_replicate. apply le_val_zeros.
Qed.

(** ** The tree of a file *)
Abbreviation path := (list Z).

Definition valid (p : path) : Prop :=
  match p with
  | [k] => 0 ≤ k < 13
  | [j; r] => (r = 11 ∨ r = 12) ∧ 0 ≤ j < NINDIRECT
  | [k; j; r] => r = 12 ∧ 0 ≤ j < NINDIRECT ∧ 0 ≤ k < NINDIRECT
  | _ => False
  end.

(** The places that hold tables of addresses. *)
Definition inner (p : path) : Prop :=
  match p with
  | [k] => k = 11 ∨ k = 12
  | [j; r] => r = 12 ∧ 0 ≤ j < NINDIRECT
  | _ => False
  end.

(** The place of block [bn] of the contents. *)
Definition leaf (bn : Z) : path :=
  if bn <? NDIRECT then [bn]
  else if bn - NDIRECT <? NINDIRECT then [bn - NDIRECT; NDIRECT]
  else let bn := bn - NDIRECT - NINDIRECT in [bn mod NINDIRECT; bn / NINDIRECT; NDIRECT + 1].

Lemma valid_tail j p : p ≠ [] → valid (j :: p) → valid p ∧ inner p ∧ 0 ≤ j < NINDIRECT.
Proof.
  destruct p as [|a [|b [|c p]]]; intros Hp Hv; cbn in *; try done.
  - destruct Hv as [Hr Hj]. split; [lia|]. by split.
  - destruct Hv as (-> & Hb & Hj). split; [|done]. split; [by right | done].
Qed.

Lemma inner_valid p : inner p → valid p.
Proof. destruct p as [|a [|b [|c p]]]; cbn; try done; [lia|]. intros [-> ?]. split; [by right | done]. Qed.

Lemma leaf_valid bn : 0 ≤ bn < MAXFILE → valid (leaf bn) ∧ ¬ inner (leaf bn).
Proof.
  unfold leaf. change MAXFILE with 16523. change NDIRECT with 11. intros Hb.
  destruct (Z.ltb_spec bn 11); [split; cbn; lia|].
  destruct (Z.ltb_spec (bn - 11) NINDIRECT) as [H1|H1]; change NINDIRECT with 128 in *; cbn; change NINDIRECT with 128.
  - split; [|lia]. split; [by left | lia].
  - split; [|tauto]. split; [done|]. split; dlia.
Qed.

Lemma leaf_inj a b : 0 ≤ a < MAXFILE → 0 ≤ b < MAXFILE → leaf a = leaf b → a = b.
Proof.
  change MAXFILE with 16523. unfold leaf. change NDIRECT with 11. change NINDIRECT with 128. intros Ha Hb.
  destruct (Z.ltb_spec a 11), (Z.ltb_spec b 11), (Z.ltb_spec (a - 11) 128), (Z.ltb_spec (b - 11) 128);
    intros [=]; try done; try lia; dlia.
Qed.

Section tree.
Context (dev : Z) (g : superblock) (Hg : geometry g).
Implicit Types (t : tstate) (ad : list Z).

(** The address at a place, 0 where there is none. *)
Fixpoint walk (v : baddr → block) (ad : list Z) (p : path) : Z :=
  match p with
  | [] => 0
  | j :: p' =>
      match p' with
      | [] => default 0 (ad !! Z.to_nat j)
      | _ => let a := walk v ad p' in if a =? 0 then 0 else ent (v (dev, a)) j
      end
  end.
Definition at_path (t : tstate) (ad : list Z) (p : path) : Z := walk (tv t) ad p.

Lemma at_path_cons t ad j p :
  p ≠ [] → at_path t ad (j :: p) =
    if at_path t ad p =? 0 then 0 else ent (tv t (dev, at_path t ad p)) j.
Proof. by destruct p. Qed.

Record wf_file (t : tstate) (ad : list Z) : Prop := {
  wf_len : length ad = 13%nat;
  wf_own : ∀ p, valid p → at_path t ad p ≠ 0 →
    datastart g ≤ at_path t ad p < sb_size g ∧ used dev g t (at_path t ad p) = true ∧
    (dev, at_path t ad p) ∉ tstale t;
  wf_inj : ∀ p q, valid p → valid q → at_path t ad p = at_path t ad q → at_path t ad p ≠ 0 → p = q
}.

(** A file without blocks. *)
Lemma wf_file_empty t : wf_file t (replicate 13 0).
Proof.
  assert (H0 : ∀ p, valid p → at_path t (replicate 13 0) p = 0).
  { induction p as [|j p IH]; [done|]. intros Hv. destruct (decide (p = [])) as [->|Hp].
    - cbn in Hv. change (default 0 (replicate 13 0 !! Z.to_nat j) = 0). by rewrite lookup_replicate_2 by lia.
    - rewrite at_path_cons by done. by rewrite IH by (by apply (valid_tail j p)). }
  split; [done| |].
  - intros p Hp Hne. by rewrite H0 in Hne.
  - intros p q Hp _ _ Hne. by rewrite H0 in Hne.
Qed.

(** The bytes of a file. *)
Definition fbyte (t : tstate) (ad : list Z) (o : Z) : Z :=
  let a := at_path t ad (leaf (o / BSIZE)) in
  if a =? 0 then 0 else default 0 (tv t (dev, a) !! Z.to_nat (o mod BSIZE)).

(** ** Growth of a file

    [ext t ad t' ad']: places were filled with free blocks, those of the
    contents with zeros; every other allocated block is as it was. *)
Record ext (t : tstate) (ad : list Z) (t' : tstate) (ad' : list Z) : Prop := {
  ex_used : ∀ b, 0 ≤ b → used dev g t b = true → used dev g t' b = true;
  ex_carries : carries t t';
  ex_keep : ∀ p, valid p → at_path t ad p ≠ 0 → at_path t' ad' p = at_path t ad p;
  ex_new : ∀ p, valid p → at_path t ad p = 0 → at_path t' ad' p ≠ 0 →
    0 ≤ at_path t' ad' p ∧ used dev g t (at_path t' ad' p) = false ∧
    (¬ inner p → tv t' (dev, at_path t' ad' p) = zero_block);
  ex_frame : ∀ d b, (d, b) ≠ bm dev g → (d = dev → 0 ≤ b ∧ used dev g t b = true) →
    (∀ p, inner p → at_path t ad p ≠ 0 → (dev, at_path t ad p) ≠ (d, b)) → tv t' (d, b) = tv t (d, b)
}.

(** Neither depends on what is locked or logged. *)
Lemma wf_file_same t t' ad : tv t' = tv t → tstale t' = tstale t → wf_file t ad → wf_file t' ad.
Proof.
  intros Hv Hs [H1 H2 H3]. unfold at_path, used in *. split; unfold at_path, used; rewrite ?Hv, ?Hs; done.
Qed.
Lemma ext_same t t' ad u u' ad' :
  tv t' = tv t → tstale t' = tstale t → tv u' = tv u → tstale u' = tstale u →
  tbase t' = tbase t → tbase u' = tbase u → tcap t' = tcap t → tcap u' = tcap u →
  ext t ad u ad' → ext t' ad u' ad'.
Proof.
  intros Hv Hs Hv' Hs' Hb Hb' Hc Hc' [H1 H2 H3 H4 H5]. unfold at_path, used, carries in *.
  split; unfold at_path, used, carries; rewrite ?Hv, ?Hs, ?Hv', ?Hs', ?Hb, ?Hb', ?Hc, ?Hc'; done.
Qed.

Lemma ext_refl t ad : ext t ad t ad.
Proof. by split. Qed.

Lemma ext_trans t1 ad1 t2 ad2 t3 ad3 :
  wf_file t1 ad1 → wf_file t2 ad2 → ext t1 ad1 t2 ad2 → ext t2 ad2 t3 ad3 → ext t1 ad1 t3 ad3.
Proof.
  intros W1 W2 E12 E23. pose proof (geo_bounds g Hg) as Hgeo.
  (* an allocated block that is no table stays none *)
  assert (Htab : ∀ d b, (d = dev → 0 ≤ b ∧ used dev g t1 b = true) →
    (∀ p, inner p → at_path t1 ad1 p ≠ 0 → (dev, at_path t1 ad1 p) ≠ (d, b)) →
    ∀ p, inner p → at_path t2 ad2 p ≠ 0 → (dev, at_path t2 ad2 p) ≠ (d, b)).
  { intros d b Hu Hp p Hin H2 [= <- <-]. destruct (decide (at_path t1 ad1 p = 0)) as [H1|H1].
    - pose proof (ex_new _ _ _ _ E12 p (inner_valid _ Hin) H1 H2) as (_ & Hf & _).
      destruct Hu as [_ Hu]; [done|]. congruence.
    - apply (Hp p Hin H1). f_equal. symmetry. apply E12; [by apply inner_valid | done]. }
  split.
  - intros b Hb Hu. apply E23; [done|]. by apply E12.
  - etrans; [apply E12 | apply E23].
  - intros p Hp Hne. rewrite (ex_keep _ _ _ _ E23); [by apply E12 | done|]. by rewrite (ex_keep _ _ _ _ E12).
  - intros p Hp H0 H3. destruct (decide (at_path t2 ad2 p = 0)) as [H2|H2].
    + pose proof (ex_new _ _ _ _ E23 p Hp H2 H3) as (Hpos & Hu & Hz). split_and!; [done | | done].
      destruct (used dev g t1 (at_path t3 ad3 p)) eqn:Hu1; [|done].
      by rewrite (ex_used _ _ _ _ E12) in Hu.
    + rewrite (ex_keep _ _ _ _ E23) in * by done.
      pose proof (ex_new _ _ _ _ E12 p Hp H0 H2) as (Hpos & Hu & Hz). split_and!; [done..|]. intros Hin.
      pose proof (wf_own _ _ W2 p Hp H2) as (Hr & Hu2 & _). rewrite <-Hz by done.
      apply E23; [|done|].
      * intros [=]. unfold datastart in Hr. lia.
      * intros q Hq Hq2 [= Heq]. apply Hin. by rewrite (wf_inj _ _ W2 p q) by auto using inner_valid.
  - intros d b Hb Hu Hp. rewrite (ex_frame _ _ _ _ E23); [by apply E12 | done | | by apply Htab].
    intros Hd. destruct (Hu Hd). split; [done|]. by apply E12.
Qed.

(** Growth does not change the bytes of the file. *)
Lemma fbyte_ext t ad t' ad' o :
  wf_file t ad → ext t ad t' ad' → 0 ≤ o < MAXFILE * BSIZE → fbyte t' ad' o = fbyte t ad o.
Proof.
  intros W E Ho. pose proof (geo_bounds g Hg) as Hgeo. unfold fbyte.
  assert (Hbn : 0 ≤ o / BSIZE < MAXFILE) by (change MAXFILE with 16523 in *; change BSIZE with 512 in *; dlia).
  destruct (leaf_valid _ Hbn) as [Hv Hin]. set (p := leaf (o / BSIZE)) in *.
  destruct (Z.eqb_spec (at_path t ad p) 0) as [H0|H0].
  - destruct (Z.eqb_spec (at_path t' ad' p) 0) as [H1|H1]; [done|].
    destruct (ex_new _ _ _ _ E p Hv H0 H1) as (_ & _ & Hz). rewrite Hz by done. unfold zero_block.
    by rewrite lookup_replicate_2 by (change BSIZE with 512; dlia).
  - rewrite (ex_keep _ _ _ _ E p Hv H0). rewrite (proj2 (Z.eqb_neq _ _) H0).
    pose proof (wf_own _ _ W p Hv H0) as (Hr & Hu & _). unfold datastart in Hr.
    rewrite (ex_frame _ _ _ _ E); [done | intros [=]; lia | intros _; split; [lia | done] |].
    intros q Hq Hq0 [= Heq]. apply Hin. by rewrite (wf_inj _ _ W p q) by auto using inner_valid.
Qed.

(** *** One step of growth: the empty place [c] gets the free block [b] *)
Record fills (t : tstate) (ad : list Z) (c : path) (b : Z) (t' : tstate) (ad' : list Z) : Prop := {
  fl_c : valid c ∧ at_path t ad c = 0 ∧ ∀ j p, c = j :: p → p ≠ [] → at_path t ad p ≠ 0;
  fl_b : datastart g ≤ b < sb_size g ∧ used dev g t b = false;
  fl_len : length ad' = 13%nat;
  fl_root : ∀ k, 0 ≤ k < 13 → default 0 (ad' !! Z.to_nat k) =
    if decide ([k] = c) then b else default 0 (ad !! Z.to_nat k);
  fl_ent : ∀ j p, p ≠ [] → valid (j :: p) → at_path t ad p ≠ 0 →
    ent (tv t' (dev, at_path t ad p)) j =
      if decide (j :: p = c) then b else ent (tv t (dev, at_path t ad p)) j;
  fl_zero : tv t' (dev, b) = zero_block;
  fl_used : ∀ k, 0 ≤ k → used dev g t' k = if decide (k = b) then true else used dev g t k;
  fl_stale : tstale t' ⊆ tstale t ∖ {[(dev, b)]};
  fl_base : tbase t' = tbase t ∧ tcap t' = tcap t;
  fl_frame : ∀ a, a ≠ bm dev g → a ≠ (dev, b) →
    (∀ j p, c = j :: p → p ≠ [] → a ≠ (dev, at_path t ad p)) → tv t' a = tv t a
}.

Lemma at_path_fills t ad c b t' ad' p :
  fills t ad c b t' ad' → valid p → at_path t' ad' p = if decide (p = c) then b else at_path t ad p.
Proof.
  intros Hf. induction p as [|j p IH]; [done|]. intros Hv.
  destruct (decide (p = [])) as [->|Hp]; [by apply Hf|].
  destruct (valid_tail j p Hp Hv) as (Hvp & Hin & Hj). specialize (IH Hvp).
  rewrite !at_path_cons by done. rewrite IH. destruct (decide (p = c)) as [->|Hne].
  - destruct (fl_c _ _ _ _ _ _ Hf) as (_ & H0 & _). destruct (fl_b _ _ _ _ _ _ Hf) as [Hb _].
    pose proof (geo_bounds g Hg). unfold datastart in Hb.
    destruct (Z.eqb_spec b 0); [lia|]. rewrite (fl_zero _ _ _ _ _ _ Hf), ent_zero by done.
    rewrite decide_False; [by rewrite H0|]. intros E. apply (f_equal length) in E. cbn in E. lia.
  - destruct (Z.eqb_spec (at_path t ad p) 0) as [H0|H0].
    + rewrite decide_False; [done|]. intros E.
      destruct (fl_c _ _ _ _ _ _ Hf) as (_ & _ & Hc). by apply (Hc j p).
    + by apply Hf.
Qed.

Lemma fills_wf t ad c b t' ad' : wf_file t ad → fills t ad c b t' ad' → wf_file t' ad'.
Proof.
  intros W Hf. pose proof (at_path_fills t ad c b t' ad') as Hat.
  destruct (fl_b _ _ _ _ _ _ Hf) as [Hb Hfree]. pose proof (geo_bounds g Hg) as Hgeo. unfold datastart in Hb.
  assert (Hne : ∀ p, valid p → at_path t ad p ≠ b).
  { intros p Hp Hpb. destruct (wf_own _ _ W p Hp) as (_ & Hu & _); [lia|]. congruence. }
  split; [apply Hf| |].
  - intros p Hp. rewrite (Hat p Hf Hp). case_decide as E.
    + intros _. split; [done|]. rewrite (fl_used _ _ _ _ _ _ Hf), decide_True by lia. split; [done|].
      intros Hs%(fl_stale _ _ _ _ _ _ Hf). set_solver.
    + intros H0. destruct (wf_own _ _ W p Hp H0) as (Hr & Hu & Hs). split; [done|]. unfold datastart in Hr.
      rewrite (fl_used _ _ _ _ _ _ Hf) by lia. split; [by case_decide|].
      intros Hs'%(fl_stale _ _ _ _ _ _ Hf). set_solver.
  - intros p q Hp Hq. rewrite (Hat p Hf Hp), (Hat q Hf Hq).
    case_decide as Ep; case_decide as Eq; [congruence | | |by apply W].
    + intros E. by destruct (Hne q Hq).
    + intros E. by destruct (Hne p Hp).
Qed.

Lemma fills_ext t ad c b t' ad' : wf_file t ad → fills t ad c b t' ad' → ext t ad t' ad'.
Proof.
  intros W Hf. pose proof (at_path_fills t ad c b t' ad') as Hat.
  destruct (fl_b _ _ _ _ _ _ Hf) as [Hb Hfree]. destruct (fl_c _ _ _ _ _ _ Hf) as (Hvc & H0c & Hpar).
  pose proof (geo_bounds g Hg) as Hgeo. unfold datastart in Hb. split.
  - intros k Hk Hu. rewrite (fl_used _ _ _ _ _ _ Hf) by done. by case_decide.
  - destruct (fl_base _ _ _ _ _ _ Hf). split; [done | split; [done|]]. intros a Ha%(fl_stale _ _ _ _ _ _ Hf). set_solver.
  - intros p Hp Hne. rewrite (Hat p Hf Hp). case_decide as E; [by subst|done].
  - intros p Hp H0. rewrite (Hat p Hf Hp). case_decide as E; [|done]. subst p. intros _.
    split_and!; [lia | done|]. intros _. apply Hf.
  - intros d k Hk Hu Hno. apply Hf; [done | |].
    + intros [= -> ->]. destruct Hu as [_ Hu]; [done|]. congruence.
    + intros j p -> Hp E. destruct (valid_tail j p Hp Hvc) as (_ & Hin & _).
      by apply (Hno p Hin); [apply (Hpar j p) | rewrite E].
Qed.
(** *** Stores outside the tables *)
Definition no_table (t : tstate) (ad : list Z) (a : baddr) : Prop :=
  ∀ q, inner q → at_path t ad q ≠ 0 → (dev, at_path t ad q) ≠ a.

Lemma at_path_store t ad a x p :
  no_table t ad a → valid p → at_path (tstore a x t) ad p = at_path t ad p.
Proof.
  intros Hno. induction p as [|j p IH]; [done|]. intros Hv.
  destruct (decide (p = [])) as [->|Hp]; [done|].
  destruct (valid_tail j p Hp Hv) as (Hvp & Hin & _). rewrite !at_path_cons by done. rewrite IH by done.
  destruct (Z.eqb_spec (at_path t ad p) 0) as [|Hne]; [done|].
  rewrite tv_tstore, decide_False; [done|]. by apply Hno.
Qed.

Lemma wf_file_store t ad a x :
  wf_file t ad → no_table t ad a → a ≠ bm dev g → wf_file (tstore a x t) ad.
Proof.
  intros W Hno Hbm. pose proof (at_path_store t ad a x) as Hat.
  assert (Hu : used dev g (tstore a x t) = used dev g t)
    by (unfold used; by rewrite tv_tstore, decide_False by congruence).
  split; [apply W| |].
  - intros p Hp. rewrite (Hat p Hno Hp), Hu. intros Hne. destruct (wf_own _ _ W p Hp Hne) as (H1 & H2 & H3).
    split; [done|]. split; [done|]. cbn. set_solver.
  - intros p q Hp Hq. rewrite (Hat p Hno Hp), (Hat q Hno Hq). apply (wf_inj _ _ W); done.
Qed.

Lemma no_table_leaf t ad p :
  wf_file t ad → valid p → ¬ inner p → at_path t ad p ≠ 0 → no_table t ad (dev, at_path t ad p).
Proof.
  intros W Hp Hin Hne q Hq Hq0 [= E]. apply Hin. by rewrite (wf_inj _ _ W p q) by auto using inner_valid.
Qed.

Lemma no_table_meta t ad b : wf_file t ad → b < datastart g → no_table t ad (dev, b).
Proof.
  intros W Hb q Hq Hq0 [= E]. destruct (wf_own _ _ W q (inner_valid q Hq) Hq0) as [Hr _]. lia.
Qed.

(** A store to metadata leaves the contents of files alone. *)
Lemma fbyte_meta t ad b x o :
  wf_file t ad → b < datastart g → 0 ≤ o < MAXFILE * BSIZE → fbyte (tstore (dev, b) x t) ad o = fbyte t ad o.
Proof.
  intros W Hb Ho. unfold fbyte.
  assert (Hbn : 0 ≤ o / BSIZE < MAXFILE) by (change MAXFILE with 16523 in *; change BSIZE with 512 in *; dlia).
  destruct (leaf_valid _ Hbn) as [Hv _]. rewrite at_path_store by (done || by apply no_table_meta).
  destruct (Z.eqb_spec (at_path t ad (leaf (o / BSIZE))) 0) as [|Hne]; [done|].
  destruct (wf_own _ _ W _ Hv Hne) as [Hr _]. rewrite tv_tstore, decide_False; [done|]. intros [=]. lia.
Qed.

(** A store to a block of the contents changes the bytes of that block. *)
Lemma fbyte_leaf t ad bn x o :
  wf_file t ad → 0 ≤ bn < MAXFILE → at_path t ad (leaf bn) ≠ 0 → 0 ≤ o < MAXFILE * BSIZE →
  fbyte (tstore (dev, at_path t ad (leaf bn)) x t) ad o =
    if decide (o / BSIZE = bn) then default 0 (x !! Z.to_nat (o mod BSIZE)) else fbyte t ad o.
Proof.
  intros W Hb Hne Ho. unfold fbyte.
  assert (Hbn : 0 ≤ o / BSIZE < MAXFILE) by (change MAXFILE with 16523 in *; change BSIZE with 512 in *; dlia).
  destruct (leaf_valid _ Hbn) as [Hv _]. destruct (leaf_valid bn Hb) as [Hvb Hib].
  rewrite at_path_store by (done || by apply no_table_leaf). case_decide as E.
  - rewrite E, tv_tstore, decide_True by done. by rewrite (proj2 (Z.eqb_neq _ _) Hne).
  - destruct (Z.eqb_spec (at_path t ad (leaf (o / BSIZE))) 0) as [|Hne']; [done|].
    rewrite tv_tstore, decide_False; [done|]. intros [= Eq]. apply E, leaf_inj; [done | done|].
    by apply (wf_inj _ _ W).
Qed.

(** The bytes of a mapped block. *)
Lemma slice_fbyte t ad off m :
  is_block (tv t (dev, at_path t ad (leaf (off / BSIZE)))) → at_path t ad (leaf (off / BSIZE)) ≠ 0 →
  0 ≤ off → 0 ≤ m ≤ BSIZE - off mod BSIZE →
  slice (tv t (dev, at_path t ad (leaf (off / BSIZE)))) (Z.to_nat (off mod BSIZE)) (Z.to_nat m)
  = fbyte t ad <$> seqZ off m.
Proof.
  intros [Hl _] Hne Hoff Hm. change BSIZE with 512 in *. apply list_eq. intros k.
  rewrite lookup_slice, list_lookup_fmap. case_decide as Hk.
  - rewrite lookup_seqZ_lt by lia. cbn. unfold fbyte. change BSIZE with 512.
    replace ((off + Z.of_nat k) / 512) with (off / 512) by dlia. rewrite (proj2 (Z.eqb_neq _ _) Hne).
    replace (Z.to_nat ((off + Z.of_nat k) mod 512)) with (Z.to_nat (off mod 512) + k)%nat by dlia.
    destruct (lookup_lt_is_Some_2 (tv t (dev, at_path t ad (leaf (off / 512)))) (Z.to_nat (off mod 512) + k)) as [v Hv];
      [rewrite Hl; dlia|]. by rewrite Hv.
  - by rewrite lookup_seqZ_ge by lia.
Qed.
End tree.

Lemma addrs_id x : x <| addrs := addrs x |> = x.
Proof. by destruct x. Qed.

(** ** The routines *)
Section routines.
Context {T : Type} `{!BlockStore T} `{!StoreLaws T}.
Context (dev : Z) (g : superblock) (Hg : geometry g).
Implicit Types (s : fsys T) (t : tstate) (ad : list Z).

Abbreviation fs_ok := (fs_ok dev g).
Abbreviation wf_file := (wf_file dev g).
Abbreviation at_path := (at_path dev).
Abbreviation ext := (ext dev g).
Abbreviation used := (used dev g).
Abbreviation room := (room dev g).

(** [t'] has what [t] had left, but for [n] blocks. *)
Definition spent (n : nat) (t t' : tstate) : Prop := ∀ k, room t (n + k) → room t' k.

Lemma spent_refl t : spent 0 t t.
Proof. by intros k. Qed.
Lemma spent_trans n m t1 t2 t3 : spent n t1 t2 → spent m t2 t3 → spent (n + m) t1 t3.
Proof. intros H1 H2 k Hk. apply H2, H1. by rewrite Nat.add_assoc. Qed.
Lemma spent_mono n m t t' : (n ≤ m)%nat → spent n t t' → spent m t t'.
Proof. intros Hn H k Hk. apply H. eapply room_mono; [|done]. lia. Qed.

(** The state with the layers below and one inode replaced. *)
Definition put_ino (s : fsys T) (c : T) (i : nat) (x : inode) : fsys T :=
  mkfsys c (sb s) (ic_lock s) (<[i := x]> (inodes s)).

Lemma put_ino_id s i x : inodes s !! i = Some x → put_ino s (store s) i x = s.
Proof. intros H. destruct s. unfold put_ino. cbn in *. by rewrite list_insert_id. Qed.
Lemma wp_at_ino {A} (m : M (fsys T) A) i x (Q : A → fsys T → Prop) E s :
  inodes s !! i = Some x → wp m Q E (put_ino s (store s) i x) → wp m Q E s.
Proof. intros Hx. by rewrite put_ino_id. Qed.
Lemma put_ino_store s c c' i x : (put_ino s c i x) <| store := c' |> = put_ino s c' i x.
Proof. done. Qed.
Lemma put_ino_twice s c c' i x y : put_ino (put_ino s c i x) c' i y = put_ino s c' i y.
Proof. unfold put_ino. cbn. by rewrite list_insert_insert_eq. Qed.

Lemma wp_ino i x (Q : inode → fsys T → Prop) E s :
  inodes s !! i = Some x → Q x s → wp (ino i) Q E s.
Proof. intros Hx HQ. unfold ino. do 2 wp_step. by eapply wp_deref. Qed.

Lemma wp_ino_put i x c (Q : inode → fsys T → Prop) E s :
  (i < length (inodes s))%nat → Q x (put_ino s c i x) → wp (ino i) Q E (put_ino s c i x).
Proof. intros Hi HQ. eapply wp_ino; [|done]. cbn. by rewrite list_lookup_insert_eq. Qed.

Lemma wp_iupd_put i x c f (Q : unit → fsys T → Prop) E s :
  (i < length (inodes s))%nat → Q tt (put_ino s c i (f x)) → wp (iupd i f) Q E (put_ino s c i x).
Proof.
  intros Hi HQ. unfold iupd. wp_step. apply wp_ino_put; [done|]. wp_step.
  match goal with |- Q tt ?s' => replace s' with (put_ino s c i (f x)); [done|] end.
  unfold update_field, put_ino. cbn. by rewrite list_insert_insert_eq.
Qed.

(** A data block may be locked. *)
Lemma fs_ok_th t m :
  fs_ok t → (∀ h b, m !! h = Some (dev, b) → datastart g ≤ b < sb_size g ∧ used t b = true) →
  fs_ok (t <| th := m |>).
Proof. intros [????] Hm. by split. Qed.

Lemma fs_ok_lock t h b :
  fs_ok t → datastart g ≤ b < sb_size g → used t b = true → fs_ok (t <| th := <[h := (dev, b)]> (th t) |>).
Proof.
  intros Hok Hb Hu. apply fs_ok_th; [done|]. intros h' b' [[<- [= <-]]|[_ Hh]]%lookup_insert_Some; [done|].
  by eapply fo_held.
Qed.

Lemma fs_ok_unlock t h : fs_ok t → fs_ok (t <| th := delete h (th t) |>).
Proof. intros Hok. apply fs_ok_th; [done|]. intros h' b' [_ Hh]%lookup_delete_Some. by eapply fo_held. Qed.

(** The places passed on the way to [p], [p] itself included. *)
Definition on_way (p q : path) : Prop := q ≠ [] ∧ q `suffix_of` p.

Lemma on_way_refl p : p ≠ [] → on_way p p.
Proof. by split. Qed.
Lemma on_way_cons j p q : on_way p q → on_way (j :: p) q.
Proof. intros [H1 H2]. split; [done | by apply suffix_cons_r]. Qed.
Lemma on_way_valid p q : valid p → on_way p q → valid q.
Proof.
  intros Hv [Hq [k ->]]. revert Hv. induction k as [|j k IH]; [done|]. intros Hv. apply IH.
  apply (valid_tail j (k ++ q)); [by intros [_ ->]%app_eq_nil | done].
Qed.
Lemma on_way_nz t ad p q : on_way p q → at_path t ad p ≠ 0 → at_path t ad q ≠ 0.
Proof.
  intros [Hq [k ->]]. induction k as [|j k IH]; [done|]. intros Hn. apply IH. intros E. apply Hn. cbn [app].
  rewrite at_path_cons by (by intros [_ ->]%app_eq_nil). by rewrite E.
Qed.

(** The outcome of looking for the block at place [p], allocating at most [n]
    blocks for it: what it logs and allocates is on the way to [p]. *)
Record got (p : path) (n : nat) (t : tstate) (ad : list Z) (t' : tstate) (ad' : list Z) (addr : Z) : Prop := {
  gt_at : at_path t' ad' p = addr;
  gt_nz : addr ≠ 0;
  gt_th : th t' = th t;
  gt_ok : fs_ok t';
  gt_wf : wf_file t' ad';
  gt_ext : ext t ad t' ad';
  gt_cost : (t' = t ∧ ad' = ad) ∨
    (at_path t ad p = 0 ∧ (dev, addr) ∈ tlog t' ∧ spent n t t' ∧
     ∀ j, valid (j :: p) → at_path t' ad' (j :: p) = 0);
  gt_mono : tlog t ⊆ tlog t';
  gt_log : ∀ a, a ∈ tlog t' → a ∈ tlog t ∨ a = bm dev g ∨ ∃ q, on_way p q ∧ a = (dev, at_path t' ad' q);
  gt_used : ∀ b, 0 ≤ b → used t' b = true → used t b = true ∨ ∃ q, on_way p q ∧ b = at_path t' ad' q
}.

Lemma got_old p n t ad : fs_ok t → wf_file t ad → at_path t ad p ≠ 0 → got p n t ad t ad (at_path t ad p).
Proof. intros Hok W Hn. split; try done; auto. Qed.

Lemma got_mono p n m t ad t' ad' addr : (n ≤ m)%nat → got p n t ad t' ad' addr → got p m t ad t' ad' addr.
Proof.
  intros Hn [H1 H2 H3 H4 H5 H6 [H7|(H7 & H8 & H9 & H10)] HA HB HC]; split; try done; [by left|].
  right. split_and!; try done. by eapply spent_mono.
Qed.

(** A place filled by [balloc]. *)
Lemma got_fills p n t ad t' ad' b :
  wf_file t ad → fills dev g t ad p b t' ad' → fs_ok t' → th t' = th t → spent n t t' →
  {[(dev, b)]} ∪ tlog t ⊆ tlog t' →
  (∀ a, a ∈ tlog t' → a ∈ tlog t ∨ a = bm dev g ∨ a = (dev, b) ∨
     ∃ j q, p = j :: q ∧ q ≠ [] ∧ a = (dev, at_path t ad q)) →
  got p n t ad t' ad' b.
Proof.
  intros W Hf Hok Hth Hsp Hlog Hnew. pose proof (geo_bounds g Hg) as Hgeo.
  destruct (fl_b _ _ _ _ _ _ _ _ Hf) as [Hb _]. unfold datastart in Hb.
  destruct (fl_c _ _ _ _ _ _ _ _ Hf) as (Hv & H0 & _).
  pose proof (at_path_fills dev g Hg t ad p b t' ad') as Hat. split; try done.
  - rewrite Hat by done. by rewrite decide_True.
  - lia.
  - by eapply fills_wf.
  - by eapply fills_ext.
  - right. split_and!; [done | set_solver | done|]. intros j Hj. rewrite Hat by done. rewrite decide_False.
    2:{ intros E. apply (f_equal length) in E. cbn in E. lia. }
    rewrite at_path_cons; [by rewrite H0|]. intros ->. done.
  - set_solver.
  - intros a [Ha|[Ha|[->|(j & q & -> & Hq & ->)]]]%Hnew; [by left | by right; left | |]; do 2 right.
    + exists p. split; [by apply on_way_refl; intros -> | by rewrite Hat, decide_True].
    + exists q. split; [by apply on_way_cons, on_way_refl|]. destruct (valid_tail j q Hq Hv) as (Hvq & _).
      rewrite Hat, decide_False; [done | | done | done].
      intros E. apply (f_equal length) in E. cbn in E. lia.
  - intros k Hk Hu. rewrite (fl_used _ _ _ _ _ _ _ _ Hf) in Hu by done. case_decide as E; [right | by left].
    exists p. split; [by apply on_way_refl; intros -> | by rewrite Hat, decide_True].
Qed.
(** The effect of storing the new address [b] at its place. *)
Lemma fills_root t ad k b :
  fs_ok t → wf_file t ad → 0 ≤ k < 13 → at_path t ad [k] = 0 → first_free dev g t b →
  fills dev g t ad [k] b (alloc_block dev g b t) (<[Z.to_nat k := b]> ad).
Proof.
  intros Hok W Hk H0 (Hb & Hf & _). pose proof (geo_bounds g Hg) as Hgeo.
  pose proof (free_is_data dev g t b Hok ltac:(lia) Hf) as Hd.
  assert (Hold : ∀ a, a ≠ bm dev g → a ≠ (dev, b) → tv (alloc_block dev g b t) a = tv t a).
  { intros a H1 H2. unfold alloc_block. by rewrite !tv_tstore, !decide_False. }
  split.
  - split; [done|]. split; [done|]. by intros j p [= <- <-].
  - split; [lia | done].
  - rewrite length_insert. apply W.
  - intros m Hm. destruct (decide (m = k)) as [->|Hne].
    + rewrite list_lookup_insert_eq by (rewrite (wf_len _ _ _ _ W); lia). by rewrite decide_True.
    + rewrite list_lookup_insert_ne by lia. rewrite decide_False; [done|]. congruence.
  - intros j p Hp Hv Hne. rewrite decide_False by (intros [= _ ->]; done).
    destruct (valid_tail j p Hp Hv) as (Hvp & _). destruct (wf_own _ _ _ _ W p Hvp Hne) as (Hr & Hu & _).
    unfold datastart in Hr. rewrite Hold; [done | intros [=]; lia | intros [=]; congruence].
  - unfold alloc_block. by rewrite tv_tstore, decide_True.
  - intros m Hm. by apply used_alloc.
  - cbn. set_solver.
  - done.
  - intros a H1 H2 _. by apply Hold.
Qed.

Lemma fills_entry t ad j p b :
  fs_ok t → wf_file t ad → p ≠ [] → valid (j :: p) → at_path t ad p ≠ 0 → at_path t ad (j :: p) = 0 →
  first_free dev g t b →
  let a := at_path t ad p in
  let t1 := alloc_block dev g b t in
  fills dev g t ad (j :: p) b (tstore (dev, a) (put32 (tv t1 (dev, a)) (Z.to_nat (4 * j)) b) t1) ad.
Proof.
  intros Hok W Hp Hv Hpar H0 (Hb & Hf & _) a t1. pose proof (geo_bounds g Hg) as Hgeo.
  pose proof (free_is_data dev g t b Hok ltac:(lia) Hf) as Hd.
  destruct (valid_tail j p Hp Hv) as (Hvp & Hin & Hj).
  assert (Hold : ∀ c, c ≠ bm dev g → c ≠ (dev, b) → tv t1 c = tv t c).
  { intros c H1 H2. unfold t1, alloc_block. by rewrite !tv_tstore, !decide_False. }
  assert (Hnode : ∀ q, valid q → at_path t ad q ≠ 0 →
    (dev, at_path t ad q) ≠ bm dev g ∧ (dev, at_path t ad q) ≠ (dev, b)).
  { intros q Hq Hne. destruct (wf_own _ _ _ _ W q Hq Hne) as (Hr & Hu & _). unfold datastart in Hr.
    split; intros [=]; [lia | congruence]. }
  destruct (Hnode p Hvp Hpar) as [Ha1 Ha2].
  split.
  - split; [done|]. split; [done|]. by intros j' p' [= <- <-] _.
  - split; [lia | done].
  - apply W.
  - intros k Hk. rewrite decide_False; [done|]. by intros [= _ <-].
  - intros j' q Hq Hvq Hne. destruct (valid_tail j' q Hq Hvq) as (Hvq' & _ & Hj').
    rewrite tv_tstore. case_decide as E.
    + injection E as E. assert (q = p) as -> by (by apply (wf_inj _ _ _ _ W)).
      rewrite ent_put; [|by apply fs_ok_alloc|done|done|lia]. unfold a. rewrite Hold by done.
      case_decide as E1; case_decide as E2; congruence.
    + rewrite decide_False by (intros [= -> ->]; done). by rewrite Hold by (by apply Hnode).
  - rewrite tv_tstore, decide_False by (unfold a; congruence). unfold t1, alloc_block. by rewrite tv_tstore, decide_True.
  - intros m Hm. rewrite used_tstore by done. by apply used_alloc.
  - cbn. set_solver.
  - done.
  - intros c H1 H2 Hc. rewrite tv_tstore, decide_False by (by eapply Hc). by apply Hold.
Qed.

Lemma at_path_root t ad k : at_path t ad [k] = default 0 (ad !! Z.to_nat k).
Proof. done. Qed.

Lemma wp_addr_or_alloc k s c i x t (Q : Z → fsys T → Prop) E :
  fs_ok t → wf_file t (addrs x) → trep c t → sb s = g → i_dev x = dev → (i < length (inodes s))%nat →
  0 ≤ k < 13 → (size (th t) < MAXHELD)%nat → (at_path t (addrs x) [k] = 0 → room t 1) →
  (∀ addr c' t' ad', trep c' t' → got [k] 1 t (addrs x) t' ad' addr →
     Q addr (put_ino s c' i (x <| addrs := ad' |>))) →
  wp (addr_or_alloc i k) Q E (put_ino s c i x).
Proof.
  intros Hok W Hr Hsb Hdev Hi Hk Hs Hroom HQ. unfold addr_or_alloc.
  wp_step. apply wp_ino_put; [done|]. wp_step.
  destruct (lookup_lt_is_Some_2 (addrs x) (Z.to_nat k)) as [a Ha]; [rewrite (wf_len _ _ _ _ W); lia|].
  eapply wp_deref; [apply array_get_Some; split; [lia | exact Ha]|].
  destruct (Z.eqb_spec a 0) as [->|Hne].
  - wp_step. rewrite Hdev. eapply (wp_balloc dev g Hg _ _ 0); [done | exact Hr | done | done | |].
    { apply Hroom. by rewrite at_path_root, Ha. }
    intros b c1 Hff Hc1. wp_step.
    change ((put_ino s c i x) <| store := c1 |>) with (put_ino s c1 i x).
    apply wp_ino_put; [done|]. wp_step.
    eapply wp_deref; [apply array_set_in; rewrite (wf_len _ _ _ _ W); lia|].
    wp_step. apply wp_iupd_put; [done|]. wp_step. eapply HQ; [exact Hc1|].
    pose proof Hff as (Hb & Hf & _).
    apply got_fills; [done | | by apply fs_ok_alloc | done | | cbn; set_solver | cbn; set_solver].
    + apply fills_root; [done.. | by rewrite at_path_root, Ha | done].
    + intros m Hm. by apply room_alloc.
  - wp_step.
    assert (Hat : at_path t (addrs x) [k] = a) by (by rewrite at_path_root, Ha).
    rewrite <-(addrs_id x), <-Hat.
    eapply HQ; [exact Hr|]. apply got_old; [done..|]. by rewrite Hat.
Qed.

(** What an entry costs: the new block, and its table unless it is logged. *)
Definition cost (t : tstate) (a : Z) : nat := if decide ((dev, a) ∈ tlog t) then 1 else 2.

Lemma spent_entry t a b x :
  fs_ok t → first_free dev g t b → (dev, a) ≠ bm dev g → spent (cost t a) t (tstore (dev, a) x (alloc_block dev g b t)).
Proof.
  intros Hok (Hb & Hf & _) Ha k Hk.
  assert (H1 : room t (1 + k)) by (eapply room_mono; [|exact Hk]; unfold cost; case_decide; lia).
  destruct (room_alloc dev g Hg t b k Hok Hb Hf H1) as [H2 H3]. split.
  - unfold cost in Hk. case_decide as Hlog.
    + apply fits_again; [cbn; set_solver | done].
    + apply fits_log. apply fits_log. rewrite fits_log_bm. apply Hk.
  - by rewrite nfree_tstore.
Qed.

Lemma wp_entry_or_alloc j p h s t ad (Q : Z → fsys T → Prop) E :
  fs_ok t → wf_file t ad → trep (store s) t → sb s = g → p ≠ [] → valid (j :: p) →
  at_path t ad p ≠ 0 → th t !! h = Some (dev, at_path t ad p) →
  (size (th t) < MAXHELD)%nat →
  (at_path t ad (j :: p) = 0 → room t (cost t (at_path t ad p))) →
  (∀ addr c' t', trep c' t' → got (j :: p) (cost t (at_path t ad p)) t ad t' ad addr →
     Q addr (s <| store := c' |>)) →
  wp (entry_or_alloc dev h j) Q E s.
Proof.
  intros Hok W Hr Hsb Hp Hv Hpar Hh Hs Hroom HQ. unfold entry_or_alloc.
  assert (Hat : at_path t ad (j :: p) = ent (tv t (dev, at_path t ad p)) j).
  { rewrite at_path_cons by done. by rewrite (proj2 (Z.eqb_neq _ _) Hpar). }
  destruct (valid_tail j p Hp Hv) as (Hvp & Hin & Hj).
  destruct (wf_own _ _ _ _ W p Hvp Hpar) as (Hrng & Hu & _). pose proof (geo_bounds g Hg) as Hgeo.
  unfold datastart in Hrng. assert (Hbm : (dev, at_path t ad p) ≠ bm dev g) by (intros [=]; lia).
  wp_step. eapply wp_get_data; [exact Hr | exact Hh|]. intros c1 Hc1. cbv zeta. fold (ent (tv t (dev, at_path t ad p)) j).
  rewrite <-Hat. destruct (Z.eqb_spec (at_path t ad (j :: p)) 0) as [H0|Hne].
  - wp_step. eapply (wp_balloc dev g Hg _ _ 0); [done | exact Hc1 | done | done | |].
    { eapply room_mono; [|exact (Hroom H0)]. unfold cost. case_decide; lia. }
    intros b c2 Hff Hc2. pose proof Hff as (Hb & Hf & _).
    pose proof (spent_entry t _ b (put32 (tv (alloc_block dev g b t) (dev, at_path t ad p)) (Z.to_nat (4 * j)) b) Hok Hff Hbm) as Hsp.
    wp_step. eapply (wp_get_data h); [exact Hc2 | exact Hh|]. intros c3 Hc3.
    wp_step. eapply (wp_put_data h); [exact Hc3 | exact Hh|]. intros c4 Hc4.
    wp_step. eapply (wp_log_write h); [exact Hc4 | exact Hh | |].
    { pose proof (Hsp 0%nat ltac:(rewrite Nat.add_0_r; exact (Hroom H0))) as [Hfit _]. unfold fits in Hfit. cbn in Hfit |- *.
      etrans; [|exact (Nat.le_trans _ _ _ (Nat.le_add_r _ _) Hfit)]. apply subseteq_size. set_solver. }
    intros c5 Hc5. wp_step.
    assert (Heq : tlogged (dev, at_path t ad p) (tput (dev, at_path t ad p)
       (put32 (tv (alloc_block dev g b t) (dev, at_path t ad p)) (Z.to_nat (4 * j)) b) (alloc_block dev g b t))
      = tstore (dev, at_path t ad p) (put32 (tv (alloc_block dev g b t) (dev, at_path t ad p)) (Z.to_nat (4 * j)) b)
          (alloc_block dev g b t)).
    { unfold tstore, tlogged, tput, update_field. cbn. f_equal. case_decide; set_solver. }
    rewrite Heq in Hc5. eapply HQ; [exact Hc5|].
    apply got_fills; [done | by apply fills_entry | | done | exact Hsp | cbn; set_solver |].
    2:{ cbn. intros a. rewrite !elem_of_union, !elem_of_singleton. intros [->|?]; [|tauto]. do 3 right. by exists j, p. }
    apply fs_ok_tstore; [done | by apply fs_ok_alloc | unfold datastart; lia |].
    apply is_block_put32; [by apply fs_ok_alloc | change NINDIRECT with 128 in Hj; lia].
  - wp_step. eapply HQ; [exact Hc1|]. by apply got_old.
Qed.
(** A table found or allocated, then an entry of it. *)
Lemma got_child p j n m t ad t1 ad1 a m1 t2 addr :
  wf_file t ad → th t = ∅ → p ≠ [] → valid (j :: p) → (1 ≤ n)%nat → (S n ≤ m)%nat →
  got p n t ad t1 ad1 a → got (j :: p) (cost t1 a) (t1 <| th := m1 |>) ad1 t2 ad1 addr →
  got (j :: p) m t ad (t2 <| th := ∅ |>) ad1 addr.
Proof.
  intros W Hth Hp Hv Hn Hm G1 G2. destruct (valid_tail j p Hp Hv) as (Hvp & _).
  assert (Hway : ∀ q, on_way p q → at_path t2 ad1 q = at_path t1 ad1 q).
  { intros q Hq. apply (ex_keep _ _ _ _ _ _ (gt_ext _ _ _ _ _ _ _ G2)); [by eapply on_way_valid|].
    apply (on_way_nz t1 ad1 p q Hq). rewrite (gt_at _ _ _ _ _ _ _ G1). apply G1. }
  split; [apply G2 | apply G2 | done | | by eapply wf_file_same, G2 | | | | |].
  - apply fs_ok_th; [apply G2|]. intros h b Hh. by rewrite lookup_empty in Hh.
  - apply (ext_trans dev g Hg t ad t1 ad1); [done | apply G1 | apply G1 |].
    by eapply ext_same, G2.
  - destruct (gt_cost _ _ _ _ _ _ _ G1) as [[-> ->]|(H0 & Hlog & Hsp & Hz)];
    destruct (gt_cost _ _ _ _ _ _ _ G2) as [[Ht2 _]|(H0' & Hlog' & Hsp' & Hz')].
    + left. split; [|done]. rewrite Ht2. destruct t. cbn in *. by subst.
    + right. split_and!; [exact H0' | exact Hlog' | | exact Hz'].
      eapply spent_mono; [|exact Hsp']. unfold cost. case_decide; lia.
    + exfalso. apply (gt_nz _ _ _ _ _ _ _ G2). rewrite <-(gt_at _ _ _ _ _ _ _ G2), Ht2. by apply Hz.
    + right. split_and!; [| exact Hlog' | | exact Hz'].
      * rewrite at_path_cons by done. by rewrite H0.
      * assert (cost t1 a = 1%nat) as Hc by (unfold cost; by rewrite decide_True). rewrite Hc in Hsp'.
        eapply spent_mono; [|exact (spent_trans _ _ _ _ _ Hsp Hsp')]. lia.
  - etrans; [apply G1 | exact (gt_mono _ _ _ _ _ _ _ G2)].
  - intros b Hb. destruct (gt_log _ _ _ _ _ _ _ G2 b Hb) as [Hb1|[->|(q & Hq & ->)]]; [| by right; left | eauto].
    destruct (gt_log _ _ _ _ _ _ _ G1 b Hb1) as [?|[->|(q & Hq & ->)]]; [by left | by right; left |].
    right. right. exists q. split; [by apply on_way_cons | by rewrite <-Hway].
  - intros b H0 Hb. destruct (gt_used _ _ _ _ _ _ _ G2 b H0 Hb) as [Hb1|(q & Hq & ->)]; [|eauto].
    destruct (gt_used _ _ _ _ _ _ _ G1 b H0 Hb1) as [?|(q & Hq & ->)]; [by left|].
    right. exists q. split; [by apply on_way_cons | by rewrite <-Hway].
Qed.

Lemma got_room p n t ad t1 ad1 a : (1 ≤ n)%nat → got p n t ad t1 ad1 a → room t (S n) → room t1 (cost t1 a).
Proof.
  intros Hn G Hr. destruct (gt_cost _ _ _ _ _ _ _ G) as [[-> ->]|(_ & Hlog & Hsp & _)].
  - eapply room_mono; [|exact Hr]. unfold cost. case_decide; lia.
  - unfold cost. rewrite decide_True by done. apply Hsp. by rewrite Nat.add_1_r.
Qed.

(** Locking the table at place [p]. *)
Lemma wp_bread_node p n s t ad t1 ad1 a m1 (Q : nat → fsys T → Prop) E :
  valid p → got p n t ad t1 ad1 a → trep (store s) (t1 <| th := m1 |>) → (size m1 < MAXHELD)%nat →
  (∀ h, m1 !! h ≠ Some (dev, a)) →
  (∀ h c, m1 !! h = None → trep c (t1 <| th := <[h := (dev, a)]> m1 |>) → Q h (s <| store := c |>)) →
  wp (inS (bread dev a)) Q E s.
Proof.
  intros Hv G Hr Hs Hnot HQ. pose proof (geo_bounds g Hg) as Hgeo.
  destruct (wf_own _ _ _ _ (gt_wf _ _ _ _ _ _ _ G) p Hv) as (Hrng & Hu & Hst).
  { rewrite (gt_at _ _ _ _ _ _ _ G). apply G. }
  rewrite (gt_at _ _ _ _ _ _ _ G) in *. unfold datastart in Hrng.
  eapply (wp_bread _ _ _ _ _ (t1 <| th := m1 |>)); [done | done | done | lia | done|]. exact HQ.
Qed.

Lemma fs_ok_locked p n t ad t1 ad1 a m1 h :
  valid p → got p n t ad t1 ad1 a → fs_ok (t1 <| th := m1 |>) → fs_ok (t1 <| th := <[h := (dev, a)]> m1 |>).
Proof.
  intros Hv G Hok. destruct (wf_own _ _ _ _ (gt_wf _ _ _ _ _ _ _ G) p Hv) as (Hrng & Hu & _).
  { rewrite (gt_at _ _ _ _ _ _ _ G). apply G. }
  rewrite (gt_at _ _ _ _ _ _ _ G) in *. exact (fs_ok_lock (t1 <| th := m1 |>) h a Hok Hrng Hu).
Qed.

(** Locking the table at place [p] and looking for entry [j] of it. *)
Lemma wp_node_entry {A} p j n t ad t1 ad1 a m1 s (k : nat → Z → M (fsys T) A) (Q : A → fsys T → Prop) E :
  p ≠ [] → valid (j :: p) → (1 ≤ n)%nat → got p n t ad t1 ad1 a → trep (store s) (t1 <| th := m1 |>) →
  fs_ok (t1 <| th := m1 |>) → sb s = g → (S (size m1) < MAXHELD)%nat → (∀ h, m1 !! h ≠ Some (dev, a)) →
  (at_path t ad (j :: p) = 0 → room t (S n)) →
  (∀ h addr c t2, m1 !! h = None → trep c t2 →
     got (j :: p) (cost t1 a) (t1 <| th := <[h := (dev, a)]> m1 |>) ad1 t2 ad1 addr →
     wp (k h addr) Q E (s <| store := c |>)) →
  wp (bp ← inS (bread dev a); addr ← entry_or_alloc dev bp j; k bp addr) Q E s.
Proof.
  intros Hp Hv Hn G Hr Hok Hsb Hsz Hnot Hroom HQ.
  destruct (valid_tail j p Hp Hv) as (Hvp & _). pose proof (gt_at _ _ _ _ _ _ _ G) as Hat.
  wp_step. eapply wp_bread_node; [done | done | exact Hr | lia | done|]. intros h c Hh Hc. wp_step.
  set (tL := t1 <| th := <[h := (dev, a)]> m1 |>) in *.
  assert (HatL : at_path tL ad1 p = a) by exact Hat.
  eapply (wp_entry_or_alloc j p h _ tL ad1); rewrite ?HatL; try done.
  - by eapply fs_ok_locked.
  - by eapply wf_file_same, G.
  - apply G.
  - cbn. by rewrite lookup_insert_eq.
  - cbn. rewrite map_size_insert_None by done. done.
  - intros H0. change (room t1 (cost t1 a)). eapply got_room; [done | done|]. apply Hroom.
    destruct (decide (at_path t ad (j :: p) = 0)) as [|Hne]; [done|]. exfalso.
    apply Hne. rewrite <-(ex_keep _ _ _ _ _ _ (gt_ext _ _ _ _ _ _ _ G)) by done. exact H0.
  - intros addr c' t2 Hc' G2. by eapply HQ.
Qed.

Lemma got_distinct p j n m t ad t1 ad1 a m1 t2 ad2 a' :
  p ≠ [] → valid (j :: p) → got p n t ad t1 ad1 a → got (j :: p) m (t1 <| th := m1 |>) ad1 t2 ad2 a' → a ≠ a'.
Proof.
  intros Hp Hv G1 G2 <-. destruct (valid_tail j p Hp Hv) as (Hvp & _).
  assert (H1 : at_path (t1 <| th := m1 |>) ad1 p = a) by exact (gt_at _ _ _ _ _ _ _ G1).
  pose proof (gt_nz _ _ _ _ _ _ _ G1) as Hnz.
  assert (H2 : at_path t2 ad2 p = a)
    by (rewrite (ex_keep _ _ _ _ _ _ (gt_ext _ _ _ _ _ _ _ G2)); [done | done | by rewrite H1]).
  assert (E : p = j :: p).
  { apply (wf_inj _ _ _ _ (gt_wf _ _ _ _ _ _ _ G2)); [done | done | | by rewrite H2].
    by rewrite H2, (gt_at _ _ _ _ _ _ _ G2). }
  apply (f_equal length) in E. cbn in E. lia.
Qed.

Lemma th_empty t : th t = ∅ → t = t <| th := ∅ |>.
Proof. intros H. destruct t. cbn in *. by subst. Qed.

Lemma wp_bmap_indirect j k s c i x t (Q : Z → fsys T → Prop) E :
  fs_ok t → wf_file t (addrs x) → trep c t → sb s = g → i_dev x = dev → (i < length (inodes s))%nat →
  valid [j; k] → th t = ∅ → (at_path t (addrs x) [j; k] = 0 → room t 2) →
  (∀ addr c' t' ad', trep c' t' → got [j; k] 2 t (addrs x) t' ad' addr →
     Q addr (put_ino s c' i (x <| addrs := ad' |>))) →
  wp (addr ← addr_or_alloc i k; bp ← inS (bread dev addr); addr ← entry_or_alloc dev bp j;
      inS (brelse bp);; mret addr) Q E (put_ino s c i x).
Proof.
  intros Hok W Hr Hsb Hdev Hi Hv Hth Hroom HQ.
  assert (Hs0 : (size (th t) < MAXHELD)%nat) by (rewrite Hth, map_size_empty; unfold MAXHELD; lia).
  assert (Hvk : valid [k]) by (by apply (valid_tail j [k])).
  wp_step. eapply wp_addr_or_alloc; [done.. | |].
  { intros H0. eapply room_mono; [|apply Hroom]; [lia|]. rewrite at_path_cons by done. by rewrite H0. }
  intros a c1 t1 ad1 Hc1 G1.
  pose proof (th_empty t1 ltac:(by rewrite (gt_th _ _ _ _ _ _ _ G1))) as Ht1.
  rewrite Ht1 in Hc1. pose proof (gt_ok _ _ _ _ _ _ _ G1) as Hok1. rewrite Ht1 in Hok1.
  eapply (wp_node_entry [k] j 1 t (addrs x) t1 ad1 a ∅); try done.
  { rewrite map_size_empty. unfold MAXHELD. lia. }
  intros h addr c3 t2 Hh Hc3 G2. pose proof (gt_th _ _ _ _ _ _ _ G2) as Hth2. cbn in Hth2. wp_step.
  eapply (wp_brelse h (dev, a)); [exact Hc3 | rewrite Hth2; by rewrite lookup_insert_eq|].
  intros c4 Hc4. wp_step. rewrite Hth2 in Hc4. rewrite delete_insert_id in Hc4 by done.
  eapply HQ; [exact Hc4|]. eapply got_child; [done | done | done | done | | | exact G1 | exact G2]; lia.
Qed.

Lemma wp_bmap_double j1 j2 s c i x t (Q : Z → fsys T → Prop) E :
  fs_ok t → wf_file t (addrs x) → trep c t → sb s = g → i_dev x = dev → (i < length (inodes s))%nat →
  valid [j2; j1; 12] → th t = ∅ → (at_path t (addrs x) [j2; j1; 12] = 0 → room t 3) →
  (∀ addr c' t' ad', trep c' t' → got [j2; j1; 12] 3 t (addrs x) t' ad' addr →
     Q addr (put_ino s c' i (x <| addrs := ad' |>))) →
  wp (addr ← addr_or_alloc i 12; db_bp ← inS (bread dev addr); addr ← entry_or_alloc dev db_bp j1;
      bp ← inS (bread dev addr); addr ← entry_or_alloc dev bp j2;
      inS (brelse bp);; inS (brelse db_bp);; mret addr) Q E (put_ino s c i x).
Proof.
  intros Hok W Hr Hsb Hdev Hi Hv Hth Hroom HQ.
  assert (Hs0 : (size (th t) < MAXHELD)%nat) by (rewrite Hth, map_size_empty; unfold MAXHELD; lia).
  destruct (valid_tail j2 [j1; 12] ltac:(done) Hv) as (Hv1 & _).
  wp_step. eapply wp_addr_or_alloc; [done..| lia | done | |].
  { intros H0. eapply room_mono; [|apply Hroom]; [lia|]. rewrite !at_path_cons by done. by rewrite H0. }
  intros a c1 t1 ad1 Hc1 G1.
  pose proof (th_empty t1 ltac:(by rewrite (gt_th _ _ _ _ _ _ _ G1))) as Ht1.
  rewrite Ht1 in Hc1. pose proof (gt_ok _ _ _ _ _ _ _ G1) as Hok1. rewrite Ht1 in Hok1.
  eapply (wp_node_entry [12] j1 1 t (addrs x) t1 ad1 a ∅); try done.
  { rewrite map_size_empty. unfold MAXHELD. lia. }
  { intros H0. eapply room_mono; [|apply Hroom]; [lia|]. rewrite at_path_cons by done. by rewrite H0. }
  intros h addr c3 t2 Hh Hc3 G2. pose proof (gt_th _ _ _ _ _ _ _ G2) as Hth2. cbn in Hth2.
  assert (G12 : got [j1; 12] 2 t (addrs x) (t2 <| th := ∅ |>) ad1 addr)
    by (eapply got_child; [done | done | done | done | | | exact G1 | exact G2]; lia).
  assert (Ht2 : t2 = t2 <| th := ∅ |> <| th := {[h := (dev, a)]} |>) by (destruct t2; cbn in *; by rewrite Hth2).
  rewrite Ht2 in Hc3.
  eapply (wp_node_entry [j1; 12] j2 2 t (addrs x) (t2 <| th := ∅ |>) ad1 addr {[h := (dev, a)]}); try done.
  { lia. }
  { rewrite <-Ht2. apply G2. }
  { rewrite map_size_singleton. unfold MAXHELD. lia. }
  { intros h' [-> [= ->]]%lookup_singleton_Some.
    exact (got_distinct [12] j1 _ _ _ _ _ _ _ _ _ _ _ ltac:(done) Hv1 G1 G2 eq_refl). }
  intros h2 addr2 c4 t3 Hh2 Hc4 G3. pose proof (gt_th _ _ _ _ _ _ _ G3) as Hth3. cbn in Hth3. wp_step.
  eapply (wp_brelse h2 (dev, addr)); [exact Hc4 | rewrite Hth3; by rewrite lookup_insert_eq|].
  intros c5 Hc5. rewrite Hth3, delete_insert_id in Hc5 by done. wp_step.
  eapply (wp_brelse h (dev, a)); [exact Hc5 | cbn; by rewrite lookup_singleton_eq|].
  intros c6 Hc6. cbn in Hc6. rewrite delete_singleton_eq in Hc6. wp_step.
  change (trep c6 (t3 <| th := ∅ |>)) in Hc6.
  eapply HQ; [exact Hc6|]. eapply got_child; [done | done | done | done | | | exact G12 | exact G3]; lia.
Qed.

Lemma wp_bmap bn s c i x t (Q : Z → fsys T → Prop) E :
  fs_ok t → wf_file t (addrs x) → trep c t → sb s = g → i_dev x = dev → (i < length (inodes s))%nat →
  0 ≤ bn < MAXFILE → th t = ∅ → (at_path t (addrs x) (leaf bn) = 0 → room t 3) →
  (∀ addr c' t' ad', trep c' t' → got (leaf bn) 3 t (addrs x) t' ad' addr →
     Q addr (put_ino s c' i (x <| addrs := ad' |>))) →
  wp (bmap i bn) Q E (put_ino s c i x).
Proof.
  intros Hok W Hr Hsb Hdev Hi Hbn Hth Hroom HQ. destruct (leaf_valid bn Hbn) as [Hv _].
  unfold bmap. wp_step. apply wp_ino_put; [done|]. cbv zeta. rewrite Hdev. unfold leaf in *.
  destruct (Z.ltb_spec bn NDIRECT) as [H1|H1]; [|destruct (Z.ltb_spec (bn - NDIRECT) NINDIRECT) as [H2|H2]].
  - eapply wp_addr_or_alloc; [done.. | rewrite Hth, map_size_empty; unfold MAXHELD; lia | intros H0; eapply room_mono; [|by apply Hroom]; lia |].
    intros addr c' t' ad' Hc G. eapply HQ; [done|]. eapply got_mono; [|done]. lia.
  - eapply wp_bmap_indirect; [done.. | intros H0; eapply room_mono; [|by apply Hroom]; lia |].
    intros addr c' t' ad' Hc G. eapply HQ; [done|]. eapply got_mono; [|done]. lia.
  - destruct (Z.ltb_spec (bn - NDIRECT - NINDIRECT) NDBINDIRECT) as [H3|H3].
    2:{ change MAXFILE with 16523 in Hbn. change NDBINDIRECT with 16384 in H3. change NDIRECT with 11 in H3.
        change NINDIRECT with 128 in H3. lia. }
    eapply wp_bmap_double; done.
Qed.
End routines.
