(* ===== verification/FsCost.v ===== *)
(** * What a run of file blocks costs (fs.c: bmap)

    Looking for a block of a file can fill, and log, only the places on the
    way to it.  [ways b k] collects these places for a run of [k] blocks;
    [enough] says that the log and the free blocks suffice for all of them,
    and [enough_turn] that what one block uses is paid for. *)
From stdpp Require Import gmap functions.
From S2P Require Import Prelude Spinlock Proc Sleep Sleeplock Bytes CString Block Store Fs FsAlloc FsFile.

Lemma size_list_le {A} `{Countable A} (l : list A) : (size (list_to_set l : gset A) ≤ length l)%nat.
Proof.
  induction l as [|x l IH]; cbn; [by rewrite size_empty|]. rewrite size_union_alt, size_singleton.
  assert (size ((list_to_set l : gset A) ∖ {[x]}) ≤ size (list_to_set l : gset A))%nat by (apply subseteq_size; set_solver). lia.
Qed.

(** ** The places that looking for the [k] blocks from [b] can fill or log *)
Fixpoint way (p : path) : list path :=
  match p with [] => [] | _ :: q => p :: way q end.
Definition ways (b : Z) (k : nat) : gset path :=
  list_to_set (bn ← seqZ b (Z.min (Z.of_nat k) (MAXFILE - b)); way (leaf bn)).

Lemma elem_of_way p q : q ∈ way p ↔ on_way p q.
Proof.
  induction p as [|j p IH]; cbn.
  - split; [by intros ?%elem_of_nil|]. intros [Hq Hs]. by apply suffix_nil_inv in Hs.
  - rewrite elem_of_cons, IH. split.
    + intros [->|Hq]; [by apply on_way_refl | by apply on_way_cons].
    + intros [Hq [[|j' k] E]]; cbn in E; [by left|]. injection E as -> ->. right. split; [done | by exists k].
Qed.

Lemma elem_of_ways b k q :
  q ∈ ways b k ↔ ∃ bn, b ≤ bn < b + Z.of_nat k ∧ bn < MAXFILE ∧ on_way (leaf bn) q.
Proof.
  unfold ways. rewrite elem_of_list_to_set, list_elem_of_bind. setoid_rewrite elem_of_way.
  setoid_rewrite elem_of_seqZ. split; intros (bn & H); exists bn.
  - destruct H as [Hw Hr]. split; [lia | split; [lia | done]].
  - destruct H as (Hr & Hm & Hw). split; [done | lia].
Qed.

Lemma ways_valid b k q : 0 ≤ b → q ∈ ways b k → valid q.
Proof.
  intros Hb (bn & Hr & Hm & Hw)%elem_of_ways. eapply on_way_valid; [|exact Hw]. apply leaf_valid. lia.
Qed.

Lemma ways_tail b b' k : b ≤ b' ≤ b + 1 → ways b' k ⊆ ways b (S k).
Proof. intros Hb q (bn & ? & ? & ?)%elem_of_ways. apply elem_of_ways. exists bn. split; [lia | by split]. Qed.

(** A run of up to 128 blocks passes at most four tables. *)
Lemma ways_size b k : 0 ≤ b → (k ≤ 128)%nat → (size (ways b k) ≤ k + 4)%nat.
Proof.
  intros Hb Hk. set (j := (b - 139) / 128).
  assert (Hsub : ways b k ⊆ list_to_set ((leaf <$> seqZ b (Z.of_nat k)) ++ [[11]; [12]; [j; 12]; [j + 1; 12]])).
  { intros q (bn & Hr & Hm & Hw)%elem_of_ways. apply elem_of_list_to_set, elem_of_app.
    assert (Hl : leaf bn ∈ leaf <$> seqZ b (Z.of_nat k)) by (apply list_elem_of_fmap_2, elem_of_seqZ; lia).
    apply elem_of_way in Hw. unfold leaf in Hw, Hl. change NDIRECT with 11 in *. change NINDIRECT with 128 in *. revert Hw Hl.
    destruct (Z.ltb_spec bn 11); [|destruct (Z.ltb_spec (bn - 11) 128)]; cbn [way]; rewrite !elem_of_cons, elem_of_nil.
    - intros [->|[]]. by left.
    - intros [->|[->|[]]]; [by left|]. right. set_solver.
    - intros [->|[->|[->|[]]]]; [by left | right | right; set_solver].
      assert ((bn - 11 - 128) / 128 = j ∨ (bn - 11 - 128) / 128 = j + 1) as [-> | ->] by (unfold j; dlia); set_solver. }
  etrans; [exact (subseteq_size _ _ Hsub)|]. etrans; [apply size_list_le|].
  rewrite length_app, length_fmap, length_seqZ. cbn [length]. lia.
Qed.

Section cost.
Context {T : Type} `{!BlockStore T} `{!StoreLaws T}.
Context (dev : Z) (g : superblock) (Hg : geometry g).
Implicit Types (t : tstate) (ad : list Z).

Abbreviation at_path := (at_path dev).
Abbreviation used := (used dev g).
Abbreviation nfree := (nfree dev g).
Abbreviation fits := (fits dev g).
Abbreviation got := (got dev g).

(** The places still to be logged, and those still to be filled. *)
Definition to_log t ad (W : gset path) : gset path :=
  filter (fun q => at_path t ad q = 0 ∨ (dev, at_path t ad q) ∉ tlog t) W.
Definition to_fill t ad (W : gset path) : gset path := filter (fun q => at_path t ad q = 0) W.

(** Looking for one block needs up to three places at once. *)
Definition enough t ad (b : Z) (k e : nat) : Prop :=
  fits t (size (to_log t ad (ways b k)) + 2 + e) ∧ (size (to_fill t ad (ways b k)) + 2 ≤ nfree t)%nat.

Lemma size_split {A} `{Countable A} (X Y : gset A) : X ⊆ Y → size Y = (size X + size (Y ∖ X))%nat.
Proof. intros HX. rewrite <-size_union_alt. by rewrite (subseteq_union_1_L X Y). Qed.

Lemma size_image {A B} `{Countable A} `{Countable B} (f : A → B) (X : gset A) (Y : gset B) :
  (∀ y, y ∈ Y → ∃ x, x ∈ X ∧ y = f x) → (size Y ≤ size X)%nat.
Proof.
  intros HY. transitivity (length (f <$> elements X)); [|by rewrite length_fmap].
  etrans; [|exact (size_list_le (f <$> elements X))]. apply subseteq_size.
  intros y (x & Hx & ->)%HY. apply elem_of_list_to_set, list_elem_of_fmap_2. by apply elem_of_elements.
Qed.

Lemma to_log_turn t ad t' ad' W :
  (∀ q, q ∈ W → at_path t ad q ≠ 0 → at_path t' ad' q = at_path t ad q) → tlog t ⊆ tlog t' →
  (∀ a, a ∈ tlog t' → a ∈ tlog t ∨ a = bm dev g ∨
     ∃ q, q ∈ W ∧ at_path t' ad' q ≠ 0 ∧ a = (dev, at_path t' ad' q)) →
  (size ({[bm dev g]} ∪ tlog t') + size (to_log t' ad' W) ≤
   size ({[bm dev g]} ∪ tlog t) + size (to_log t ad W))%nat.
Proof.
  intros Hkeep Hmono Hnew. set (L := {[bm dev g]} ∪ tlog t). set (L' := {[bm dev g]} ∪ tlog t').
  assert (HB : to_log t' ad' W ⊆ to_log t ad W).
  { intros q [Hq Hw]%elem_of_filter. apply elem_of_filter. split; [|done].
    destruct (decide (at_path t ad q = 0)) as [|Hn]; [by left | right].
    rewrite (Hkeep q Hw Hn) in Hq. destruct Hq; [done | set_solver]. }
  rewrite (size_split L L') by set_solver. rewrite (size_split _ _ HB).
  assert (size (L' ∖ L) ≤ size (to_log t ad W ∖ to_log t' ad' W))%nat; [|lia].
  apply (size_image (fun q => (dev, at_path t' ad' q))). intros a Ha.
  destruct (Hnew a) as [?|[?|(q & Hw & Hn & ->)]]; [set_solver.. |]. exists q. split; [|done].
  apply elem_of_difference. unfold to_log. rewrite !elem_of_filter. split.
  - split; [|done]. destruct (decide (at_path t ad q = 0)) as [|Hn']; [by left | right].
    rewrite <-(Hkeep q Hw Hn'). set_solver.
  - intros [[?|Hq] _]; [done | set_solver].
Qed.

Lemma nfree_size t : nfree t = size (list_to_set (filter (fun b => used t b = false) (seqZ 0 (sb_size g))) : gset Z).
Proof. unfold FsAlloc.nfree. rewrite size_list_to_set; [done|]. apply NoDup_filter, NoDup_seqZ. Qed.

Lemma to_fill_turn t ad t' ad' W :
  (∀ q, q ∈ W → at_path t ad q ≠ 0 → at_path t' ad' q = at_path t ad q ∧ used t (at_path t ad q) = true) →
  (∀ b, 0 ≤ b → used t' b = true → used t b = true ∨
     ∃ q, q ∈ W ∧ at_path t' ad' q ≠ 0 ∧ b = at_path t' ad' q) →
  (nfree t + size (to_fill t' ad' W) ≤ nfree t' + size (to_fill t ad W))%nat.
Proof.
  intros Hkeep Hnew. rewrite !nfree_size. set (F := list_to_set _ : gset Z). set (F' := list_to_set _ : gset Z).
  assert (HB : to_fill t' ad' W ⊆ to_fill t ad W).
  { intros q [Hq Hw]%elem_of_filter. apply elem_of_filter. split; [|done].
    destruct (decide (at_path t ad q = 0)) as [|Hn]; [done|]. destruct (Hkeep q Hw Hn). congruence. }
  rewrite (size_split _ _ HB).
  assert (size (F ∖ F') ≤ size (to_fill t ad W ∖ to_fill t' ad' W))%nat.
  { apply (size_image (at_path t' ad')). intros b [Hb Hb']%elem_of_difference. unfold F, F' in *.
    rewrite elem_of_list_to_set, list_elem_of_filter, elem_of_seqZ in Hb, Hb'. destruct Hb as [Hf Hr].
    assert (Hu : used t' b = true) by (apply not_false_is_true; tauto).
    destruct (Hnew b) as [?|(q & Hw & Hn & ->)]; [lia | done | congruence |]. exists q. split; [|done].
    apply elem_of_difference. unfold to_fill. rewrite !elem_of_filter. split; [|tauto]. split; [|done].
    destruct (decide (at_path t ad q = 0)) as [|Hn']; [done|]. destruct (Hkeep q Hw Hn') as [E ?]. congruence. }
  assert (size F ≤ size F' + size (F ∖ F'))%nat by (rewrite <-size_union_alt; apply subseteq_size; intros b Hb; destruct (decide (b ∈ F')); set_solver).
  lia.
Qed.

Lemma size_filter_mono {A} `{Countable A} (P : A → Prop) `{!∀ x, Decision (P x)} (X Y : gset A) :
  X ⊆ Y → (size (filter P X) ≤ size (filter P Y))%nat.
Proof. intros HX. apply subseteq_size. intros x [? ?]%elem_of_filter. apply elem_of_filter. auto. Qed.

Lemma enough_tail t ad b b' k e : b ≤ b' ≤ b + 1 → enough t ad b (S k) e → enough t ad b' k e.
Proof.
  intros Hb [H1 H2]. pose proof (ways_tail b b' k Hb) as Hw. split.
  - eapply fits_mono; [|exact H1]. unfold to_log. pose proof (size_filter_mono (fun q => at_path t ad q = 0 ∨ (dev, at_path t ad q) ∉ tlog t) _ _ Hw). lia.
  - unfold to_fill. pose proof (size_filter_mono (fun q => at_path t ad q = 0) _ _ Hw). unfold to_fill in H2. lia.
Qed.

Lemma enough_room t ad b k e :
  0 ≤ b < MAXFILE → at_path t ad (leaf b) = 0 → enough t ad b (S k) e → room dev g t 3.
Proof.
  intros Hb H0 [H1 H2].
  assert (Hin : leaf b ∈ ways b (S k)) by (apply elem_of_ways; exists b; split; [lia|]; split; [lia|]; apply on_way_refl; unfold leaf; by repeat case_match).
  assert (Hf : (1 ≤ size (to_fill t ad (ways b (S k))))%nat).
  { rewrite <-(size_singleton (C := gset path) (leaf b)). apply subseteq_size. intros q ->%elem_of_singleton. by apply elem_of_filter. }
  assert (Hl : (size (to_fill t ad (ways b (S k))) ≤ size (to_log t ad (ways b (S k))))%nat).
  { apply subseteq_size. intros q [? ?]%elem_of_filter. apply elem_of_filter. auto. }
  split; [|lia]. eapply fits_mono; [|exact H1]. lia.
Qed.

(** One block found, and its contents logged. *)
Lemma enough_turn t ad t1 ad1 addr b k e x :
  wf_file dev g t ad → 0 ≤ b < MAXFILE → got (leaf b) 3 t ad t1 ad1 addr → (dev, addr) ≠ bm dev g →
  enough t ad b (S k) e → (size ({[(dev, addr)]} ∪ tlog t1) ≤ tcap t1)%nat ∧ enough (tstore (dev, addr) x t1) ad1 b (S k) e.
Proof.
  intros W Hb G Hbm [H1 H2]. set (t' := tstore (dev, addr) x t1). set (Ws := ways b (S k)) in *.
  destruct (leaf_valid _ Hb) as [Hv Hin]. pose proof (gt_at _ _ _ _ _ _ _ _ _ G) as Hat.
  pose proof (gt_wf _ _ _ _ _ _ _ _ _ G) as W1. pose proof (gt_ext _ _ _ _ _ _ _ _ _ G) as Ext.
  assert (Hno : no_table dev t1 ad1 (dev, addr)).
  { rewrite <-Hat. apply (no_table_leaf dev g); [done | done | done | rewrite Hat; apply G]. }
  assert (Hpath : ∀ q, q ∈ Ws → at_path t' ad1 q = at_path t1 ad1 q).
  { intros q Hq. apply at_path_store; [done|]. eapply ways_valid, Hq. lia. }
  assert (Hkeep : ∀ q, q ∈ Ws → at_path t ad q ≠ 0 → at_path t' ad1 q = at_path t ad q).
  { intros q Hq Hn. rewrite Hpath by done. apply (ex_keep _ _ _ _ _ _ Ext); [eapply ways_valid, Hq; lia | done]. }
  assert (Hway : ∀ q, on_way (leaf b) q → q ∈ Ws ∧ at_path t1 ad1 q ≠ 0).
  { intros q Hq. split; [apply elem_of_ways; exists b; split; [lia | split; [lia | done]]|].
    eapply on_way_nz; [exact Hq|]. rewrite Hat. apply G. }
  assert (Hlog : (size ({[bm dev g]} ∪ tlog t') + size (to_log t' ad1 Ws) ≤ size ({[bm dev g]} ∪ tlog t) + size (to_log t ad Ws))%nat).
  { apply to_log_turn; [done | etrans; [apply G | apply union_subseteq_r] |].
    intros a [->%elem_of_singleton|Ha]%elem_of_union.
    - right. right. destruct (Hway (leaf b)) as [Hw Hn]; [apply on_way_refl; by intros E; rewrite E in Hv|].
      exists (leaf b). rewrite Hpath by done. rewrite Hat in Hn |- *. done.
    - destruct (gt_log _ _ _ _ _ _ _ _ _ G a Ha) as [?|[?|(q & Hq & ->)]]; [by left | by right; left | right; right].
      destruct (Hway q Hq) as [Hw Hn]. exists q. by rewrite Hpath. }
  assert (Hfree : (nfree t + size (to_fill t' ad1 Ws) ≤ nfree t' + size (to_fill t ad Ws))%nat).
  { apply to_fill_turn.
    - intros q Hq Hn. split; [by apply Hkeep|]. apply W; [eapply ways_valid, Hq; lia | done].
    - intros c Hc. unfold t'. rewrite used_tstore by done. intros Hu.
      destruct (gt_used _ _ _ _ _ _ _ _ _ G c Hc Hu) as [?|(q & Hq & ->)]; [by left | right].
      destruct (Hway q Hq) as [Hw Hn]. exists q. by rewrite Hpath. }
  destruct (ex_carries _ _ _ _ _ _ Ext) as (_ & Hc1 & _). assert (Hc' : tcap t' = tcap t) by exact Hc1.
  unfold FsAlloc.fits in H1. split; [|split; [unfold FsAlloc.fits|]; fold Ws; lia].
  assert (size ({[(dev, addr)]} ∪ tlog t1) ≤ size ({[bm dev g]} ∪ tlog t'))%nat by (apply subseteq_size, union_subseteq_r).
  lia.
Qed.
End cost.
