(* ===== verification/FsRw.v ===== *)
(** * Reading and writing files (fs.c: readi, writei, iupdate)

    [file_ok] is the invariant of an inode whose file is on the disk.
    [readi] returns the bytes of the file; [writei] replaces them, extends
    the file, keeps the invariant and leaves every block of other files
    alone; [iupdate] makes the inode on the disk equal to the one in memory. *)
From stdpp Require Import gmap functions.
From S2P Require Import Prelude Spinlock Proc Sleep Sleeplock Bytes CString Block Store Fs FsAlloc FsFile FsCost.

Lemma take_app_drop {A} a b (l : list A) : take a l ++ take b (drop a l) = take (a + b) l.
Proof.
  revert l. induction a as [|a IH]; intros [|x l]; cbn; [by rewrite take_nil | done | by rewrite take_nil | by rewrite IH].
Qed.

Definition MAXBYTES : Z := MAXFILE * BSIZE.

(** ** struct dinode *)
Lemma slice_splice_in d off l a n :
  (off + length l ≤ length d)%nat → (a + n ≤ length l)%nat → slice (splice d off l) (off + a) n = slice l a n.
Proof.
  intros H Ha. apply list_eq. intros i. rewrite !lookup_slice. case_decide; [|done].
  rewrite lookup_splice by done. rewrite decide_True by lia. f_equal. lia.
Qed.

Lemma slice_words ad k v : ad !! k = Some v → slice (concat (le_bytes 4 <$> ad)) (4 * k) 4 = le_bytes 4 v.
Proof.
  revert k. induction ad as [|a ad IH]; intros k Hk; [done|]. rewrite fmap_cons. cbn [concat].
  destruct k as [|k]; cbn in Hk.
  - injection Hk as ->. unfold slice. rewrite drop_0, take_app_le by (by rewrite length_le_bytes).
    apply take_ge. by rewrite length_le_bytes.
  - rewrite <-(IH k Hk). unfold slice. f_equal. rewrite drop_app_ge by (rewrite length_le_bytes; lia).
    rewrite length_le_bytes. f_equal. lia.
Qed.

Lemma length_words ad : length (concat (le_bytes 4 <$> ad)) = (4 * length ad)%nat.
Proof.
  induction ad as [|a ad IH]; [done|]. rewrite fmap_cons. cbn [concat]. rewrite length_app, IH, length_le_bytes. cbn. lia.
Qed.

Lemma bytes_words ad : Forall is_byte (concat (le_bytes 4 <$> ad)).
Proof. induction ad as [|a ad IH]; [constructor|]. rewrite fmap_cons. cbn [concat]. apply Forall_app. split; [apply (bytes_le 4) | done]. Qed.

Lemma dinode_off_le n : (dinode_off n + 64 ≤ 512)%nat.
Proof. unfold dinode_off. change IPB with 8. dlia. Qed.

(** [put_dinode] is one splice of 64 bytes. *)
Definition dinode_bytes (ip : inode) : list Z :=
  le_bytes 2 (i_type ip) ++ le_bytes 2 (major ip) ++ le_bytes 2 (minor ip) ++ le_bytes 2 (nlink ip) ++
  le_bytes 4 (i_size ip) ++ concat (le_bytes 4 <$> addrs ip).

Lemma length_dinode_bytes ip : length (addrs ip) = 13%nat → length (dinode_bytes ip) = 64%nat.
Proof. intros H. unfold dinode_bytes. rewrite !length_app, !length_le_bytes, length_words, H. done. Qed.

Lemma put_dinode_bytes ip x :
  length (addrs ip) = 13%nat → length x = 512%nat → put_dinode ip x = splice x (dinode_off (inum ip)) (dinode_bytes ip).
Proof.
  intros Ha Hx. pose proof (dinode_off_le (inum ip)) as Ho. unfold put_dinode, dinode_bytes, put16, put32.
  set (o := dinode_off (inum ip)) in *. pose proof (length_words (addrs ip)) as Hw. rewrite Ha in Hw.
  pose proof (length_le_bytes 2) as H2. pose proof (length_le_bytes 4) as H4.
  rewrite !(assoc_L (++)).
  replace (o + 2)%nat with (o + length (le_bytes 2 (i_type ip)))%nat by (by rewrite H2). rewrite splice_app by (rewrite !H2; lia).
  replace (o + 4)%nat with (o + length (le_bytes 2 (i_type ip) ++ le_bytes 2 (major ip)))%nat by (by rewrite length_app, !H2).
  rewrite splice_app by (rewrite ?length_app, !H2; lia).
  replace (o + 6)%nat with (o + length ((le_bytes 2 (i_type ip) ++ le_bytes 2 (major ip)) ++ le_bytes 2 (minor ip)))%nat
    by (by rewrite !length_app, !H2).
  rewrite splice_app by (rewrite ?length_app, !H2; lia).
  replace (o + 8)%nat with (o + length (((le_bytes 2 (i_type ip) ++ le_bytes 2 (major ip)) ++ le_bytes 2 (minor ip)) ++ le_bytes 2 (nlink ip)))%nat
    by (by rewrite !length_app, !H2).
  rewrite splice_app by (rewrite ?length_app, !H2, ?H4; lia).
  replace (o + 12)%nat with (o + length ((((le_bytes 2 (i_type ip) ++ le_bytes 2 (major ip)) ++ le_bytes 2 (minor ip)) ++ le_bytes 2 (nlink ip)) ++ le_bytes 4 (i_size ip)))%nat
    by (by rewrite !length_app, !H2, !H4).
  rewrite splice_app; [done|]. rewrite ?length_app, !H2, ?H4. rewrite Hw. lia.
Qed.

Lemma is_block_put_dinode ip x : length (addrs ip) = 13%nat → is_block x → is_block (put_dinode ip x).
Proof.
  intros Ha Hx. rewrite put_dinode_bytes; [|done|apply Hx]. apply is_block_splice; [done| |].
  - rewrite length_dinode_bytes by done. apply dinode_off_le.
  - unfold dinode_bytes. rewrite !Forall_app. split_and!; try apply bytes_le. apply bytes_words.
Qed.

(** The fields of an inode as C keeps them. *)
Record fields_ok (ip : inode) : Prop := {
  fd_short : ∀ v, v ∈ [i_type ip; major ip; minor ip; nlink ip] → - 2 ^ 15 ≤ v < 2 ^ 15;
  fd_size : 0 ≤ i_size ip < 2 ^ 32;
  fd_addrs : length (addrs ip) = 13%nat ∧ ∀ a, a ∈ addrs ip → 0 ≤ a < 2 ^ 32
}.

Lemma i16_id v : - 2 ^ 15 ≤ v < 2 ^ 15 → i16 (v mod 256 ^ 2) = v.
Proof. intros H. unfold i16. change (256 ^ 2) with 65536. dlia. Qed.

(** The copy of the fields of [ip] into [jp], as [ilock] and [iupdate] do. *)
Definition copy_fields (ip jp : inode) : inode :=
  jp <| i_type := i_type ip |> <| major := major ip |> <| minor := minor ip |> <| nlink := nlink ip |>
     <| i_size := i_size ip |> <| addrs := addrs ip |>.

Lemma get_put_dinode ip jp x :
  fields_ok ip → length x = 512%nat → inum jp = inum ip →
  get_dinode (put_dinode ip x) jp = copy_fields ip jp.
Proof.
  intros [Hs Hz [Ha Hb]] Hx Hn. rewrite put_dinode_bytes by done. unfold get_dinode. rewrite Hn.
  pose proof (dinode_off_le (inum ip)) as Ho. set (o := dinode_off (inum ip)) in *.
  pose proof (length_dinode_bytes ip Ha) as Hl.
  assert (Hin : ∀ a n, (a + n ≤ 64)%nat → slice (splice x o (dinode_bytes ip)) (o + a) n = slice (dinode_bytes ip) a n).
  { intros a n Hn'. apply slice_splice_in; lia. }
  assert (H0 : slice (splice x o (dinode_bytes ip)) o 2 = slice (dinode_bytes ip) 0 2).
  { rewrite <-(Hin 0%nat) by lia. by rewrite Nat.add_0_r. }
  unfold copy_fields, get16, get32. rewrite H0, !Hin by lia.
  assert (Hw : ∀ v, v ∈ [i_type ip; major ip; minor ip; nlink ip] → i16 (le_val (le_bytes 2 v)) = v).
  { intros v Hv. rewrite le_val_bytes. by apply i16_id, Hs. }
  assert (Hsz : le_val (le_bytes 4 (i_size ip)) = i_size ip) by (rewrite le_val_bytes; apply Z.mod_small; lia).
  assert (Had : (fun k : nat => le_val (slice (splice x o (dinode_bytes ip)) (o + 12 + 4 * k) 4)) <$> seq 0 13 = addrs ip).
  { apply list_eq. intros k. rewrite list_lookup_fmap. destruct (decide (k < 13)%nat) as [Hk|Hk].
    - rewrite lookup_seq_lt by done. cbn. destruct (lookup_lt_is_Some_2 (addrs ip) k) as [v Hv]; [lia|].
      rewrite Hv. f_equal. rewrite <-Nat.add_assoc, Hin by lia.
      change (le_val (slice (concat (le_bytes 4 <$> addrs ip)) (4 * k) 4) = v).
      rewrite (slice_words _ _ v Hv), le_val_bytes. apply Z.mod_small. apply Hb. by eapply list_elem_of_lookup_2.
    - rewrite (lookup_seq_ge 0 13 k) by lia. cbn. symmetry. apply lookup_ge_None. lia. }
  rewrite Had. change (slice (dinode_bytes ip) 0 2) with (le_bytes 2 (i_type ip)).
  change (slice (dinode_bytes ip) 2 2) with (le_bytes 2 (major ip)).
  change (slice (dinode_bytes ip) 4 2) with (le_bytes 2 (minor ip)).
  change (slice (dinode_bytes ip) 6 2) with (le_bytes 2 (nlink ip)).
  change (slice (dinode_bytes ip) 8 4) with (le_bytes 4 (i_size ip)).
  rewrite Hsz, !Hw by set_solver. done.
Qed.

(** The other inodes of the block are not touched. *)
Lemma get_put_dinode_other ip jp x :
  length (addrs ip) = 13%nat → length x = 512%nat → dinode_off (inum jp) ≠ dinode_off (inum ip) →
  get_dinode (put_dinode ip x) jp = get_dinode x jp.
Proof.
  intros Ha Hx Hn. rewrite put_dinode_bytes by done. pose proof (length_dinode_bytes ip Ha) as Hl.
  pose proof (dinode_off_le (inum ip)) as Ho.
  assert (Hd : (dinode_off (inum jp) + 64 ≤ dinode_off (inum ip) ∨ dinode_off (inum ip) + 64 ≤ dinode_off (inum jp))%nat).
  { revert Hn. unfold dinode_off. change IPB with 8. dlia. }
  unfold get_dinode, get16, get32. rewrite !slice_splice_other by lia.
  assert (Heq : (λ k : nat, le_val (slice (splice x (dinode_off (inum ip)) (dinode_bytes ip)) (dinode_off (inum jp) + 12 + 4 * k) 4)) <$> seq 0 13
    = (λ k : nat, le_val (slice x (dinode_off (inum jp) + 12 + 4 * k) 4)) <$> seq 0 13); [|by rewrite Heq].
  apply list_fmap_ext. intros k v Hv%lookup_seq. rewrite slice_splice_other by lia. done.
Qed.

Section rw.
Context {T : Type} `{!BlockStore T} `{!StoreLaws T}.
Context (dev : Z) (g : superblock) (Hg : geometry g).
Implicit Types (s : fsys T) (t : tstate) (ad : list Z).

Abbreviation fs_ok := (fs_ok dev g).
Abbreviation wf_file := (wf_file dev g).
Abbreviation at_path := (at_path dev).
Abbreviation fbyte := (fbyte dev).
Abbreviation used := (used dev g).
Abbreviation room := (room dev g).
Abbreviation fits := (fits dev g).
Abbreviation got := (got dev g).

(** Blocks that hold the bytes below [n] are there. *)
Definition mapped_to (t : tstate) (ad : list Z) (n : Z) : Prop :=
  ∀ bn, 0 ≤ bn → bn * BSIZE < n → at_path t ad (leaf bn) ≠ 0.

Record file_ok (t : tstate) (x : inode) : Prop := {
  f_wf : wf_file t (addrs x);
  f_dev : i_dev x = dev;
  f_inum : 0 ≤ inum x < sb_ninodes g;
  f_size : 0 ≤ i_size x ≤ MAXBYTES;
  f_mapped : mapped_to t (addrs x) (i_size x)
}.

Lemma got_mapped p n t ad t' ad' addr :
  got p n t ad t' ad' addr → at_path t ad p ≠ 0 → t' = t ∧ ad' = ad ∧ addr = at_path t ad p.
Proof.
  intros G Hne. destruct (gt_cost _ _ _ _ _ _ _ _ _ G) as [[-> ->]|(H0 & _)]; [|done].
  split_and!; [done | done|]. symmetry. apply G.
Qed.

Lemma leaf_block t ad bn : wf_file t ad → 0 ≤ bn < MAXFILE → at_path t ad (leaf bn) ≠ 0 →
  0 ≤ at_path t ad (leaf bn) < FSSIZE ∧ (dev, at_path t ad (leaf bn)) ∉ tstale t.
Proof.
  intros W Hb Hne. destruct (leaf_valid bn Hb) as [Hv _]. pose proof (geo_bounds g Hg).
  destruct (wf_own _ _ _ _ W _ Hv Hne) as (Hr & _ & Hs). unfold datastart in Hr. split; [lia | done].
Qed.

(** Bytes that remain, in blocks that remain. *)
Definition turns (off r : Z) (k : nat) : Prop := r = 0 ∨ off mod BSIZE + r ≤ BSIZE * Z.of_nat k.

Lemma turns_next off r k : 0 ≤ off → 0 < r → turns off r k →
  let m := Z.min r (BSIZE - off mod BSIZE) in
  ∃ k', k = S k' ∧ 0 < m ≤ r ∧ m ≤ BSIZE - off mod BSIZE ∧ turns (off + m) (r - m) k'.
Proof.
  intros Ho Hr Ht m. unfold turns in *. change BSIZE with 512 in *. destruct k as [|k'].
  - exfalso. destruct Ht; [lia|]. dlia.
  - exists k'. split; [done|]. unfold m. destruct (Z.min_spec r (512 - off mod 512)) as [[H1 ->]|[H1 ->]].
    + split; [lia|]. split; [lia|]. left. lia.
    + split; [dlia|]. split; [lia|]. right. destruct Ht as [|Ht]; [lia|].
      assert ((off + (512 - off mod 512)) mod 512 = 0) as -> by dlia. lia.
Qed.

Lemma bn_range off : 0 ≤ off < MAXBYTES → 0 ≤ off / BSIZE < MAXFILE.
Proof. unfold MAXBYTES. change MAXFILE with 16523. change BSIZE with 512. intros. dlia. Qed.

(** ** readi *)
Lemma wp_readi_loop k fuel s c i x t off tot n (Q : list Z → fsys T → Prop) E :
  (k ≤ fuel)%nat → turns off (n - tot) k → 0 ≤ off → tot ≤ n → off + (n - tot) ≤ MAXBYTES →
  fs_ok t → wf_file t (addrs x) → mapped_to t (addrs x) (off + (n - tot)) → trep c t → sb s = g →
  i_dev x = dev → (i < length (inodes s))%nat → th t = ∅ →
  (∀ c', trep c' t → Q (fbyte t (addrs x) <$> seqZ off (n - tot)) (put_ino s c' i x)) →
  wp (readi_loop fuel i off tot n) Q E (put_ino s c i x).
Proof.
  revert k s c off tot Q. induction fuel as [|fuel IH]; intros k s c off tot Q Hk Ht Hoff Htot Hmax Hok W Hmap Hr Hsb Hdev Hi Hth HQ;
    cbn [readi_loop]; (destruct (Z.ltb_spec tot n); [|wp_step; replace (n - tot) with 0 in HQ by lia; by apply HQ]);
    destruct (turns_next off (n - tot) k) as (k' & -> & Hm & Hm' & Ht'); try done; try lia.
  cbv zeta in *. set (m := Z.min (n - tot) (BSIZE - off mod BSIZE)) in *.
  assert (Hbn : 0 ≤ off / BSIZE < MAXFILE) by (apply bn_range; lia).
  assert (Hne : at_path t (addrs x) (leaf (off / BSIZE)) ≠ 0).
  { apply Hmap; [lia|]. change BSIZE with 512. dlia. }
  wp_step. apply wp_ino_put; [done|]. wp_step.
  eapply (wp_bmap dev g Hg); [done..|]. intros addr c1 t1 ad1 Hc1 G.
  destruct (got_mapped _ _ _ _ _ _ _ G Hne) as (-> & -> & ->). destruct (leaf_block t (addrs x) _ W Hbn Hne) as [Hrng Hst].
  wp_step. rewrite Hdev. eapply wp_bread; [exact Hc1 | by intros h; rewrite Hth | done | done | rewrite Hth, map_size_empty; unfold MAXHELD; lia|].
  intros h c2 Hh Hc2. wp_step. eapply wp_get_data; [exact Hc2 | cbn; by rewrite lookup_insert_eq|].
  intros c3 Hc3. wp_step. eapply wp_brelse_same; [exact Hc3 | done|]. intros c4 Hc4. wp_step.
  rewrite addrs_id.
  eapply (IH k' s c4); try done; try lia.
  { by replace (n - (tot + m)) with (n - tot - m) by lia. }
  { by replace (off + m + (n - (tot + m))) with (off + (n - tot)) by lia. }
  intros c5 Hc5. wp_step. cbn [tv update_field]. rewrite slice_fbyte; [|apply Hok|done|lia|lia].
  rewrite <-fmap_app. replace (n - (tot + m)) with (n - tot - m) by lia.
  rewrite <-seqZ_app by lia. replace (m + (n - tot - m)) with (n - tot) by lia. by apply HQ.
Qed.

Context (dev_read : Z → option (nat → Z → M (fsys T) (Z * list Z))).
Context (dev_write : Z → option (nat → list Z → Z → M (fsys T) Z)).

Lemma u32_add off n : 0 ≤ off < 2 ^ 32 → 0 ≤ n < 2 ^ 32 → u32 (off + n) <? off = (2 ^ 32 <=? off + n).
Proof. intros Ho Hn. unfold u32. destruct (Z.leb_spec (2 ^ 32) (off + n)); [apply Z.ltb_lt | apply Z.ltb_ge]; dlia. Qed.

Lemma wp_readi s c i x t off n (Q : Z * list Z → fsys T → Prop) E :
  fs_ok t → file_ok t x → i_type x ≠ T_DEV → trep c t → sb s = g → (i < length (inodes s))%nat → th t = ∅ →
  0 ≤ off ≤ i_size x → 0 ≤ n → off + n < 2 ^ 32 →
  (∀ c', let m := Z.min n (i_size x - off) in
     trep c' t → Q (m, fbyte t (addrs x) <$> seqZ off m) (put_ino s c' i x)) →
  wp (readi dev_read i off n) Q E (put_ino s c i x).
Proof.
  intros Hok F Hty Hr Hsb Hi Hth Hoff Hn Hov HQ. unfold readi. wp_step. apply wp_ino_put; [done|].
  rewrite (proj2 (Z.eqb_neq _ _) Hty). pose proof (f_size _ _ F) as Hsz.
  rewrite u32_id by lia. rewrite (proj2 (Z.ltb_ge _ _)) by lia.
  destruct (Z.gtb_spec off (i_size x)); [lia|]. cbn [orb]. cbv zeta.
  assert (Hm : (if off + n >? i_size x then u32 (i_size x - off) else n) = Z.min n (i_size x - off)).
  { unfold MAXBYTES in Hsz. change (MAXFILE * BSIZE) with 8459776 in Hsz.
    destruct (Z.gtb_spec (off + n) (i_size x)); [rewrite u32_id; lia | lia]. }
  rewrite Hm. set (m := Z.min n (i_size x - off)) in *. wp_step.
  eapply (wp_readi_loop (Z.to_nat (m / BSIZE + 2)) _ s c i x t off 0 m); try done; try lia.
  - right. change BSIZE with 512. rewrite Z2Nat.id by dlia. dlia.
  - apply F.
  - intros bn Hb Hlt. apply F; [done|]. lia.
  - apply F.
  - intros c' Hc'. wp_step. rewrite Z.sub_0_r. rewrite i32_id; [by apply HQ|].
    unfold MAXBYTES in Hsz. change (MAXFILE * BSIZE) with 8459776 in Hsz. unfold INT_MIN, INT_MAX. lia.
Qed.
(** ** iupdate *)
Lemma iblock_range n : 0 ≤ n < sb_ninodes g →
  IBLOCK n g = sb_inodestart g + n / IPB ∧ 1 < IBLOCK n g < sb_bmapstart g.
Proof.
  intros Hn. pose proof (geo_bounds g Hg) as Hgeo. destruct Hg as [_ [_ Hi] _]. unfold IBLOCK.
  change IPB with 8 in *. assert (n / 8 ≤ (sb_ninodes g - 1) / 8) by (apply Z.div_le_mono; lia).
  assert (0 ≤ n / 8) by (apply Z.div_pos; lia). unfold FSSIZE in *. rewrite u32_id; lia.
Qed.

Lemma fs_ok_meta t b x : fs_ok t → 1 < b < sb_bmapstart g → is_block x → fs_ok (tstore (dev, b) x t).
Proof.
  intros Hok Hb Hx.
  assert (Hu : used (tstore (dev, b) x t) = used t) by (apply used_tstore; intros [=]; lia).
  split.
  - intros a. rewrite tv_tstore. case_decide; [done | apply Hok].
  - rewrite tv_tstore, decide_False by (intros [=]; lia). apply Hok.
  - intros d Hd. cbn. apply not_elem_of_difference. left. by apply Hok.
  - rewrite Hu. apply Hok.
  - rewrite Hu. apply Hok.
Qed.

Definition iblock (x : inode) : baddr := (dev, IBLOCK (inum x) g).
Definition inode_stored (x : inode) (t : tstate) : tstate :=
  tstore (iblock x) (put_dinode x (tv t (iblock x))) t.

Lemma wp_iupdate s c i x t (Q : unit → fsys T → Prop) E :
  fs_ok t → i_dev x = dev → 0 ≤ inum x < sb_ninodes g → trep c t → sb s = g →
  (i < length (inodes s))%nat → th t = ∅ → (size ({[iblock x]} ∪ tlog t) ≤ tcap t)%nat →
  (∀ c', trep c' (inode_stored x t) → Q tt (put_ino s c' i x)) →
  wp (iupdate i) Q E (put_ino s c i x).
Proof.
  intros Hok Hdev Hn Hr Hsb Hi Hth Hc HQ. pose proof (geo_bounds g Hg) as Hgeo.
  destruct (iblock_range _ Hn) as [Hib Hrng]. unfold iupdate. wp_step. apply wp_ino_put; [done|].
  do 2 wp_step. change (sb (put_ino s c i x)) with (sb s). rewrite Hsb, Hdev. wp_step.
  eapply wp_bread; [exact Hr | by intros h; rewrite Hth | | lia | rewrite Hth, map_size_empty; unfold MAXHELD; lia|].
  { apply Hok. unfold datastart. lia. }
  intros h c1 Hh Hc1. wp_step. eapply wp_get_data; [exact Hc1 | cbn; by rewrite lookup_insert_eq|].
  intros c2 Hc2. eapply wp_write_back_end; [exact Hc2 | done | done|]. exact HQ.
Qed.

(** ** writei *)
Record wrote (t : tstate) (ad : list Z) (t' : tstate) (ad' : list Z) (off : Z) (l : list Z) : Prop := {
  w_ok : fs_ok t';
  w_wf : wf_file t' ad';
  w_th : th t' = ∅;
  w_bytes : ∀ o, 0 ≤ o < MAXBYTES → fbyte t' ad' o =
    if decide (off ≤ o < off + Z.of_nat (length l)) then default 0 (l !! Z.to_nat (o - off)) else fbyte t ad o;
  w_keep : ∀ p, valid p → at_path t ad p ≠ 0 → at_path t' ad' p = at_path t ad p;
  w_new : ∀ p, valid p → at_path t ad p = 0 → at_path t' ad' p ≠ 0 →
    0 ≤ at_path t' ad' p ∧ used t (at_path t' ad' p) = false;
  w_mapped : ∀ o, off ≤ o < off + Z.of_nat (length l) → at_path t' ad' (leaf (o / BSIZE)) ≠ 0;
  w_used : ∀ b, 0 ≤ b → used t b = true → used t' b = true;
  w_ad : (∀ o, off ≤ o < off + Z.of_nat (length l) → at_path t ad (leaf (o / BSIZE)) ≠ 0) → ad' = ad;
  w_frame : ∀ d b, (d, b) ≠ bm dev g → (d = dev → 0 ≤ b ∧ used t b = true) →
    (∀ p, valid p → at_path t ad p ≠ 0 → (dev, at_path t ad p) ≠ (d, b)) → tv t' (d, b) = tv t (d, b);
  w_carries : carries t t';
  w_fill : ∀ b, 0 ≤ b → used t' b = true → used t b = true ∨
    ∃ o q, off ≤ o < off + Z.of_nat (length l) ∧ on_way (leaf (o / BSIZE)) q ∧ b = at_path t' ad' q
}.

Lemma wrote_nil t ad off : fs_ok t → wf_file t ad → th t = ∅ → 0 ≤ off → wrote t ad t ad off [].
Proof.
  intros Hok W Hth Hoff. split; try done.
  - intros o Ho. cbn. rewrite decide_False by lia. done.
  - intros o Ho. cbn in Ho. lia.
  - by left.
Qed.

Lemma wrote_app t1 ad1 t2 ad2 t3 ad3 off l1 l2 :
  0 ≤ off → off + Z.of_nat (length l1) + Z.of_nat (length l2) ≤ MAXBYTES → (0 < length l1)%nat →
  wrote t1 ad1 t2 ad2 off l1 → wrote t2 ad2 t3 ad3 (off + Z.of_nat (length l1)) l2 →
  wrote t1 ad1 t3 ad3 off (l1 ++ l2).
Proof.
  intros Hoff Hmax Hl1 A B. split; [apply B | apply B | apply B | ..].
  - intros o Ho. rewrite (w_bytes _ _ _ _ _ _ B) by done. rewrite length_app. case_decide as D1.
    + rewrite decide_True by lia. rewrite lookup_app_r by lia. do 2 f_equal. lia.
    + rewrite (w_bytes _ _ _ _ _ _ A) by done. case_decide as D2.
      * rewrite decide_True by lia. by rewrite lookup_app_l by lia.
      * by rewrite decide_False by lia.
  - intros p Hp Hne. rewrite (w_keep _ _ _ _ _ _ B); [by apply A | done|].
    by rewrite (w_keep _ _ _ _ _ _ A).
  - intros p Hp H0 H3. destruct (decide (at_path t2 ad2 p = 0)) as [H2|H2].
    + destruct (w_new _ _ _ _ _ _ B p Hp H2 H3) as [Hpos Hu]. split; [done|].
      destruct (used t1 (at_path t3 ad3 p)) eqn:Hu1; [|done]. by rewrite (w_used _ _ _ _ _ _ A) in Hu.
    + rewrite (w_keep _ _ _ _ _ _ B) by done. by apply A.
  - intros o Ho. rewrite length_app in Ho. destruct (decide (o < off + Z.of_nat (length l1))) as [Hlt|Hge].
    + assert (Hne : at_path t2 ad2 (leaf (o / BSIZE)) ≠ 0) by (apply A; lia).
      rewrite (w_keep _ _ _ _ _ _ B); [done | | done]. apply leaf_valid, bn_range. lia.
    + apply B. lia.
  - intros b Hb Hu. apply (w_used _ _ _ _ _ _ B); [done|]. by apply (w_used _ _ _ _ _ _ A).
  - intros Hmap. rewrite length_app in Hmap. rewrite (w_ad _ _ _ _ _ _ B); [apply (w_ad _ _ _ _ _ _ A); intros; apply Hmap; lia|].
    intros o Ho. rewrite (w_keep _ _ _ _ _ _ A); [apply Hmap; lia | apply leaf_valid, bn_range; lia | apply Hmap; lia].
  - intros d b Hbm Hu Hp. rewrite (w_frame _ _ _ _ _ _ B); [by apply (w_frame _ _ _ _ _ _ A) | done | |].
    + intros Hd. destruct (Hu Hd). split; [done|]. by apply (w_used _ _ _ _ _ _ A).
    + intros p Hv H2 [= <- <-]. destruct (decide (at_path t1 ad1 p = 0)) as [H1|H1].
      * destruct (w_new _ _ _ _ _ _ A p Hv H1 H2) as [_ Hf]. destruct (Hu eq_refl). congruence.
      * apply (Hp p Hv H1). by rewrite (w_keep _ _ _ _ _ _ A).
  - etrans; [apply A | apply B].
  - intros b Hb Hu. rewrite length_app.
    destruct (w_fill _ _ _ _ _ _ B b Hb Hu) as [Hu2|(o & q & Ho & Hq & ->)]; [|right; exists o, q; split; [lia | done]].
    destruct (w_fill _ _ _ _ _ _ A b Hb Hu2) as [|(o & q & Ho & Hq & ->)]; [by left | right]. exists o, q.
    split; [lia|]. split; [done|]. symmetry. apply (w_keep _ _ _ _ _ _ B).
    + eapply on_way_valid; [|exact Hq]. apply leaf_valid, bn_range. lia.
    + eapply on_way_nz; [exact Hq|]. apply A. lia.
Qed.
(** One turn: a block found or added, and part of it overwritten. *)
Lemma wrote_turn t ad t1 ad1 addr off l :
  fs_ok t → wf_file t ad → th t = ∅ → got (leaf (off / BSIZE)) 3 t ad t1 ad1 addr →
  0 ≤ off < MAXBYTES → 0 < Z.of_nat (length l) ≤ BSIZE - off mod BSIZE → Forall is_byte l →
  wrote t ad (tstore (dev, addr) (splice (tv t1 (dev, addr)) (Z.to_nat (off mod BSIZE)) l) t1) ad1 off l.
Proof.
  intros Hok W Hth G Hoff Hl Hbytes. pose proof (geo_bounds g Hg) as Hgeo.
  pose proof (bn_range off Hoff) as Hbn. destruct (leaf_valid _ Hbn) as [Hv Hin].
  pose proof (gt_at _ _ _ _ _ _ _ _ _ G) as Hat. pose proof (gt_nz _ _ _ _ _ _ _ _ _ G) as Hnz.
  pose proof (gt_wf _ _ _ _ _ _ _ _ _ G) as W1. pose proof (gt_ok _ _ _ _ _ _ _ _ _ G) as Hok1.
  pose proof (gt_ext _ _ _ _ _ _ _ _ _ G) as Ext.
  destruct (wf_own _ _ _ _ W1 _ Hv) as (Hr & Hu & _); [by rewrite Hat|]. rewrite Hat in Hr, Hu.
  pose proof (no_table_leaf dev g t1 ad1 _ W1 Hv Hin ltac:(by rewrite Hat)) as Hno. rewrite Hat in Hno.
  assert (Hbmne : (dev, addr) ≠ bm dev g) by (intros [=]; unfold datastart in Hr; lia).
  set (x' := splice (tv t1 (dev, addr)) (Z.to_nat (off mod BSIZE)) l).
  assert (Hsp : (Z.to_nat (off mod BSIZE) + length l ≤ 512)%nat) by (change BSIZE with 512 in *; dlia).
  destruct (fo_block _ _ _ Hok1 (dev, addr)) as [Hlen Hb].
  assert (Hus : used (tstore (dev, addr) x' t1) = used t1) by (by apply used_tstore).
  split.
  - apply fs_ok_tstore; [done | done | lia |]. by apply is_block_splice.
  - by apply wf_file_store.
  - cbn. by rewrite (gt_th _ _ _ _ _ _ _ _ _ G).
  - intros o Ho. rewrite <-Hat at 1. rewrite (fbyte_leaf dev g) by (done || by rewrite Hat).
    rewrite <-(fbyte_ext dev g Hg t ad t1 ad1 o) by done. change BSIZE with 512 in *. case_decide as D.
    + unfold x'. rewrite lookup_splice by lia. case_decide as D1.
      * rewrite decide_True by dlia. do 2 f_equal. dlia.
      * rewrite decide_False by dlia. unfold FsFile.fbyte. change BSIZE with 512. rewrite D, Hat.
        by rewrite (proj2 (Z.eqb_neq _ _) Hnz).
    + rewrite decide_False by dlia. done.
  - intros p Hp Hne. rewrite at_path_store by done. by apply (ex_keep _ _ _ _ _ _ Ext).
  - intros p Hp H0. rewrite at_path_store by done. intros H1.
    destruct (ex_new _ _ _ _ _ _ Ext p Hp H0 H1) as (Hpos & Hf & _). done.
  - intros o Ho. rewrite at_path_store by (done || apply leaf_valid, bn_range; change BSIZE with 512 in *; unfold MAXBYTES in *; change (MAXFILE * BSIZE) with (16523 * 512) in *; dlia).
    replace (o / BSIZE) with (off / BSIZE) by (change BSIZE with 512 in *; dlia). by rewrite Hat.
  - intros b Hb0 Hub. rewrite Hus. by apply (ex_used _ _ _ _ _ _ Ext).
  - intros Hmap. destruct (got_mapped _ _ _ _ _ _ _ G) as (_ & Had & _); [apply Hmap; lia | done].
  - intros d b Hbm Hub Hp. rewrite tv_tstore, decide_False.
    + apply (ex_frame _ _ _ _ _ _ Ext); [done | done|]. intros p Hpi Hne. by apply Hp; [apply inner_valid|].
    + intros [= -> ->]. destruct (decide (at_path t ad (leaf (off / BSIZE)) = 0)) as [H0|H0].
      * destruct (ex_new _ _ _ _ _ _ Ext _ Hv H0) as (_ & Hf & _); [by rewrite Hat|]. rewrite Hat in Hf.
        destruct (Hub eq_refl). congruence.
      * apply (Hp _ Hv H0). f_equal. rewrite <-Hat. symmetry. by apply (ex_keep _ _ _ _ _ _ Ext).
  - etrans; [apply Ext | apply carries_tstore].
  - intros b Hb0. rewrite Hus. intros Hub. destruct (gt_used _ _ _ _ _ _ _ _ _ G b Hb0 Hub) as [|(q & Hq & ->)]; [by left | right].
    exists off, q. split; [lia|]. split; [done|]. symmetry. apply at_path_store; [done|]. by eapply on_way_valid.
Qed.

(** What a write needs: three new blocks per turn, or [enough] for the run of
    blocks, or one logged block per turn where the blocks are there already;
    and [e] blocks afterwards. *)
Definition budget (t : tstate) (ad : list Z) (off r : Z) (k e : nat) : Prop :=
  room t (3 * k + e) ∨ enough dev g t ad (off / BSIZE) k e ∨
  (fits t (k + e) ∧ ∀ o, off ≤ o < off + r → at_path t ad (leaf (o / BSIZE)) ≠ 0).

Lemma budget_fits t ad off r k e : budget t ad off r k e → fits t e.
Proof. intros [[H _]|[[H _]|[H _]]]; eapply fits_mono; try exact H; lia. Qed.

Lemma budget_turn t ad t1 ad1 addr off r m k e x :
  wf_file t ad → got (leaf (off / BSIZE)) 3 t ad t1 ad1 addr → 0 ≤ off → off + r ≤ MAXBYTES → 0 < m ≤ r →
  m ≤ BSIZE - off mod BSIZE → budget t ad off r (S k) e →
  (size ({[(dev, addr)]} ∪ tlog t1) ≤ tcap t1)%nat ∧ budget (tstore (dev, addr) x t1) ad1 (off + m) (r - m) k e.
Proof.
  intros W G Hoff Hmax Hm Hm' HB. pose proof (geo_bounds g Hg) as Hgeo.
  assert (Hbn : 0 ≤ off / BSIZE < MAXFILE) by (apply bn_range; lia).
  destruct (leaf_valid _ Hbn) as [Hv Hin].
  assert (Hbmne : (dev, addr) ≠ bm dev g).
  { pose proof (gt_at _ _ _ _ _ _ _ _ _ G) as Hat.
    destruct (wf_own _ _ _ _ (gt_wf _ _ _ _ _ _ _ _ _ G) _ Hv) as (Hr & _); [rewrite Hat; apply G|].
    rewrite Hat in Hr. unfold datastart in Hr. intros [=]. lia. }
  destruct HB as [[Hfit Hfree]|[HB|[Hfit Hmap]]].
  - destruct (gt_cost _ _ _ _ _ _ _ _ _ G) as [[-> ->]|(_ & Hlog & Hsp & _)].
    + split; [eapply (fits_one _ _ _ _ (3 * k + 2 + e)); eapply fits_mono; [|exact Hfit]; lia|]. left. split.
      * apply fits_log. eapply fits_mono; [|exact Hfit]. lia.
      * rewrite nfree_tstore by done. lia.
    + destruct (Hsp (3 * k + e)%nat) as [H1 H2].
      { replace (3 + (3 * k + e))%nat with (3 * S k + e)%nat by lia. by split. }
      split; [by eapply fits_old|]. left. split; [by apply fits_again | by rewrite nfree_tstore].
  - destruct (enough_turn dev g Hg t ad t1 ad1 addr (off / BSIZE) k e x) as [Hcap HB']; [done..|]. split; [done|].
    right. left. eapply enough_tail; [|exact HB']. change BSIZE with 512 in *. dlia.
  - destruct (got_mapped _ _ _ _ _ _ _ G) as (-> & -> & ->); [apply Hmap; lia|].
    split; [eapply (fits_one _ _ _ _ (k + e)), Hfit|]. do 2 right. split; [by apply fits_log|].
    intros o Ho. rewrite at_path_store; [apply Hmap; lia| |].
    + apply (no_table_leaf dev g); [done | done | done | apply Hmap; lia].
    + apply leaf_valid, bn_range. lia.
Qed.

Lemma wp_writei_loop k e fuel s c i x t src off tot n (Q : Z → fsys T → Prop) E :
  (k ≤ fuel)%nat → turns off (n - tot) k → 0 ≤ off → tot ≤ n → off + (n - tot) ≤ MAXBYTES →
  (Z.to_nat (n - tot) ≤ length src)%nat → Forall is_byte src →
  fs_ok t → wf_file t (addrs x) → trep c t → sb s = g → i_dev x = dev → (i < length (inodes s))%nat →
  th t = ∅ → budget t (addrs x) off (n - tot) k e →
  (∀ c' t' ad', trep c' t' → wrote t (addrs x) t' ad' off (take (Z.to_nat (n - tot)) src) → fits t' e →
     Q (off + (n - tot)) (put_ino s c' i (x <| addrs := ad' |>))) →
  wp (writei_loop fuel i src off tot n) Q E (put_ino s c i x).
Proof.
  revert k s c x t src off tot Q. induction fuel as [|fuel IH];
    intros k s c x t src off tot Q Hk Ht Hoff Htot Hmax Hsrc Hbytes Hok W Hr Hsb Hdev Hi Hth HB HQ;
    cbn [writei_loop]; (destruct (Z.ltb_spec tot n);
      [|wp_step; replace (n - tot) with 0 in * by lia; rewrite Z.add_0_r in HQ;
        specialize (HQ c t (addrs x) Hr); rewrite addrs_id in HQ;
        apply HQ; [by apply wrote_nil | by eapply budget_fits]]);
    destruct (turns_next off (n - tot) k) as (k' & -> & Hm & Hm' & Ht'); try done; try lia.
  cbv zeta in *. set (m := Z.min (n - tot) (BSIZE - off mod BSIZE)) in *.
  assert (Hbn : 0 ≤ off / BSIZE < MAXFILE) by (apply bn_range; lia).
  wp_step. apply wp_ino_put; [done|]. wp_step.
  eapply (wp_bmap dev g Hg); [done..| |].
  { intros H0. destruct HB as [HB|[HB|[_ HB]]]; [eapply room_mono; [|exact HB]; lia | by eapply enough_room |].
    by destruct (HB off); [lia|]. }
  intros addr c1 t1 ad1 Hc1 G. pose proof (gt_wf _ _ _ _ _ _ _ _ _ G) as W1.
  pose proof (gt_at _ _ _ _ _ _ _ _ _ G) as Hat.
  destruct (leaf_block t1 ad1 _ W1 Hbn) as [Hrng Hst]; [rewrite Hat; apply G|]. rewrite Hat in Hrng, Hst.
  assert (Hth1 : th t1 = ∅) by (by rewrite (gt_th _ _ _ _ _ _ _ _ _ G)).
  wp_step. rewrite Hdev. eapply wp_bread; [exact Hc1 | by intros h; rewrite Hth1 | done | done | rewrite Hth1, map_size_empty; unfold MAXHELD; lia|].
  intros h c2 Hh Hc2. wp_step. eapply wp_get_data; [exact Hc2 | cbn; by rewrite lookup_insert_eq|].
  intros c3 Hc3. cbn [tv update_field]. destruct (Nat.ltb_spec (length src) (Z.to_nat m)); [lia|].
  set (y := splice (tv t1 (dev, addr)) (Z.to_nat (off mod BSIZE)) (take (Z.to_nat m) src)).
  destruct (budget_turn t (addrs x) t1 ad1 addr off (n - tot) m k' e y) as [Hcap HB']; try done.
  assert (Hlm : Z.of_nat (length (take (Z.to_nat m) src)) = m) by (rewrite length_take; lia).
  pose proof (wrote_turn t (addrs x) t1 ad1 addr off (take (Z.to_nat m) src) Hok W Hth G ltac:(lia) ltac:(lia) ltac:(by apply Forall_take)) as Hw.
  eapply wp_write_back; [exact Hc3 | done | done|]. intros c4 Hc4.
  replace (n - tot - m) with (n - (tot + m)) in * by lia.
  fold y in Hw. eapply (IH k' s c4 (x <| addrs := ad1 |>) (tstore (dev, addr) y t1)); try done; try lia.
  { rewrite length_drop. lia. }
  { by apply Forall_drop. }
  { apply Hw. }
  { apply Hw. }
  intros c5 t5 ad5 Hc5 Hw5 Hf5. cbn [addrs update_field] in Hw5.
  replace (off + m + (n - (tot + m))) with (off + (n - tot)) by lia.
  apply (HQ c5 t5 ad5); [done | | done].
  replace (take (Z.to_nat (n - tot)) src) with (take (Z.to_nat m) src ++ take (Z.to_nat (n - (tot + m))) (drop (Z.to_nat m) src)).
  2:{ rewrite take_app_drop. f_equal. lia. }
  apply (wrote_app _ _ (tstore (dev, addr) y t1) ad1); rewrite ?Hlm; try done; rewrite ?length_take, ?length_drop; lia.
Qed.
(** The number of turns for [n] bytes at [off]. *)
Definition nblocks (off n : Z) : nat := Z.to_nat ((off mod BSIZE + n + BSIZE - 1) / BSIZE).

Lemma nblocks_turns off n : 0 ≤ n → turns off n (nblocks off n) ∧ (nblocks off n ≤ Z.to_nat (n / BSIZE + 2))%nat.
Proof.
  intros Hn. unfold turns, nblocks. change BSIZE with 512. split; [|dlia].
  right. rewrite Z2Nat.id by dlia. dlia.
Qed.

(** The inode on the disk is the one in memory. *)
Definition synced (t : tstate) (x : inode) : Prop := get_dinode (tv t (iblock x)) x = x.

Record updated (t : tstate) (x : inode) (t' : tstate) (x' : inode) (off : Z) (l : list Z) : Prop := {
  u_ok : fs_ok t';
  u_file : file_ok t' x';
  u_th : th t' = ∅;
  u_inode : x' = x <| addrs := addrs x' |> <| i_size := Z.max (i_size x) (off + Z.of_nat (length l)) |>;
  u_bytes : ∀ o, 0 ≤ o < MAXBYTES → fbyte t' (addrs x') o =
    if decide (off ≤ o < off + Z.of_nat (length l)) then default 0 (l !! Z.to_nat (o - off))
    else fbyte t (addrs x) o;
  u_sync : synced t x → synced t' x';
  u_used : ∀ b, 0 ≤ b → used t b = true → used t' b = true;
  u_frame : ∀ d b, (d, b) ≠ bm dev g → (d, b) ≠ iblock x → (d = dev → 0 ≤ b ∧ used t b = true) →
    (∀ p, valid p → at_path t (addrs x) p ≠ 0 → (dev, at_path t (addrs x) p) ≠ (d, b)) →
    tv t' (d, b) = tv t (d, b);
  u_carries : carries t t';
  u_keep : ∀ p, valid p → at_path t (addrs x) p ≠ 0 → at_path t' (addrs x') p = at_path t (addrs x) p;
  u_new : ∀ p, valid p → at_path t (addrs x) p = 0 → at_path t' (addrs x') p ≠ 0 →
    0 ≤ at_path t' (addrs x') p ∧ used t (at_path t' (addrs x') p) = false;
  u_fill : ∀ b, 0 ≤ b → used t' b = true → used t b = true ∨
    ∃ o q, off ≤ o < off + Z.of_nat (length l) ∧ on_way (leaf (o / BSIZE)) q ∧ b = at_path t' (addrs x') q;
  u_others : ∀ y, 0 ≤ inum y < sb_ninodes g → inum y ≠ inum x →
    get_dinode (tv t' (iblock y)) y = get_dinode (tv t (iblock y)) y
}.

Lemma wf_addrs t ad a : wf_file t ad → a ∈ ad → 0 ≤ a < 2 ^ 32.
Proof.
  intros W [k Hk]%list_elem_of_lookup. pose proof (lookup_lt_Some _ _ _ Hk) as Hl. rewrite (wf_len _ _ _ _ W) in Hl.
  pose proof (geo_bounds g Hg) as Hgeo. unfold FSSIZE in Hgeo.
  assert (Hat : at_path t ad [Z.of_nat k] = a) by (by rewrite at_path_root, Nat2Z.id, Hk).
  destruct (decide (a = 0)) as [->|Hne]; [lia|].
  destruct (wf_own _ _ _ _ W [Z.of_nat k]) as (Hr & _); [cbn; lia | by rewrite Hat|].
  rewrite Hat in Hr. unfold datastart in Hr. lia.
Qed.

Lemma file_iblock t x : file_ok t x → 1 < IBLOCK (inum x) g < sb_bmapstart g.
Proof. intros F. apply iblock_range, F. Qed.

Lemma dinode_place n m : 0 ≤ n → 0 ≤ m → n ≠ m → IBLOCK n g = IBLOCK m g → 0 ≤ n < sb_ninodes g →
  0 ≤ m < sb_ninodes g → dinode_off n ≠ dinode_off m.
Proof using Hg.
  intros Hn Hm Hne Hb Hn' Hm'. destruct (iblock_range n Hn') as [E1 _], (iblock_range m Hm') as [E2 _].
  rewrite E1, E2 in Hb. unfold dinode_off. change IPB with 8 in Hb |- *. clear dev_read dev_write. dlia.
Qed.

(** The blocks of inodes are neither written nor moved by a write of data. *)
Lemma wrote_iblock t x y t' ad' off l :
  fs_ok t → file_ok t x → 0 ≤ inum y < sb_ninodes g → wrote t (addrs x) t' ad' off l →
  tv t' (iblock y) = tv t (iblock y).
Proof.
  intros Hok F Hy Hw. pose proof (iblock_range (inum y) Hy) as [_ ?]. apply (w_frame _ _ _ _ _ _ Hw).
  - intros [=]. lia.
  - intros _. split; [lia|]. apply Hok. unfold datastart. lia.
  - intros p Hp Hne [= E]. destruct (wf_own _ _ _ _ (f_wf _ _ F) p Hp Hne) as (Hr & _).
    unfold datastart in Hr. lia.
Qed.

(** A write inside the file. *)
Lemma updated_inside t x t' ad' off l :
  fs_ok t → file_ok t x → 0 ≤ off → off + Z.of_nat (length l) ≤ i_size x →
  wrote t (addrs x) t' ad' off l → updated t x t' (x <| addrs := ad' |>) off l.
Proof.
  intros Hok F Hoff Hin Hw. pose proof (f_size _ _ F) as Hsz.
  assert (Had : ad' = addrs x).
  { apply (w_ad _ _ _ _ _ _ Hw). intros o Ho. apply (f_mapped _ _ F); change BSIZE with 512; dlia. }
  subst ad'. rewrite addrs_id. split; try apply Hw.
  - split; try apply F; [apply Hw|]. intros bn H1 H2. pose proof (f_mapped _ _ F bn H1 H2) as Hne.
    rewrite (w_keep _ _ _ _ _ _ Hw); [done | | done]. apply leaf_valid.
    unfold MAXBYTES in Hsz. change MAXFILE with 16523 in *. change BSIZE with 512 in *. lia.
  - rewrite addrs_id, Z.max_l by lia. by destruct x.
  - unfold synced. by rewrite (wrote_iblock _ _ _ _ _ _ _ Hok F (f_inum _ _ F) Hw).
  - intros d b H1 _ H2 H3. by apply (w_frame _ _ _ _ _ _ Hw).
  - intros y Hy _. by rewrite (wrote_iblock t x y _ _ _ _ Hok F Hy Hw).
Qed.

(** A write that extends the file, with the inode written afterwards. *)
Lemma updated_grown t x t' ad' off l :
  fs_ok t → file_ok t x → fields_ok x → 0 ≤ off ≤ i_size x → i_size x < off + Z.of_nat (length l) ≤ MAXBYTES →
  wrote t (addrs x) t' ad' off l →
  let x' := x <| addrs := ad' |> <| i_size := off + Z.of_nat (length l) |> in
  updated t x (inode_stored x' t') x' off l.
Proof.
  intros Hok F Hfd Hoff Hout Hw x'. pose proof (file_iblock t x F) as Hib.
  pose proof (w_wf _ _ _ _ _ _ Hw) as W'. pose proof (w_ok _ _ _ _ _ _ Hw) as Hok'.
  assert (Hlen : length (addrs x') = 13%nat) by apply W'.
  assert (Hmeta : IBLOCK (inum x) g < datastart g) by (unfold datastart; lia).
  assert (Hno : no_table dev t' ad' (iblock x')) by (by apply (no_table_meta dev g)).
  assert (Hbmne : iblock x' ≠ bm dev g) by (intros [=]; lia).
  split.
  - exact (fs_ok_meta t' (IBLOCK (inum x) g) _ Hok' Hib (is_block_put_dinode x' _ Hlen (fo_block _ _ _ Hok' (iblock x')))).
  - split; [exact (wf_file_store dev g Hg t' ad' _ _ W' Hno Hbmne) | exact (f_dev _ _ F) | exact (f_inum _ _ F) | cbn; lia |].
    intros bn H1 H2. cbn [i_size update_field x'] in H2. unfold inode_stored.
    assert (Hbn : 0 ≤ bn < MAXFILE).
    { unfold MAXBYTES in Hout. change MAXFILE with 16523 in *. change BSIZE with 512 in *. dlia. }
    rewrite at_path_store by (done || by apply leaf_valid). cbn [addrs update_field x'].
    destruct (decide (bn * BSIZE < i_size x)) as [Hold|Hnew].
    + pose proof (f_mapped _ _ F bn H1 Hold) as Hne. rewrite (w_keep _ _ _ _ _ _ Hw); [done | by apply leaf_valid | done].
    + rewrite <-(Z.div_mul bn BSIZE) by done. apply (w_mapped _ _ _ _ _ _ Hw). lia.
  - apply Hw.
  - unfold x'. rewrite Z.max_r by lia. by destruct x.
  - intros o Ho. unfold inode_stored, iblock. rewrite (fbyte_meta dev g) by done. by apply (w_bytes _ _ _ _ _ _ Hw).
  - intros _. unfold synced, inode_stored. rewrite tv_tstore, decide_True by done.
    rewrite get_put_dinode; [by destruct x | | apply Hok' | done].
    destruct Hfd as [Hsh _ _]. split; [exact Hsh | cbn; unfold MAXBYTES in Hout; change (MAXFILE * BSIZE) with 8459776 in Hout; lia|].
    split; [done|]. intros a Ha. by eapply wf_addrs.
  - intros b Hb Hu. unfold inode_stored, iblock. rewrite used_tstore by done. by apply (w_used _ _ _ _ _ _ Hw).
  - intros d b H1 H2 H3 H4. unfold inode_stored. rewrite tv_tstore, decide_False by done.
    by apply (w_frame _ _ _ _ _ _ Hw).
  - unfold inode_stored. etrans; [apply Hw | apply carries_tstore].
  - intros p Hp Hne. unfold inode_stored. rewrite at_path_store by done. by apply (w_keep _ _ _ _ _ _ Hw).
  - intros p Hp H0. unfold inode_stored. rewrite at_path_store by done. by apply (w_new _ _ _ _ _ _ Hw).
  - intros b Hb. unfold inode_stored, iblock. rewrite used_tstore by done. intros Hu.
    destruct (w_fill _ _ _ _ _ _ Hw b Hb Hu) as [|(o & q & Ho & Hq & ->)]; [by left | right].
    exists o, q. split; [done|]. split; [done|]. symmetry. apply at_path_store; [done|].
    eapply on_way_valid; [|exact Hq]. apply leaf_valid, bn_range. lia.
  - intros y Hy Hne. rewrite <-(wrote_iblock t x y _ _ _ _ Hok F Hy Hw). unfold inode_stored. rewrite tv_tstore.
    case_decide as E; [|done]. rewrite E. injection E as E. rewrite get_put_dinode_other; [done | done | apply Hok' |].
    apply dinode_place; try apply F; try lia; done.
Qed.
Lemma wp_writei s c i x t src off n (Q : Z → fsys T → Prop) E :
  fs_ok t → file_ok t x → fields_ok x → i_type x ≠ T_DEV → trep c t → sb s = g → (i < length (inodes s))%nat →
  th t = ∅ → 0 ≤ off ≤ i_size x → 0 ≤ n → off + n ≤ MAXBYTES → (Z.to_nat n ≤ length src)%nat →
  Forall is_byte src → budget t (addrs x) off n (nblocks off n) 1 →
  (∀ c' t' x', trep c' t' → updated t x t' x' off (take (Z.to_nat n) src) → Q n (put_ino s c' i x')) →
  wp (writei dev_write i src off n) Q E (put_ino s c i x).
Proof.
  intros Hok F Hfd Hty Hr Hsb Hi Hth Hoff Hn Hmax Hsrc Hbytes HB HQ. unfold writei.
  wp_step. apply wp_ino_put; [done|]. rewrite (proj2 (Z.eqb_neq _ _) Hty).
  pose proof Hmax as Hmax'. unfold MAXBYTES in Hmax'. change (MAXFILE * BSIZE) with 8459776 in *.
  rewrite u32_id by lia. destruct (Z.gtb_spec off (i_size x)); [lia|].
  rewrite (proj2 (Z.ltb_ge _ _)) by lia. cbn [orb]. destruct (Z.gtb_spec (off + n) 8459776); [lia|].
  destruct (nblocks_turns off n Hn) as [Ht Hk]. wp_step.
  eapply (wp_writei_loop (nblocks off n) 1); rewrite ?Z.sub_0_r; try done; try lia; try apply F.
  intros c1 t1 ad1 Hc1 Hw Hf1. wp_step. apply wp_ino_put; [done|]. wp_step.
  assert (Hlen : Z.of_nat (length (take (Z.to_nat n) src)) = n) by (rewrite length_take; lia).
  assert (Hret : i32 n = n) by (apply i32_id; unfold INT_MIN, INT_MAX; lia).
  apply wp_when; intros Hgrow; cbn [i_size update_field] in Hgrow.
  - apply andb_prop in Hgrow as [Hn0%Z.gtb_lt Hgr%Z.gtb_lt]. wp_step. apply wp_iupd_put; [done|].
    eapply wp_iupdate; [apply Hw | apply F | apply F | exact Hc1 | done | done | apply Hw | |].
    { eapply (fits_one _ _ _ _ 0), Hf1. }
    intros c2 Hc2. wp_step. rewrite Hret. eapply HQ; [exact Hc2|].
    pose proof (updated_grown t x t1 ad1 off (take (Z.to_nat n) src) Hok F Hfd Hoff ltac:(lia) Hw) as Hu. cbv zeta in Hu. by rewrite Hlen in Hu.
  - wp_step. rewrite Hret. eapply HQ; [exact Hc1|]. apply updated_inside; [done | done | lia | | done].
    apply andb_false_iff in Hgrow as [Hg0|Hg0]; revert Hg0; rewrite Z.gtb_ltb; intros Hg0%Z.ltb_ge; lia.
Qed.

(** C17: [bmap] of a block inside the size limit returns a data block that no
    other place of the file uses.  A block that is mapped is returned as it
    is; otherwise up to three free blocks (doubly indirect, indirect, data)
    are put in place.  In both cases the bytes of the file are the same and
    every block of other files is untouched. *)
Theorem bmap_correct s i x t bn :
  fs_ok t → wf_file t (addrs x) → inodes s !! i = Some x → i_dev x = dev → trep (store s) t → sb s = g →
  th t = ∅ → 0 ≤ bn < MAXFILE → room t 3 →
  ∃ addr c t' ad', bmap i bn s = Ok addr (put_ino s c i (x <| addrs := ad' |>)) ∧ trep c t' ∧ fs_ok t' ∧
    wf_file t' ad' ∧ at_path t' ad' (leaf bn) = addr ∧ datastart g ≤ addr < sb_size g ∧
    (at_path t (addrs x) (leaf bn) ≠ 0 → t' = t ∧ ad' = addrs x) ∧
    (∀ p, valid p → p ≠ leaf bn → at_path t' ad' p ≠ addr) ∧
    (∀ o, 0 ≤ o < MAXBYTES → fbyte t' ad' o = fbyte t (addrs x) o) ∧
    (∀ d b, (d, b) ≠ bm dev g → (d = dev → 0 ≤ b ∧ used t b = true) →
       (∀ p, inner p → at_path t (addrs x) p ≠ 0 → (dev, at_path t (addrs x) p) ≠ (d, b)) →
       tv t' (d, b) = tv t (d, b)).
Proof.
  intros Hok W Hx Hdev Hr Hsb Hth Hbn Hroom. destruct (leaf_valid bn Hbn) as [Hv _].
  assert (Hw : wpt (bmap i bn) (fun addr s' => ∃ c t' ad', s' = put_ino s c i (x <| addrs := ad' |>) ∧ trep c t' ∧
    got (leaf bn) 3 t (addrs x) t' ad' addr) s).
  { apply (wp_at_ino _ i x); [done|].
    eapply (wp_bmap dev g Hg); [done.. | by apply lookup_lt_Some in Hx | done | done | done|].
    intros addr c' t' ad' Hc G. by exists c', t', ad'. }
  apply wpt_ok in Hw as (addr & s' & Hrun & c & t' & ad' & -> & Hc & G).
  pose proof (gt_at _ _ _ _ _ _ _ _ _ G) as Hat. pose proof (gt_nz _ _ _ _ _ _ _ _ _ G) as Hnz.
  pose proof (gt_wf _ _ _ _ _ _ _ _ _ G) as W'. exists addr, c, t', ad'.
  split; [done|]. split; [done|]. split; [apply G|]. split; [done|]. split; [done|].
  split; [rewrite <-Hat; apply W'; [done | by rewrite Hat]|].
  split; [intros Hne; by destruct (got_mapped _ _ _ _ _ _ _ G Hne) as (-> & -> & _)|].
  split; [|split].
  - intros p Hp Hne Heq. apply Hne. apply (wf_inj _ _ _ _ W'); [done | done | congruence | congruence].
  - intros o Ho. by apply (fbyte_ext dev g Hg); [| apply G |].
  - intros d b H1 H2 H3. by apply (ex_frame _ _ _ _ _ _ (gt_ext _ _ _ _ _ _ _ _ _ G)).
Qed.

(** C5: [writei] inside the size limit stores exactly the given bytes at the
    given offset, extends the size when it has to, writes the inode through
    to the disk when it grew, keeps the file system well formed, and changes
    no block that belongs to another file. *)
Theorem writei_correct s i x t src off n :
  fs_ok t → file_ok t x → fields_ok x → i_type x ≠ T_DEV → inodes s !! i = Some x → trep (store s) t →
  sb s = g → th t = ∅ → 0 ≤ off ≤ i_size x → 0 ≤ n → off + n ≤ MAXBYTES → (Z.to_nat n ≤ length src)%nat →
  Forall is_byte src → budget t (addrs x) off n (nblocks off n) 1 →
  ∃ c t' x', writei dev_write i src off n s = Ok n (put_ino s c i x') ∧ trep c t' ∧
    updated t x t' x' off (take (Z.to_nat n) src).
Proof.
  intros Hok F Hfd Hty Hx Hr Hsb Hth Hoff Hn Hmax Hsrc Hbytes HB.
  assert (Hw : wpt (writei dev_write i src off n) (fun r s' => ∃ c t' x', r = n ∧ s' = put_ino s c i x' ∧ trep c t' ∧
    updated t x t' x' off (take (Z.to_nat n) src)) s).
  { apply (wp_at_ino _ i x); [done|]. eapply wp_writei; try done; [by apply lookup_lt_Some in Hx|].
    intros c t' x' Hc Hu. by exists c, t', x'. }
  apply wpt_ok in Hw as (r & s' & Hrun & c & t' & x' & -> & -> & Hc & Hu). by exists c, t', x'.
Qed.

(** C2: what [writei] wrote, [readi] reads back, also when the two ranges
    cross direct, indirect and doubly indirect blocks; and the bytes before
    them are those from before the write. *)
Theorem write_read_roundtrip s i x t src off n :
  fs_ok t → file_ok t x → fields_ok x → i_type x ≠ T_DEV → inodes s !! i = Some x → trep (store s) t →
  sb s = g → th t = ∅ → 0 ≤ off ≤ i_size x → 0 ≤ n → off + n ≤ MAXBYTES → length src = Z.to_nat n →
  Forall is_byte src → budget t (addrs x) off n (nblocks off n) 1 →
  ∃ s', (writei dev_write i src off n;; r ← readi dev_read i off n; q ← readi dev_read i 0 off; mret (r, q)) s
    = Ok ((n, src), (off, fbyte t (addrs x) <$> seqZ 0 off)) s'.
Proof.
  intros Hok F Hfd Hty Hx Hr Hsb Hth Hoff Hn Hmax Hsrc Hbytes HB. pose proof (lookup_lt_Some _ _ _ Hx) as Hi.
  set (m := (writei dev_write i src off n;; r ← readi dev_read i off n; q ← readi dev_read i 0 off; mret (r, q))).
  assert (Hw : wpt m (fun r _ => r = ((n, src), (off, fbyte t (addrs x) <$> seqZ 0 off))) s).
  { unfold m. apply (wp_at_ino _ i x); [done|]. wp_step. eapply wp_writei; try done; [lia|].
    intros c t' x' Hc U. pose proof (u_inode _ _ _ _ _ _ U) as Hx'. rewrite take_ge in * by lia.
    assert (Hsz : i_size x' = Z.max (i_size x) (off + n)) by (rewrite Hx'; cbn; lia).
    assert (Hty' : i_type x' ≠ T_DEV) by (by rewrite Hx').
    pose proof Hmax as Hmax'. unfold MAXBYTES in Hmax'. change (MAXFILE * BSIZE) with 8459776 in Hmax'.
    wp_step. eapply wp_readi; try apply U; try done; try lia. cbv zeta. intros c1 Hc1. rewrite Z.min_l by lia.
    wp_step. eapply wp_readi; try apply U; try done; try lia. cbv zeta. intros c2 Hc2. rewrite Z.min_l by lia.
    wp_step. do 2 f_equal.
    - apply list_eq. intros k. rewrite list_lookup_fmap. destruct (decide (k < length src)%nat) as [Hk|Hk].
      + rewrite lookup_seqZ_lt by lia. cbn. rewrite (u_bytes _ _ _ _ _ _ U) by lia. rewrite decide_True by lia.
        destruct (lookup_lt_is_Some_2 src k Hk) as [v Hv].
        replace (Z.to_nat (off + Z.of_nat k - off)) with k by lia. by rewrite Hv.
      + rewrite lookup_seqZ_ge by lia. symmetry. apply lookup_ge_None. lia.
    - apply list_fmap_ext. intros k o [-> Ho]%lookup_seqZ. rewrite (u_bytes _ _ _ _ _ _ U) by lia.
      by rewrite decide_False by lia. }
  apply wpt_ok in Hw as (r & s' & Hrun & ->). by exists s'.
Qed.

(** the arguments [readi] and [writei] refuse: an offset past the end, a
    range that wraps, for writes a range past the largest file.  They return
    -1 and change nothing. *)
Theorem rw_rejects s i x src off n :
  inodes s !! i = Some x → i_type x ≠ T_DEV → 0 ≤ off < 2 ^ 32 → 0 ≤ n < 2 ^ 32 →
  (i_size x < off ∨ 2 ^ 32 ≤ off + n → readi dev_read i off n s = Ok (-1, []) s) ∧
  (i_size x < off ∨ 2 ^ 32 ≤ off + n ∨ MAXBYTES < off + n → writei dev_write i src off n s = Ok (-1) s).
Proof.
  intros Hx Hty Hoff Hn. unfold readi, writei, ino. m_unfold. rewrite Hx, (proj2 (Z.eqb_neq _ _) Hty).
  rewrite !u32_add by done. split; intros H.
  - destruct (Z.gtb_spec off (i_size x)), (Z.leb_spec (2 ^ 32) (off + n)); cbn [orb]; try done; lia.
  - destruct (Z.gtb_spec off (i_size x)), (Z.leb_spec (2 ^ 32) (off + n)); cbn [orb]; try done.
    rewrite u32_id by lia. fold MAXBYTES. destruct (Z.gtb_spec (off + n) MAXBYTES); [done | lia].
Qed.
End rw.

(** An empty file on the small disk. *)
Definition new_inode : inode :=
  mkinode 1 5 1 (initsleeplock "inode") I_VALID T_FILE 0 0 1 0 (replicate 13 0).
Definition small_fs : fsys refstore := mkfsys SmallDisk.disk SmallDisk.g (initlock "icache") [new_inode].

Lemma new_inode_ok : file_ok 1 SmallDisk.g SmallDisk.t new_inode ∧ fields_ok new_inode.
Proof.
  split.
  - split; [apply wf_file_empty | done | cbn; lia | by vm_compute |]. intros bn H1 H2. cbn in H2.
    change BSIZE with 512 in H2. lia.
  - split.
    + intros v. cbn. rewrite !elem_of_cons, elem_of_nil. intros [->|[->|[->|[->|[]]]]]; unfold T_FILE; lia.
    + cbn. lia.
    + split; [done|]. intros a Ha. apply elem_of_replicate in Ha as [-> _]. lia.
Qed.

Lemma hi_bytes : Forall is_byte [104; 105; 10].
Proof. repeat constructor; unfold is_byte; lia. Qed.

Lemma bmap_correct_witness :
  ∃ addr s', bmap (BlockStore0 := RefStore.store) 0 200 small_fs = Ok addr s' ∧ 16 ≤ addr < 100.
Proof.
  pose proof (RefStore.laws) as Hlaws.
  destruct (bmap_correct (BlockStore0 := RefStore.store) (StoreLaws0 := Hlaws) 1 SmallDisk.g SmallDisk.geometry_g
    small_fs 0 new_inode SmallDisk.t 200) as (addr & c & t' & ad' & Hrun & _ & _ & _ & _ & Hr & _).
  - apply SmallDisk.fs_ok_t.
  - apply wf_file_empty.
  - done.
  - done.
  - apply SmallDisk.trep_disk.
  - done.
  - done.
  - by vm_compute.
  - apply SmallDisk.room_t. lia.
  - eexists addr, _. split; [exact Hrun | exact Hr].
Defined.

Lemma writei_correct_witness :
  ∃ c x', writei (BlockStore0 := RefStore.store) (fun _ => None) 0 [104; 105; 10] 0 3 small_fs
    = Ok 3 (put_ino small_fs c 0 x') ∧ i_size x' = 3.
Proof.
  pose proof (RefStore.laws) as Hlaws. destruct new_inode_ok as [F Hfd].
  destruct (writei_correct (BlockStore0 := RefStore.store) (StoreLaws0 := Hlaws) 1 SmallDisk.g SmallDisk.geometry_g
    (fun _ => None) (fun _ => None) small_fs 0 new_inode SmallDisk.t [104; 105; 10] 0 3) as (c & t' & x' & Hrun & _ & U).
  - apply SmallDisk.fs_ok_t.
  - exact F.
  - exact Hfd.
  - intros [=].
  - reflexivity.
  - apply SmallDisk.trep_disk.
  - reflexivity.
  - reflexivity.
  - cbn. lia.
  - lia.
  - by vm_compute.
  - cbn. lia.
  - exact hi_bytes.
  - left. apply SmallDisk.room_t. vm_compute. lia.
  - exists c, x'. split; [exact Hrun|]. by rewrite (u_inode _ _ _ _ _ _ _ _ U).
Defined.

Lemma write_read_roundtrip_witness :
  ∃ s', (writei (BlockStore0 := RefStore.store) (fun _ => None) 0 [104; 105; 10] 0 3;;
         r ← readi (BlockStore0 := RefStore.store) (fun _ => None) 0 0 3;
         q ← readi (BlockStore0 := RefStore.store) (fun _ => None) 0 0 0; mret (r, q)) small_fs
    = Ok ((3, [104; 105; 10]), (0, [])) s'.
Proof.
  pose proof (RefStore.laws) as Hlaws. destruct new_inode_ok as [F Hfd].
  apply (write_read_roundtrip (BlockStore0 := RefStore.store) (StoreLaws0 := Hlaws) 1 SmallDisk.g SmallDisk.geometry_g
    (fun _ => None) (fun _ => None) small_fs 0 new_inode SmallDisk.t [104; 105; 10] 0 3).
  - apply SmallDisk.fs_ok_t.
  - exact F.
  - exact Hfd.
  - intros [=].
  - reflexivity.
  - apply SmallDisk.trep_disk.
  - reflexivity.
  - reflexivity.
  - cbn. lia.
  - lia.
  - by vm_compute.
  - reflexivity.
  - exact hi_bytes.
  - left. apply SmallDisk.room_t. vm_compute. lia.
Defined.

Lemma rw_rejects_witness :
  readi (BlockStore0 := RefStore.store) (fun _ => None) 0 1 1 small_fs = Ok (-1, []) small_fs.
Proof.
  apply (rw_rejects (BlockStore0 := RefStore.store) (fun _ => None) (fun _ => None) small_fs 0 new_inode [] 1 1);
    [done | done | lia | lia | left; cbn; lia].
Defined.
