(* ===== verification/FsTrunc.v ===== *)
(** * Truncation (fs.c: itrunc)

    [itrunc] gives every block of the file back: the free map afterwards is
    the one from before without the blocks of the tree.  The entries of the
    doubly indirect block are zeroed in the cache without being logged; its
    contents do not matter any more, because the block itself is freed. *)
From stdpp Require Import gmap functions.
From S2P Require Import Prelude Spinlock Proc Sleep Sleeplock Bytes CString Block Store Fs FsAlloc FsFile FsRw.

Section trunc.
Context {T : Type} `{!BlockStore T} `{!StoreLaws T}.
Context (dev : Z) (g : superblock) (Hg : geometry g).
Implicit Types (s : fsys T) (t : tstate) (ad : list Z).

Abbreviation fs_ok := (fs_ok dev g).
Abbreviation wf_file := (wf_file dev g).
Abbreviation at_path := (at_path dev).
Abbreviation used := (used dev g).
Abbreviation fits := (fits dev g).

(** The file before, and the places freed so far. *)
Context (t0 : tstate) (ad0 : list Z) (W0 : wf_file t0 ad0).
Abbreviation at0 := (at_path t0 ad0).
Definition dbl : baddr := (dev, at0 [12]).

Record freed (P : path → Prop) (t : tstate) : Prop := {
  fr_ok : fs_ok t;
  fr_fits : fits t 1;
  fr_tv : ∀ a, a ≠ bm dev g → a ≠ dbl → tv t a = tv t0 a;
  fr_used : ∀ b, 0 ≤ b → used t b = true ↔
    used t0 b = true ∧ ∀ p, valid p → P p → at0 p ≠ 0 → at0 p ≠ b;
  fr_stale : tstale t ⊆ {[dbl]} ∪ tstale t0
}.

Lemma freed_iff (P P' : path → Prop) t : (∀ p, valid p → P p ↔ P' p) → freed P t → freed P' t.
Proof.
  intros HP [H1 H2 H3 H4 H5]. split; try done. intros b Hb. rewrite (H4 b Hb).
  split; intros [Hu Hp]; (split; [done|]); intros p Hv HPp; apply Hp; [done | by apply HP | done | by apply HP].
Qed.

Lemma freed_th P t m :
  (∀ h b, m !! h = Some (dev, b) → datastart g ≤ b < sb_size g ∧ used t b = true) →
  freed P t → freed P (t <| th := m |>).
Proof. intros Hm [H1 H2 H3 H4 H5]. split; try done. by apply fs_ok_th. Qed.

(** A place of the file that was not freed yet. *)
Lemma freed_own P t p :
  freed P t → valid p → ¬ P p → at0 p ≠ 0 →
  datastart g ≤ at0 p < sb_size g ∧ used t (at0 p) = true ∧ (p ≠ [12] → (dev, at0 p) ∉ tstale t).
Proof.
  intros Fr Hv HP Hne. destruct (wf_own _ _ _ _ W0 p Hv Hne) as (Hr & Hu & Hs). split; [done|]. split.
  - apply (fr_used _ _ Fr); [pose proof (geo_bounds g Hg); unfold datastart in Hr; lia|]. split; [done|].
    intros q Hq HPq Hnq Heq. apply HP. by rewrite (wf_inj _ _ _ _ W0 p q).
  - intros Hp12 Hin%(fr_stale _ _ Fr). apply elem_of_union in Hin as [Hin%elem_of_singleton|Hin]; [|done].
    injection Hin as Hin. apply Hp12. apply (wf_inj _ _ _ _ W0); [done | cbn; lia | done | done].
Qed.

Lemma freed_block P t q :
  freed P t → valid q → ¬ P q → at0 q ≠ 0 → not_held t (dev, at0 q) →
  freed (fun p => P p ∨ p = q) (free_block dev g (at0 q) t).
Proof.
  intros Fr Hv HP Hne Hnot. destruct (freed_own P t q Fr Hv HP Hne) as (Hr & Hu & _).
  pose proof (geo_bounds g Hg) as Hgeo. split.
  - apply fs_ok_free; [done | apply Fr | done | done].
  - unfold free_block. rewrite fits_log_bm. apply Fr.
  - intros a Ha Hd. unfold free_block. rewrite tv_tstore, decide_False by done. by apply Fr.
  - intros b Hb. unfold datastart in Hr. rewrite (used_free dev g Hg) by (try apply Fr; lia).
    case_decide as E.
    + subst b. split; [done|]. intros [_ Hall]. by destruct (Hall q Hv (or_intror eq_refl) Hne).
    + rewrite (fr_used _ _ Fr b Hb). split; intros [H1 H2]; (split; [done|]).
      * intros p Hp [HPp| ->] Hnp; [by apply H2 | congruence].
      * intros p Hp HPp. apply H2; [done | by left].
  - cbn. etrans; [|apply Fr]. set_solver.
Qed.

Lemma freed_none P t q : freed P t → at0 q = 0 → freed (fun p => P p ∨ p = q) t.
Proof.
  intros [H1 H2 H3 H4 H5] H0. split; try done. intros b Hb. rewrite (H4 b Hb).
  split; intros [Hu Hp]; (split; [done|]); intros p Hv.
  - intros [HPp| ->] Hne; [by apply Hp | done].
  - intros HPp. apply Hp; [done | by left].
Qed.

Lemma freed_zero (P P' : path → Prop) t :
  (∀ p, valid p → P p → P' p) → (∀ p, valid p → P' p → P p ∨ at0 p = 0) → freed P t → freed P' t.
Proof.
  intros Hsub Hz [H1 H2 H3 H4 H5]. split; try done. intros b Hb. rewrite (H4 b Hb).
  split; intros [Hu Hp]; (split; [done|]); intros p Hv HPp Hne.
  - destruct (Hz p Hv HPp) as [HP|H0]; [by apply Hp | done].
  - apply Hp; [done | by apply Hsub | done].
Qed.

(** [bfree] of the block at place [q]. *)
Lemma wp_bfree_place P t q s (Q : unit → fsys T → Prop) E :
  freed P t → trep (store s) t → sb s = g → (size (th t) < MAXHELD)%nat → valid q → ¬ P q → at0 q ≠ 0 →
  not_held t (dev, at0 q) →
  (∀ c t', freed (fun p => P p ∨ p = q) t' → th t' = th t → trep c t' →
     (∀ a, a ≠ bm dev g → tv t' a = tv t a) → tstale t' ⊆ tstale t → Q tt (s <| store := c |>)) →
  wp (bfree dev (at0 q)) Q E s.
Proof.
  intros Fr Hr Hsb Hs Hv HP Hne Hnot HQ. destruct (freed_own P t q Fr Hv HP Hne) as (Hrng & Hu & _).
  eapply (wp_bfree dev g Hg); [apply Fr | exact Hr | done | done | | done | done |].
  { eapply fits_mono; [|apply Fr]. lia. }
  intros c Hc. eapply HQ; [by apply freed_block | done | exact Hc | |].
  - intros a Ha. unfold free_block. by rewrite tv_tstore, decide_False.
  - cbn. set_solver.
Qed.

(** [if(e) bfree(dev, e)]. *)
Lemma wp_free_place P t q s (Q : unit → fsys T → Prop) E :
  freed P t → trep (store s) t → sb s = g → (size (th t) < MAXHELD)%nat → valid q → ¬ P q →
  not_held t (dev, at0 q) →
  (∀ c t', freed (fun p => P p ∨ p = q) t' → th t' = th t → trep c t' →
     (∀ a, a ≠ bm dev g → tv t' a = tv t a) → tstale t' ⊆ tstale t → Q tt (s <| store := c |>)) →
  wp (when (negb (at0 q =? 0)) (bfree dev (at0 q))) Q E s.
Proof.
  intros Fr Hr Hsb Hs Hv HP Hnot HQ. destruct (Z.eqb_spec (at0 q) 0) as [H0|Hne]; cbn [negb].
  - wp_step. assert (s = s <| store := store s |>) as -> by (by destruct s).
    apply (HQ _ t); [by apply freed_none | done..].
  - unfold when. by eapply wp_bfree_place.
Qed.

(** The entries of the table at place [p], which is locked. *)
Definition below (p : path) (j : Z) : path → Prop := fun q => ∃ k, 0 ≤ k < j ∧ q = k :: p.

Lemma wp_free_entries P t p h s (Q : unit → fsys T → Prop) E :
  freed P t → trep (store s) t → sb s = g → (size (th t) < MAXHELD)%nat →
  p ≠ [] → (∀ j, 0 ≤ j < NINDIRECT → valid (j :: p) ∧ ¬ P (j :: p)) → at0 p ≠ 0 →
  th t !! h = Some (dev, at0 p) → tv t (dev, at0 p) = tv t0 (dev, at0 p) →
  (∀ h' b, th t !! h' = Some (dev, b) → ∃ q, valid q ∧ b = at0 q ∧ q ∈ [[12]; p]) →
  (∀ c t', freed (fun q => P q ∨ below p NINDIRECT q) t' → th t' = th t → trep c t' →
     (∀ a, a ≠ bm dev g → tv t' a = tv t a) → tstale t' ⊆ tstale t →
     Q tt (s <| store := c |>)) →
  wp (free_entries dev h) Q E s.
Proof.
  intros Fr Hr Hsb Hs Hp Hkids Hne Hh Htv Hheld HQ. unfold free_entries.
  destruct (Hkids 0) as [Hv0 _]; [by change NINDIRECT with 128|].
  destruct (valid_tail 0 p Hp Hv0) as (Hvp & _ & _).
  eapply wp_weaken; [apply (for_seqZ_wp (fun j s' => ∃ c t', s' = s <| store := c |> ∧
    freed (fun q => P q ∨ below p j q) t' ∧ th t' = th t ∧ trep c t' ∧
    (∀ a, a ≠ bm dev g → tv t' a = tv t a) ∧ tstale t' ⊆ tstale t))|]; [by change NINDIRECT with 128 | | |].
  - exists (store s), t. split; [by destruct s|]. split_and!; try done.
    apply (freed_iff P); [|done]. intros q _. split; [by left|]. intros [?|(k & Hk & _)]; [done | lia].
  - intros j s' Hj (c & t' & -> & Fr' & Hth' & Hc & Htv' & Hst'). destruct (Hkids j Hj) as [Hvj HPj].
    assert (Hat : ent (tv t' (dev, at0 p)) j = at0 (j :: p)).
    { rewrite at_path_cons by done. rewrite (proj2 (Z.eqb_neq _ _) Hne). rewrite Htv', Htv; [done|].
      destruct (wf_own _ _ _ _ W0 p Hvp Hne) as (Hrng & _). unfold datastart in Hrng. intros [=]. lia. }
    wp_step. eapply wp_get_data; [exact Hc | by rewrite Hth'|]. intros c1 Hc1. cbv zeta.
    fold (ent (tv t' (dev, at0 p)) j). rewrite Hat.
    eapply wp_free_place; [exact Fr' | exact Hc1 | done | by rewrite Hth' | done | | |].
    + intros [?|(k & Hk & [= ->])]; [done | lia].
    + intros h' Hh'. rewrite Hth' in Hh'. destruct (Hheld _ _ Hh') as (q & Hq & Heq & Hin).
      destruct (decide (at0 (j :: p) = 0)) as [H0|H0].
      { rewrite H0 in Hh'. apply (fo_held _ _ _ (fr_ok _ _ Fr)) in Hh' as [Hrng _].
        pose proof (geo_bounds g Hg). unfold datastart in Hrng. lia. }
      assert (Eq : j :: p = q) by (by apply (wf_inj _ _ _ _ W0)). subst q.
      apply elem_of_cons in Hin as [E1|E1%list_elem_of_singleton]; [by injection E1|].
      apply (f_equal length) in E1. cbn in E1. lia.
    + intros c2 t2 Fr2 Hth2 Hc2 Htv2 Hst2. exists c2, t2. split; [done|]. split_and!; [| congruence | done | |].
      * eapply freed_iff; [|exact Fr2]. intros q _. split.
        -- intros [[?|(k & Hk & ->)]| ->]; [by left | right; exists k; split; [lia | done] | right; exists j; split; [lia | done]].
        -- intros [?|(k & Hk & ->)]; [by left; left|]. destruct (decide (k = j)) as [->|]; [by right|].
           left. right. exists k. split; [lia | done].
      * intros a Ha. rewrite Htv2 by done. by apply Htv'.
      * by etrans.
  - intros [] s' (c & t' & -> & Fr' & Hth' & Hc & Htv' & Hst'). by eapply HQ.
Qed.
(** ** The three parts of [itrunc] *)
Context (s0 : fsys T) (i : nat) (x : inode).
Context (Hsb : sb s0 = g) (Hi : (i < length (inodes s0))%nat).

Definition with_addrs (c : T) (ad : list Z) : fsys T := put_ino s0 c i (x <| addrs := ad |>).

(** The addresses below [j] are cleared. *)
Definition cleared (j : Z) (ad : list Z) : Prop :=
  length ad = 13%nat ∧ ∀ k, 0 ≤ k < 13 → ad !! Z.to_nat k = if decide (k < j) then Some 0 else Some (at0 [k]).

Lemma cleared_0 : cleared 0 ad0.
Proof.
  pose proof (wf_len _ _ _ _ W0) as Hl. split; [done|]. intros k Hk. rewrite decide_False by lia.
  destruct (lookup_lt_is_Some_2 ad0 (Z.to_nat k)) as [v Hv]; [lia|]. rewrite at_path_root. by rewrite Hv.
Qed.

Lemma cleared_next j ad : 0 ≤ j < 13 → cleared j ad → cleared (j + 1) (<[Z.to_nat j := 0]> ad).
Proof.
  intros Hj [Hl Hk]. split; [by rewrite length_insert|]. intros k Hk'. destruct (decide (k = j)) as [->|].
  - rewrite list_lookup_insert_eq by lia. by rewrite decide_True by lia.
  - rewrite list_lookup_insert_ne by lia. rewrite Hk by done. repeat case_decide; try done; lia.
Qed.

Lemma cleared_skip j ad : 0 ≤ j < 13 → at0 [j] = 0 → cleared j ad → cleared (j + 1) ad.
Proof.
  intros Hj H0 [Hl Hk]. split; [done|]. intros k Hk'. rewrite Hk by done.
  repeat case_decide; try done; try lia. assert (k = j) as -> by lia. by rewrite H0.
Qed.

Lemma wp_addr_at c ad j (Q : Z → fsys T → Prop) E :
  cleared j ad → 0 ≤ j < 13 → Q (at0 [j]) (with_addrs c ad) → wp (addr_at i j) Q E (with_addrs c ad).
Proof.
  intros [Hl Hk] Hj HQ. unfold addr_at. wp_step. apply wp_ino_put; [done|].
  eapply wp_deref; [|exact HQ]. apply array_get_Some. split; [lia|]. cbn [addrs update_field].
  rewrite Hk by lia. by rewrite decide_False by lia.
Qed.

Lemma wp_clear_addr c ad j (Q : unit → fsys T → Prop) E :
  Q tt (with_addrs c (<[Z.to_nat j := 0]> ad)) → wp (clear_addr i j) Q E (with_addrs c ad).
Proof. intros HQ. unfold clear_addr. apply wp_iupd_put; [done|]. exact HQ. Qed.

Definition direct (j : Z) : path → Prop := fun p => ∃ k, 0 ≤ k < j ∧ p = [k].

(** What holds between the parts. *)
Definition stage (P : path → Prop) (j : Z) (s : fsys T) : Prop :=
  ∃ c t ad, s = with_addrs c ad ∧ freed P t ∧ th t = ∅ ∧ trep c t ∧ cleared j ad ∧
    tstale t ⊆ tstale t0 ∧ ∀ a, a ≠ bm dev g → tv t a = tv t0 a.

Lemma wp_direct s (Q : unit → fsys T → Prop) E :
  stage (direct 0) 0 s → (∀ s', stage (direct NDIRECT) NDIRECT s' → Q tt s') →
  wp (for_each (seqZ 0 NDIRECT) (fun k =>
    a ← addr_at i k; when (negb (a =? 0)) (bfree dev a;; clear_addr i k))) Q E s.
Proof.
  intros H0 HQ. eapply wp_weaken; [apply (for_seqZ_wp (fun j => stage (direct j) j)); [done | done |]|].
  2:{ intros [] s' Hs'. by apply HQ. }
  intros j s' Hj (c & t & ad & -> & Fr & Hth & Hc & Hcl & Hst & Htv). change NDIRECT with 11 in Hj.
  wp_step. apply wp_addr_at; [done | lia|].
  assert (HP : ¬ direct j [j]) by (intros (k & Hk & [=]); lia).
  assert (Hiff : ∀ p, valid p → direct j p ∨ p = [j] ↔ direct (j + 1) p).
  { intros p _. unfold direct. split.
    - intros [(k & Hk & ->)| ->]; [exists k | exists j]; (split; [lia | done]).
    - intros (k & Hk & ->). destruct (decide (k = j)) as [->|]; [by right|]. left. exists k. split; [lia | done]. }
  destruct (Z.eqb_spec (at0 [j]) 0) as [Hz|Hne]; cbn [negb].
  - wp_step. exists c, t, ad. split_and!; try done.
    + eapply freed_iff; [exact Hiff|]. by apply freed_none.
    + apply cleared_skip; [lia | done | done].
  - unfold when. wp_step. eapply (wp_bfree_place _ t [j]); [exact Fr | done | done | by apply few_held | cbn; lia | done | done | by apply no_held|].
    intros c1 t1 Fr1 Hth1 Hc1 Htv1 Hst1. change ((with_addrs c ad) <| store := c1 |>) with (with_addrs c1 ad).
    apply wp_clear_addr. eexists c1, t1, _. split_and!; [done | | congruence | done | apply cleared_next; [lia | done] | by etrans |].
    + eapply freed_iff; [exact Hiff | exact Fr1].
    + intros a Ha. rewrite Htv1 by done. by apply Htv.
Qed.

Definition indirect : path → Prop := fun p => direct NDIRECT p ∨ below [11] NINDIRECT p ∨ p = [11].

Lemma kids_valid p : p = [11] ∨ p = [12] → ∀ j, 0 ≤ j < NINDIRECT → valid (j :: p).
Proof. intros [-> | ->] j Hj; cbn; (split; [tauto | done]). Qed.

Lemma wp_indirect s (Q : unit → fsys T → Prop) E :
  stage (direct NDIRECT) NDIRECT s → (∀ s', stage indirect (NDIRECT + 1) s' → Q tt s') →
  wp (a ← addr_at i NDIRECT;
      when (negb (a =? 0))
        (bp ← inS (bread dev a); free_entries dev bp;; inS (brelse bp);; bfree dev a;;
         clear_addr i NDIRECT)) Q E s.
Proof.
  intros (c & t & ad & -> & Fr & Hth & Hc & Hcl & Hst0 & Htv0) HQ. change NDIRECT with 11 in *.
  wp_step. apply wp_addr_at; [done | lia|].
  assert (HP11 : ¬ direct 11 [11]) by (intros (k & Hk & [=]); lia).
  destruct (Z.eqb_spec (at0 [11]) 0) as [Hz|Hne]; cbn [negb].
  - wp_step. apply HQ. exists c, t, ad. split_and!; try done; [|apply cleared_skip; [lia | done | done]].
    eapply freed_zero; [| |exact Fr].
    + intros p _ H. by left.
    + intros p Hv [?|[(k & Hk & ->)| ->]]; [by left | right | by right].
      rewrite at_path_cons by done. by rewrite Hz.
  - unfold when. destruct (freed_own _ t [11] Fr ltac:(cbn; lia) HP11 Hne) as (Hrng & Hu & Hst).
    pose proof (geo_bounds g Hg) as Hgeo. unfold datastart in Hrng.
    assert (Hd : (dev, at0 [11]) ≠ dbl).
    { intros [= E1]. assert (E2 : [11] = [12]) by (apply (wf_inj _ _ _ _ W0); [cbn; lia | cbn; lia | done | done]). done. }
    assert (Htv : tv t (dev, at0 [11]) = tv t0 (dev, at0 [11])) by (apply Fr; [intros [=]; lia | done]).
    wp_step. eapply wp_bread; [exact Hc | by apply no_held | by apply Hst | lia | by apply few_held|].
    intros h c1 Hh Hc1. rewrite Hth in Hc1, Hh. wp_step.
    eapply (wp_free_entries (direct 11) (t <| th := <[h := (dev, at0 [11])]> ∅ |>) [11]);
      [ | exact Hc1 | done | cbn; rewrite map_size_insert_None, map_size_empty by done; unfold MAXHELD; lia | done | | done | cbn; by rewrite lookup_insert_eq | exact Htv | |].
    { apply freed_th; [|done]. intros h' b [[_ [= <-]]|[_ Hx]]%lookup_insert_Some; [|by rewrite lookup_empty in Hx].
      split; [unfold datastart; lia | done]. }
    { intros j Hj. split; [apply kids_valid; [by left | done]|]. by intros (k & Hk & [=]). }
    { intros h' b Hx. cbn in Hx. apply lookup_insert_Some in Hx as [[_ [= <-]]|[_ Hx]]; [|by rewrite lookup_empty in Hx].
      exists [11]. split; [cbn; lia|]. split; [done | set_solver]. }
    intros c2 t2 Fr2 Hth2 Hc2 Htv2 Hst2. cbn in Hth2. wp_step.
    eapply wp_brelse; [exact Hc2 | rewrite Hth2; by rewrite lookup_insert_eq|]. intros c3 Hc3.
    rewrite Hth2, delete_insert_id in Hc3 by done. wp_step.
    eapply (wp_bfree_place _ (t2 <| th := ∅ |>) [11]); [ | exact Hc3 | done | by apply few_held | cbn; lia | | done | by apply no_held|].
    { apply freed_th; [|exact Fr2]. intros h' b Hx. by rewrite lookup_empty in Hx. }
    { intros [?|(k & Hk & [=])]; done. }
    intros c4 t4 Fr4 Hth4 Hc4 Htv4 Hst4. apply wp_clear_addr. apply HQ. eexists c4, t4, _.
    split_and!; [done | | exact Hth4 | exact Hc4 | apply cleared_next; [lia | done] | |].
    + eapply freed_iff; [|exact Fr4]. intros p _. unfold indirect. tauto.
    + etrans; [exact Hst4|]. etrans; [exact Hst2 | exact Hst0].
    + intros a Ha. rewrite Htv4 by done. etrans; [exact (Htv2 a Ha) | by apply Htv0].
Qed.
(** The doubly indirect block may change in the cache. *)
Lemma freed_tput P t y : freed P t → at0 [12] ≠ 0 → is_block y → freed P (tput dbl y t).
Proof.
  intros [[Hb Hs Hc Hm Hh] H2 H3 H4 H5] Hne Hy. pose proof (geo_bounds g Hg) as Hgeo.
  destruct (wf_own _ _ _ _ W0 [12] ltac:(cbn; lia) Hne) as (Hr & _).
  assert (Hbm : dbl ≠ bm dev g) by (unfold datastart in Hr; intros [=]; lia).
  assert (Htv : ∀ a, a ≠ dbl → tv (tput dbl y t) a = tv t a) by (intros a Ha; cbn; by rewrite fn_lookup_insert_ne).
  assert (Hu : used (tput dbl y t) = used t) by (unfold FsAlloc.used; by rewrite Htv).
  assert (Hst : tstale (tput dbl y t) ⊆ {[dbl]} ∪ tstale t) by (cbn; case_decide; set_solver).
  split.
  - split; rewrite ?Hu; try done.
    + intros a. destruct (decide (a = dbl)) as [->|]; [cbn; by rewrite fn_lookup_insert | by rewrite Htv].
    + rewrite Htv; [done|]. unfold datastart in Hr. intros [=]. lia.
    + intros b Hlt Hin%Hst. apply elem_of_union in Hin as [Hin%elem_of_singleton|Hin]; [|by apply (Hc b)].
      injection Hin as ->. lia.
  - exact H2.
  - intros a Ha Hd. rewrite Htv by done. by apply H3.
  - rewrite Hu. exact H4.
  - etrans; [exact Hst|]. set_solver.
Qed.

(** The tables below the doubly indirect block, up to [j]. *)
Definition double (j : Z) : path → Prop := fun p =>
  indirect p ∨ ∃ k, 0 ≤ k < j ∧ (p = [k; 12] ∨ below [k; 12] NINDIRECT p).

Lemma double_next j p : 0 ≤ j → (double j p ∨ below [j; 12] NINDIRECT p) ∨ p = [j; 12] ↔ double (j + 1) p.
Proof.
  intros Hj. unfold double. split.
  - intros [[[?|(k & Hk & Hp)]|?]| ->]; [by left | right; exists k; split; [lia | done] | |];
      right; exists j; (split; [lia | tauto]).
  - intros [?|(k & Hk & Hp)]; [by left; left; left|]. destruct (decide (k = j)) as [->|]; [tauto|].
    left. left. right. exists k. split; [lia | done].
Qed.

Lemma double_fresh j : 0 ≤ j < NINDIRECT →
  ¬ double j [j; 12] ∧ ∀ k, ¬ double j [k; j; 12].
Proof.
  intros Hj. split.
  - intros [[(k & _ & [=])|[(k & _ & [=])|[=]]]|(k & Hk & [[= ->]|(m & _ & [=])])]. lia.
  - intros m [[(k & _ & [=])|[(k & _ & [=])|[=]]]|(k & Hk & [[=]|(n & _ & [= _ ->])])]. lia.
Qed.

Definition zero_entry (dev : Z) (db : nat) (j : Z) : M (fsys T) unit :=
  d ← inS (get_data db);
  let e := get32 d (Z.to_nat (4 * j)) in
  when (negb (e =? 0))
    (bp ← inS (bread dev e);
     free_entries dev bp;;
     inS (brelse bp);;
     bfree dev e;;
     d ← inS (get_data db);
     inS (put_data db (put32 d (Z.to_nat (4 * j)) 0))).

(** One table below the doubly indirect block. *)
Definition in_double (h : nat) (ad : list Z) (j : Z) (s : fsys T) : Prop :=
  ∃ c t, s = with_addrs c ad ∧ freed (double j) t ∧ th t = {[h := dbl]} ∧ trep c t ∧
    ∀ k, j ≤ k < NINDIRECT → ent (tv t dbl) k = ent (tv t0 dbl) k.

Lemma wp_zero_entry h ad j s E :
  at0 [12] ≠ 0 → 0 ≤ j < NINDIRECT → in_double h ad j s →
  wp (zero_entry dev h j) (fun _ s' => in_double h ad (j + 1) s') E s.
Proof.
  intros Hne Hj (c & t & -> & Fr & Hth & Hc & Hent). unfold zero_entry. pose proof (geo_bounds g Hg) as Hgeo.
  destruct (double_fresh j Hj) as [Hfj Hfk].
  assert (Hvj : valid [j; 12]) by (apply kids_valid; [by right | done]).
  assert (Hat : ent (tv t dbl) j = at0 [j; 12]).
  { rewrite at_path_cons by done. rewrite (proj2 (Z.eqb_neq _ _) Hne). by rewrite Hent by lia. }
  wp_step. eapply (wp_get_data h dbl); [exact Hc | rewrite Hth; by rewrite lookup_singleton_eq|]. intros c1 Hc1.
  cbv zeta. fold (ent (tv t dbl) j). rewrite Hat. destruct (Z.eqb_spec (at0 [j; 12]) 0) as [Hz|Hnz]; cbn [negb].
  { wp_step. exists c1, t. split; [done|]. split_and!; [|done|done|intros k Hk; apply Hent; lia].
    eapply freed_zero; [| |exact Fr]; intros p Hv Hp; [apply double_next; tauto|].
    apply double_next in Hp as [[?|(k & Hk & ->)]| ->]; [by left | right | by right | lia].
    rewrite at_path_cons by done. by rewrite Hz. }
  unfold when. destruct (freed_own _ t [j; 12] Fr Hvj Hfj Hnz) as (Hrng & Hu & Hst). unfold datastart in Hrng.
  assert (Hd : (dev, at0 [j; 12]) ≠ dbl).
  { intros [= E1]. assert (E2 : [j; 12] = [12]) by (apply (wf_inj _ _ _ _ W0); [done | cbn; lia | done | done]). done. }
  wp_step. eapply wp_bread; [exact Hc1 | | by apply Hst | lia | rewrite Hth, map_size_singleton; unfold MAXHELD; lia|].
  { intros h'. rewrite Hth. intros [_ Hx]%lookup_singleton_Some. congruence. }
  intros h2 c2 Hh2 Hc2. wp_step. rewrite Hth in Hh2, Hc2.
  destruct (freed_own _ t [12] Fr ltac:(cbn; lia)) as (Hr12 & Hu12 & _);
    [intros [[(k & Hk & [=])|[(k & _ & [=])|[=]]]|(k & _ & [[=]|(m & _ & [=])])]; change NDIRECT with 11 in *; lia | done|].
  eapply (wp_free_entries (double j) (t <| th := <[h2 := (dev, at0 [j; 12])]> {[h := dbl]} |>) [j; 12]);
    [ | exact Hc2 | done | | done | | done | cbn; by rewrite lookup_insert_eq | | |].
  { apply freed_th; [|done]. intros h' b [[_ [= <-]]|[_ [_ [= <-]]%lookup_singleton_Some]]%lookup_insert_Some; [|done].
    split; [unfold datastart; lia | done]. }
  { cbn. rewrite map_size_insert_None, map_size_singleton by done. unfold MAXHELD. lia. }
  { intros k Hk. split; [|apply Hfk]. cbn. split; [done|]. by split. }
  { apply Fr; [intros [=]; lia | done]. }
  { intros h' b Hx. cbn in Hx. apply lookup_insert_Some in Hx as [[_ [= <-]]|[_ [_ [= <-]]%lookup_singleton_Some]].
    - exists [j; 12]. split; [done|]. split; [done | set_solver].
    - exists [12]. split; [cbn; lia|]. split; [done | set_solver]. }
  intros c3 t3 Fr3 Hth3 Hc3 Htv3 _. cbn in Hth3. wp_step.
  eapply wp_brelse; [exact Hc3 | rewrite Hth3; by rewrite lookup_insert_eq|]. intros c4 Hc4.
  rewrite Hth3, delete_insert_id in Hc4 by done. wp_step.
  eapply (wp_bfree_place _ (t3 <| th := {[h := dbl]} |>) [j; 12]); [ | exact Hc4 | done | | done | | done | |].
  { apply freed_th; [|exact Fr3]. intros h' b [_ [= <-]]%lookup_singleton_Some.
    apply (freed_own _ _ [12]) in Fr3 as (? & ? & _); [done | cbn; lia | | done].
    intros [[[(k & Hk & [=])|[(k & _ & [=])|[=]]]|(k & _ & [[=]|(m & _ & [=])])]|(m & _ & [=])]; change NDIRECT with 11 in *; lia. }
  { cbn. rewrite map_size_singleton. unfold MAXHELD. lia. }
  { intros [?|(m & _ & [=])]; done. }
  { intros h' Hx. cbn [th update_field] in Hx. apply lookup_singleton_Some in Hx as [_ Hx]. congruence. }
  intros c5 t5 Fr5 Hth5 Hc5 Htv5 _. cbn in Hth5. wp_step.
  eapply (wp_get_data h dbl); [exact Hc5 | rewrite Hth5; by rewrite lookup_singleton_eq|]. intros c6 Hc6.
  eapply (wp_put_data h dbl); [exact Hc6 | rewrite Hth5; by rewrite lookup_singleton_eq|]. intros c7 Hc7.
  pose proof (fo_block _ _ _ (fr_ok _ _ Fr5) dbl) as Hblk. change NINDIRECT with 128 in Hj.
  exists c7. eexists. split; [done|]. split_and!; [| | exact Hc7 |].
  - apply freed_tput; [|done | apply is_block_put32; [done | lia]]. eapply freed_iff; [|exact Fr5].
    intros p _. apply double_next. lia.
  - cbn. exact Hth5.
  - intros k Hk. cbn [tv tput update_field]. rewrite fn_lookup_insert. rewrite ent_put; [|done | done | change NINDIRECT with 128 in *; lia | unfold FSSIZE; lia].
    rewrite decide_False by lia.
    assert (Hdb : dbl ≠ bm dev g) by (unfold datastart in Hr12; intros [=]; lia).
    assert (tv t5 dbl = tv t dbl) as -> by (etrans; [by apply Htv5 | exact (Htv3 dbl Hdb)]). apply Hent. lia.
Qed.

Definition everything : path → Prop := fun _ => True.

Lemma double_all p : valid p → double NINDIRECT p ∨ p = [12].
Proof.
  intros Hv. unfold double, indirect, direct, below. change NDIRECT with 11.
  destruct p as [|a [|b [|d [|]]]]; cbn in Hv; try done.
  - destruct (decide (a = 12)) as [->|]; [by right|]. left. left. destruct (decide (a = 11)) as [->|]; [tauto|].
    left. exists a. split; [lia | done].
  - destruct Hv as [[-> | ->] Ha]; left; [left; right; left; by exists a | right; exists a; tauto].
  - destruct Hv as (-> & Hb & Ha). left. right. exists b. split; [done|]. right. by exists a.
Qed.

Definition truncated (s : fsys T) : Prop :=
  ∃ c t ad, s = with_addrs c ad ∧ freed everything t ∧ th t = ∅ ∧ trep c t ∧ cleared 13 ad.

Lemma freed_everything t : freed (fun p => double NINDIRECT p ∨ p = [12]) t → freed everything t.
Proof. apply freed_iff. intros p Hv. split; [done|]. intros _. by apply double_all. Qed.

Lemma not_12 : ¬ double NINDIRECT [12].
Proof.
  intros [[(k & Hk & [=])|[(k & _ & [=])|[=]]]|(k & _ & [[=]|(m & _ & [=])])]; change NDIRECT with 11 in *; lia.
Qed.

Lemma wp_double s (Q : unit → fsys T → Prop) E :
  stage indirect (NDIRECT + 1) s → (∀ s', truncated s' → Q tt s') →
  wp (a ← addr_at i (NDIRECT + 1);
      when (negb (a =? 0))
        (db_bp ← inS (bread dev a);
         for_each (seqZ 0 NINDIRECT) (zero_entry dev db_bp);;
         inS (brelse db_bp);; bfree dev a;; clear_addr i (NDIRECT + 1))) Q E s.
Proof.
  intros (c & t & ad & -> & Fr & Hth & Hc & Hcl & Hst0 & Htv0) HQ. change (NDIRECT + 1) with 12 in *.
  wp_step. apply wp_addr_at; [done | lia|]. destruct (Z.eqb_spec (at0 [12]) 0) as [Hz|Hne]; cbn [negb].
  - wp_step. apply HQ. exists c, t, ad. split_and!; try done; [|apply (cleared_skip 12); [lia | done | done]].
    apply freed_everything. eapply freed_zero; [| |exact Fr].
    + intros p _ H. left. by left.
    + assert (Hz2 : ∀ k, at0 [k; 12] = 0) by (intros k; rewrite at_path_cons by done; by rewrite Hz).
      intros p Hv [[?|(k & Hk & [->|(m & Hm & ->)])]| ->]; [by left | by right | right | by right].
      rewrite at_path_cons by done. by rewrite Hz2.
  - unfold when. assert (Fr0 : freed (double 0) t).
    { eapply freed_iff; [|exact Fr]. intros p _. unfold double. split; [by left|]. intros [?|(k & Hk & _)]; [done | lia]. }
    destruct (freed_own _ t [12] Fr ltac:(cbn; lia)) as (Hrng & Hu & _); [intros Hx; apply not_12; by left | done|].
    destruct (wf_own _ _ _ _ W0 [12] ltac:(cbn; lia) Hne) as (_ & _ & Hns).
    pose proof (geo_bounds g Hg) as Hgeo. unfold datastart in Hrng.
    wp_step. eapply wp_bread; [exact Hc | by apply no_held | set_solver | lia | by apply few_held|].
    intros h c1 Hh Hc1. rewrite Hth in Hc1. wp_step. fold dbl in Hc1.
    eapply wp_weaken; [apply (for_seqZ_wp (in_double h ad)); [done | |]|].
    + eexists c1, _. split; [done|]. split_and!; [| | exact Hc1 |].
      * apply freed_th; [|exact Fr0]. intros h' b [_ [= <-]]%lookup_singleton_Some. split; [unfold datastart; lia | done].
      * done.
      * intros k Hk. cbn [tv update_field]. rewrite Htv0; [done|]. intros [=]. lia.
    + intros j s' Hj Hin. by apply wp_zero_entry.
    + intros [] s' (c2 & t2 & -> & Fr2 & Hth2 & Hc2 & _). wp_step.
      eapply (wp_brelse h dbl); [exact Hc2 | rewrite Hth2; by rewrite lookup_singleton_eq|]. intros c3 Hc3.
      rewrite Hth2, delete_singleton_eq in Hc3. wp_step.
      eapply (wp_bfree_place _ (t2 <| th := ∅ |>) [12]); [ | exact Hc3 | done | by apply few_held | cbn; lia | apply not_12 | done | by apply no_held|].
      { apply freed_th; [|exact Fr2]. intros h' b Hx. by rewrite lookup_empty in Hx. }
      intros c4 t4 Fr4 Hth4 Hc4 _ _. apply wp_clear_addr. apply HQ. eexists c4, t4, _.
      split_and!; [done | by apply freed_everything | exact Hth4 | exact Hc4 | apply (cleared_next 12); [lia | done]].
Qed.
End trunc.

Lemma wp_assoc {S A B C} (m : M S A) (f : A → M S B) (k : B → M S C) Q E (s : S) :
  wp (m ≫= f) (fun b s' => wp (k b) Q E s') E s → wp (m ≫= fun a => f a ≫= k) Q E s.
Proof.
  unfold wp, mbind, M_bind.
  destruct (m s) as [a s1|]; [|done]. by destruct (f a s1).
Qed.

Section itrunc.
Context {T : Type} `{!BlockStore T} `{!StoreLaws T}.
Context (dev : Z) (g : superblock) (Hg : geometry g).
Implicit Types (s : fsys T) (t : tstate).

(** The state of the blocks after a file was truncated. *)
Record trunc_post (t : tstate) (x : inode) (t' : tstate) (x' : inode) : Prop := {
  tp_inode : x' = x <| addrs := replicate 13 0 |> <| i_size := 0 |>;
  tp_ok : fs_ok dev g t';
  tp_th : th t' = ∅;
  tp_used : ∀ b, 0 ≤ b → used dev g t' b = true ↔
    used dev g t b = true ∧ ∀ p, valid p → at_path dev t (addrs x) p ≠ 0 → at_path dev t (addrs x) p ≠ b;
  tp_sync : synced dev g t' x';
  tp_frame : ∀ a, a ≠ bm dev g → a ≠ iblock dev g x → a ≠ (dev, at_path dev t (addrs x) [12]) → tv t' a = tv t a;
  tp_fits : fits dev g t' 0 ∧ iblock dev g x ∈ tlog t'
}.

Lemma cleared_all t ad0 ad : cleared dev t ad0 13 ad → ad = replicate 13 0.
Proof.
  intros [Hl Hk]. apply list_eq. intros k. destruct (decide (k < 13)%nat) as [Hlt|Hge].
  - rewrite lookup_replicate_2 by done. rewrite <-(Nat2Z.id k), Hk by lia. by rewrite decide_True by lia.
  - rewrite !lookup_ge_None_2; [done | rewrite length_replicate; lia | lia].
Qed.

Lemma wp_itrunc s c i x t (Q : unit → fsys T → Prop) E :
  fs_ok dev g t → wf_file dev g t (addrs x) → i_dev x = dev → 0 ≤ inum x < sb_ninodes g → fields_ok x →
  trep c t → sb s = g → (i < length (inodes s))%nat → th t = ∅ → fits dev g t 1 →
  (∀ c' t' x', trep c' t' → trunc_post t x t' x' → Q tt (put_ino s c' i x')) →
  wp (itrunc i) Q E (put_ino s c i x).
Proof.
  intros Hok W Hdev Hin Hfd Hc Hsb Hi Hth Hfit HQ. pose proof (geo_bounds g Hg) as Hgeo.
  unfold itrunc. wp_step. apply wp_ino_put; [done|]. cbv zeta. rewrite Hdev.
  assert (H0 : stage dev g t (addrs x) s i x (direct 0) 0 (put_ino s c i x)).
  { exists c, t, (addrs x). unfold with_addrs. rewrite addrs_id. split; [done|]. split; [|split_and!; try done; by eapply cleared_0].
    split; try done; [|set_solver]. intros b Hb. split; [|by intros []]. intros Hu. split; [done|].
    intros p _ (k & Hk & _). lia. }
  wp_step. eapply (wp_direct dev g Hg t (addrs x) W s i x Hsb Hi); [exact H0|]. intros s1 H1.
  apply wp_assoc. eapply (wp_indirect dev g Hg t (addrs x) W s i x Hsb Hi); [exact H1|]. intros s2 H2.
  apply wp_assoc. eapply (wp_double dev g Hg t (addrs x) W s i x Hsb Hi); [exact H2|].
  intros s3 (c3 & t3 & ad3 & -> & Fr & Hth3 & Hc3 & Hcl). apply cleared_all in Hcl as ->.
  wp_step. apply wp_iupd_put; [done|]. set (x' := x <| addrs := replicate 13 0 |> <| i_size := 0 |>).
  destruct (iblock_range g Hg (inum x) Hin) as [_ Hib].
  eapply (wp_iupdate dev g Hg); [apply Fr | exact Hdev | exact Hin | exact Hc3 | done | done | exact Hth3 | |].
  { eapply (fits_one _ _ _ _ 0), Fr. }
  intros c4 Hc4. eapply HQ; [exact Hc4|].
  assert (Hbmne : iblock dev g x' ≠ bm dev g) by (intros [=]; lia).
  split; [done | | exact Hth3 | | | |].
  - exact (fs_ok_meta dev g t3 (IBLOCK (inum x) g) _ (fr_ok _ _ _ _ _ _ Fr) Hib
      (is_block_put_dinode x' _ eq_refl (fo_block _ _ _ (fr_ok _ _ _ _ _ _ Fr) _))).
  - intros b Hb. unfold inode_stored, iblock. rewrite used_tstore by exact Hbmne. rewrite (fr_used _ _ _ _ _ _ Fr b Hb).
    split; intros [H3 H4]; (split; [done|]); intros p Hv; [by apply H4 | intros _; by apply H4].
  - unfold synced, inode_stored. rewrite tv_tstore, decide_True by done.
    rewrite get_put_dinode; [by destruct x | | apply (fo_block _ _ _ (fr_ok _ _ _ _ _ _ Fr)) | done].
    destruct Hfd as [Hsh _ _]. split; [exact Hsh | cbn; lia|]. split; [done|].
    intros a Ha. cbn [addrs update_field x'] in Ha. apply elem_of_replicate in Ha as [-> _]. lia.
  - intros a H3 H4 H5. unfold inode_stored. rewrite tv_tstore, decide_False by exact H4. by apply Fr.
  - split; [apply fits_log, Fr | cbn; set_solver].
Qed.

(** C14: [itrunc] frees exactly the blocks of the file (direct, indirect,
    doubly indirect and the tables between), leaves the inode empty in memory
    and on the disk, and changes no block of another file. *)
Theorem itrunc_correct s i x t :
  fs_ok dev g t → wf_file dev g t (addrs x) → i_dev x = dev → 0 ≤ inum x < sb_ninodes g → fields_ok x →
  inodes s !! i = Some x → trep (store s) t → sb s = g → th t = ∅ → fits dev g t 1 →
  ∃ c t' x', itrunc i s = Ok tt (put_ino s c i x') ∧ trep c t' ∧ trunc_post t x t' x'.
Proof.
  intros Hok W Hdev Hin Hfd Hx Hr Hsb Hth Hfit.
  assert (Hw : wpt (itrunc i) (fun _ s' => ∃ c t' x', s' = put_ino s c i x' ∧ trep c t' ∧ trunc_post t x t' x') s).
  { apply (wp_at_ino _ i x); [done|]. eapply wp_itrunc; try done; [by apply lookup_lt_Some in Hx|].
    intros c t' x' Hc Hp. by exists c, t', x'. }
  apply wpt_ok in Hw as ([] & s' & Hrun & c & t' & x' & -> & Hc & Hp). by exists c, t', x'.
Qed.
End itrunc.

Lemma itrunc_correct_witness :
  ∃ c x', itrunc (BlockStore0 := RefStore.store) 0 small_fs = Ok tt (put_ino small_fs c 0 x') ∧ i_size x' = 0.
Proof.
  pose proof (RefStore.laws) as Hlaws. destruct new_inode_ok as [F Hfd].
  destruct (itrunc_correct (BlockStore0 := RefStore.store) (StoreLaws0 := Hlaws) 1 SmallDisk.g SmallDisk.geometry_g
    small_fs 0 new_inode SmallDisk.t) as (c & t' & x' & Hrun & _ & Hp).
  - apply SmallDisk.fs_ok_t.
  - apply wf_file_empty.
  - reflexivity.
  - cbn. lia.
  - exact Hfd.
  - reflexivity.
  - apply SmallDisk.trep_disk.
  - reflexivity.
  - reflexivity.
  - apply SmallDisk.room_t. lia.
  - exists c, x'. split; [exact Hrun|]. by rewrite (tp_inode _ _ _ _ _ _ Hp).
Defined.
