(* ===== verification/FsInode.v ===== *)
(** * The inode cache (fs.c: iget, idup, ilock, iunlock, iput, ialloc)

    [icache_ok]: an inode that is in use has one entry.  [iget] finds it or
    takes a free entry; [ilock] makes the entry a copy of the disk; [iput] of
    the last reference to an inode without links frees its blocks and the
    inode itself. *)
From stdpp Require Import gmap functions.
From S2P Require Import Prelude Spinlock Proc Sleep Sleeplock Bytes CString Block Store Fs FsAlloc FsFile FsRw FsTrunc.

Section inode.
Context {T : Type} `{!BlockStore T} `{!StoreLaws T}.
Implicit Types (s : fsys T) (t : tstate) (x : inode).

(** ** The lock of the cache *)
Definition inside (s : fsys T) : fsys T :=
  mkfsys (set_kern ((kern s) <| this_cpu := pushed (this_cpu (kern s)) |>) (store s)) (sb s)
    (locked_by (this_cpu (kern s)) (ic_lock s)) (inodes s).
Definition bracket (k : kstate) : kstate := k <| this_cpu := popped (pushed (this_cpu k)) |>.
Definition outside (s : fsys T) : fsys T := s <| store := set_kern (bracket (kern s)) (store s) |>.

Lemma kready_bracket k : kready k → kready (bracket k).
Proof.
  intros [[Hl Hc Hp Hcur] Hn]. split; [|cbn -[INT_MAX]; lia].
  split; [done | by apply calm_bracket | done | done].
Qed.

Lemma wp_ic_acquire (Q : unit → fsys T → Prop) E s :
  kready (kern s) → free (ic_lock s) → Q tt (inside s) → wp (with_ic_lock acquire) Q E s.
Proof.
  intros [[_ [Hc _] _ _] _] Hf HQ. eapply wp_zoom_acquire; [exact Hc | exact Hf | exact HQ].
Qed.

Lemma wp_ic_release (Q : unit → fsys T → Prop) E s :
  kready (kern s) → free (ic_lock s) → Q tt (outside s) → wp (with_ic_lock release) Q E (inside s).
Proof.
  intros [[_ Hc _ _] _] Hf HQ.
  eapply (wp_zoom_release _ _ (this_cpu (kern s)) (ic_lock s)); [exact Hc | |].
  - unfold kern at 1, inside. cbn. by rewrite kern_set_kern.
  - rewrite unlocked_free by done.
    match goal with |- Q tt ?s' => replace s' with (outside s); [done|] end.
    unfold outside, put_kern, kern, inside, update_field, bracket. destruct s as [st b l ns]. cbn.
    by rewrite kern_set_kern, set_set_kern.
Qed.

Lemma trep_outside s t : trep (store s) t → trep (store (outside s)) t.
Proof. intros Hr. cbn. apply trep_set_kern; [done | by eapply kready_bracket, trep_kern | done]. Qed.

Lemma inodes_inside s l : (inside s) <| inodes := l |> = inside (s <| inodes := l |>).
Proof. done. Qed.

Lemma wp_ino_inside i x (Q : inode → fsys T → Prop) E s :
  inodes s !! i = Some x → Q x (inside s) → wp (ino i) Q E (inside s).
Proof. intros Hx HQ. by eapply wp_ino. Qed.

Lemma wp_iupd_inside i x f (Q : unit → fsys T → Prop) E s :
  inodes s !! i = Some x → Q tt (inside (s <| inodes := <[i := f x]> (inodes s) |>)) →
  wp (iupd i f) Q E (inside s).
Proof. intros Hx HQ. unfold iupd. wp_step. eapply wp_ino; [done|]. by wp_step. Qed.

(** ** The cache *)
Record icache_ok (s : fsys T) : Prop := {
  ic_len : length (inodes s) = 50%nat;
  ic_free : free (ic_lock s);
  ic_idle : ∀ i x, inodes s !! i = Some x → sl_idle (i_lock x);
  ic_ref : ∀ i x, inodes s !! i = Some x → 0 ≤ ref x < INT_MAX;
  ic_one : ∀ i j x y, inodes s !! i = Some x → inodes s !! j = Some y → 0 < ref x → 0 < ref y →
    i_dev x = i_dev y → inum x = inum y → i = j
}.

(** The entry of an inode that is in use, and an entry that is free. *)
Definition is_entry (dev n : Z) (x : inode) : bool := (ref x >? 0) && (i_dev x =? dev) && (inum x =? n).
Definition is_free (x : inode) : bool := ref x =? 0.

Lemma iget_scan_run dev n (s : fsys T) k m empty :
  (k + m = length (inodes s))%nat →
  ∃ r, iget_scan dev n (seq k m) empty s = Ok r s ∧
    match r with
    | inl i => ∃ x, (k ≤ i)%nat ∧ inodes s !! i = Some x ∧ is_entry dev n x = true
    | inr e => (∀ i x, (k ≤ i)%nat → inodes s !! i = Some x → is_entry dev n x = false) ∧
        match empty with
        | Some j => e = Some j
        | None => match e with
                  | Some i => ∃ x, (k ≤ i)%nat ∧ inodes s !! i = Some x ∧ is_free x = true ∧
                      ∀ j y, (k ≤ j < i)%nat → inodes s !! j = Some y → is_free y = false
                  | None => ∀ j y, (k ≤ j)%nat → inodes s !! j = Some y → is_free y = false
                  end
        end
    end.
Proof.
  revert k empty. induction m as [|m IH]; intros k empty Hk.
  - exists (inr empty). split; [done|]. split.
    + intros i x Hi Hx. apply lookup_lt_Some in Hx. lia.
    + destruct empty; [done|]. intros j y Hj Hy. apply lookup_lt_Some in Hy. lia.
  - destruct (lookup_lt_is_Some_2 (inodes s) k) as [x Hx]; [lia|]. cbn [seq iget_scan].
    unfold ino. m_unfold. rewrite Hx. fold (is_entry dev n x). destruct (is_entry dev n x) eqn:He.
    + exists (inl k). split; [done|]. exists x. split_and!; done.
    + match goal with |- context [iget_scan dev n (seq (S k) m) ?e s] => destruct (IH (S k) e) as (r & Hr & Hspec); [lia|] end.
      exists r. split; [exact Hr|]. destruct r as [i|e].
      * destruct Hspec as (y & Hi & Hy). exists y. split; [lia | done].
      * destruct Hspec as [Hno Hspec]. split.
        { intros i y Hi Hy. destruct (decide (i = k)) as [->|]; [congruence | apply (Hno i); [lia | done]]. }
        destruct empty as [j|]; [done|]. fold (is_free x) in Hspec. destruct (is_free x) eqn:Hf.
        -- subst e. exists x. split_and!; try done. intros j y Hj. lia.
        -- destruct e as [i|].
           ++ destruct Hspec as (y & Hi & Hy & Hfy & Hall). exists y. split_and!; [lia | done | done|].
              intros j z Hj Hz. destruct (decide (j = k)) as [->|]; [congruence | apply (Hall j); [lia | done]].
           ++ intros j z Hj Hz. destruct (decide (j = k)) as [->|]; [congruence | apply (Hspec j); [lia | done]].
Qed.
(** *** iget *)
Definition taken (dev n : Z) (x : inode) : inode :=
  x <| i_dev := dev |> <| inum := n |> <| ref := 1 |> <| i_flags := 0 |>.
Definition more (x : inode) : inode := x <| ref := ref x + 1 |>.

(** What [iget] does to the cache: entry [i] becomes [x']. *)
Definition gotten (dev n : Z) (s : fsys T) (i : nat) (x' : inode) : Prop :=
  (∃ x, inodes s !! i = Some x ∧ is_entry dev n x = true ∧ x' = more x) ∨
  ((∀ j y, inodes s !! j = Some y → is_entry dev n y = false) ∧
   ∃ x, inodes s !! i = Some x ∧ is_free x = true ∧ x' = taken dev n x ∧
     ∀ j y, (j < i)%nat → inodes s !! j = Some y → is_free y = false).

Definition set_ino (s : fsys T) (i : nat) (x : inode) : fsys T := s <| inodes := <[i := x]> (inodes s) |>.

Lemma set_ino_twice s i x y : set_ino (set_ino s i x) i y = set_ino s i y.
Proof. unfold set_ino, update_field. cbn. by rewrite list_insert_insert_eq. Qed.

Lemma wp_iget dev n s t (Q : nat → fsys T → Prop) E :
  icache_ok s → trep (store s) t →
  (∀ i x', gotten dev n s i x' → Q i (outside (set_ino s i x'))) →
  ((∀ j y, inodes s !! j = Some y → is_entry dev n y = false ∧ is_free y = false) →
     E (Panic "iget: no inodes") (inside s)) →
  wp (iget dev n) Q E s.
Proof.
  intros Hok Hr HQ HE. pose proof (trep_kern _ _ Hr) as Hk. fold (kern s) in Hk. unfold iget. wp_step.
  apply wp_ic_acquire; [done | apply Hok|]. wp_step.
  destruct (iget_scan_run dev n (inside s) 0 NINODE None) as (r & Hrun & Hspec); [cbn; by rewrite (ic_len _ Hok)|].
  eapply wp_eq; [exact Hrun|]. destruct r as [i|[i|]].
  - destruct Hspec as (x & _ & Hx & He). wp_step. eapply wp_iupd_inside; [exact Hx|]. wp_step.
    apply wp_ic_release; [done | apply Hok|]. wp_step. apply HQ. left. exists x. split_and!; [done | done|].
    unfold more. pose proof (ic_ref _ Hok i x Hx). by rewrite i32_id by (unfold INT_MIN, INT_MAX in *; lia).
  - destruct Hspec as [Hno (x & _ & Hx & Hf & Hmin)].
    assert (Hi : (i < length (inodes s))%nat) by (by apply lookup_lt_Some in Hx).
    do 4 (wp_step; eapply wp_iupd_inside; [cbn; try rewrite list_lookup_insert_eq by (rewrite ?length_insert; done); first [exact Hx | reflexivity]|]).
    wp_step. apply wp_ic_release; [done | apply Hok|]. wp_step.
    match goal with |- Q i (outside ?s') => replace s' with (set_ino s i (taken dev n x)) end.
    2:{ unfold set_ino, update_field. cbn. by rewrite !list_insert_insert_eq. }
    apply HQ. right. split; [intros j y Hy; apply (Hno j); [lia | done]|]. exists x. split_and!; try done.
    intros j y Hj Hy. apply (Hmin j); [lia | done].
  - destruct Hspec as [Hno Hfull]. wp_step. apply HE. intros j y Hy.
    split; [apply (Hno j); [lia | done] | apply (Hfull j); [lia | done]].
Qed.

Lemma is_entry_true dev n x : is_entry dev n x = true ↔ 0 < ref x ∧ i_dev x = dev ∧ inum x = n.
Proof. unfold is_entry. rewrite !andb_true_iff, Z.gtb_lt, !Z.eqb_eq. tauto. Qed.

Lemma gotten_entry dev n s i x' : icache_ok s → gotten dev n s i x' →
  i_dev x' = dev ∧ inum x' = n ∧ 0 < ref x' ∧ sl_idle (i_lock x') ∧ (i < length (inodes s))%nat.
Proof.
  intros Hok [(x & Hx & He & ->)|(_ & x & Hx & Hf & -> & _)];
    pose proof (ic_idle _ Hok i x Hx); pose proof (lookup_lt_Some _ _ _ Hx).
  - apply is_entry_true in He as (H1 & H2 & H3). cbn. split_and!; try done. lia.
  - done.
Qed.

(** [iget] keeps one entry per inode. *)
Lemma gotten_ok dev n s i x' :
  icache_ok s → gotten dev n s i x' → ref x' < INT_MAX → icache_ok (set_ino s i x').
Proof.
  intros Hok Hgot Hmax. destruct (gotten_entry dev n s i x' Hok Hgot) as (Hd & Hn & Hpos & Hidle & Hi).
  assert (Hother : ∀ j y, j ≠ i → inodes s !! j = Some y → ¬ (0 < ref y ∧ i_dev y = dev ∧ inum y = n)).
  { intros j y Hj Hy (H1 & H2 & H3). destruct Hgot as [(x & Hx & He & ->)|(Hno & _)].
    - apply is_entry_true in He as (G1 & G2 & G3). apply Hj. apply (ic_one _ Hok j i y x); congruence.
    - specialize (Hno j y Hy). assert (is_entry dev n y = true) by (by apply is_entry_true). congruence. }
  split; [cbn; rewrite length_insert; apply Hok | apply Hok | | |].
  - intros j y [(-> & <- & _)|[_ Hy]]%list_lookup_insert_Some; [done | by eapply ic_idle].
  - intros j y [(-> & <- & _)|[_ Hy]]%list_lookup_insert_Some; [lia | by eapply ic_ref].
  - intros j k y z [(<- & <- & _)|[Hj Hy]]%list_lookup_insert_Some [(<- & <- & _)|[Hk Hz]]%list_lookup_insert_Some; try done.
    + intros _ Hz0 E1 E2. exfalso. apply (Hother k z); [done | done|]. split; [done|]. split; congruence.
    + intros Hy0 _ E1 E2. exfalso. apply (Hother j y); [done | done|]. split; [done|]. split; congruence.
    + by eapply ic_one.
Qed.

(** C22: [iget] returns the one entry of the inode, with one more reference,
    or a fresh entry that is not valid yet; no other entry changes, and two
    entries never stand for the same inode.  It panics only when every entry
    is in use. *)
Theorem iget_correct dev n s t :
  icache_ok s → trep (store s) t → (∀ i x, inodes s !! i = Some x → ref x + 1 < INT_MAX) →
  wp (iget dev n)
    (fun i s' => icache_ok s' ∧ trep (store s') t ∧ (∀ j, j ≠ i → inodes s' !! j = inodes s !! j) ∧
       ∃ x', inodes s' !! i = Some x' ∧ i_dev x' = dev ∧ inum x' = n ∧
         ((∃ x, inodes s !! i = Some x ∧ is_entry dev n x = true ∧ x' = more x) ∨
          ((∀ j y, inodes s !! j = Some y → is_entry dev n y = false) ∧ ref x' = 1 ∧ i_flags x' = 0)))
    (fun w s' => w = Panic "iget: no inodes" ∧
       ∀ j y, inodes s !! j = Some y → is_entry dev n y = false ∧ ref y ≠ 0) s.
Proof.
  intros Hok Hr Hmax. eapply wp_iget; [done | done | |].
  - intros i x' Hgot. pose proof Hgot as Hgot'. destruct (gotten_entry dev n s i x' Hok Hgot) as (Hd & Hn & _ & _ & Hi).
    assert (Hm : ref x' < INT_MAX).
    { destruct Hgot as [(x & Hx & _ & ->)|(_ & x & _ & _ & -> & _)]; [by eapply Hmax | done]. }
    pose proof (gotten_ok dev n s i x' Hok Hgot Hm) as Hok'.
    split; [destruct Hok'; by split|]. split; [by apply (trep_outside (set_ino s i x'))|]. split.
    { intros j Hj. cbn. by rewrite list_lookup_insert_ne. }
    exists x'. split; [cbn; by rewrite list_lookup_insert_eq|]. split; [done|]. split; [done|].
    destruct Hgot as [?|(Hno & x & Hx & Hf & -> & _)]; [by left | right]. done.
  - intros Hfull. split; [done|]. intros j y Hy. destruct (Hfull j y Hy) as [H1 H2]. split; [done|].
    by apply Z.eqb_neq in H2.
Qed.
(** *** idup *)
Lemma wp_idup i x s t (Q : nat → fsys T → Prop) E :
  icache_ok s → trep (store s) t → inodes s !! i = Some x →
  Q i (outside (set_ino s i (more x))) → wp (idup i) Q E s.
Proof.
  intros Hok Hr Hx HQ. pose proof (trep_kern _ _ Hr) as Hk. fold (kern s) in Hk. unfold idup. wp_step.
  apply wp_ic_acquire; [done | apply Hok|]. wp_step. eapply wp_iupd_inside; [exact Hx|]. wp_step.
  apply wp_ic_release; [done | apply Hok|]. wp_step. unfold more in HQ.
  pose proof (ic_ref _ Hok i x Hx). by rewrite i32_id by (unfold INT_MIN, INT_MAX in *; lia).
Qed.

(** ** Locking an inode *)
Context (dev : Z) (g : superblock) (Hg : geometry g).

Section sleeping.
Context (sleep_inode : nat → SL unit) (naps : nat) (inode_chan : nat → chan_t).

Definition sl_taken (l : sleeplock) (p : Z) : sleeplock := mksleeplock 1 (sl_lk l) (sl_name l) p.
Definition sl_given (l : sleeplock) : sleeplock := mksleeplock 0 (sl_lk l) (sl_name l) 0.

Lemma wp_with_inode_lock {A} i x (m : SL A) (Q : A → fsys T → Prop) E s :
  inodes s !! i = Some x →
  wp m (fun a p => Q a (put_ino s (set_kern p.1 (store s)) i (x <| i_lock := p.2 |>)))
    (fun w p => E w (put_ino s (set_kern p.1 (store s)) i (x <| i_lock := p.2 |>))) (kern s, i_lock x) →
  wp (with_inode_lock i m) Q E s.
Proof.
  intros Hx Hm. unfold with_inode_lock. wp_step. eapply wp_ino; [exact Hx|]. apply wp_zoom. exact Hm.
Qed.

(** The inode as [ilock] leaves it: the copy of the disk if it was not valid. *)
Definition loaded (t : tstate) (x : inode) : inode :=
  if Z.land (i_flags x) I_VALID =? 0 then
    let y := get_dinode (tv t (iblock dev g x)) x in y <| i_flags := Z.lor (i_flags x) I_VALID |>
  else x.

Lemma loaded_valid t x : 0 ≤ i_flags x → Z.land (i_flags (loaded t x)) I_VALID ≠ 0.
Proof.
  intros Hf. unfold loaded. destruct (Z.eqb_spec (Z.land (i_flags x) I_VALID) 0) as [H0|H0]; [|done].
  cbn [i_flags update_field]. intros H. apply (f_equal (fun z => Z.testbit z 1)) in H.
  by rewrite Z.land_spec, Z.lor_spec, Z.bits_0, orb_true_r in H.
Qed.

Lemma wp_ilock i x s t (Q : unit → fsys T → Prop) E :
  fs_ok dev g t → trep (store s) t → sb s = g → th t = ∅ → inodes s !! i = Some x → 1 ≤ ref x →
  i_dev x = dev → 0 ≤ inum x < sb_ninodes g → sl_idle (i_lock x) → sl_locked (i_lock x) = 0 →
  i_type (loaded t x) ≠ 0 →
  (∀ c p, trep c t → Q tt (put_ino s c i ((loaded t x) <| i_lock := sl_taken (i_lock x) p |>))) →
  wp (ilock sleep_inode naps i) Q E s.
Proof.
  intros Hok Hr Hsb Hth Hx Href Hdev Hin Hidle Hfree Hty HQ. pose proof (lookup_lt_Some _ _ _ Hx) as Hi.
  unfold ilock. wp_step. eapply wp_ino; [exact Hx|]. rewrite (proj2 (Z.ltb_ge _ _)) by lia.
  wp_step. eapply wp_with_inode_lock; [exact Hx|].
  apply acquiresleep_free; [by eapply trep_kern | done | done|]. intros k' p Hk Ho. cbn [fst snd].
  assert (Hr1 : trep (set_kern k' (store s)) t) by (by apply trep_set_kern).
  wp_step. apply wp_ino_put; [done|]. unfold loaded in *. cbn [i_flags update_field].
  destruct (Z.land (i_flags x) I_VALID =? 0) eqn:Hval; cbn [when].
  2:{ wp_step. by apply (HQ _ p). }
  destruct (iblock_range g Hg (inum x) Hin) as [_ Hib]. pose proof (geo_bounds g Hg) as Hgeo.
  wp_step. wp_step. change (sb (put_ino s _ i _)) with (sb s). rewrite Hsb. cbn [i_dev inum update_field]. rewrite Hdev.
  wp_step. eapply wp_bread; [exact Hr1 | by apply no_held | apply Hok; unfold datastart; lia | lia | by apply few_held|].
  intros h c1 Hh Hc1. wp_step. eapply wp_get_data; [exact Hc1 | cbn; by rewrite lookup_insert_eq|]. intros c2 Hc2.
  wp_step. rewrite !put_ino_store. apply wp_iupd_put; [done|]. wp_step. eapply wp_brelse_same; [exact Hc2 | done|]. intros c3 Hc3.
  wp_step. rewrite !put_ino_store. apply wp_iupd_put; [done|]. wp_step. apply wp_ino_put; [done|].
  match goal with |- wp (if ?b then _ else _) _ _ _ => assert (b = false) as -> by (apply Z.eqb_neq; exact Hty) end.
  wp_step. exact (HQ c3 p Hc3).
Qed.

Lemma wp_iunlock i x s t (Q : unit → fsys T → Prop) E :
  trep (store s) t → inodes s !! i = Some x → 1 ≤ ref x → sl_idle (i_lock x) → sl_locked (i_lock x) ≠ 0 →
  (∀ c, trep c t → Q tt (put_ino s c i (x <| i_lock := sl_given (i_lock x) |>))) →
  wp (iunlock inode_chan i) Q E s.
Proof.
  intros Hr Hx Href Hidle Hlk HQ. pose proof (lookup_lt_Some _ _ _ Hx) as Hi. unfold iunlock. wp_step.
  eapply wp_with_inode_lock; [exact Hx|]. apply holdingsleep_spec; [by eapply trep_kern | done|].
  intros k1 Hk1 Ho1. cbn [fst snd]. rewrite (proj2 (Z.eqb_neq _ _) Hlk).
  assert (Hr1 : trep (set_kern k1 (store s)) t) by (by apply trep_set_kern).
  wp_step. apply wp_ino_put; [done|]. cbn [ref update_field]. rewrite (proj2 (Z.ltb_ge _ _)) by lia.
  eapply wp_with_inode_lock; [cbn; by rewrite list_lookup_insert_eq|].
  apply releasesleep_held; [exact (trep_kern _ _ Hr1) | done|]. intros k2 Hk2 Ho2. cbn [fst snd store put_ino].
  rewrite put_ino_twice. apply HQ. by apply trep_set_kern.
Qed.
End sleeping.

(** ** iput *)
Definition last_unlinked (x : inode) : bool :=
  (ref x =? 1) && negb (Z.land (i_flags x) I_VALID =? 0) && (nlink x =? 0).
Definition fewer (x : inode) : inode := x <| ref := ref x - 1 |>.

Lemma wp_iput_keep i x s t (Q : unit → fsys T → Prop) E :
  icache_ok s → trep (store s) t → inodes s !! i = Some x → 1 ≤ ref x → last_unlinked x = false →
  Q tt (outside (set_ino s i (fewer x))) → wp (iput i) Q E s.
Proof.
  intros Hok Hr Hx Href Hlast HQ. pose proof (trep_kern _ _ Hr) as Hk. fold (kern s) in Hk. unfold iput. wp_step.
  apply wp_ic_acquire; [done | apply Hok|]. wp_step. eapply wp_ino_inside; [exact Hx|].
  fold (last_unlinked x). rewrite Hlast. do 2 wp_step. wp_step. eapply wp_iupd_inside; [exact Hx|].
  apply wp_ic_release; [done | apply Hok|]. unfold fewer in HQ.
  pose proof (ic_ref _ Hok i x Hx). by rewrite i32_id by (unfold INT_MIN, INT_MAX in *; lia).
Qed.
(** The type of an inode on the disk; 0 is a free inode. *)
Definition dtype (t : tstate) (n : Z) : Z := i16 (get16 (tv t (dev, IBLOCK n g)) (dinode_off n)).

Lemma dtype_get t n x : inum x = n → i_type (get_dinode (tv t (dev, IBLOCK n g)) x) = dtype t n.
Proof. by intros <-. Qed.

Lemma wp_iput_free i x s t (Q : unit → fsys T → Prop) E :
  icache_ok s → fs_ok dev g t → wf_file dev g t (addrs x) → fields_ok x → trep (store s) t → sb s = g →
  th t = ∅ → fits dev g t 1 → inodes s !! i = Some x → i_dev x = dev → 0 ≤ inum x < sb_ninodes g →
  last_unlinked x = true →
  (∀ s' t' t1 x1, let x2 := x1 <| i_type := 0 |> in
     trunc_post dev g t x t1 x1 → t' = inode_stored dev g x2 t1 → trep (store s') t' →
     ic_lock s' = ic_lock s → sb s' = g → inodes s' = <[i := fewer (x2 <| i_flags := 0 |>)]> (inodes s) →
     Q tt s') →
  wp (iput i) Q E s.
Proof.
  intros Hok Hfs W Hfd Hr Hsb Hth Hfit Hx Hdev Hin Hlast HQ. pose proof (lookup_lt_Some _ _ _ Hx) as Hi.
  pose proof (trep_kern _ _ Hr) as Hk. fold (kern s) in Hk. unfold iput. wp_step.
  apply wp_ic_acquire; [done | apply Hok|]. wp_step. eapply wp_ino_inside; [exact Hx|].
  fold (last_unlinked x). rewrite Hlast. unfold when. wp_step. wp_step. apply wp_ic_release; [done | apply Hok|].
  wp_step. apply (wp_at_ino _ i x); [exact Hx|].
  eapply (wp_itrunc dev g Hg); [done | done | done | done | done | by apply trep_outside | done | done | done | done|].
  intros c1 t1 x1 Hc1 Htp. pose proof (tp_inode _ _ _ _ _ _ Htp) as Hx1.
  assert (Hf1 : i_dev x1 = dev ∧ inum x1 = inum x ∧ ref x1 = ref x) by (by rewrite Hx1).
  destruct Hf1 as (Hd1 & Hn1 & Href1).
  wp_step. apply wp_iupd_put; [done|]. wp_step. set (x2 := x1 <| i_type := 0 |>).
  eapply (wp_iupdate dev g Hg); [apply Htp | exact Hd1 | cbn; by rewrite Hn1 | exact Hc1 | done | done | apply Htp | |].
  { destruct (tp_fits _ _ _ _ _ _ Htp) as [Hf Hl]. unfold iblock in *. cbn. rewrite Hn1. by eapply fits_old. }
  intros c2 Hc2. wp_step.
  apply wp_ic_acquire; [by eapply (trep_kern c2) | apply Hok|].
  eapply wp_iupd_inside; [cbn; by rewrite list_lookup_insert_eq|]. wp_step.
  eapply wp_iupd_inside; [cbn; by rewrite list_lookup_insert_eq by (by rewrite length_insert)|].
  apply wp_ic_release; [by eapply (trep_kern c2) | apply Hok|].
  eapply (HQ _ _ t1 x1); [exact Htp | reflexivity | | done | exact Hsb |].
  - exact (trep_outside (put_ino (outside s) c2 i x2) _ Hc2).
  - cbn. rewrite !list_insert_insert_eq. f_equal. unfold fewer.
    pose proof (ic_ref _ Hok i x Hx). unfold last_unlinked in Hlast.
    apply andb_prop in Hlast as [[Hl%Z.eqb_eq _]%andb_prop _].
    change (ref (x2 <| i_flags := 0 |>)) with (ref x1). rewrite i32_id; [done|]. unfold INT_MIN, INT_MAX. lia.
Qed.

(** C12: the last [iput] of an inode without links frees every block of its
    file and nothing else, frees the inode on the disk, and empties its entry
    in the cache; the blocks of other files keep their contents. *)
Theorem iput_frees_unlinked i x s t :
  icache_ok s → fs_ok dev g t → wf_file dev g t (addrs x) → fields_ok x → trep (store s) t → sb s = g →
  th t = ∅ → fits dev g t 1 → inodes s !! i = Some x → i_dev x = dev → 0 ≤ inum x < sb_ninodes g →
  last_unlinked x = true →
  ∃ s' t' x', iput i s = Ok tt s' ∧ icache_ok s' ∧ trep (store s') t' ∧ fs_ok dev g t' ∧
    inodes s' = <[i := x']> (inodes s) ∧ ref x' = 0 ∧ dtype t' (inum x) = 0 ∧
    (∀ b, 0 ≤ b → used dev g t' b = true ↔ used dev g t b = true ∧
       ∀ p, valid p → at_path dev t (addrs x) p ≠ 0 → at_path dev t (addrs x) p ≠ b) ∧
    (∀ a, a ≠ bm dev g → a ≠ iblock dev g x → a ≠ (dev, at_path dev t (addrs x) [12]) → tv t' a = tv t a).
Proof.
  intros Hok Hfs W Hfd Hr Hsb Hth Hfit Hx Hdev Hin Hlast. pose proof (lookup_lt_Some _ _ _ Hx) as Hi.
  assert (Hw : wpt (iput i) (fun _ s' => ∃ t' x', icache_ok s' ∧ trep (store s') t' ∧ fs_ok dev g t' ∧
    inodes s' = <[i := x']> (inodes s) ∧ ref x' = 0 ∧ dtype t' (inum x) = 0 ∧
    (∀ b, 0 ≤ b → used dev g t' b = true ↔ used dev g t b = true ∧
       ∀ p, valid p → at_path dev t (addrs x) p ≠ 0 → at_path dev t (addrs x) p ≠ b) ∧
    (∀ a, a ≠ bm dev g → a ≠ iblock dev g x → a ≠ (dev, at_path dev t (addrs x) [12]) → tv t' a = tv t a)) s).
  2:{ apply wpt_ok in Hw as ([] & s' & Hrun & t' & x' & Hp). by exists s', t', x'. }
  eapply wp_iput_free; [done..|]. intros s' t' t1 x1 x2 Htp -> Hc Hl Hsb' Hinos.
  assert (Hx2 : x2 = x <| addrs := replicate 13 0 |> <| i_size := 0 |> <| i_type := 0 |>)
    by (unfold x2; by rewrite (tp_inode _ _ _ _ _ _ Htp)).
  pose proof (tp_ok _ _ _ _ _ _ Htp) as Hok1. destruct (iblock_range g Hg (inum x) Hin) as [_ Hib].
  assert (Hblk : iblock dev g x2 = (dev, IBLOCK (inum x) g)) by (by rewrite Hx2).
  assert (Href : ref (fewer (x2 <| i_flags := 0 |>)) = 0).
  { unfold last_unlinked in Hlast. apply andb_prop in Hlast as [[Hl1%Z.eqb_eq _]%andb_prop _]. rewrite Hx2. cbn. lia. }
  assert (Hfd2 : fields_ok x2).
  { rewrite Hx2. destruct Hfd as [Hsh _ _]. split; [|cbn; lia|split; [done|]].
    - intros v Hv. cbn in Hv. apply elem_of_cons in Hv as [->|Hv]; [lia|]. apply Hsh. cbn. set_solver.
    - intros a Ha. cbn [addrs update_field] in Ha. apply elem_of_replicate in Ha as [-> _]. lia. }
  exists (inode_stored dev g x2 t1), (fewer (x2 <| i_flags := 0 |>)). split_and!; [|done| |done|done| | |].
  - destruct Hok as [H1 H2 H3 H4 H5]. split; rewrite ?Hinos, ?Hl, ?length_insert; try done.
    + intros j y [(-> & <- & _)|[_ Hy]]%list_lookup_insert_Some; [rewrite Hx2; exact (H3 _ x Hx) | by eapply H3].
    + intros j y [(-> & <- & _)|[_ Hy]]%list_lookup_insert_Some; [rewrite Href; unfold INT_MAX; lia | by eapply H4].
    + intros j k y z [(<- & <- & _)|[Hj Hy]]%list_lookup_insert_Some [(<- & <- & _)|[Hk' Hz]]%list_lookup_insert_Some; rewrite ?Href; try lia.
      by eapply H5.
  - unfold inode_stored. rewrite Hblk. apply fs_ok_meta; [exact Hok1 | exact Hib|].
    apply is_block_put_dinode; [by rewrite Hx2 | apply Hok1].
  - rewrite <-(dtype_get _ _ x2) by (by rewrite Hx2). unfold inode_stored. rewrite Hblk, tv_tstore, decide_True by done.
    rewrite get_put_dinode; [by rewrite Hx2 | done | apply Hok1 | done].
  - intros b Hb. rewrite <-(tp_used _ _ _ _ _ _ Htp b Hb). unfold inode_stored. rewrite Hblk, used_tstore; [done|]. intros [=]. lia.
  - intros a H1 H2 H3. unfold inode_stored. rewrite Hblk, tv_tstore, decide_False by (by intros ->). by apply (tp_frame _ _ _ _ _ _ Htp).
Qed.
(** ** ialloc *)

(** An inode of the given type with nothing in it. *)
Definition blank (n type : Z) : inode :=
  mkinode dev n 0 (initsleeplock "") 0 type 0 0 0 0 (replicate 13 0).

Lemma splice_prefix (x : block) (o : nat) (l p : list Z) :
  (o + length l ≤ length x)%nat → (length p ≤ length l)%nat →
  splice (splice x o l) o p = splice x o (p ++ drop (length p) l).
Proof.
  intros Hl Hp. apply list_eq. intros j.
  assert (Hlen : length (p ++ drop (length p) l) = length l) by (rewrite length_app, length_drop; lia).
  rewrite lookup_splice by (rewrite length_splice; lia). rewrite !lookup_splice by lia. rewrite Hlen.
  repeat case_decide; try lia; try done.
  - by rewrite lookup_app_l by lia.
  - rewrite lookup_app_r by lia. rewrite lookup_drop. f_equal. lia.
Qed.

(** Zeroing the 64 bytes and setting the type writes a blank inode. *)
Lemma put_blank (n type : Z) (x : block) :
  length x = 512%nat → put16 (splice x (dinode_off n) (replicate 64 0)) (dinode_off n) type = put_dinode (blank n type) x.
Proof.
  intros Hx. pose proof (dinode_off_le n). rewrite put_dinode_bytes by done. unfold put16.
  rewrite splice_prefix; [|rewrite length_replicate; lia | rewrite length_le_bytes, length_replicate; lia].
  by rewrite length_le_bytes.
Qed.

Lemma fields_blank n type : - 2 ^ 15 ≤ type < 2 ^ 15 → fields_ok (blank n type).
Proof.
  intros Ht. split; [|cbn; lia|split; [done|]].
  - intros v Hv. cbn in Hv. rewrite !elem_of_cons, elem_of_nil in Hv. destruct Hv as [->|[->|[->|[->|[]]]]]; lia.
  - intros a Ha. cbn [addrs blank] in Ha. apply elem_of_replicate in Ha as [-> _]. lia.
Qed.

Lemma dtype_stored t y n :
  fs_ok dev g t → fields_ok y → 0 ≤ inum y < sb_ninodes g → 0 ≤ n < sb_ninodes g → 
  dtype (inode_stored dev g y t) n = if decide (n = inum y) then i_type y else dtype t n.
Proof.
  intros Hok Hfd Hy Hn. rewrite <-!(dtype_get _ n (blank n 0)) by done. unfold inode_stored, iblock.
  rewrite tv_tstore. case_decide as E1; case_decide as E2; try done.
  - subst n. rewrite get_put_dinode; [done | done | apply Hok | done].
  - injection E1 as E1. rewrite get_put_dinode_other; [by rewrite E1 | apply Hfd | apply Hok|].
    cbn. apply (dinode_place g Hg); [lia | lia | done | done | done | done].
  - subst n. done.
Qed.

(** The first free inode, or none. *)
Definition first_inode (t : tstate) (n : Z) : Prop :=
  1 ≤ n < sb_ninodes g ∧ dtype t n = 0 ∧ ∀ m, 1 ≤ m < n → dtype t m ≠ 0.

Lemma icache_ok_store s c : icache_ok s → icache_ok (s <| store := c |>).
Proof. intros [????]. by split. Qed.

(** [ialloc] takes the first inode that is free on the disk, writes it
    there with the given type, no links, size 0 and no blocks, leaves every
    other inode alone, and returns a cache entry for it.  It panics only when
    no inode is free on the disk or no entry in the cache. *)
Theorem ialloc_correct type s t :
  icache_ok s → fs_ok dev g t → trep (store s) t → sb s = g → th t = ∅ → fits dev g t 1 →
  - 2 ^ 15 ≤ type < 2 ^ 15 →
  wp (ialloc dev type)
    (fun i s' => ∃ n t' x', first_inode t n ∧ trep (store s') t' ∧ fs_ok dev g t' ∧
       (∀ m, 0 ≤ m < sb_ninodes g → dtype t' m = if decide (m = n) then type else dtype t m) ∧
       get_dinode (tv t' (dev, IBLOCK n g)) x' = copy_fields (blank n type) x' ∧
       inodes s' = <[i := x']> (inodes s) ∧ i_dev x' = dev ∧ inum x' = n ∧ gotten dev n s i x')
    (fun w s' => (w = Panic "ialloc: no inodes" ∧ ∀ n, 1 ≤ n < sb_ninodes g → dtype t n ≠ 0) ∨
       (w = Panic "iget: no inodes" ∧ ∀ j y, inodes s !! j = Some y → is_free y = false)) s.
Proof.
  intros Hic Hok Hr Hsb Hth Hfit Hty. pose proof (geo_bounds g Hg) as Hgeo.
  unfold ialloc. do 2 wp_step. rewrite Hsb. wp_step.
  eapply (for_list_wp (fun l s' => ∃ n c, l = seqZ n (sb_ninodes g - n) ∧ 1 ≤ n ≤ sb_ninodes g ∧
    s' = s <| store := c |> ∧ trep c t ∧ ∀ m, 1 ≤ m < n → dtype t m ≠ 0)).
  - exists 1, (store s). split; [done|]. destruct Hg as [_ [Hn _] _]. split; [lia|]. split; [by destruct s|]. split; [done | lia].
  - intros s' (n & c & Hl & Hn & -> & Hc & Hall). cbv iota. wp_step. left. split; [done|]. intros m Hm.
    destruct (decide (n = sb_ninodes g)) as [->|]; [by apply Hall|]. by rewrite seqZ_cons in Hl by lia.
  - intros n l' s' (n' & c & Hl & Hn & -> & Hc & Hall).
    destruct (decide (n' = sb_ninodes g)) as [->|]; [by rewrite Z.sub_diag in Hl|].
    rewrite seqZ_cons in Hl by lia. injection Hl as -> ->.
    destruct (iblock_range g Hg n' ltac:(lia)) as [_ Hib].
    do 2 wp_step. change (sb (s <| store := c |>)) with (sb s). rewrite Hsb. wp_step.
    eapply wp_bread; [exact Hc | by apply no_held | apply Hok; unfold datastart; lia | lia | by apply few_held|].
    intros h c1 Hh Hc1. wp_step. eapply wp_get_data; [exact Hc1 | cbn; by rewrite lookup_insert_eq|]. intros c2 Hc2.
    cbn [tv update_field]. cbv zeta. fold (dtype t n'). destruct (Z.eqb_spec (dtype t n') 0) as [H0|H0].
    2:{ wp_step. eapply wp_brelse_same; [exact Hc2 | done|]. intros c3 Hc3. wp_step. exists (Z.succ n'), c3.
        split; [f_equal; lia|]. split; [lia|]. split; [done|]. split; [done|].
        intros m Hm. destruct (decide (m = n')) as [->|]; [done | apply Hall; lia]. }
    rewrite put_blank by apply Hok. eapply wp_write_back; [exact Hc2 | done | by eapply fits_one|]. intros c3 Hc3.
    wp_step. eapply (wp_iget dev n' _ (inode_stored dev g (blank n' type) t)); [by repeat apply icache_ok_store | exact Hc3 | |].
    2:{ intros Hfull. right. split; [done|]. intros j y Hy. by apply (Hfull j y Hy). }
    intros i x' Hgot. wp_step. exists n', (inode_stored dev g (blank n' type) t), x'.
    assert (Hst : fs_ok dev g (inode_stored dev g (blank n' type) t)).
    { apply fs_ok_meta; [exact Hok | exact Hib|]. apply is_block_put_dinode; [done | apply Hok]. }
    destruct (gotten_entry dev n' _ i x' (icache_ok_store s c3 Hic) Hgot) as (Hd' & Hn' & _).
    split; [split; [lia | done]|]. split; [exact (trep_outside (set_ino (s <| store := c3 |>) i x') _ Hc3)|].
    split; [done|]. split; [|split; [|done]].
    + intros m Hm. rewrite dtype_stored; [done | done | by apply fields_blank | cbn; lia | done].
    + unfold inode_stored. rewrite tv_tstore, decide_True by done. rewrite get_put_dinode; [done | by apply fields_blank | apply Hok | done].
Qed.
End inode.

(** An unlinked inode and 49 free entries on the small disk. *)
Definition spare : inode := mkinode 0 0 0 (initsleeplock "inode") 0 0 0 0 0 0 (replicate 13 0).
Definition cached_fs (x : inode) : fsys refstore :=
  mkfsys SmallDisk.disk SmallDisk.g (initlock "icache") (x :: replicate 49 spare).

Lemma cached_fs_ok x : sl_idle (i_lock x) → 0 ≤ ref x < INT_MAX → icache_ok (cached_fs x).
Proof.
  intros Hl Hr.
  assert (Hs : ∀ i y, inodes (cached_fs x) !! i = Some y → (i = 0%nat ∧ y = x) ∨ y = spare).
  { intros [|i] y Hy; [left; by injection Hy | right]. by apply lookup_replicate in Hy as [-> _]. }
  split; [done | done | | |].
  - intros i y [[_ ->]| ->]%Hs; done.
  - intros i y [[_ ->]| ->]%Hs; [done | by vm_compute].
  - intros i j y z [[-> ->]| ->]%Hs [[-> ->]| ->]%Hs; cbn; try done; lia.
Qed.

Lemma iget_correct_witness :
  wp (iget (BlockStore0 := RefStore.store) 1 5) (fun i s' => i = 0%nat) never (cached_fs new_inode).
Proof.
  pose proof (RefStore.laws) as Hlaws.
  eapply wp_mono; [apply (iget_correct (BlockStore0 := RefStore.store) (StoreLaws0 := Hlaws) 1 5 (cached_fs new_inode) SmallDisk.t)| |].
  - apply cached_fs_ok; [done | by vm_compute].
  - apply SmallDisk.trep_disk.
  - intros [|i] x Hx; [by injection Hx as <-|]. by apply lookup_replicate in Hx as [-> _].
  - intros i s' (_ & _ & _ & x' & _ & _ & _ & [(x & Hx & He & _)|(Hno & _)]).
    + destruct i as [|i]; [done|]. by apply lookup_replicate in Hx as [-> _].
    + by specialize (Hno 0%nat new_inode eq_refl).
  - intros w s' [_ Hfull]. by destruct (Hfull 0%nat new_inode eq_refl).
Defined.

Lemma iput_frees_unlinked_witness :
  ∃ s', iput (BlockStore0 := RefStore.store) 0 (cached_fs (new_inode <| nlink := 0 |>)) = Ok tt s'.
Proof.
  pose proof (RefStore.laws) as Hlaws. destruct new_inode_ok as [F [Hsh Hsz Had]].
  destruct (iput_frees_unlinked (BlockStore0 := RefStore.store) (StoreLaws0 := Hlaws) 1 SmallDisk.g SmallDisk.geometry_g
    0 (new_inode <| nlink := 0 |>) (cached_fs (new_inode <| nlink := 0 |>)) SmallDisk.t) as (s' & _ & _ & Hrun & _).
  - apply cached_fs_ok; [done | by vm_compute].
  - apply SmallDisk.fs_ok_t.
  - apply wf_file_empty.
  - split; [|exact Hsz | exact Had]. intros v Hv. cbn in Hv. rewrite !elem_of_cons, elem_of_nil in Hv.
    destruct Hv as [->|[->|[->|[->|[]]]]]; unfold T_FILE; lia.
  - apply SmallDisk.trep_disk.
  - reflexivity.
  - reflexivity.
  - apply SmallDisk.room_t. lia.
  - reflexivity.
  - reflexivity.
  - cbn. lia.
  - reflexivity.
  - exists s'. exact Hrun.
Defined.

Lemma ialloc_correct_witness :
  wp (ialloc (BlockStore0 := RefStore.store) 1 T_FILE) (fun i s' => ∃ x', inodes s' !! i = Some x' ∧ inum x' = 1)
    (fun w s' => True) (cached_fs new_inode).
Proof.
  pose proof (RefStore.laws) as Hlaws.
  eapply wp_mono; [apply (ialloc_correct (BlockStore0 := RefStore.store) (StoreLaws0 := Hlaws) 1 SmallDisk.g SmallDisk.geometry_g T_FILE
    (cached_fs new_inode) SmallDisk.t)| |done].
  - apply cached_fs_ok; [done | by vm_compute].
  - apply SmallDisk.fs_ok_t.
  - apply SmallDisk.trep_disk.
  - reflexivity.
  - reflexivity.
  - apply SmallDisk.room_t. lia.
  - unfold T_FILE. lia.
  - intros i s' (n & t' & x' & (Hn & H0 & Hmin) & _ & _ & _ & _ & Hinos & _ & Hin & Hgot). exists x'. split.
    + rewrite Hinos. apply list_lookup_insert_eq.
      destruct Hgot as [(x & Hx & _)|(_ & x & Hx & _)]; by apply lookup_lt_Some in Hx.
    + rewrite Hin. destruct (decide (n = 1)) as [|Hne]; [done|]. exfalso. apply (Hmin 1); [lia|]. by vm_compute.
Defined.
