(* ===== verification/FsDir.v ===== *)
(** * Directories (fs.c: namecmp, dirlookup, dirlink)

    A directory is a file of 16-byte entries.  It stands for a finite map from
    names to inode numbers: [dirlookup] is a lookup and [dirlink] an insertion
    of a name that is not there. *)
From stdpp Require Import gmap functions.
From S2P Require Import Prelude Spinlock Proc Sleep Sleeplock Bytes CString Block Store Fs FsAlloc FsFile FsRw FsTrunc FsInode.

(** ** Names

    A name is the bytes from a pointer on; what counts are its first 14 bytes
    up to a zero. *)
Fixpoint cstr (l : list Z) : list Z :=
  match l with
  | [] => []
  | c :: r => if c =? 0 then [] else c :: cstr r
  end.
Definition name14 (l : list Z) : list Z := cstr (take 14 l).
Definition name_ok (l : list Z) : Prop := Forall is_byte l ∧ ((14 ≤ length l)%nat ∨ 0 ∈ l).
(** The name as a directory entry holds it. *)
Definition pad14 (l : list Z) : list Z := name14 l ++ replicate (14 - length (name14 l)) 0.

Lemma cstr_split l : ∃ r, l = cstr l ++ r ∧ (r = [] ∨ head r = Some 0).
Proof.
  induction l as [|c l [r [IH Hr]]]; [exists []; by split; [|left]|]. cbn.
  destruct (Z.eqb_spec c 0) as [->|]; [exists (0 :: l); by split; [|right]|].
  exists r. split; [cbn; congruence | done].
Qed.

Lemma cstr_nonzero l : Forall (fun c => c ≠ 0) (cstr l).
Proof. induction l as [|c l IH]; cbn; [done|]. destruct (Z.eqb_spec c 0); [done | by constructor]. Qed.

Lemma cstr_short l : length (cstr l) = length l ∨ 0 ∈ l.
Proof.
  induction l as [|c l [IH|IH]]; cbn; [by left| |]; destruct (Z.eqb_spec c 0) as [->|]; cbn.
  - right. left.
  - left. lia.
  - right. left.
  - right. by right.
Qed.

Lemma cstr_app_zero l r : Forall (fun c => c ≠ 0) l → cstr (l ++ 0 :: r) = l.
Proof. induction 1 as [|c l Hc _ IH]; cbn; [done|]. rewrite (proj2 (Z.eqb_neq _ _) Hc). by rewrite IH. Qed.

Lemma cstr_id l : Forall (fun c => c ≠ 0) l → cstr l = l.
Proof. induction 1 as [|c l Hc _ IH]; cbn; [done|]. rewrite (proj2 (Z.eqb_neq _ _) Hc). by rewrite IH. Qed.

Lemma length_name14 l : (length (name14 l) ≤ 14)%nat.
Proof.
  unfold name14. destruct (cstr_split (take 14 l)) as (r & Hr & _). apply (f_equal length) in Hr.
  rewrite length_app, length_take in Hr. lia.
Qed.

Lemma length_pad14 l : length (pad14 l) = 14%nat.
Proof. unfold pad14. rewrite length_app, length_replicate. pose proof (length_name14 l). lia. Qed.

Lemma name14_pad14 l : name14 (pad14 l) = name14 l.
Proof.
  unfold name14 at 1. rewrite take_ge by (by rewrite length_pad14). unfold pad14.
  destruct (14 - length (name14 l))%nat as [|n].
  - rewrite app_nil_r. apply cstr_id, cstr_nonzero.
  - apply (cstr_app_zero _ (replicate n 0)), cstr_nonzero.
Qed.

Lemma bytes_name14 l : Forall is_byte l → Forall is_byte (name14 l).
Proof.
  intros Hl. unfold name14. destruct (cstr_split (take 14 l)) as (r & Hr & _).
  assert (Ht : Forall is_byte (take 14 l)) by (by apply Forall_take). rewrite Hr in Ht. by apply Forall_app in Ht as [? _].
Qed.

Lemma bytes_pad14 l : Forall is_byte l → Forall is_byte (pad14 l).
Proof.
  intros Hl. apply Forall_app. split; [by apply bytes_name14|]. apply Forall_replicate. unfold is_byte. lia.
Qed.

(** A name in memory is a string of at most 14 bytes. *)
Lemma name_str p l r : name_ok l → str_at (p ++ l ++ r) (length p) 14 (name14 l).
Proof.
  intros [Hb Hl]. unfold name14. destruct (cstr_split (take 14 l)) as (q & Hq & Hend).
  pose proof (cstr_nonzero (take 14 l)) as Hnz. pose proof (bytes_name14 l Hb) as Hby. unfold name14 in Hby.
  set (n := cstr (take 14 l)) in *.
  assert (Hlen : (length n + length q = length (take 14 l))%nat) by (by rewrite Hq, length_app).
  assert (Hin : ∀ i, (i < length n + length q)%nat → (p ++ l ++ r) !! (length p + i)%nat = (n ++ q) !! i).
  { intros i Hi. rewrite <-Hq. rewrite lookup_app_r by lia. replace (length p + i - length p)%nat with i by lia.
    rewrite Hlen, length_take in Hi. rewrite lookup_app_l by lia. by rewrite lookup_take_lt by lia. }
  split.
  - rewrite Forall_forall in Hnz, Hby. apply Forall_forall. intros c Hc. split; [by apply Hby | by apply Hnz].
  - intros i c Hi. pose proof (lookup_lt_Some _ _ _ Hi). rewrite Hin by lia. by rewrite lookup_app_l by lia.
  - rewrite length_take in Hlen. destruct Hend as [->|Hend].
    + cbn [length] in Hlen. destruct Hl as [Hl|Hl]; [left; lia|]. destruct (decide (length n = 14%nat)) as [|Hne]; [by left | exfalso].
      rewrite app_nil_r in Hq. rewrite take_ge in Hq by lia. rewrite Hq in Hl. rewrite Forall_forall in Hnz. by apply (Hnz 0).
    + destruct q as [|c q]; [done|]. injection Hend as ->. cbn [length] in Hlen. right. split; [lia|].
      rewrite Hin by (cbn; lia). by rewrite list_lookup_middle.
Qed.

(** ** Entries *)
Lemma decode_encode e : 0 ≤ de_inum e < 2 ^ 16 → length (de_name e) = 14%nat → decode_dirent (encode_dirent e) = e.
Proof.
  intros Hn Hl. destruct e as [n nm]. cbn [de_inum de_name] in *. unfold decode_dirent, encode_dirent. cbn [de_inum de_name]. f_equal.
  - unfold get16, slice. rewrite drop_0, take_app_length' by (by rewrite length_le_bytes).
    rewrite le_val_bytes. by apply Z.mod_small.
  - unfold slice. rewrite drop_app_length' by (by rewrite length_le_bytes). by rewrite take_ge by lia.
Qed.

(** A live entry of the name. *)
Definition matches (name : list Z) (e : dirent) : Prop := de_inum e ≠ 0 ∧ name14 name = name14 (de_name e).
Definition unused (e : dirent) : Prop := de_inum e = 0.
#[global] Instance matches_dec name e : Decision (matches name e).
Proof. unfold matches. apply _. Defined.
#[global] Instance unused_dec e : Decision (unused e).
Proof. unfold unused. apply _. Defined.

(** Entry [k] becomes [e]; at the end it is appended. *)
Definition put_entry (k : nat) (e : dirent) (l : list dirent) : list dirent := take k l ++ e :: drop (S k) l.

Section find.
Context {A : Type} (P : A → Prop) `{∀ a, Decision (P a)}.

Lemma find_pass (l1 l2 : list A) : Forall (fun a => ¬ P a) l1 →
  list_find P (l1 ++ l2) = prod_map (Nat.add (length l1)) id <$> list_find P l2.
Proof.
  induction 1 as [|a l1 Ha _ IH]; cbn.
  - by destruct (list_find P l2) as [[? ?]|].
  - rewrite decide_False by done. rewrite IH. by destruct (list_find P l2) as [[? ?]|].
Qed.

(** Replacing an element that does not match by one that does not match. *)
Lemma find_replace (l1 l2 : list A) (a b : A) : ¬ P a → ¬ P b →
  list_find P (l1 ++ a :: l2) = list_find P (l1 ++ b :: l2).
Proof.
  intros Ha Hb. induction l1 as [|c l1 IH]; cbn.
  - by rewrite !decide_False.
  - case_decide; [done|]. by rewrite IH.
Qed.

Lemma find_append (l : list A) (a : A) : ¬ P a → list_find P (l ++ [a]) = list_find P l.
Proof.
  intros Ha. induction l as [|c l IH]; cbn; [by rewrite decide_False|]. case_decide; [done|]. by rewrite IH.
Qed.
End find.

Definition lookup_name (l : list dirent) (name : list Z) : option Z :=
  de_inum ∘ snd <$> list_find (matches name) l.

(** Putting a new name into an unused place adds it to the map. *)
Lemma lookup_put l k name n nm :
  (k ≤ length l)%nat → (∀ e, l !! k = Some e → unused e) → lookup_name l name = None → n ≠ 0 →
  lookup_name (put_entry k (mkdirent n (pad14 name)) l) nm =
    if decide (name14 nm = name14 name) then Some n else lookup_name l nm.
Proof.
  intros Hk Hu Hno Hn. unfold lookup_name, put_entry in *. apply fmap_None, list_find_None in Hno.
  set (e := mkdirent n (pad14 name)).
  assert (He : matches nm e ↔ name14 nm = name14 name).
  { unfold matches, e. cbn [de_inum de_name]. rewrite name14_pad14. tauto. }
  case_decide as Hd.
  - rewrite find_pass.
    + cbn. rewrite decide_True by (by apply He). done.
    + apply Forall_take. eapply Forall_impl; [exact Hno|]. intros d Hm [H1 H2]. apply Hm. split; [done | congruence].
  - destruct (l !! k) as [d|] eqn:Hlk.
    + rewrite <-(take_drop_middle l k d Hlk) at 3. f_equal. apply find_replace.
      * by rewrite He.
      * intros [H1 _]. by apply H1, Hu.
    + apply lookup_ge_None in Hlk. rewrite take_ge, drop_ge by lia. f_equal. apply find_append. by rewrite He.
Qed.

(** ** The code *)
Section dir.
Context {T : Type} `{!BlockStore T} `{!StoreLaws T}.
Context (dev : Z) (g : superblock) (Hg : geometry g).
Context (dev_read : Z → option (nat → Z → M (fsys T) (Z * list Z))).
Context (dev_write : Z → option (nat → list Z → Z → M (fsys T) Z)).
Implicit Types (s : fsys T) (t : tstate) (x : inode).

Definition entry (t : tstate) (x : inode) (k : Z) : dirent :=
  decode_dirent (fbyte dev t (addrs x) <$> seqZ (16 * k) 16).
Definition entries (t : tstate) (x : inode) : list dirent := entry t x <$> seqZ 0 (i_size x / 16).

Record dir_ok (t : tstate) (x : inode) : Prop := {
  d_file : file_ok dev g t x;
  d_type : i_type x = T_DIR;
  d_size : (16 | i_size x)
}.

Lemma namecmp_spec a b s : name_ok a → name_ok b →
  ∃ v, namecmp a b s = Ok v s ∧ (v = 0 ↔ name14 a = name14 b).
Proof.
  intros Ha Hb. pose proof (name_str [] a b Ha) as H1. pose proof (name_str a b [] Hb) as H2. rewrite app_nil_r in H2.
  destruct (strncmp_correct (a ++ b) 0 (Z.of_nat (length a)) DIRSIZ (name14 a) (name14 b)) as (v & Hv & _ & H0);
    [lia | lia | done | done | by rewrite Nat2Z.id |].
  exists v. split; [|done]. unfold namecmp, in_mem. m_unfold. by rewrite Hv.
Qed.

Lemma fbyte_byte t ad o : fs_ok dev g t → is_byte (fbyte dev t ad o).
Proof.
  intros Hok. unfold fbyte. destruct (_ =? 0); [unfold is_byte; lia|].
  match goal with |- is_byte (default 0 (?l !! ?i)) => destruct (l !! i) as [v|] eqn:Hv end; [|unfold is_byte; cbn; lia].
  assert (Hb : is_block (tv t (dev, at_path dev t ad (leaf (o / BSIZE))))) by apply Hok.
  eapply Forall_lookup_1; [apply Hb | exact Hv].
Qed.

Lemma name_ok_entry t x k : fs_ok dev g t → name_ok (de_name (entry t x k)).
Proof.
  intros Hok. unfold entry, decode_dirent. cbn [de_name].
  set (l := fbyte dev t (addrs x) <$> seqZ (16 * k) 16).
  assert (Hl : length l = 16%nat) by (unfold l; by rewrite length_fmap, length_seqZ).
  split; [|left; rewrite length_slice; lia]. unfold slice. apply Forall_take, Forall_drop, Forall_fmap.
  apply Forall_forall. intros o _. by apply fbyte_byte.
Qed.

Lemma dirent_offs_eq x : (16 | i_size x) → dirent_offs (i_size x) = (fun k => 16 * k) <$> seqZ 0 (i_size x / 16).
Proof.
  intros [q Hq]. unfold dirent_offs. do 2 f_equal. rewrite Hq. rewrite Z.div_mul by lia.
  replace (q * 16 + 15) with (15 + q * 16) by lia. by rewrite Z.div_add by lia.
Qed.

Lemma lookup_entries t x (k : nat) :
  (16 | i_size x) → 0 ≤ i_size x → Z.of_nat k < i_size x / 16 → entries t x !! k = Some (entry t x (Z.of_nat k)).
Proof. intros Hd Hs Hk. unfold entries. rewrite list_lookup_fmap, lookup_seqZ_lt by lia. cbn. by rewrite Z.add_0_l. Qed.

Lemma length_entries t x : length (entries t x) = Z.to_nat (i_size x / 16).
Proof. unfold entries. by rewrite length_fmap, length_seqZ. Qed.

Lemma wp_read_dirent s c i x t k (Q : dirent → fsys T → Prop) E :
  fs_ok dev g t → dir_ok t x → trep c t → sb s = g → (i < length (inodes s))%nat → th t = ∅ →
  0 ≤ k < i_size x / 16 → (∀ c', trep c' t → Q (entry t x k) (put_ino s c' i x)) →
  wp (read_dirent dev_read i (16 * k)) Q E (put_ino s c i x).
Proof.
  intros Hok [F Hty [q Hq]] Hr Hsb Hi Hth Hk HQ. rewrite Hq, Z.div_mul in Hk by lia.
  pose proof (f_size _ _ _ _ F) as Hsz. unfold MAXBYTES in Hsz. change (MAXFILE * BSIZE) with 8459776 in Hsz.
  unfold read_dirent. wp_step.
  eapply (wp_readi dev g Hg dev_read dev_write); [done | done | by rewrite Hty | done | done | done | done | lia | lia | lia|].
  intros c' m Hc'. assert (Hm : m = 16) by (unfold m; lia). cbn [fst snd]. rewrite Hm. cbn [Z.eqb Pos.eqb negb]. wp_step. by apply HQ.
Qed.

(** A scan of the directory for the first entry of a kind. *)
Lemma wp_scan {R} (P : dirent → Prop) `{∀ e, Decision (P e)} (body : Z → dirent → M (fsys T) (option R))
    s c i x t (Q : option R → fsys T → Prop) E :
  fs_ok dev g t → dir_ok t x → trep c t → sb s = g → (i < length (inodes s))%nat → th t = ∅ →
  (∀ k c', 0 ≤ k → trep c' t → ¬ P (entry t x k) → body (16 * k) (entry t x k) (put_ino s c' i x) = Ok None (put_ino s c' i x)) →
  (∀ (k : nat) c', list_find P (entries t x) = Some (k, entry t x (Z.of_nat k)) → trep c' t →
     wp (body (16 * Z.of_nat k) (entry t x (Z.of_nat k))) (fun r s' => r ≠ None ∧ Q r s') E (put_ino s c' i x)) →
  (list_find P (entries t x) = None → ∀ c', trep c' t → Q None (put_ino s c' i x)) →
  wp (for_list (dirent_offs (i_size x)) (fun off => de ← read_dirent dev_read i off; body off de)) Q E (put_ino s c i x).
Proof.
  intros Hok Hd Hr Hsb Hi Hth Hskip Hhit Hmiss. pose proof (f_size _ _ _ _ (d_file _ _ Hd)) as [Hsz _].
  rewrite dirent_offs_eq by apply Hd. set (n := i_size x / 16) in *.
  assert (Hn : 0 ≤ n) by (apply Z.div_pos; lia).
  eapply (for_list_wp (fun l s' => ∃ (k : nat) c', l = (fun k => 16 * k) <$> seqZ (Z.of_nat k) (n - Z.of_nat k) ∧ Z.of_nat k ≤ n ∧
    s' = put_ino s c' i x ∧ trep c' t ∧ ∀ j : nat, (j < k)%nat → ¬ P (entry t x (Z.of_nat j)))).
  - exists 0%nat, c. rewrite Z.sub_0_r. split_and!; [done | done | done | done|]. intros j Hj. lia.
  - intros s' (k & c' & Hl & Hk & -> & Hc' & Hno). apply Hmiss; [|done]. apply list_find_None, Forall_lookup_2. intros j e He.
    pose proof (lookup_lt_Some _ _ _ He) as Hj. rewrite length_entries in Hj. fold n in Hj.
    rewrite lookup_entries in He by (try apply Hd; fold n; lia). injection He as <-. apply Hno.
    apply (f_equal length) in Hl. rewrite length_fmap, length_seqZ in Hl. cbn in Hl. lia.
  - intros off l' s' (k & c' & Hl & Hk & -> & Hc' & Hno).
    destruct (decide (Z.of_nat k = n)) as [He|Hne]; [by rewrite He, Z.sub_diag in Hl|].
    rewrite seqZ_cons in Hl by lia. cbn [fmap list_fmap] in Hl. injection Hl as -> ->.
    wp_step. eapply wp_read_dirent; [done..| fold n; lia|]. intros c1 Hc1.
    destruct (decide (P (entry t x (Z.of_nat k)))) as [HP|HP].
    + eapply wp_mono; [apply Hhit; [|done] | |done].
      * apply list_find_Some. split; [apply lookup_entries; [apply Hd | done | fold n; lia]|]. split; [done|].
        intros j e He Hj. rewrite lookup_entries in He by (try apply Hd; fold n; lia). injection He as <-. by apply Hno.
      * intros [v|] s' [Hv HQ]; [done | by destruct Hv].
    + eapply wp_eq; [by apply Hskip; [lia | | ]|]. exists (S k), c1.
      split_and!; [do 2 f_equal; lia | lia | done | done|]. intros j Hj. destruct (decide (j = k)) as [->|]; [done | apply Hno; lia].
Qed.

(** *** dirlookup *)
Lemma wp_dirlookup s c i x t name (Q : option (nat * Z) → fsys T → Prop) E :
  fs_ok dev g t → dir_ok t x → trep c t → sb s = g → (i < length (inodes s))%nat → th t = ∅ → name_ok name →
  (∀ c', trep c' t → icache_ok (put_ino s c' i x)) →
  (lookup_name (entries t x) name = None → ∀ c', trep c' t → Q None (put_ino s c' i x)) →
  (∀ (k : nat) e c' j y, list_find (matches name) (entries t x) = Some (k, e) → trep c' t →
     gotten dev (de_inum e) (put_ino s c' i x) j y →
     Q (Some (j, 16 * Z.of_nat k)) (outside (set_ino (put_ino s c' i x) j y))) →
  (lookup_name (entries t x) name ≠ None → ∀ c', (∀ j y, inodes (put_ino s c' i x) !! j = Some y → is_free y = false) →
     E (Panic "iget: no inodes") (inside (put_ino s c' i x))) →
  wp (dirlookup dev_read i name) Q E (put_ino s c i x).
Proof.
  intros Hok Hd Hr Hsb Hi Hth Hname Hic HN HS HE. unfold dirlookup. wp_step. apply wp_ino_put; [done|].
  rewrite (d_type _ _ Hd). cbn [T_DIR Z.eqb Pos.eqb negb].
  eapply (wp_scan (matches name)); [done..| | |].
  - intros k c' Hk Hc' HP. destruct (Z.eqb_spec (de_inum (entry t x k)) 0) as [H0|H0]; [done|].
    destruct (namecmp_spec name (de_name (entry t x k)) (put_ino s c' i x) Hname (name_ok_entry t x k Hok)) as (v & Hv & Hv0).
    erewrite bind_ok by exact Hv. destruct (Z.eqb_spec v 0) as [->|]; [|done]. exfalso. apply HP. split; [done | by apply Hv0].
  - intros k c' Hf Hc'. pose proof Hf as Hf'. apply list_find_Some in Hf' as (_ & [H0 Hn] & _).
    rewrite (proj2 (Z.eqb_neq _ _) H0). wp_step.
    destruct (namecmp_spec name (de_name (entry t x (Z.of_nat k))) (put_ino s c' i x) Hname (name_ok_entry t x (Z.of_nat k) Hok)) as (v & Hv & Hv0).
    eapply wp_eq; [exact Hv|]. rewrite (proj2 Hv0 Hn). cbn [Z.eqb]. wp_step. rewrite (f_dev _ _ _ _ (d_file _ _ Hd)).
    eapply wp_iget; [by apply Hic | exact Hc' | |].
    + intros j y Hgot. wp_step. split; [done|]. by eapply HS.
    + intros Hfull. apply HE; [unfold lookup_name; by rewrite Hf|]. intros j y Hy. by apply (Hfull j y).
  - intros Hf. apply HN. unfold lookup_name. by rewrite Hf.
Qed.

(** *** dirlink *)
Lemma strncpy_name name s : name_ok name →
  ∃ m, in_mem (replicate 14 0 ++ name) (strncpy 0 14 DIRSIZ) s = Ok (0, m) s ∧ take 14 m = pad14 name.
Proof.
  intros Hn. pose proof (name_str (replicate 14 0) name [] Hn) as Hs. rewrite app_nil_r in Hs.
  eexists. split.
  - unfold in_mem. rewrite (strncpy_correct (replicate 14 0 ++ name) 0 14 DIRSIZ (name14 name)); [reflexivity | | lia | exact Hs|].
    + unfold mapped. rewrite length_app. change DIRSIZ with 14. cbn [length replicate]. lia.
    + unfold apart. left. change (Z.to_nat DIRSIZ) with 14%nat. cbn. lia.
  - fold (pad14 name). unfold splice. cbn [Z.to_nat take]. rewrite app_nil_l.
    apply take_app_length'. symmetry. apply length_pad14.
Qed.

(** Where [dirlink] puts the entry: the first unused place, or the end. *)
Definition place (l : list dirent) : nat := default (length l) (fst <$> list_find unused l).

Lemma place_le l : (place l ≤ length l)%nat.
Proof.
  unfold place. destruct (list_find unused l) as [[k e]|] eqn:Hf; cbn; [|lia].
  apply list_find_Some in Hf as (Hk & _). apply lookup_lt_Some in Hk. lia.
Qed.

Lemma place_unused l e : l !! place l = Some e → unused e.
Proof.
  unfold place. destruct (list_find unused l) as [[k d]|] eqn:Hf; cbn.
  - apply list_find_Some in Hf as (Hk & Hd & _). intros He. by replace e with d by congruence.
  - intros He. apply lookup_lt_Some in He. lia.
Qed.

(** Writing entry [k] puts it into the list of entries. *)
Lemma entries_updated t x t' x' (k : nat) e :
  dir_ok t x → (k ≤ length (entries t x))%nat → updated dev g t x t' x' (16 * Z.of_nat k) (encode_dirent e) →
  0 ≤ de_inum e < 2 ^ 16 → length (de_name e) = 14%nat → 16 * Z.of_nat k + 16 ≤ MAXBYTES →
  dir_ok t' x' ∧ entries t' x' = put_entry k e (entries t x).
Proof.
  intros [F Hty Hdiv] Hk U Hn Hl Hmax. pose proof (f_size _ _ _ _ F) as [Hsz Hsz'].
  assert (Hlen : length (encode_dirent e) = 16%nat) by (unfold encode_dirent; rewrite length_app, length_le_bytes; lia).
  pose proof (u_inode _ _ _ _ _ _ _ _ U) as Hx'. rewrite Hlen in Hx'. rewrite length_entries in Hk.
  destruct Hdiv as [q Hq]. assert (Hkq : Z.of_nat k ≤ q) by (rewrite Hq, Z.div_mul in Hk by lia; lia).
  assert (Hsize : i_size x' = 16 * Z.max q (Z.of_nat k + 1)) by (rewrite Hx'; cbn [i_size update_field]; lia).
  assert (Hdiv' : i_size x' / 16 = Z.max q (Z.of_nat k + 1)) by (rewrite Hsize, Z.mul_comm; by apply Z.div_mul).
  assert (Hent : ∀ j, 0 ≤ j < Z.max q (Z.of_nat k + 1) → entry t' x' j = if decide (j = Z.of_nat k) then e else entry t x j).
  { intros j Hj. unfold entry. assert (Hb : ∀ o, 16 * j ≤ o < 16 * j + 16 → 0 ≤ o < MAXBYTES) by (intros o Ho; lia).
    case_decide as Hd.
    - rewrite <-(decode_encode e Hn Hl) at 1. f_equal. apply list_eq. intros o.
      destruct (decide (o < 16)%nat) as [Ho|Ho].
      + rewrite list_lookup_fmap, lookup_seqZ_lt by lia. cbn [fmap option_fmap option_map].
        rewrite (u_bytes _ _ _ _ _ _ _ _ U) by (apply Hb; lia). rewrite decide_True by lia.
        replace (Z.to_nat (16 * j + Z.of_nat o - 16 * Z.of_nat k)) with o by lia.
        destruct (lookup_lt_is_Some_2 (encode_dirent e) o) as [v ->]; [lia | done].
      + rewrite !lookup_ge_None_2; [done | lia | rewrite length_fmap, length_seqZ; lia].
    - f_equal. apply list_fmap_ext. intros n o [-> Hn']%lookup_seqZ.
      rewrite (u_bytes _ _ _ _ _ _ _ _ U) by (apply Hb; lia). rewrite decide_False by lia. done. }
  assert (Hd' : dir_ok t' x').
  { split; [apply U | by rewrite Hx' |]. rewrite Hsize. apply Z.divide_factor_l. }
  split; [done|]. apply list_eq. intros j. unfold put_entry.
  assert (Hlk : length (take k (entries t x)) = k) by (rewrite length_take, length_entries; lia).
  assert (Hlq : length (entries t x) = Z.to_nat q) by (rewrite length_entries, Hq, Z.div_mul by lia; done).
  destruct (decide (Z.of_nat j < Z.max q (Z.of_nat k + 1))) as [Hj|Hj].
  - rewrite lookup_entries by (try apply Hd'; rewrite ?Hdiv'; lia). rewrite Hent by lia. case_decide as Hjk.
    + apply Nat2Z.inj in Hjk as ->. by rewrite list_lookup_middle.
    + destruct (decide (j < k)%nat) as [Hlt|Hge].
      * rewrite lookup_app_l, lookup_take_lt by lia. symmetry. apply lookup_entries; [by exists q | lia | rewrite Hq, Z.div_mul by lia; lia].
      * rewrite lookup_app_r by lia. rewrite Hlk, lookup_cons_ne_0, lookup_drop by lia.
        replace (S k + pred (j - k))%nat with j by lia.
        symmetry. apply lookup_entries; [by exists q | lia | rewrite Hq, Z.div_mul by lia; lia].
  - rewrite !lookup_ge_None_2; [done | | rewrite length_entries, Hdiv'; lia].
    rewrite length_app, Hlk. cbn [length]. rewrite length_drop, Hlq. lia.
Qed.

Lemma wp_dirlink_new s c i x t name n (Q : Z → fsys T → Prop) E :
  fs_ok dev g t → dir_ok t x → fields_ok x → trep c t → sb s = g → (i < length (inodes s))%nat → th t = ∅ →
  name_ok name → (∀ c', trep c' t → icache_ok (put_ino s c' i x)) → 0 < n < 2 ^ 16 → i_size x + 16 ≤ MAXBYTES →
  room dev g t 4 → lookup_name (entries t x) name = None →
  (∀ c' t' x', trep c' t' → dir_ok t' x' → entries t' x' = put_entry (place (entries t x)) (mkdirent n (pad14 name)) (entries t x) →
     updated dev g t x t' x' (16 * Z.of_nat (place (entries t x))) (encode_dirent (mkdirent n (pad14 name))) →
     Q 0 (put_ino s c' i x')) →
  wp (dirlink dev_read dev_write i name n) Q E (put_ino s c i x).
Proof.
  intros Hok Hd Hfd Hr Hsb Hi Hth Hname Hic Hn Hsz Hroom Hno HQ. pose proof (d_file _ _ Hd) as F.
  pose proof (f_size _ _ _ _ F) as [Hsz0 _]. pose proof (place_le (entries t x)) as Hpl. rewrite length_entries in Hpl.
  destruct (d_size _ _ Hd) as [q Hq]. rewrite Hq, Z.div_mul in Hpl by lia.
  unfold dirlink. wp_step. eapply wp_dirlookup; [done..| | |].
  2:{ intros k e c' j y Hf. unfold lookup_name in Hno. by rewrite Hf in Hno. }
  2:{ by rewrite Hno. }
  intros _ c1 Hc1. wp_step. apply wp_ino_put; [done|]. wp_step.
  assert (Hgo : ∀ r c2, trep c2 t → default (16 * ((i_size x + 15) / 16)) r = 16 * Z.of_nat (place (entries t x)) →
    wp (let off := default (16 * ((i_size x + 15) / 16)) r in
      c ← in_mem (replicate 14 0 ++ name) (strncpy 0 14 DIRSIZ);
      w ← writei dev_write i (encode_dirent (mkdirent (u16 n) (take 14 c.2))) off 16;
      if negb (w =? 16) then panic "dirlink" else mret 0) Q E (put_ino s c2 i x)).
  { intros r c2 Hc2 Hoff. cbv zeta. rewrite Hoff. wp_step.
    destruct (strncpy_name name (put_ino s c2 i x) Hname) as (m & Hm & Hpad). eapply wp_eq; [exact Hm|]. cbn [snd].
    rewrite Hpad. assert (u16 n = n) as -> by (unfold u16; by rewrite Z.mod_small by lia). wp_step.
    set (e := mkdirent n (pad14 name)).
    assert (Hlen : length (encode_dirent e) = 16%nat) by (unfold encode_dirent; rewrite length_app, length_le_bytes; cbn [de_name e]; rewrite length_pad14; done).
    assert (Htake : take (Z.to_nat 16) (encode_dirent e) = encode_dirent e) by (apply take_ge; rewrite Hlen; done).
    eapply (wp_writei dev g Hg dev_read dev_write); [exact Hok | exact F | exact Hfd | by rewrite (d_type _ _ Hd) | exact Hc2 | exact Hsb | exact Hi | exact Hth | lia | lia | lia | rewrite Hlen; lia | | |].
    - unfold encode_dirent. apply Forall_app. split; [apply bytes_le | apply bytes_pad14, Hname].
    - left. eapply room_mono; [|exact Hroom]. unfold nblocks. change BSIZE with 512. dlia.
    - intros c' t' x' Hc' U. rewrite Htake in U. cbn [Z.eqb Pos.eqb negb]. wp_step.
      destruct (entries_updated t x t' x' (place (entries t x)) e) as [Hd' He'];
        [done | apply place_le | done | cbn [e de_inum]; lia | apply length_pad14 | lia|].
      by eapply HQ. }
  eapply (wp_scan unused); [done..| | |].
  - intros k c2 Hk Hc2 Hu. unfold unused in Hu. by rewrite (proj2 (Z.eqb_neq _ _) Hu).
  - intros k c2 Hf Hc2. pose proof Hf as Hf'. apply list_find_Some in Hf' as (_ & Hu & _). unfold unused in Hu.
    rewrite Hu. cbn [Z.eqb]. wp_step. split; [done|]. apply Hgo; [done|]. unfold place. by rewrite Hf.
  - intros Hf c2 Hc2. apply Hgo; [done|]. unfold place. rewrite Hf. cbn [default fmap option_fmap option_map].
    rewrite length_entries, Hq. rewrite Z.div_mul by lia. replace (q * 16 + 15) with (15 + q * 16) by lia.
    rewrite Z.div_add by lia. change (15 / 16) with 0. lia.
Qed.

Lemma icache_ok_kern s k : icache_ok s → icache_ok (put_kern k s).
Proof. intros [????]. by split. Qed.

(** [iput] right after [iget] leaves the entries in use as they were. *)
Lemma fewer_more x : fewer (more x) = x.
Proof. destruct x. unfold fewer, more, update_field. cbn. f_equal. lia. Qed.

Lemma gotten_not_last n s j y : icache_ok s → gotten dev n s j y → last_unlinked y = false.
Proof.
  intros Hok [(x & _ & He & ->)|(_ & x & _ & _ & -> & _)].
  - apply is_entry_true in He as (Hr & _). unfold last_unlinked, more. cbn [ref update_field].
    rewrite (proj2 (Z.eqb_neq _ _)) by lia. done.
  - done.
Qed.

Lemma gotten_put_back n s j y : icache_ok s → gotten dev n s j y →
  ∀ i x, inodes s !! i = Some x → 0 < ref x → <[j := fewer y]> (inodes s) !! i = Some x.
Proof.
  intros Hok Hgot i x Hx Href. destruct (decide (i = j)) as [->|Hne]; [|by rewrite list_lookup_insert_ne].
  rewrite list_lookup_insert_eq by (by apply lookup_lt_Some in Hx). f_equal.
  destruct Hgot as [(z & Hz & He & ->)|(_ & z & Hz & Hf & _)].
  - replace x with z by congruence. apply fewer_more.
  - replace z with x in Hf by congruence. apply Z.eqb_eq in Hf. lia.
Qed.

Definition dir_lookup (t : tstate) (x : inode) (name : list Z) : option Z := lookup_name (entries t x) name.

Section lookup_link.
Context (s : fsys T) (i : nat) (x : inode) (t : tstate) (name : list Z).
Context (Hok : fs_ok dev g t) (Hd : dir_ok t x) (Hr : trep (store s) t) (Hsb : sb s = g) (Hth : th t = ∅).
Context (Hic : icache_ok s) (Hx : inodes s !! i = Some x) (Hname : name_ok name).
Context (Hmax : ∀ j y, inodes s !! j = Some y → ref y + 1 < INT_MAX).

Lemma inodes_put c : inodes (put_ino s c i x) = inodes s.
Proof. cbn. by apply list_insert_id. Qed.

Lemma icache_ok_put c : icache_ok (put_ino s c i x).
Proof. destruct Hic as [H1 H2 H3 H4 H5]. split; rewrite ?inodes_put; done. Qed.

(** [dirlookup] is a lookup in the directory: it returns a cache entry of
    the inode the name stands for, and null when there is none.  Nothing of
    the disk changes. *)
Theorem dirlookup_correct :
  wp (dirlookup dev_read i name)
    (fun r s' => trep (store s') t ∧ icache_ok s' ∧
       match dir_lookup t x name with
       | None => r = None ∧ inodes s' = inodes s
       | Some n => ∃ j (k : nat) e y, r = Some (j, 16 * Z.of_nat k) ∧ entries t x !! k = Some e ∧ de_inum e = n ∧
           name14 (de_name e) = name14 name ∧ gotten dev n s j y ∧ inodes s' = <[j := y]> (inodes s)
       end)
    (fun w s' => w = Panic "iget: no inodes" ∧ dir_lookup t x name ≠ None ∧
       ∀ j y, inodes s !! j = Some y → ref y ≠ 0) s.
Proof.
  pose proof (lookup_lt_Some _ _ _ Hx) as Hi. apply (wp_at_ino _ i x); [exact Hx|].
  eapply wp_dirlookup; [done..| intros c' _; apply icache_ok_put | | |].
  - intros Hn c' Hc'. split; [done|]. split; [apply icache_ok_put|]. unfold dir_lookup. rewrite Hn.
    split; [done | apply inodes_put].
  - intros k e c' j y Hf Hc' Hgot. split; [exact (trep_outside (set_ino (put_ino s c' i x) j y) t Hc')|]. split.
    + assert (icache_ok (set_ino (put_ino s c' i x) j y)) as [????]; [|by split].
      eapply gotten_ok; [apply icache_ok_put | exact Hgot|]. destruct Hgot as [(z & Hz & _ & ->)|(_ & z & _ & _ & -> & _)]; [|done].
      rewrite inodes_put in Hz. by eapply Hmax.
    + unfold dir_lookup, lookup_name. rewrite Hf. cbn. pose proof Hf as (Hk & [_ Hm] & _)%list_find_Some.
      exists j, k, e, y. split_and!; try done.
      * unfold gotten in *. by rewrite !inodes_put in Hgot.
      * by rewrite (list_insert_id (inodes s) i x) by done.
  - intros Hn c' Hfull. split; [done|]. split; [exact Hn|]. intros j y Hy. apply Z.eqb_neq. apply (Hfull j y). by rewrite inodes_put.
Qed.

End lookup_link.
End dir.

(** An empty directory on the small disk. *)
Definition root_inode : inode :=
  mkinode 1 1 1 (initsleeplock "inode") I_VALID T_DIR 0 0 1 0 (replicate 13 0).

Lemma root_dir_ok : dir_ok 1 SmallDisk.g SmallDisk.t root_inode.
Proof.
  split; [|done | by exists 0]. split; [apply wf_file_empty | done | cbn; lia | by vm_compute |].
  intros bn H1 H2. cbn in H2. change BSIZE with 512 in H2. lia.
Qed.

Lemma root_fields_ok : fields_ok root_inode.
Proof.
  split.
  - intros v. cbn. rewrite !elem_of_cons, elem_of_nil. intros [->|[->|[->|[->|[]]]]]; unfold T_DIR; lia.
  - cbn. lia.
  - split; [done|]. intros a Ha. apply elem_of_replicate in Ha as [-> _]. lia.
Qed.

Lemma dot_name_ok : name_ok [46; 0].
Proof. split; [repeat constructor; unfold is_byte; lia | right; set_solver]. Qed.

Lemma small_refs j y : inodes (cached_fs root_inode) !! j = Some y → ref y + 1 < INT_MAX.
Proof. destruct j as [|j]; intros Hy; [by injection Hy as <-|]. by apply lookup_replicate in Hy as [-> _]. Qed.

Lemma root_cached : icache_ok (cached_fs root_inode).
Proof. apply cached_fs_ok; [done | by vm_compute]. Qed.

Lemma dirlookup_correct_witness :
  wp (dirlookup (BlockStore0 := RefStore.store) (fun _ => None) 0 [46; 0]) (fun r s' => r = None) never
    (cached_fs root_inode).
Proof.
  pose proof (RefStore.laws) as Hlaws.
  eapply wp_mono; [apply (dirlookup_correct (BlockStore0 := RefStore.store) (StoreLaws0 := Hlaws) 1 SmallDisk.g SmallDisk.geometry_g
    (fun _ => None) (fun _ => None) (cached_fs root_inode) 0 root_inode SmallDisk.t [46; 0])| |].
  - apply SmallDisk.fs_ok_t.
  - apply root_dir_ok.
  - apply SmallDisk.trep_disk.
  - reflexivity.
  - reflexivity.
  - apply root_cached.
  - reflexivity.
  - apply dot_name_ok.
  - apply small_refs.
  - intros r s' (_ & _ & Hr). by destruct Hr.
  - intros w s' (_ & Hn & _). by destruct Hn.
Defined.

