(* ===== verification/FsPath.v ===== *)
(** * Paths (fs.c: skipelem, namex, namei, nameiparent)

    [skipelem] takes a path apart at its slashes.  [namex] follows the
    elements from directory to directory: on a tree of directories that is in
    order it returns the inode that the pure function [resolve] finds, and
    leaves every reference count as it was but that of the inode it returns. *)
From stdpp Require Import gmap functions.
From S2P Require Import Prelude Spinlock Proc Sleep Sleeplock Bytes CString Block Store Fs FsAlloc FsFile FsRw FsTrunc FsInode FsDir.

(** ** Elements of a path *)
Fixpoint split (l : list Z) : list (list Z) :=
  match l with
  | [] => [[]]
  | c :: r => if c =? slash then [] :: split r
              else match split r with
                   | h :: q => (c :: h) :: q
                   | [] => [[c]]
                   end
  end.
Definition elems (path : list Z) : list (list Z) := take 14 <$> filter (fun e => e ≠ []) (split (cstr path)).
Definition path_ok (path : list Z) : Prop := Forall is_byte path ∧ 0 ∈ path.

Lemma split_app e l : Forall (fun c => c ≠ slash) e → 
  ∃ h q, split l = h :: q ∧ split (e ++ l) = (e ++ h) :: q.
Proof.
  intros He. assert (Hne : ∃ h q, split l = h :: q).
  { destruct l as [|c l]; [by eexists _, _|]. cbn. destruct (c =? slash); [by eexists _, _|]. destruct (split l); by eexists _, _. }
  destruct Hne as (h & q & Hl). exists h, q. split; [done|]. induction He as [|c e Hc _ IH]; [done|].
  cbn. rewrite (proj2 (Z.eqb_neq _ _) Hc). by rewrite IH.
Qed.

Lemma elems_slash path : elems (slash :: path) = elems path.
Proof. done. Qed.

Lemma elems_zero path : elems (0 :: path) = [].
Proof. done. Qed.

Lemma cstr_app l r : Forall (fun c => c ≠ 0) l → cstr (l ++ r) = l ++ cstr r.
Proof. induction 1 as [|c l Hc _ IH]; cbn; [done|]. rewrite (proj2 (Z.eqb_neq _ _) Hc). by rewrite IH. Qed.

Lemma elems_app e c r : Forall (fun c => c ≠ slash ∧ c ≠ 0) e → e ≠ [] → c = slash ∨ c = 0 →
  elems (e ++ c :: r) = take 14 e :: elems (c :: r).
Proof.
  intros He Hne Hc. unfold elems. rewrite cstr_app by (eapply Forall_impl; [exact He | naive_solver]).
  destruct (split_app e (cstr (c :: r))) as (h & q & Hq & Hs); [eapply Forall_impl; [exact He | naive_solver]|].
  assert (Hh : h = []) by (destruct Hc as [-> | ->]; cbn in Hq; congruence). subst h.
  rewrite Hs, Hq, app_nil_r. by rewrite !filter_cons, decide_True, decide_False by auto.
Qed.

Lemma skip_slashes_spec {T} `{!BlockStore T} path (s : fsys T) : 0 ∈ path →
  ∃ c r, skip_slashes path s = Ok (c :: r) s ∧ c ≠ slash ∧ elems (c :: r) = elems path ∧ 0 ∈ c :: r ∧ c :: r `suffix_of` path.
Proof.
  induction path as [|c path IH]; intros H0; [by apply not_elem_of_nil in H0|]. cbn [skip_slashes].
  destruct (Z.eqb_spec c slash) as [->|Hc].
  - destruct IH as (c & r & H1 & H2 & H3 & H4 & H5); [by apply elem_of_cons in H0 as [H0|H0]|].
    exists c, r. split_and!; [done | done | by rewrite elems_slash | done | by apply suffix_cons_r].
  - by exists c, path.
Qed.

Lemma take_elem_spec {T} `{!BlockStore T} path (s : fsys T) : 0 ∈ path →
  ∃ e c r, take_elem path s = Ok (e, c :: r) s ∧ path = e ++ c :: r ∧ Forall (fun c => c ≠ slash ∧ c ≠ 0) e ∧
    (c = slash ∨ c = 0) ∧ 0 ∈ c :: r.
Proof.
  induction path as [|c path IH]; intros H0; [by apply not_elem_of_nil in H0|]. cbn [take_elem].
  destruct (Z.eqb_spec c slash) as [->|Hc]; [by exists [], slash, path; split_and!; [..|by left|]|].
  destruct (Z.eqb_spec c 0) as [->|Hc0]; [by exists [], 0, path; split_and!; [..|by right|]|]. cbn [negb andb].
  destruct IH as (e & d & r & H1 & -> & H3 & H4 & H5); [by apply elem_of_cons in H0 as [H0|H0]|].
  exists (c :: e), d, r. split_and!; [|done | by constructor | done | done].
  erewrite bind_ok by exact H1. done.
Qed.

(** The 14 bytes of [name] after an element was copied to it. *)
Lemma name_copied e (name : list Z) :
  length name = 14%nat → Forall is_byte name → Forall is_byte e → Forall (fun c => c ≠ slash ∧ c ≠ 0) e →
  let name' := if Z.of_nat (length e) >=? DIRSIZ then splice name 0 (take 14 e)
               else splice (splice name 0 e) (length e) [0] in
  name14 name' = take 14 e ∧ length name' = 14%nat ∧ Forall is_byte name'.
Proof.
  intros Hl Hb He Hnz. change DIRSIZ with 14. cbv zeta.
  assert (Hz : Forall (fun c => c ≠ 0) e) by (eapply Forall_impl; [exact Hnz | naive_solver]).
  destruct (Z.geb_spec (Z.of_nat (length e)) 14) as [H|H].
  - assert (Heq : splice name 0 (take 14 e) = take 14 e).
    { unfold splice. cbn [take app]. rewrite drop_ge; [apply app_nil_r | rewrite length_take; lia]. }
    rewrite Heq. split_and!; [|rewrite length_take; lia | by apply Forall_take].
    unfold name14. rewrite take_take. rewrite Nat.min_id. apply cstr_id. by apply Forall_take.
  - assert (Heq : splice (splice name 0 e) (length e) [0] = e ++ 0 :: drop (S (length e)) name).
    { rewrite <-(Nat.add_0_l (length e)) at 1. rewrite splice_app by (cbn; lia). unfold splice. cbn [take app].
      rewrite length_app. cbn [length]. replace (0 + (length e + 1))%nat with (S (length e)) by lia. by rewrite <-app_assoc. }
    rewrite Heq. split_and!.
    + unfold name14. rewrite (take_ge (e ++ _)) by (rewrite length_app; cbn [length]; rewrite length_drop; lia).
      rewrite cstr_app_zero by done. by rewrite take_ge by lia.
    + rewrite length_app. cbn [length]. rewrite length_drop. lia.
    + apply Forall_app. split; [done|]. constructor; [unfold is_byte; lia | by apply Forall_drop].
Qed.

Lemma bytes_suffix (l k : list Z) : l `suffix_of` k → Forall is_byte k → Forall is_byte l.
Proof. intros [p ->] H. by apply Forall_app in H as [_ ?]. Qed.

Lemma skipelem_spec {T} `{!BlockStore T} path name (s : fsys T) :
  path_ok path → length name = 14%nat → Forall is_byte name →
  match elems path with
  | [] => skipelem path name s = Ok (None, name) s
  | e :: es => ∃ rest name', skipelem path name s = Ok (Some rest, name') s ∧ name14 name' = e ∧ elems rest = es ∧
      path_ok rest ∧ (length rest < length path)%nat ∧ length name' = 14%nat ∧ Forall is_byte name' ∧
      ∃ c, head rest = Some c ∧ (c = 0 ↔ es = [])
  end.
Proof.
  intros [Hb H0] Hl Hnb. destruct (skip_slashes_spec path s H0) as (c & r & H1 & Hc & <- & H3 & H4).
  assert (Hcb : Forall is_byte (c :: r)) by (by eapply bytes_suffix).
  assert (Hsk : ∀ A (k : list Z → M (fsys T) A), (skip_slashes path ≫= k) s = k (c :: r) s) by (intros A k; by apply bind_ok).
  unfold skipelem. rewrite Hsk. cbn [head]. m_unfold.
  destruct (Z.eqb_spec c 0) as [->|Hc0]; [by rewrite elems_zero|].
  destruct (take_elem_spec (c :: r) s H3) as (e & d & q & H5 & H6 & H7 & H8 & H9).
  assert (Hne : e ≠ []) by (intros ->; injection H6 as -> ->; destruct H8; done).
  rewrite H6, (elems_app e d q H7 Hne H8). rewrite H6 in H5, Hcb. apply Forall_app in Hcb as [Heb Hqb]. cbn [app] in *.
  rewrite H5. cbn [fst snd].
  destruct (skip_slashes_spec (d :: q) s H9) as (c' & r' & G1 & Gc & G2 & G3 & G4).
  destruct (name_copied e name Hl Hnb Heb H7) as (N1 & N2 & N3). cbv zeta in *. rewrite G1.
  eexists _, _. split; [reflexivity|]. split_and!; [done | done | split; [by eapply bytes_suffix | done] | | done | done|].
  - apply suffix_length in G4, H4. rewrite H6, length_app in H4. destruct e; [done|]. cbn [length] in *. lia.
  - exists c'. split; [done|]. rewrite <-G2. split; [by intros ->|]. intros He.
    destruct (decide (c' = 0)) as [|Hn]; [done|]. exfalso.
    destruct (take_elem_spec (c' :: r') s G3) as (e2 & d2 & q2 & _ & K2 & K3 & K4 & _).
    destruct e2 as [|a e2]; [injection K2 as -> ->; destruct K4; done|]. 
    rewrite K2, (elems_app (a :: e2) d2 q2 K3 ltac:(done) K4) in He. done.
Qed.

(** ** The tree of directories *)
Section tree.
Context {T : Type} `{!BlockStore T} `{!StoreLaws T}.
Context (dev : Z) (g : superblock).
Implicit Types (s : fsys T) (t : tstate) (x y : inode).

(** The inode [n] as the disk has it. *)
Definition dino (t : tstate) (n : Z) : inode := get_dinode (tv t (dev, IBLOCK n g)) (blank dev n 0).
Definition alloced (t : tstate) (n : Z) : Prop := 0 < n < sb_ninodes g ∧ dtype dev g t n ≠ 0.

(** Every inode of the disk is a file in order and has a name, and the entries
    of a directory stand for inodes that are there. *)
Definition tree_ok (t : tstate) : Prop := ∀ n, alloced t n →
  file_ok dev g t (dino t n) ∧ nlink (dino t n) ≠ 0 ∧
  (dtype dev g t n = T_DIR → (16 | i_size (dino t n)) ∧
     ∀ e, e ∈ entries dev t (dino t n) → de_inum e ≠ 0 → alloced t (de_inum e)).

Definition step (t : tstate) (n : Z) (e : list Z) : option Z :=
  if dtype dev g t n =? T_DIR then dir_lookup dev t (dino t n) e else None.

(** The inode at the end of a path, and the one before the last element. *)
Fixpoint resolve (t : tstate) (n : Z) (es : list (list Z)) : option Z :=
  match es with
  | [] => Some n
  | e :: es => m ← step t n e; resolve t m es
  end.
Fixpoint resolve_parent (t : tstate) (n : Z) (es : list (list Z)) : option (Z * list Z) :=
  match es with
  | [] => None
  | e :: es' =>
      if dtype dev g t n =? T_DIR then
        match es' with
        | [] => Some (n, e)
        | _ => m ← step t n e; resolve_parent t m es'
        end
      else None
  end.

(** ** The cache and the disk agree *)
Record entry_ok (t : tstate) (lk : option nat) (i : nat) (x : inode) : Prop := {
  eo_flags : 0 ≤ i_flags x;
  eo_lock : sl_locked (i_lock x) ≠ 0 ↔ lk = Some i;
  eo_live : 0 < ref x → i_dev x = dev ∧ alloced t (inum x) ∧
    (Z.land (i_flags x) I_VALID ≠ 0 → synced dev g t x)
}.

(** [lk] is the inode that is locked. *)
Record coh (t : tstate) (lk : option nat) (s : fsys T) : Prop := {
  co_cache : icache_ok s;
  co_sb : sb s = g;
  co_rep : trep (store s) t;
  co_entry : ∀ i x, inodes s !! i = Some x → entry_ok t lk i x
}.
Definition refs (s : fsys T) : list Z := ref <$> inodes s.

(** Entry [i] is in use and stands for inode [n]. *)
Definition stands (s : fsys T) (i : nat) (n : Z) : Prop :=
  ∃ x, inodes s !! i = Some x ∧ 0 < ref x ∧ inum x = n.

Lemma insert_alter {A} (f : A → A) (l : list A) i v : l !! i = Some v → <[i := f v]> l = alter f i l.
Proof.
  intros Hv. apply list_eq. intros j. destruct (decide (j = i)) as [->|Hne].
  - rewrite list_lookup_insert_eq by (by apply lookup_lt_Some in Hv). by rewrite list_lookup_alter_eq, Hv.
  - by rewrite list_lookup_insert_ne, list_lookup_alter_ne.
Qed.

Lemma synced_fields t x : synced dev g t x →
  i_type x = dtype dev g t (inum x) ∧ i_size x = i_size (dino t (inum x)) ∧ nlink x = nlink (dino t (inum x)) ∧
  addrs x = addrs (dino t (inum x)).
Proof. unfold synced, iblock. intros H. rewrite <-H at 1 3 5 7. done. Qed.

Lemma synced_lock t x l : synced dev g t x → synced dev g t (x <| i_lock := l |>).
Proof.
  unfold synced. intros H. change (get_dinode (tv t (iblock dev g (x <| i_lock := l |>))) (x <| i_lock := l |>))
    with ((get_dinode (tv t (iblock dev g x)) x) <| i_lock := l |>). by rewrite H.
Qed.

Lemma synced_ref t x r : synced dev g t x → synced dev g t (x <| ref := r |>).
Proof.
  unfold synced. intros H. change (get_dinode (tv t (iblock dev g (x <| ref := r |>))) (x <| ref := r |>))
    with ((get_dinode (tv t (iblock dev g x)) x) <| ref := r |>). by rewrite H.
Qed.

Lemma loaded_synced t x : (Z.land (i_flags x) I_VALID ≠ 0 → synced dev g t x) → synced dev g t (loaded dev g t x).
Proof.
  intros H. unfold loaded. destruct (Z.eqb_spec (Z.land (i_flags x) I_VALID) 0) as [H0|H0]; [|by apply H].
  unfold synced. reflexivity.
Qed.

Lemma loaded_same t x : inum (loaded dev g t x) = inum x ∧ ref (loaded dev g t x) = ref x ∧ i_dev (loaded dev g t x) = i_dev x ∧
  i_lock (loaded dev g t x) = i_lock x.
Proof. unfold loaded. by destruct (_ =? 0). Qed.

Lemma loaded_flags t x : 0 ≤ i_flags x → 0 ≤ i_flags (loaded dev g t x).
Proof.
  intros H. unfold loaded. destruct (_ =? 0); [|done]. cbn [i_flags update_field]. apply Z.lor_nonneg. by split.
Qed.

(** Another inode of the same file, or with fewer references. *)
Lemma icache_ok_less s s' i x x' :
  icache_ok s → inodes s !! i = Some x → 0 ≤ ref x' ≤ ref x → i_dev x' = i_dev x → inum x' = inum x →
  sl_idle (i_lock x') → inodes s' = <[i := x']> (inodes s) → ic_lock s' = ic_lock s → icache_ok s'.
Proof.
  intros [H1 H2 H3 H4 H5] Hx Hr Hd Hn Hl Hi Hlk. pose proof (H4 i x Hx).
  split; rewrite ?Hi, ?Hlk, ?length_insert; try done.
  - intros j y [(-> & <- & _)|[_ Hy]]%list_lookup_insert_Some; [done | by eapply H3].
  - intros j y [(-> & <- & _)|[_ Hy]]%list_lookup_insert_Some; [lia | by eapply H4].
  - intros j k y z [(<- & <- & _)|[Hj Hy]]%list_lookup_insert_Some [(<- & <- & _)|[Hk Hz]]%list_lookup_insert_Some Hp Hq; try done.
    + rewrite Hd, Hn. apply (H5 i k x z); [done | done | lia | done].
    + rewrite Hd, Hn. apply (H5 j i y x); [done | done | done | lia].
    + by apply (H5 j k y z).
Qed.

Lemma coh_change t lk lk' s s' i x' :
  coh t lk s → icache_ok s' → sb s' = sb s → trep (store s') t → inodes s' = <[i := x']> (inodes s) →
  entry_ok t lk' i x' → (∀ j, j ≠ i → lk = Some j ↔ lk' = Some j) → coh t lk' s'.
Proof.
  intros [H1 H2 H3 H4] Hok Hsb Hr Hi He Hlk. split; [done | congruence | done|].
  intros j y. rewrite Hi. intros [(-> & <- & _)|[Hj Hy]]%list_lookup_insert_Some; [done|].
  destruct (H4 j y Hy) as [E1 E2 E3]. split; [done | rewrite E2; by apply Hlk | done].
Qed.

Lemma refs_insert s s' i x x' : inodes s !! i = Some x → inodes s' = <[i := x']> (inodes s) → ref x' = ref x → refs s' = refs s.
Proof.
  intros Hx Hi Hr. unfold refs. rewrite Hi, list_fmap_insert, Hr. apply list_insert_id. by rewrite list_lookup_fmap, Hx.
Qed.

(** The file of an inode in use that is a directory. *)
Lemma dir_synced t x : tree_ok t → alloced t (inum x) → i_dev x = dev → synced dev g t x → i_type x = T_DIR → dir_ok dev g t x.
Proof.
  intros Ht Ha Hd Hs Hty. destruct (Ht _ Ha) as ([W D I S M] & _ & Hdir).
  destruct (synced_fields t x Hs) as (E1 & E2 & E3 & E4). rewrite E1 in Hty. destruct (Hdir Hty) as [Hm _].
  split; [|by rewrite E1 | by rewrite E2]. split; [by rewrite E4 | done | exact I | by rewrite E2 | by rewrite E2, E4].
Qed.

Lemma entries_synced t x : synced dev g t x → entries dev t x = entries dev t (dino t (inum x)).
Proof. intros Hs. destruct (synced_fields t x Hs) as (_ & E2 & _ & E4). unfold entries, entry. by rewrite E2, E4. Qed.

(** ** Steps of namex *)
Context (Hg : geometry g).
Context (dev_read : Z → option (nat → Z → M (fsys T) (Z * list Z))).
Context (sleep_inode : nat → SL unit) (naps : nat) (inode_chan : nat → chan_t).
Context (t : tstate) (Hfs : fs_ok dev g t) (Hth : th t = ∅) (Htree : tree_ok t).

Lemma coh_put lk s c i x : coh t lk s → inodes s !! i = Some x → trep c t → coh t lk (put_ino s c i x).
Proof.
  intros [H1 H2 H3 H4] Hx Hc. assert (Hi : inodes (put_ino s c i x) = inodes s) by (cbn; by apply list_insert_id).
  split; [destruct H1; split; rewrite ?Hi; done | done | done | by rewrite Hi].
Qed.

Lemma coh_ilock s i n (Q : unit → fsys T → Prop) E :
  coh t None s → stands s i n →
  (∀ s' x', coh t (Some i) s' → refs s' = refs s → inodes s' !! i = Some x' → 0 < ref x' → inum x' = n →
     synced dev g t x' → Q tt s') →
  wp (ilock sleep_inode naps i) Q E s.
Proof.
  intros Hc (x & Hx & Href & Hn) HQ. pose proof (lookup_lt_Some _ _ _ Hx) as Hi.
  destruct (co_entry _ _ _ Hc i x Hx) as [Hf Hl Hlive]. destruct (Hlive Href) as (Hd & Ha & Hsync).
  destruct (loaded_same t x) as (L1 & L2 & L3 & L4).
  pose proof (loaded_synced t x Hsync) as Hs. destruct Ha as [Hrange Hty].
  assert (Hidle : sl_idle (i_lock x)) by (by eapply ic_idle; [apply Hc|]).
  eapply (wp_ilock dev g Hg sleep_inode naps); [exact Hfs | apply Hc | apply Hc | exact Hth | exact Hx | lia | exact Hd | lia | exact Hidle | | |].
  - destruct (decide (sl_locked (i_lock x) = 0)) as [|H]; [done|]. by apply Hl in H.
  - destruct (synced_fields t _ Hs) as (-> & _). by rewrite L1.
  - intros c p Hcr. set (x' := (loaded dev g t x) <| i_lock := sl_taken (i_lock x) p |>).
    assert (Hr' : ref x' = ref x) by exact L2. assert (Hn' : inum x' = inum x) by exact L1.
    assert (Hd' : i_dev x' = i_dev x) by exact L3. assert (Hf' : 0 ≤ i_flags x') by exact (loaded_flags t x Hf).
    assert (Hc' : coh t (Some i) (put_ino s c i x')).
    { eapply (coh_change t None (Some i) s _ i x' Hc); [|done | done | done | | intros j Hj; split; [done | intros [=]; congruence]].
      - eapply (icache_ok_less s _ i x x'); [apply Hc | done | lia | done | done | done | done | done].
      - split; [done | done|]. intros _. split; [congruence|]. split; [rewrite Hn'; by split|]. intros _. by apply synced_lock. }
    apply (HQ _ x' Hc'); [by eapply refs_insert | cbn; by rewrite list_lookup_insert_eq | lia | congruence | by apply synced_lock].
Qed.

Lemma stands_insert s s' i x x' j m :
  inodes s !! i = Some x → inodes s' = <[i := x']> (inodes s) → (0 < ref x → inum x' = inum x ∧ 0 < ref x') →
  stands s j m → stands s' j m.
Proof.
  intros Hx Hi Hsame (y & Hy & Hr & Hm). unfold stands. rewrite Hi. destruct (decide (j = i)) as [->|Hne].
  - exists x'. replace y with x in * by congruence. destruct (Hsame Hr) as [E1 E2].
    split_and!; [apply list_lookup_insert_eq; by apply lookup_lt_Some in Hx | done | congruence].
  - exists y. by rewrite list_lookup_insert_ne.
Qed.

Lemma coh_iunlock s i n (Q : unit → fsys T → Prop) E :
  coh t (Some i) s → stands s i n →
  (∀ s', coh t None s' → refs s' = refs s → (∀ j m, stands s j m → stands s' j m) → Q tt s') →
  wp (iunlock inode_chan i) Q E s.
Proof.
  intros Hc (x & Hx & Href & Hn) HQ. pose proof (lookup_lt_Some _ _ _ Hx) as Hi.
  destruct (co_entry _ _ _ Hc i x Hx) as [Hf Hl Hlive].
  assert (Hidle : sl_idle (i_lock x)) by (by eapply ic_idle; [apply Hc|]).
  eapply wp_iunlock; [apply Hc | exact Hx | lia | exact Hidle | by apply Hl|].
  intros c Hcr. set (x' := x <| i_lock := sl_given (i_lock x) |>). apply HQ.
  - eapply (coh_change t (Some i) None s _ i x' Hc); [|done | done | done | | intros j Hj; split; [intros [=]; congruence | done]].
    + eapply (icache_ok_less s _ i x x'); [apply Hc | done | cbn; lia | done | done | done | done | done].
    + split; [done | cbn; split; [done | by intros [=]]|]. intros Hr. destruct (Hlive Hr) as (H1 & H2 & H3). split_and!; [done | done|].
      intros Hv. apply synced_lock, H3, Hv.
  - by eapply refs_insert.
  - intros j m. eapply (stands_insert s _ i x x'); [done | done|]. intros _. by split.
Qed.

Lemma coh_iput s i n (Q : unit → fsys T → Prop) E :
  coh t None s → stands s i n →
  (∀ s', coh t None s' → refs s' = alter Z.pred i (refs s) →
     (∀ j m, stands s j m → (j = i → refs s !! i ≠ Some 1) → stands s' j m) → Q tt s') →
  wp (iput i) Q E s.
Proof.
  intros Hc (x & Hx & Href & Hn) HQ. pose proof (lookup_lt_Some _ _ _ Hx) as Hi.
  destruct (co_entry _ _ _ Hc i x Hx) as [Hf Hl Hlive]. destruct (Hlive Href) as (Hd & Ha & Hsync).
  assert (Hidle : sl_idle (i_lock x)) by (by eapply ic_idle; [apply Hc|]).
  eapply (wp_iput_keep i x s t); [apply Hc | apply Hc | exact Hx | lia | |].
  - unfold last_unlinked. destruct (Z.eqb_spec (Z.land (i_flags x) I_VALID) 0) as [_|Hv]; [by rewrite andb_false_r|].
    destruct (synced_fields t x (Hsync Hv)) as (_ & _ & E3 & _). destruct (Htree _ Ha) as (_ & Hnl & _).
    rewrite (proj2 (Z.eqb_neq (nlink x) 0)) by congruence. apply andb_false_r.
  - apply HQ.
    + eapply (coh_change t None None s _ i (fewer x) Hc); [|done | | done | | done].
      * eapply (icache_ok_less s _ i x (fewer x)); [apply Hc | done | cbn; lia | done | done | done | done | done].
      * exact (trep_outside (set_ino s i (fewer x)) t (co_rep _ _ _ Hc)).
      * split; [done | done|]. intros _. split_and!; [done | done|]. intros Hv. apply synced_ref, Hsync, Hv.
    + unfold refs. cbn. rewrite list_fmap_insert. rewrite <-(insert_alter Z.pred _ i (ref x)) by (by rewrite list_lookup_fmap, Hx). done.
    + intros j m Hs Hne. destruct (decide (j = i)) as [->|Hji].
      * destruct Hs as (y & Hy & Hr & Hm). replace y with x in * by congruence. exists (fewer x).
        split; [cbn; by rewrite list_lookup_insert_eq|]. split; [|done]. cbn.
        assert (ref x ≠ 1); [|lia]. intros H1. apply Hne; [done|]. unfold refs. by rewrite list_lookup_fmap, Hx, <-H1.
      * destruct Hs as (y & Hy & Hr & Hm). exists y. cbn. by rewrite list_lookup_insert_ne.
Qed.

(** A reference more, to a known inode or to a fresh one. *)
Lemma coh_gotten lk s n j y :
  coh t lk s → gotten dev n s j y → alloced t n → (∀ i v, refs s !! i = Some v → v + 1 < INT_MAX) →
  let s' := outside (set_ino s j y) in
  coh t lk s' ∧ refs s' = alter Z.succ j (refs s) ∧ stands s' j n ∧ ∀ k m, stands s k m → stands s' k m.
Proof.
  intros Hc Hgot Ha Hmax s'. pose proof (co_cache _ _ _ Hc) as Hok.
  destruct (gotten_entry dev n s j y Hok Hgot) as (Hd & Hn & Hpos & Hidle & Hj).
  assert (Hmore : ∃ x, inodes s !! j = Some x ∧ ref y = Z.succ (ref x) ∧ (0 < ref x → inum y = inum x)).
  { destruct Hgot as [(x & Hx & He & ->)|(_ & x & Hx & Hf%Z.eqb_eq & -> & _)]; exists x.
    - by split_and!.
    - split_and!; [done | cbn; lia | lia]. }
  destruct Hmore as (x & Hx & Href & Hsame).
  assert (Hlt : ref y < INT_MAX).
  { specialize (Hmax j (ref x)). unfold refs in Hmax. rewrite list_lookup_fmap, Hx in Hmax. specialize (Hmax eq_refl). lia. }
  destruct (co_entry _ _ _ Hc j x Hx) as [Hf Hl Hlive].
  split_and!.
  - eapply (coh_change t lk lk s s' j y Hc); [|done | | done | | done].
    + destruct (gotten_ok dev n s j y Hok Hgot Hlt). by split.
    + exact (trep_outside (set_ino s j y) t (co_rep _ _ _ Hc)).
    + destruct Hgot as [(z & Hz & He & ->)|(_ & z & Hz & Hf0%Z.eqb_eq & -> & _)]; replace z with x in * by congruence.
      * split; [done | done|]. intros _. split; [done|]. split; [cbn in Hn; cbn; by rewrite Hn|]. intros Hv.
        apply is_entry_true in He as (Hr & _). destruct (Hlive Hr) as (_ & _ & Hs). apply synced_ref, Hs, Hv.
      * split; [done | done|]. intros _. by split_and!.
  - unfold refs. cbn. rewrite list_fmap_insert, Href. apply insert_alter. by rewrite list_lookup_fmap, Hx.
  - exists y. split_and!; [cbn; by rewrite list_lookup_insert_eq | done | done].
  - intros k m. eapply (stands_insert s s' j x y); [done | done|]. intros Hr. by split; [apply Hsame|].
Qed.

Lemma name14_name14 l : name14 (name14 l) = name14 l.
Proof. unfold name14 at 1. rewrite take_ge by apply length_name14. apply cstr_id, cstr_nonzero. Qed.

Lemma dir_lookup_name14 x name : dir_lookup dev t x (name14 name) = dir_lookup dev t x name.
Proof.
  unfold dir_lookup, lookup_name. f_equal. apply list_find_ext. intros e. unfold matches. by rewrite name14_name14.
Qed.

Lemma dir_lookup_alloced x name m :
  alloced t (inum x) → synced dev g t x → i_type x = T_DIR → dir_lookup dev t x name = Some m → alloced t m.
Proof.
  intros Ha Hs Hty Hl. unfold dir_lookup, lookup_name in Hl. destruct (list_find _ _) as [[k e]|] eqn:Hf; [|done].
  injection Hl as <-. apply list_find_Some in Hf as (Hk & [H0 _] & _). destruct (Htree _ Ha) as (_ & _ & Hdir).
  destruct (synced_fields t x Hs) as (E1 & _). destruct Hdir as [_ Hdir]; [congruence|]. apply Hdir; [|done].
  rewrite <-entries_synced by done. by eapply list_elem_of_lookup_2.
Qed.

Context (dev_write : Z → option (nat → list Z → Z → M (fsys T) Z)).

Lemma coh_dirlookup s i x name (Q : option (nat * Z) → fsys T → Prop) (E : stop → fsys T → Prop) :
  coh t (Some i) s → inodes s !! i = Some x → 0 < ref x → synced dev g t x → i_type x = T_DIR → name_ok name →
  (∀ j v, refs s !! j = Some v → v + 1 < INT_MAX) →
  (dir_lookup dev t x name = None → ∀ s', coh t (Some i) s' → refs s' = refs s → (∀ j m, stands s j m → stands s' j m) → Q None s') →
  (∀ m j off s', dir_lookup dev t x name = Some m → coh t (Some i) s' → refs s' = alter Z.succ j (refs s) → stands s' j m →
     (∀ k m, stands s k m → stands s' k m) → Q (Some (j, off)) s') →
  (∀ s', E (Panic "iget: no inodes") s') →
  wp (dirlookup dev_read i name) Q E s.
Proof.
  intros Hc Hx Href Hs Hty Hname Hmax HN HS HE. pose proof (lookup_lt_Some _ _ _ Hx) as Hi.
  destruct (co_entry _ _ _ Hc i x Hx) as [_ _ Hlive]. destruct (Hlive Href) as (Hd & Ha & _).
  assert (Hrefs : ∀ c, refs (put_ino s c i x) = refs s) by (intros c; by eapply refs_insert).
  assert (Hst : ∀ c j m, stands s j m → stands (put_ino s c i x) j m).
  { intros c j m. eapply (stands_insert s _ i x x); [done | done|]. done. }
  apply (wp_at_ino _ i x); [exact Hx|].
  eapply (wp_dirlookup dev g Hg dev_read dev_write); [exact Hfs | by apply dir_synced | apply Hc | apply Hc | exact Hi | exact Hth | exact Hname | | | |].
  - intros c' Hc'. by eapply co_cache, coh_put.
  - intros Hno c' Hc'. eapply HN; [exact Hno | by apply coh_put | apply Hrefs | apply Hst].
  - intros k e c' j y Hf Hc' Hgot.
    assert (Hl : dir_lookup dev t x name = Some (de_inum e)) by (unfold dir_lookup, lookup_name; by rewrite Hf).
    destruct (coh_gotten (Some i) (put_ino s c' i x) (de_inum e) j y) as (G1 & G2 & G3 & G4).
    + by apply coh_put.
    + done.
    + by eapply dir_lookup_alloced.
    + intros j' v. rewrite Hrefs. apply Hmax.
    + eapply HS; [exact Hl | exact G1 | by rewrite G2, Hrefs | exact G3|]. intros k' m Hk. apply G4. by apply Hst.
  - intros _ c' _. apply HE.
Qed.

(** ** namex *)

(** What [namex] returns from inode [n], with [R] the reference counts of its
    caller: the inode at the end of the path with one reference more, or null. *)
Definition outcome (parent : bool) (n : Z) (es : list (list Z)) (R : list Z) (r : option nat) (name : list Z) (s' : fsys T) : Prop :=
  match (if parent then resolve_parent t n es else (fun m => (m, name14 name)) <$> resolve t n es) with
  | Some (m, e) => ∃ j, r = Some j ∧ stands s' j m ∧ refs s' = alter Z.succ j R ∧ name14 name = e
  | None => r = None ∧ refs s' = R
  end.

Definition small_refs (R : list Z) : Prop := ∀ j v, R !! j = Some v → 0 ≤ v ∧ v + 3 < INT_MAX.

Lemma alter_pred_succ i (R : list Z) : alter Z.pred i (alter Z.succ i R) = R.
Proof.
  apply list_eq. intros j. destruct (decide (j = i)) as [->|Hne]; [|by rewrite !list_lookup_alter_ne].
  rewrite !list_lookup_alter_eq. destruct (R !! i); cbn; [by rewrite Z.pred_succ | done].
Qed.

Lemma alter_swap i j (R : list Z) : alter Z.pred i (alter Z.succ j (alter Z.succ i R)) = alter Z.succ j R.
Proof.
  apply list_eq. intros k. rewrite !list_lookup_alter. repeat case_decide; subst; try done;
    destruct (R !! _); cbn; try done; f_equal; lia.
Qed.

Lemma alter_bound i (R : list Z) b j v : (∀ j v, R !! j = Some v → 0 ≤ v ∧ v + (b + 1) < INT_MAX) →
  alter Z.succ i R !! j = Some v → 0 ≤ v ∧ v + b < INT_MAX.
Proof.
  intros HR. destruct (decide (j = i)) as [->|Hne].
  - rewrite list_lookup_alter_eq. destruct (R !! i) as [w|] eqn:Hw; [|done]. intros [= <-]. specialize (HR i w Hw). lia.
  - rewrite list_lookup_alter_ne by done. intros Hv. specialize (HR j v Hv). lia.
Qed.

Lemma wp_namex_loop fuel parent ip path name n R s (Q : option nat * list Z → fsys T → Prop) (E : stop → fsys T → Prop) :
  (length path < fuel)%nat → path_ok path → length name = 14%nat → Forall is_byte name →
  coh t None s → stands s ip n → refs s = alter Z.succ ip R → small_refs R →
  (∀ r nm s', coh t None s' → outcome parent n (elems path) R r nm s' → Q (r, nm) s') →
  (∀ s', E (Panic "iget: no inodes") s') →
  wp (namex_loop dev_read sleep_inode naps inode_chan fuel parent ip path name) Q E s.
Proof.
  revert ip path name n s. induction fuel as [|fuel IH]; intros ip path name n s Hfuel Hp Hl Hb Hc Hst HR HR0 HQ HE; [lia|].
  cbn [namex_loop]. wp_step. pose proof (skipelem_spec path name s Hp Hl Hb) as Hskip. unfold outcome in HQ.
  destruct (elems path) as [|e es].
  - eapply wp_eq; [exact Hskip|]. cbv beta iota. destruct parent.
    + wp_step. eapply coh_iput; [exact Hc | exact Hst|]. intros s' Hc' Hr' _. wp_step. apply HQ; [done|].
      cbn. split; [done|]. by rewrite Hr', HR, alter_pred_succ.
    + wp_step. apply HQ; [done|]. cbn. by exists ip.
  - destruct Hskip as (rest & name' & Hskip & He & Hes & Hp' & Hlt & Hl' & Hb' & c & Hhd & Hc0).
    eapply wp_eq; [exact Hskip|]. cbv beta iota. wp_step. eapply coh_ilock; [exact Hc | exact Hst|].
    intros s1 x Hc1 Hr1 Hx Hpos Hn Hsync. wp_step. eapply wp_ino; [exact Hx|].
    destruct (synced_fields t x Hsync) as (Hty & _). rewrite Hn in Hty. rewrite Hty.
    assert (Hst1 : stands s1 ip n) by (by exists x).
    destruct (Z.eqb_spec (dtype dev g t n) T_DIR) as [HD|HD]; cbn [negb].
    2:{ unfold iunlockput. wp_step. wp_step. eapply coh_iunlock; [exact Hc1 | exact Hst1|]. intros s2 Hc2 Hr2 Hk2.
        eapply coh_iput; [exact Hc2 | by apply Hk2|]. intros s3 Hc3 Hr3 _. wp_step. apply HQ; [done|].
        assert (Hnone : (if parent then resolve_parent t n (e :: es) else (fun m => (m, name14 name')) <$> resolve t n (e :: es)) = None).
        { cbn. unfold step. rewrite (proj2 (Z.eqb_neq _ _) HD). by destruct parent. }
        rewrite Hnone. split; [done|]. by rewrite Hr3, Hr2, Hr1, HR, alter_pred_succ. }
    wp_step. rewrite Hhd. eapply wp_deref; [reflexivity|].
    destruct (parent && (c =? 0)) eqn:Hlast.
    { apply andb_prop in Hlast as [-> Hlast%Z.eqb_eq]. apply Hc0 in Hlast as ->. wp_step. eapply coh_iunlock; [exact Hc1 | exact Hst1|].
      intros s2 Hc2 Hr2 Hk2. wp_step. apply HQ; [done|]. cbn. rewrite (proj2 (Z.eqb_eq _ _) HD).
      exists ip. split_and!; [done | by apply Hk2 | by rewrite Hr2, Hr1 | done]. }
    assert (Hstep : step t n e = dir_lookup dev t x name').
    { unfold step. rewrite (proj2 (Z.eqb_eq _ _) HD), <-He, dir_lookup_name14. unfold dir_lookup.
      by rewrite (entries_synced t x Hsync), Hn. }
    assert (Hres : ∀ nm, (if parent then resolve_parent t n (e :: es) else (fun m => (m, name14 nm)) <$> resolve t n (e :: es)) =
      m ← dir_lookup dev t x name'; if parent then resolve_parent t m es else (fun m => (m, name14 nm)) <$> resolve t m es).
    { intros nm. rewrite <-Hstep. destruct parent; [|cbn; by destruct (step t n e)].
      destruct es as [|e2 es]; [|cbn; rewrite (proj2 (Z.eqb_eq _ _) HD); by destruct (step t n e)].
      cbn in Hlast. apply Z.eqb_neq in Hlast. by destruct Hlast; apply Hc0. }
    wp_step. eapply (coh_dirlookup s1 ip x name'); [exact Hc1 | exact Hx | exact Hpos | exact Hsync | by rewrite Hty | split; [done | left; lia] | | | |].
    + intros j v. rewrite Hr1, HR. intros Hv. apply (alter_bound ip R 2) in Hv as [_ Hv]; [lia|]. exact HR0.
    + intros Hno s2 Hc2 Hr2 Hk2. unfold iunlockput. wp_step. wp_step. eapply coh_iunlock; [exact Hc2 | by apply Hk2|].
      intros s3 Hc3 Hr3 Hk3. eapply coh_iput; [exact Hc3 | by apply Hk3, Hk2|]. intros s4 Hc4 Hr4 _. wp_step.
      apply HQ; [done|]. rewrite Hres, Hno. cbn. split; [done|]. by rewrite Hr4, Hr3, Hr2, Hr1, HR, alter_pred_succ.
    + intros m j off s2 Hyes Hc2 Hr2 Hj Hk2. unfold iunlockput. wp_step. wp_step. eapply coh_iunlock; [exact Hc2 | by apply Hk2|].
      intros s3 Hc3 Hr3 Hk3. eapply coh_iput; [exact Hc3 | by apply Hk3, Hk2|]. intros s4 Hc4 Hr4 Hk4.
      eapply (IH j rest name' m s4); [lia | done | done | done | done | | | done | | done].
      * apply Hk4; [by apply Hk3|]. intros ->. rewrite Hr3, Hr2, Hr1, HR, !list_lookup_alter_eq.
        destruct (R !! ip) as [v|] eqn:Hv; [|done]. cbn. intros [=]. destruct (HR0 ip v Hv). lia.
      * by rewrite Hr4, Hr3, Hr2, Hr1, HR, alter_swap.
      * intros r nm s' Hc' Ho. apply HQ; [done|]. rewrite Hres, Hyes. cbn. by rewrite Hes in Ho.
    + exact HE.
Qed.

(** The inode a path starts from: the root, or the current directory. *)
Definition starts (s : fsys T) (path : list Z) (n : Z) : Prop :=
  if decide (head path = Some slash) then dev = ROOTDEV ∧ n = ROOTINO ∧ alloced t n
  else ∃ me p i, curproc (kern s) = Some me ∧ procs (kern s) !! me = Some p ∧ cwd p = Some i ∧ stands s i n.

Lemma small_refs_one R j v : small_refs R → R !! j = Some v → v + 1 < INT_MAX.
Proof. intros HR Hv. destruct (HR j v Hv). lia. Qed.

(** C11: on a tree of directories in order [namex] returns the inode that
    following the elements of the path from directory to directory gives (for
    [nameiparent] the directory of the last element, and that element), or
    null when an element is missing or not in a directory.  The disk and the
    reference counts are as before, but for one reference to the inode it
    returns; it panics only when the inode cache is full. *)
Theorem namex_correct s path parent name n :
  coh t None s → small_refs (refs s) → path_ok path → length name = 14%nat → Forall is_byte name → starts s path n →
  wp (namex dev_read sleep_inode naps inode_chan path parent name)
    (fun r s' => coh t None s' ∧ outcome parent n (elems path) (refs s) r.1 r.2 s')
    (fun w s' => w = Panic "iget: no inodes") s.
Proof.
  intros Hc HR Hp Hl Hb Hstart. destruct path as [|c path]; [destruct Hp as [_ Hp]; by apply not_elem_of_nil in Hp|].
  set (P := c :: path) in *. unfold namex. wp_step. change (head P) with (Some c). eapply wp_deref; [reflexivity|].
  assert (Hgo : ∀ j y, gotten dev n s j y → alloced t n →
    wp (namex_loop dev_read sleep_inode naps inode_chan (S (length P)) parent j P name)
      (fun r s' => coh t None s' ∧ outcome parent n (elems P) (refs s) r.1 r.2 s') (fun w s' => w = Panic "iget: no inodes")
      (outside (set_ino s j y))).
  { intros j y Hgot Ha. destruct (coh_gotten None s n j y Hc Hgot Ha) as (G1 & G2 & G3 & _); [by intros i v; apply small_refs_one|].
    eapply (wp_namex_loop (S (length P)) parent j P name n (refs s)); [lia | done | done | done | exact G1 | exact G3 | exact G2 | exact HR | | done].
    intros r nm s' Hc' Ho. by split. }
  wp_step. unfold starts in Hstart. change (head P) with (Some c) in Hstart.
  destruct (Z.eqb_spec c slash) as [->|Hne].
  - rewrite decide_True in Hstart by done. destruct Hstart as (Hdev & -> & Ha). rewrite <-Hdev.
    eapply (wp_iget dev ROOTINO s t); [apply Hc | apply Hc | intros i x' Hgot; by apply Hgo | done].
  - rewrite decide_False in Hstart by congruence. destruct Hstart as (me & p & i & Hme & Hproc & Hcwd & x & Hx & Hpos & Hn).
    assert (Hk : ∀ k, k = kern s → put_kern k s = s).
    { intros k ->. destruct s. unfold put_kern, kern. cbn. unfold update_field. cbn. f_equal. apply set_kern_id. }
    wp_step. apply wp_zoom. eapply wp_the_proc; [exact Hme|]. rewrite Hk by done. wp_step. apply wp_zoom.
    eapply wp_pget; [exact Hproc|]. rewrite Hk by done. wp_step. eapply wp_deref; [exact Hcwd|].
    destruct (co_entry _ _ _ Hc i x Hx) as [_ _ Hlive]. destruct (Hlive Hpos) as (Hd & Ha & _). rewrite Hn in Ha.
    eapply (wp_idup i x s t); [apply Hc | apply Hc | exact Hx|]. apply Hgo; [|done].
    left. exists x. split_and!; [done | by apply is_entry_true | done].
Qed.
End tree.

(** A disk whose root directory holds the entry "." for itself. *)
Module RootDisk.
Definition root : inode := mkinode 1 1 1 (initsleeplock "inode") 0 T_DIR 0 0 1 16 (16 :: replicate 12 0).
Definition contents (a : baddr) : block :=
  if decide (a = (1, 12)) then put_dinode root zero_block
  else if decide (a = (1, 15)) then [255; 255; 1] ++ replicate 509 0
  else if decide (a = (1, 16)) then encode_dirent (mkdirent 1 (pad14 [46])) ++ replicate 496 0
  else SmallDisk.contents a.
Definition t : tstate := mkt contents ∅ ∅ ∅ contents 30.
Definition disk : refstore := mkrs t 0 SmallDisk.kernel 9.
Definition fs : fsys refstore := mkfsys disk SmallDisk.g (initlock "icache") (replicate 50 spare).

Lemma fs_ok_root : fs_ok 1 SmallDisk.g t.
Proof.
  assert (Hb : ∀ x, length x = 512%nat → forallb (fun b => (0 <=? b) && (b <? 256)) x = true → is_block x).
  { intros x Hl Hx. split; [done|]. apply Forall_forall. intros b Hin.
    rewrite forallb_forall in Hx. specialize (Hx b). rewrite <-list_elem_of_In in Hx. unfold is_byte. specialize (Hx Hin). lia. }
  split.
  - intros a. change (is_block (contents a)). unfold contents, SmallDisk.contents. repeat case_decide; apply Hb; by vm_compute.
  - by vm_compute.
  - intros b _. apply not_elem_of_empty.
  - intros b Hb'. change (datastart SmallDisk.g) with 16 in Hb'.
    assert (Hall : forallb (used 1 SmallDisk.g t) (seqZ 0 16) = true) by (by vm_compute).
    rewrite forallb_forall in Hall. apply Hall, list_elem_of_In, elem_of_seqZ. lia.
  - intros h b Hh. change (th t) with (∅ : gmap nat baddr) in Hh. by rewrite lookup_empty in Hh.
Qed.

Lemma one_block p : valid p → at_path 1 t (16 :: replicate 12 0) p ≠ 0 → p = [0].
Proof.
  assert (H0 : ∀ k, 0 < k < 13 → default 0 ((16 :: replicate 12 0) !! Z.to_nat k) = 0).
  { intros k Hk. replace (Z.to_nat k) with (S (Z.to_nat (k - 1))) by lia.
    change (default 0 (replicate 12 0 !! Z.to_nat (k - 1)) = 0). by rewrite lookup_replicate_2 by lia. }
  assert (Hin : ∀ r, r = 11 ∨ r = 12 → at_path 1 t (16 :: replicate 12 0) [r] = 0).
  { intros r Hr. apply H0. lia. }
  destruct p as [|k [|j [|r [|q p]]]]; intros Hv Hne; try done.
  - cbn in Hv. destruct (decide (k = 0)) as [->|]; [done|]. destruct Hne. apply H0. lia.
  - destruct Hv as [Hr _]. rewrite at_path_cons, Hin in Hne by done. done.
  - destruct Hv as [-> _]. rewrite at_path_cons, at_path_cons, Hin in Hne by auto. done.
Qed.

Lemma only_root n : alloced 1 SmallDisk.g t n → n = 1.
Proof.
  intros [Hn Hty]. change (sb_ninodes SmallDisk.g) with 20 in Hn.
  assert (Hall : forallb (fun n => (n =? 1) || (dtype 1 SmallDisk.g t n =? 0)) (seqZ 0 20) = true) by (by vm_compute).
  rewrite forallb_forall in Hall. specialize (Hall n ltac:(apply list_elem_of_In, elem_of_seqZ; lia)).
  apply orb_prop in Hall as [H%Z.eqb_eq|H%Z.eqb_eq]; done.
Qed.

Lemma dino_root : dino 1 SmallDisk.g t 1 = mkinode 1 1 0 (initsleeplock "") 0 T_DIR 0 0 1 16 (16 :: replicate 12 0).
Proof. by vm_compute. Qed.

Lemma entries_root : entries 1 t (dino 1 SmallDisk.g t 1) = [mkdirent 1 (pad14 [46])].
Proof. by vm_compute. Qed.

Lemma alloced_root : alloced 1 SmallDisk.g t 1.
Proof. split; [cbn; lia | by vm_compute]. Qed.

Lemma tree_ok_t : tree_ok 1 SmallDisk.g t.
Proof.
  intros n ->%only_root. rewrite entries_root, dino_root. split; [|split; [done|]].
  - split; [|done | cbn; lia | by vm_compute |].
    + split; [done | | ].
      * intros p Hv Hne. rewrite (one_block p Hv Hne). cbn [addrs].
        change (at_path 1 t (16 :: replicate 12 0) [0]) with 16. split_and!; [by vm_compute.. | by vm_compute | apply not_elem_of_empty].
      * intros p q Hp Hq He Hne. rewrite (one_block p Hp Hne). symmetry. apply one_block; [done|]. cbn [addrs] in *. congruence.
    + intros bn H1 H2. change BSIZE with 512 in H2. cbn in H2. assert (bn = 0) as -> by lia. by vm_compute.
  - intros _. split; [by exists 1|]. intros e ->%list_elem_of_singleton _. apply alloced_root.
Qed.

Lemma coh_fs : coh (BlockStore0 := RefStore.store) 1 SmallDisk.g t None fs.
Proof.
  assert (Hs : ∀ i x, inodes fs !! i = Some x → x = spare) by (intros i x Hx; by apply lookup_replicate in Hx as [-> _]).
  split.
  - split; [done | done | by intros i x ->%Hs | by intros i x ->%Hs | by intros i j x y ->%Hs].
  - done.
  - split; [done|]. split; [apply SmallDisk.kready_kernel | intros h _; apply lookup_empty].
  - intros i x ->%Hs. split; [done | cbn; split; [done | by intros [=]] | done].
Qed.
Lemma small_refs_fs : small_refs (refs fs).
Proof.
  intros j v Hv. assert (refs fs = replicate 50 0) as E by reflexivity. rewrite E in Hv.
  apply lookup_replicate in Hv as [-> _]. unfold INT_MAX. lia.
Qed.

Lemma dots_ok : path_ok [47; 46; 47; 46; 0].
Proof. split; [repeat constructor; unfold is_byte; lia | set_solver]. Qed.

Lemma zeros_ok : Forall is_byte (replicate 14 0).
Proof. apply Forall_replicate. unfold is_byte. lia. Qed.
End RootDisk.

(** The path "/./." leads to the root. *)
Lemma namex_correct_witness :
  resolve 1 SmallDisk.g RootDisk.t 1 (elems [47; 46; 47; 46; 0]) = Some 1 ∧
  ∀ sleep_inode naps inode_chan,
  wp (namex (BlockStore0 := RefStore.store) (fun _ => None) sleep_inode naps inode_chan [47; 46; 47; 46; 0] false (replicate 14 0))
    (fun r s' => ∃ j, r.1 = Some j ∧ stands s' j 1) (fun w s' => w = Panic "iget: no inodes") RootDisk.fs.
Proof.
  assert (Hres : resolve 1 SmallDisk.g RootDisk.t 1 (elems [47; 46; 47; 46; 0]) = Some 1) by (by vm_compute).
  split; [exact Hres|]. intros sleep_inode naps inode_chan. pose proof (RefStore.laws) as Hlaws.
  eapply wp_mono; [apply (namex_correct (BlockStore0 := RefStore.store) (StoreLaws0 := Hlaws) 1 SmallDisk.g SmallDisk.geometry_g
    (fun _ => None) sleep_inode naps inode_chan RootDisk.t RootDisk.fs_ok_root eq_refl RootDisk.tree_ok_t (fun _ => None)
    RootDisk.fs [47; 46; 47; 46; 0] false (replicate 14 0) 1)| |done].
  - apply RootDisk.coh_fs.
  - apply RootDisk.small_refs_fs.
  - apply RootDisk.dots_ok.
  - reflexivity.
  - apply RootDisk.zeros_ok.
  - unfold starts. rewrite decide_True by done. split; [done|]. split; [done | apply RootDisk.alloced_root].
  - intros [r nm] s' [_ Ho]. unfold outcome in Ho. rewrite Hres in Ho. destruct Ho as (j & Hr & Hst & _). exists j. exact (conj Hr Hst).
Defined.
