(* ===== verification/FsDisk.v ===== *)
(** * The disk as a set of files (fs.h, fs.c)

    [disk_ok] is the invariant of the whole disk: every inode in use has a
    file in order, and no block belongs to two files.  [content] is a file as
    its readers see it.  A write to one file changes its [content] to
    [overwrite] and leaves every other file alone; the same holds for what the
    home blocks of a store say. *)
From stdpp Require Import gmap functions.
From S2P Require Import Prelude Spinlock Proc Sleep Sleeplock Bytes CString Block Store Fs FsAlloc FsFile FsRw FsInode FsPath.

Definition overwrite (c : list Z) (off : nat) (l : list Z) : list Z :=
  take off c ++ l ++ drop (off + length l) c.

Lemma overwrite_app c off l1 l2 : (off ≤ length c)%nat →
  overwrite (overwrite c off l1) (off + length l1) l2 = overwrite c off (l1 ++ l2).
Proof.
  intros Ho. unfold overwrite.
  assert (Hl : length (take off c ++ l1) = (off + length l1)%nat) by (rewrite length_app, length_take; lia).
  rewrite (assoc_L (++) (take off c) l1), take_app_length' by done. rewrite drop_app_ge by lia.
  rewrite Hl, length_app, drop_drop, <-!(assoc_L (++)). do 3 f_equal. f_equal. lia.
Qed.

Lemma length_overwrite c off l : (off ≤ length c)%nat → length (overwrite c off l) = Nat.max (length c) (off + length l).
Proof. intros Ho. unfold overwrite. rewrite !length_app, length_take, length_drop. lia. Qed.

Section disk.
Context (dev : Z) (g : superblock) (Hg : geometry g).
Implicit Types (t : tstate) (ad : list Z).

Abbreviation at_path := (at_path dev).
Abbreviation wf_file := (wf_file dev g).
Abbreviation used := (used dev g).
Abbreviation dino := (dino dev g).
Abbreviation alloced := (alloced dev g).

Definition content t (n : Z) : list Z :=
  fbyte dev t (addrs (dino t n)) <$> seqZ 0 (i_size (dino t n)).

Record disk_ok t : Prop := {
  dk_fs : fs_ok dev g t;
  dk_file : ∀ n, alloced t n → file_ok dev g t (dino t n);
  dk_sep : ∀ n m p q, alloced t n → alloced t m → n ≠ m → valid p → valid q →
    at_path t (addrs (dino t n)) p ≠ 0 → at_path t (addrs (dino t n)) p ≠ at_path t (addrs (dino t m)) q
}.

(** ** Files whose blocks did not change *)
Definition agree t t' ad : Prop :=
  ∀ p, valid p → at_path t ad p ≠ 0 → tv t' (dev, at_path t ad p) = tv t (dev, at_path t ad p).

Lemma at_path_agree t t' ad p : agree t t' ad → valid p → at_path t' ad p = at_path t ad p.
Proof.
  intros Ha. induction p as [|j p IH]; [done|]. intros Hv. destruct (decide (p = [])) as [->|Hp]; [done|].
  destruct (valid_tail j p Hp Hv) as (Hvp & _). rewrite !at_path_cons by done. rewrite (IH Hvp).
  destruct (Z.eqb_spec (at_path t ad p) 0) as [|Hn]; [done|]. by rewrite Ha.
Qed.

Lemma fbyte_agree t t' ad o : agree t t' ad → 0 ≤ o < MAXBYTES → fbyte dev t' ad o = fbyte dev t ad o.
Proof.
  intros Ha Ho. unfold fbyte. destruct (leaf_valid (o / BSIZE)) as [Hv _]; [by apply bn_range|].
  rewrite (at_path_agree t t' ad _ Ha Hv). destruct (Z.eqb_spec (at_path t ad (leaf (o / BSIZE))) 0); [done|]. by rewrite Ha.
Qed.

Lemma file_ok_agree t t' x :
  agree t t' (addrs x) → (∀ b, 0 ≤ b → used t b = true → used t' b = true) → tstale t' ⊆ tstale t →
  file_ok dev g t x → file_ok dev g t' x.
Proof.
  intros Ha Hu Hs [[W1 W2 W3] F2 F3 F4 F5]. pose proof (fun p => at_path_agree t t' _ p Ha) as Hat.
  pose proof (geo_bounds g Hg) as Hgeo. unfold datastart in *.
  split; [split | done | done | done |].
  - done.
  - intros p Hv. rewrite Hat by done. intros Hn. destruct (W2 p Hv Hn) as (H1 & H2 & H3).
    split; [done|]. split; [apply Hu; [unfold datastart in *; lia | done] | set_solver].
  - intros p q Hp Hq. rewrite !Hat by done. by apply W3.
  - intros bn H1 H2. rewrite Hat; [by apply F5|]. apply leaf_valid. unfold MAXBYTES in F4.
    change MAXFILE with 16523 in *. change BSIZE with 512 in *. lia.
Qed.

Lemma content_agree t t' n :
  file_ok dev g t (dino t n) → dino t' n = dino t n → agree t t' (addrs (dino t n)) → content t' n = content t n.
Proof.
  intros F Hd Ha. unfold content. rewrite Hd. apply list_fmap_ext. intros k o [-> Ho]%lookup_seqZ.
  apply fbyte_agree; [done|]. pose proof (f_size _ _ _ _ F). lia.
Qed.

(** ** Inodes as the disk has them *)
Lemma alloced_dino t t' n : dino t' n = dino t n → alloced t' n ↔ alloced t n.
Proof. intros Hd. unfold FsPath.alloced. apply (f_equal i_type) in Hd. change (dtype dev g t' n = dtype dev g t n) in Hd. by rewrite Hd. Qed.

Lemma file_ok_dino t x : synced dev g t x → i_dev x = dev → file_ok dev g t x ↔ file_ok dev g t (dino t (inum x)).
Proof.
  intros Hs Hd. destruct (synced_fields dev g t x Hs) as (_ & E2 & _ & E4).
  split; intros [H1 H2 H3 H4 H5]; (split; [congruence | done | done | congruence|]); [by rewrite <-E2, <-E4 | by rewrite E2, E4].
Qed.

Lemma content_synced t x : synced dev g t x → content t (inum x) = fbyte dev t (addrs x) <$> seqZ 0 (i_size x).
Proof. intros Hs. destruct (synced_fields dev g t x Hs) as (_ & E2 & _ & E4). unfold content. by rewrite <-E2, <-E4. Qed.

(** ** A write to one file *)
Section updated.
Context (t t' : tstate) (x x' : inode) (off : Z) (l : list Z).
Context (D : disk_ok t) (Ha : alloced t (inum x)) (Hdev : i_dev x = dev) (Hs : synced dev g t x).
Context (U : updated dev g t x t' x' off l).

Lemma updated_same : inum x' = inum x ∧ i_dev x' = dev ∧ i_type x' = i_type x ∧ nlink x' = nlink x ∧
  i_size x' = Z.max (i_size x) (off + Z.of_nat (length l)).
Proof. rewrite (u_inode _ _ _ _ _ _ _ _ U). by rewrite <-Hdev. Qed.

Lemma updated_dino m : 0 ≤ m < sb_ninodes g → m ≠ inum x → dino t' m = dino t m.
Proof. intros Hm Hne. exact (u_others _ _ _ _ _ _ _ _ U (blank dev m 0) Hm Hne). Qed.

Lemma updated_agree m : alloced t m → m ≠ inum x → agree t t' (addrs (dino t m)).
Proof.
  intros Hm Hne p Hp Hn. destruct (synced_fields dev g t x Hs) as (_ & _ & _ & E4).
  pose proof (dk_file _ D m Hm) as [W _ _ _ _]. destruct (wf_own _ _ _ _ W p Hp Hn) as (Hr & Hu & _).
  pose proof (geo_bounds g Hg) as Hgeo. pose proof (iblock_range g Hg (inum x) ltac:(destruct Ha; lia)) as [_ Hib].
  unfold datastart in Hr. pose proof (dk_sep _ D m (inum x) p) as Hsep.
  set (a := at_path t (addrs (dino t m)) p) in *. clearbody a. apply (u_frame _ _ _ _ _ _ _ _ U).
  - intros [= E]. lia.
  - intros [= E]. lia.
  - intros _. split; [lia | done].
  - intros q Hq Hq0 [= E]. rewrite E4 in E. exact (Hsep q Hm Ha Hne Hp Hq Hn (eq_sym E)).
Qed.

Lemma updated_alloced m : alloced t' m ↔ alloced t m.
Proof.
  destruct (decide (m = inum x)) as [->|Hne].
  - destruct updated_same as (E1 & _ & E3 & _). pose proof (u_sync _ _ _ _ _ _ _ _ U Hs) as Hs'.
    destruct (synced_fields dev g t x Hs) as (T1 & _), (synced_fields dev g t' x' Hs') as (T2 & _).
    unfold FsPath.alloced. by rewrite <-T1, <-E1, <-T2, E3.
  - split; intros [Hr Hty]; (apply (alloced_dino t t'); [apply updated_dino; [lia | done]|]); by split.
Qed.

Lemma updated_content : 0 ≤ off ≤ i_size x → i_size x ≤ MAXBYTES → off + Z.of_nat (length l) ≤ MAXBYTES →
  content t' (inum x) = overwrite (content t (inum x)) (Z.to_nat off) l.
Proof.
  intros Hoff Hsz Hmax. destruct updated_same as (E1 & _ & _ & _ & E5).
  pose proof (content_synced t' x' (u_sync _ _ _ _ _ _ _ _ U Hs)) as C'. rewrite E1 in C'. rewrite C', (content_synced t x Hs).
  set (c := fbyte dev t (addrs x) <$> seqZ 0 (i_size x)).
  assert (Hlc : length c = Z.to_nat (i_size x)) by (unfold c; by rewrite length_fmap, length_seqZ).
  assert (Hlt : length (take (Z.to_nat off) c) = Z.to_nat off) by (rewrite length_take; lia).
  assert (Hc : ∀ k, (k < length c)%nat → c !! k = Some (fbyte dev t (addrs x) (Z.of_nat k))).
  { intros k Hk. unfold c. by rewrite list_lookup_fmap, lookup_seqZ_lt by lia. }
  unfold overwrite. apply list_eq. intros k. rewrite list_lookup_fmap.
  assert (Hbyte : Z.of_nat k < i_size x' → fbyte dev t' (addrs x') <$> seqZ 0 (i_size x') !! k = Some (
    if decide (off ≤ Z.of_nat k < off + Z.of_nat (length l)) then default 0 (l !! Z.to_nat (Z.of_nat k - off)) else fbyte dev t (addrs x) (Z.of_nat k))).
  { intros Hk. rewrite lookup_seqZ_lt by lia. cbn. by rewrite (u_bytes _ _ _ _ _ _ _ _ U) by lia. }
  destruct (decide (k < Z.to_nat off)%nat) as [H1|H1].
  { rewrite lookup_app_l, lookup_take_lt, Hc, Hbyte by lia. by rewrite decide_False by lia. }
  rewrite lookup_app_r, Hlt by lia. destruct (decide (k - Z.to_nat off < length l)%nat) as [H2|H2].
  { rewrite lookup_app_l, Hbyte by lia. rewrite decide_True by lia.
    replace (Z.to_nat (Z.of_nat k - off)) with (k - Z.to_nat off)%nat by lia.
    destruct (lookup_lt_is_Some_2 l (k - Z.to_nat off)) as [v Hv]; [lia|]. by rewrite Hv. }
  rewrite lookup_app_r, lookup_drop by lia.
  replace (Z.to_nat off + length l + (k - Z.to_nat off - length l))%nat with k by lia.
  destruct (decide (Z.of_nat k < i_size x')) as [Hk|Hk].
  - rewrite Hbyte, Hc by lia. by rewrite decide_False by lia.
  - rewrite lookup_seqZ_ge by lia. symmetry. apply lookup_ge_None. lia.
Qed.

Lemma updated_disk : disk_ok t'.
Proof.
  destruct updated_same as (E1 & E2 & E3 & _). pose proof (u_sync _ _ _ _ _ _ _ _ U Hs) as Hs'.
  destruct (synced_fields dev g t x Hs) as (_ & _ & _ & E4), (synced_fields dev g t' x' Hs') as (_ & _ & _ & E4').
  rewrite E1 in E4'.
  assert (Hm : ∀ m, alloced t m → m ≠ inum x → dino t' m = dino t m ∧ ∀ p, valid p → at_path t' (addrs (dino t m)) p = at_path t (addrs (dino t m)) p).
  { intros m Hm Hne. split; [apply updated_dino; [destruct Hm; lia | done]|]. intros p. by apply at_path_agree, updated_agree. }
  assert (Hown : ∀ m p q, alloced t m → m ≠ inum x → valid p → valid q → at_path t' (addrs x') p ≠ 0 →
    at_path t' (addrs x') p ≠ at_path t (addrs (dino t m)) q).
  { intros m p q Hma Hne Hp Hq Hn Heq. destruct (decide (at_path t (addrs x) p = 0)) as [H0|H0].
    - destruct (u_new _ _ _ _ _ _ _ _ U p Hp H0 Hn) as [_ Hf]. rewrite Heq in Hf, Hn.
      destruct (wf_own _ _ _ _ (f_wf _ _ _ _ (dk_file _ D m Hma)) q Hq Hn) as (_ & Hu & _). congruence.
    - rewrite (u_keep _ _ _ _ _ _ _ _ U p Hp H0) in Heq. rewrite E4 in Heq, H0.
      by apply (dk_sep _ D (inum x) m p q). }
  split; [apply U | |].
  - intros m Hma%updated_alloced. destruct (decide (m = inum x)) as [->|Hne].
    + rewrite <-E1. apply (file_ok_dino t' x' Hs' E2), U.
    + destruct (Hm m Hma Hne) as [-> _]. apply (file_ok_agree t t'); [by apply updated_agree | apply U | apply U | by apply D].
  - intros m k p q Hma%updated_alloced Hk%updated_alloced Hne Hp Hq.
    destruct (decide (m = inum x)) as [->|Hmx]; [|destruct (decide (k = inum x)) as [->|Hkx]].
    + destruct (Hm k Hk ltac:(done)) as [-> Hat]. rewrite <-E4', Hat by done. by apply Hown.
    + destruct (Hm m Hma Hne) as [-> Hat]. rewrite <-E4', Hat by done. intros Hn Heq.
      apply (Hown m q p); [done | done | done | done | congruence | done].
    + destruct (Hm m Hma Hmx) as [-> Hat], (Hm k Hk Hkx) as [-> Hat']. rewrite Hat, Hat' by done. by apply D.
Qed.

Lemma updated_others m : alloced t m → m ≠ inum x → dino t' m = dino t m ∧ content t' m = content t m.
Proof.
  intros Hm Hne. assert (Hd : dino t' m = dino t m) by (apply updated_dino; [destruct Hm; lia | done]).
  split; [done|]. by apply content_agree; [apply D | | apply updated_agree].
Qed.
End updated.

(** ** The same home blocks *)
Section home.
Context (home : baddr → Prop) (Hhome : ∀ b, b = 1 ∨ sb_inodestart g ≤ b → home (dev, b)).
Context (t t' : tstate) (Hv : ∀ a, home a → tv t' a = tv t a) (Hb : ∀ a, is_block (tv t' a)).
Context (Hst : tstale t' = tstale t) (Hth : th t' = ∅).

Lemma home_used b : used t' b = used t b.
Proof.
  unfold FsAlloc.used. rewrite Hv; [done|]. apply Hhome. pose proof (geo_bounds g Hg). lia.
Qed.

Lemma home_inode y : i_dev y = dev → 0 ≤ inum y < sb_ninodes g → tv t' (iblock dev g y) = tv t (iblock dev g y).
Proof.
  intros Hy Hn. apply Hv, Hhome. right. destruct (iblock_range g Hg (inum y) Hn) as [-> _].
  assert (0 ≤ inum y / IPB) by (apply Z.div_pos; [lia | done]). lia.
Qed.

Lemma home_fs_ok : fs_ok dev g t → fs_ok dev g t'.
Proof.
  intros [H1 H2 H3 H4 H5]. split; [done | | by rewrite Hst | |].
  - rewrite Hv; [done|]. apply Hhome. by left.
  - intros b Hr. rewrite home_used. auto.
  - intros h b. by rewrite Hth, lookup_empty.
Qed.

Lemma home_dino m : 0 ≤ m < sb_ninodes g → dino t' m = dino t m.
Proof. intros Hm. unfold FsPath.dino. f_equal. by apply (home_inode (blank dev m 0)). Qed.

Lemma home_agree ad : wf_file t ad → agree t t' ad.
Proof.
  intros W p Hp Hn. apply Hv, Hhome. right. destruct (wf_own _ _ _ _ W p Hp Hn) as ([Hr _] & _).
  pose proof (geo_bounds g Hg). unfold datastart in Hr. lia.
Qed.

Lemma home_file x : file_ok dev g t x → file_ok dev g t' x.
Proof.
  intros F. apply (file_ok_agree t t'); [apply home_agree, F | intros b _; by rewrite home_used | by rewrite Hst | done].
Qed.

Lemma home_alloced m : alloced t' m ↔ alloced t m.
Proof. split; intros [Hr Hty]; (apply (alloced_dino t t'); [apply home_dino; lia|]); by split. Qed.

Lemma home_disk : disk_ok t → disk_ok t'.
Proof.
  intros D. split; [apply home_fs_ok, D | |].
  - intros n Hn%home_alloced. rewrite home_dino by (destruct Hn; lia). by apply home_file, D.
  - intros n m p q Hn%home_alloced Hm%home_alloced Hne Hp Hq. rewrite !home_dino by (destruct Hn, Hm; lia).
    rewrite !(at_path_agree t t') by (done || (apply home_agree, D; done)). by apply D.
Qed.

Lemma home_content m : disk_ok t → alloced t m → content t' m = content t m.
Proof.
  intros D Hm. apply content_agree; [by apply D | apply home_dino; destruct Hm; lia | apply home_agree, D, Hm].
Qed.

Lemma home_synced x : i_dev x = dev → 0 ≤ inum x < sb_ninodes g → synced dev g t x → synced dev g t' x.
Proof. intros Hd Hx. unfold synced. by rewrite home_inode. Qed.
End home.
End disk.
