(* ===== verification/File.v ===== *)
(** * Open files (file.c)

    A [file] is an entry of the system-wide table; the descriptors of the
    processes are indices into it.  Its reference count is guarded by the lock
    of the table; the data comes from a pipe or from an inode.

    [filewrite] cuts a write into chunks, each of which is one transaction.
    The theorems are stated on [content]: a write returns and replaces exactly
    the bytes it was given; a loss of power during it leaves, after recovery,
    the bytes of some number of whole chunks; every other file is untouched;
    and no chunk is too big for the log. *)
From stdpp Require Import gmap functions.
From S2P Require Import Prelude Spinlock Proc Sleep Sleeplock Bytes CString Pipe Block Log Store Fs FsAlloc FsFile FsCost FsRw FsInode FsPath FsDisk.

Definition NFILE : nat := 100.

Inductive filetype := FD_NONE | FD_PIPE | FD_INODE.
#[export] Instance filetype_eq_dec : EqDecision filetype.
Proof. solve_decision. Defined.

Record file := mkfile {
  f_type : filetype;
  f_ref : Z;                     (* int *)
  readable : Z;                  (* char *)
  writable : Z;                  (* char *)
  f_pipe : option nat;           (* struct pipe* *)
  f_ip : option nat;             (* struct inode* *)
  f_off : Z                      (* uint *)
}.
#[export] Instance file_eta : EtaRecord file := fun f =>
  mkfile (f_type f) (f_ref f) (readable f) (writable f) (f_pipe f) (f_ip f) (f_off f).

(** [ftable], the pipes, and the file system below. *)
Record fts (T : Type) := mkfts {
  fs : fsys T;
  ft_lock : spinlock;
  ftable : list file;
  pipes : gmap nat pipe
}.
Arguments mkfts {T}.
Arguments fs {T}.
Arguments ft_lock {T}.
Arguments ftable {T}.
Arguments pipes {T}.
#[export] Instance fts_eta T : EtaRecord (fts T) := fun s =>
  mkfts (fs s) (ft_lock s) (ftable s) (pipes s).

Section code.
Context {T : Type} `{!BlockStore T} `{!Transactions T}.
Abbreviation FT := (M (fts T)).

(** The drivers, and the sleeping on the locks of inodes. *)
Context (dev_read : Z → option (nat → Z → M (fsys T) (Z * list Z))).
Context (dev_write : Z → option (nat → list Z → Z → M (fsys T) Z)).
Context (sleep_inode : nat → SL unit) (naps : nat) (inode_chan : nat → chan_t).
(** Of pipe [p]: its lock, [&p->nread], [&p->nwrite], the sleeps on them, the
    [kfree] of its page. *)
Context (plock : nat → nat) (ch_nread ch_nwrite : nat → chan_t).
Context (sleep_nread sleep_nwrite kfree_pipe : nat → PM unit).

Definition inF {A} (m : M (fsys T) A) : FT A := zoom fs (fun x s => s <| fs := x |>) m.
Definition inT {A} (m : M T A) : FT A := inF (inS m).
Definition with_ft_lock {A} (m : M (cpu * spinlock) A) : FT A :=
  zoom (fun s => (this_cpu (kern (fs s)), ft_lock s))
       (fun p s => s <| fs := put_kern ((kern (fs s)) <| this_cpu := p.1 |>) (fs s) |> <| ft_lock := p.2 |>) m.
Definition with_pipe {A} (p : nat) (m : PM A) : FT A :=
  x ← gets (fun s => pipes s !! p);
  x ← deref x;
  zoom (fun s => mkpst (kern (fs s)) x)
       (fun q s => s <| fs := put_kern (pk q) (fs s) |> <| pipes ::= <[p := pp q]> |>) m.

Definition fget (f : nat) : FT file := l ← gets ftable; deref (l !! f).
Definition fupd (f : nat) (g : file → file) : FT unit :=
  x ← fget f; modify (fun s => s <| ftable ::= <[f := g x]> |>).

Definition filealloc : FT (option nat) :=
  with_ft_lock acquire;;
  r ← for_list (seq 0 NFILE) (fun f =>
    x ← fget f;
    if f_ref x =? 0 then
      fupd f (fun x => x <| f_ref := 1 |>);;
      with_ft_lock release;;
      mret (Some f)
    else mret None);
  match r with
  | Some f => mret (Some f)
  | None => with_ft_lock release;; mret None
  end.

Definition filedup (f : nat) : FT nat :=
  with_ft_lock acquire;;
  x ← fget f;
  if f_ref x <? 1 then panic "filedup" else
  fupd f (fun x => x <| f_ref := i32 (f_ref x + 1) |>);;
  with_ft_lock release;;
  mret f.

Definition fileclose (f : nat) : FT unit :=
  with_ft_lock acquire;;
  x ← fget f;
  if f_ref x <? 1 then panic "fileclose" else
  fupd f (fun x => x <| f_ref := i32 (f_ref x - 1) |>);;
  ff ← fget f;
  if f_ref ff >? 0 then with_ft_lock release else
  fupd f (fun x => x <| f_ref := 0 |> <| f_type := FD_NONE |>);;
  with_ft_lock release;;
  match f_type ff with
  | FD_PIPE =>
      p ← deref (f_pipe ff);
      with_pipe p (pipeclose (plock p) (ch_nread p) (ch_nwrite p) (kfree_pipe p) (negb (writable ff =? 0)))
  | FD_INODE =>
      inT begin_op;;
      i ← deref (f_ip ff);
      inF (iput i);;
      inT end_op
  | FD_NONE => mret tt
  end.

(** The return value and [*st]. *)
Definition filestat (f : nat) : FT (Z * option stat) :=
  x ← fget f;
  match f_type x with
  | FD_INODE =>
      i ← deref (f_ip x);
      inF (ilock sleep_inode naps i);;
      st ← inF (stati i);
      inF (iunlock inode_chan i);;
      mret (0, Some st)
  | _ => mret (-1, None)
  end.

(** The return value and the bytes stored at [addr]. *)
Definition fileread (fuel : nat) (f : nat) (n : Z) : FT (Z * list Z) :=
  x ← fget f;
  if readable x =? 0 then mret (-1, []) else
  match f_type x with
  | FD_PIPE =>
      p ← deref (f_pipe x);
      with_pipe p (piperead (plock p) (ch_nwrite p) (sleep_nread p) fuel n)
  | FD_INODE =>
      i ← deref (f_ip x);
      inF (ilock sleep_inode naps i);;
      x ← fget f;
      r ← inF (readi dev_read i (f_off x) n);
      when (r.1 >? 0) (fupd f (fun x => x <| f_off := u32 (f_off x + r.1) |>));;
      inF (iunlock inode_chan i);;
      mret r
  | FD_NONE => panic "fileread"
  end.

Definition max_chunk : Z := (LOGSIZE - 1 - 1 - 2) / 2 * 512.

(** The loop of [filewrite] on an inode: [i] bytes are written. *)
Fixpoint filewrite_loop (fuel : nat) (f : nat) (addr : list Z) (i n : Z) : FT Z :=
  if i <? n then
    match fuel with
    | O => stop_with NoFuel
    | S fuel =>
        let n1 := if n - i >? max_chunk then max_chunk else n - i in
        inT begin_op;;
        x ← fget f;
        ip ← deref (f_ip x);
        inF (ilock sleep_inode naps ip);;
        x ← fget f;
        r ← inF (writei dev_write ip (drop (Z.to_nat i) addr) (f_off x) n1);
        when (r >? 0) (fupd f (fun x => x <| f_off := u32 (f_off x + r) |>));;
        inF (iunlock inode_chan ip);;
        inT end_op;;
        if r <? 0 then mret i
        else if negb (r =? n1) then panic "short filewrite"
        else filewrite_loop fuel f addr (i + r) n
    end
  else mret i.

(** [fuel] bounds how often a writer of a pipe sleeps. *)
Definition filewrite (fuel : nat) (f : nat) (addr : list Z) (n : Z) : FT Z :=
  x ← fget f;
  if writable x =? 0 then mret (-1) else
  match f_type x with
  | FD_PIPE =>
      p ← deref (f_pipe x);
      with_pipe p (acquire_pipe (plock p);;
        pipewrite_loop (plock p) (ch_nread p) (sleep_nwrite p) fuel n (take (Z.to_nat n) addr))
  | FD_INODE =>
      i ← filewrite_loop (Z.to_nat n) f addr 0 n;
      mret (if i =? n then n else -1)
  | FD_NONE => panic "filewrite"
  end.
End code.
